(** * SphinxReport.DataTree: nested-dictionary trees and their reshaping

    A shallow embedding of [SphinxReport/DataTree.py]: the [DataTree]
    class (getLeaf, setLeaf) and the module-level functions working on
    plain nested ordered dictionaries (getPaths, getNodes, getDepths,
    getLeaf, setLeaf, getPrefixes, removeLevel, swop, removeEmptyLeaves,
    count_levels, tree2table, prune and the first half of asDataFrame).

    Python objects are embedded as a tagged tree; an ordered dictionary is
    an association list in insertion order.  Exceptions are explicit
    results.  In-place mutation is state passing: a function that mutates
    its argument returns the mutated object. *)

From Stdlib Require Import ZArith List String Ascii Bool Arith Lia Permutation.
From Stdlib Require Import DecimalString Sorted.
Import ListNotations.

Local Open Scope list_scope.
Set Warnings "-register-all".

(** ** Python values *)

(** Dictionary keys: strings, numbers and tuples of keys. *)
Inductive key : Type :=
| KStr (s : string)
| KInt (z : Z)
| KTuple (parts : list key).

(** A pandas DataFrame or Series (the two are not told apart).  The
    code of this module never looks inside one: it tests [isinstance],
    [len(work)] and [work.empty]. *)
Record frame : Type := mkFrame { frame_rows : nat; frame_cols : nat }.

Inductive value : Type :=
| VNone
| VInt (z : Z)
| VStr (s : string)
| VList (xs : list value)
| VTuple (xs : list value)
| VFrame (f : frame)
| VDict (items : list (key * value)).

Definition path := list key.

(** Exceptions the code raises or lets through. *)
Inductive exn : Type :=
| KeyError
| TypeError
| IndexError
| AttributeError
| ValueError (msg : string)
| NotImplementedError (msg : string).

(** The outcome of a call.  [Outside] marks a run that hands a pandas
    object (or a container to Python's [repr]) to code that is not part of
    this module without a guard of its own; what happens there is not
    modelled. *)
Inductive result (A : Type) : Type :=
| Ok (a : A)
| Raise (e : exn)
| Outside.

Arguments Ok {A} a.
Arguments Raise {A} e.
Arguments Outside {A}.

Definition bind {A B : Type} (r : result A) (f : A -> result B) : result B :=
  match r with
  | Ok a => f a
  | Raise e => Raise e
  | Outside => Outside
  end.

Declare Scope py_scope.
Delimit Scope py_scope with py.
Notation "x <- c ;; k" := (bind c (fun x => k))
  (at level 61, c at next level, right associativity) : py_scope.
Notation "' p <- c ;; k" := (bind c (fun x => let p := x in k))
  (at level 61, p pattern, c at next level, right associativity) : py_scope.
Local Open Scope py_scope.

(** ** Induction principles for the nested types *)

Section key_induction.
Variable P : key -> Prop.
Hypothesis HStr : forall s, P (KStr s).
Hypothesis HInt : forall z, P (KInt z).
Hypothesis HTuple : forall parts, Forall P parts -> P (KTuple parts).

Fixpoint key_ind' (k : key) : P k :=
  match k with
  | KStr s => HStr s
  | KInt z => HInt z
  | KTuple parts =>
      HTuple parts
        ((fix go (l : list key) : Forall P l :=
            match l with
            | [] => Forall_nil P
            | x :: r => Forall_cons x (key_ind' x) (go r)
            end) parts)
  end.
End key_induction.

Section value_induction.
Variable P : value -> Prop.
Hypothesis HNone : P VNone.
Hypothesis HInt : forall z, P (VInt z).
Hypothesis HStr : forall s, P (VStr s).
Hypothesis HList : forall xs, Forall P xs -> P (VList xs).
Hypothesis HTuple : forall xs, Forall P xs -> P (VTuple xs).
Hypothesis HFrame : forall f, P (VFrame f).
Hypothesis HDict : forall items, Forall (fun kv => P (snd kv)) items -> P (VDict items).

Fixpoint value_ind' (v : value) : P v :=
  match v with
  | VNone => HNone
  | VInt z => HInt z
  | VStr s => HStr s
  | VList xs =>
      HList xs
        ((fix go (l : list value) : Forall P l :=
            match l with
            | [] => Forall_nil P
            | x :: r => Forall_cons x (value_ind' x) (go r)
            end) xs)
  | VTuple xs =>
      HTuple xs
        ((fix go (l : list value) : Forall P l :=
            match l with
            | [] => Forall_nil P
            | x :: r => Forall_cons x (value_ind' x) (go r)
            end) xs)
  | VFrame f => HFrame f
  | VDict items =>
      HDict items
        ((fix go (l : list (key * value)) : Forall (fun kv => P (snd kv)) l :=
            match l with
            | [] => Forall_nil _
            | kv :: r => Forall_cons kv (value_ind' (snd kv)) (go r)
            end) items)
  end.
End value_induction.

(** ** Python's object protocol on these values *)

Fixpoint key_eqb (a b : key) : bool :=
  match a, b with
  | KStr s, KStr t => String.eqb s t
  | KInt x, KInt y => Z.eqb x y
  | KTuple xs, KTuple ys =>
      (fix go (l r : list key) : bool :=
         match l, r with
         | [], [] => true
         | x :: l', y :: r' => key_eqb x y && go l' r'
         | _, _ => false
         end) xs ys
  | _, _ => false
  end.

(** [d[k]] on a dictionary, [None] of option standing for KeyError. *)
Fixpoint dict_get (items : list (key * value)) (k : key) : option value :=
  match items with
  | [] => None
  | (k', v) :: rest => if key_eqb k k' then Some v else dict_get rest k
  end.

(** [d[k] = v]: an existing key keeps its position, a new one goes last. *)
Fixpoint dict_set (items : list (key * value)) (k : key) (v : value)
  : list (key * value) :=
  match items with
  | [] => [(k, v)]
  | (k', v') :: rest =>
      if key_eqb k k' then (k', v) :: rest else (k', v') :: dict_set rest k v
  end.

(** [del d[k]]. *)
Fixpoint dict_del (items : list (key * value)) (k : key)
  : option (list (key * value)) :=
  match items with
  | [] => None
  | (k', v') :: rest =>
      if key_eqb k k' then Some rest
      else match dict_del rest k with
           | Some rest' => Some ((k', v') :: rest')
           | None => None
           end
  end.

Definition dict_has (items : list (key * value)) (k : key) : bool :=
  existsb (fun kv => key_eqb k (fst kv)) items.

(** Position named by a Python index into a sequence of length [n]. *)
Definition seq_index (n : nat) (z : Z) : option nat :=
  if (0 <=? z)%Z then
    if (z <? Z.of_nat n)%Z then Some (Z.to_nat z) else None
  else if (0 <=? Z.of_nat n + z)%Z then Some (Z.to_nat (Z.of_nat n + z))
  else None.

Fixpoint list_update {A : Type} (l : list A) (i : nat) (a : A) : list A :=
  match l, i with
  | [], _ => []
  | _ :: r, O => a :: r
  | x :: r, S j => x :: list_update r j a
  end.

Fixpoint string_nth (s : string) (i : nat) : option ascii :=
  match s, i with
  | EmptyString, _ => None
  | String c _, O => Some c
  | String _ r, S j => string_nth r j
  end.

(** [w[k]]. *)
Definition py_getitem (w : value) (k : key) : result value :=
  match w with
  | VDict items =>
      match dict_get items k with
      | Some v => Ok v
      | None => Raise KeyError
      end
  | VList xs | VTuple xs =>
      match k with
      | KInt z =>
          match seq_index (List.length xs) z with
          | Some i => match nth_error xs i with
                      | Some v => Ok v
                      | None => Raise IndexError
                      end
          | None => Raise IndexError
          end
      | _ => Raise TypeError
      end
  | VStr s =>
      match k with
      | KInt z =>
          match seq_index (String.length s) z with
          | Some i => match string_nth s i with
                      | Some c => Ok (VStr (String c EmptyString))
                      | None => Raise IndexError
                      end
          | None => Raise IndexError
          end
      | _ => Raise TypeError
      end
  | VNone | VInt _ => Raise TypeError
  | VFrame _ => Outside
  end.

(** [w[k] = v], returning the mutated [w]. *)
Definition py_setitem (w : value) (k : key) (v : value) : result value :=
  match w with
  | VDict items => Ok (VDict (dict_set items k v))
  | VList xs =>
      match k with
      | KInt z =>
          match seq_index (List.length xs) z with
          | Some i => Ok (VList (list_update xs i v))
          | None => Raise IndexError
          end
      | _ => Raise TypeError
      end
  | VTuple _ | VStr _ | VNone | VInt _ => Raise TypeError
  | VFrame _ => Outside
  end.

(** [del w[k]], returning the mutated [w]. *)
Definition py_delitem (w : value) (k : key) : result value :=
  match w with
  | VDict items =>
      match dict_del items k with
      | Some items' => Ok (VDict items')
      | None => Raise KeyError
      end
  | VList xs =>
      match k with
      | KInt z =>
          match seq_index (List.length xs) z with
          | Some i => Ok (VList (firstn i xs ++ skipn (S i) xs))
          | None => Raise IndexError
          end
      | _ => Raise TypeError
      end
  | VTuple _ | VStr _ | VNone | VInt _ => Raise TypeError
  | VFrame _ => Outside
  end.

(** [len(w)]. *)
Definition py_len (w : value) : result nat :=
  match w with
  | VDict items => Ok (List.length items)
  | VList xs | VTuple xs => Ok (List.length xs)
  | VStr s => Ok (String.length s)
  | VNone | VInt _ => Raise TypeError
  | VFrame _ => Outside
  end.

(** [hasattr(w, "keys")]. *)
Definition has_keys (w : value) : bool :=
  match w with
  | VDict _ | VFrame _ => true
  | _ => false
  end.

(** [isinstance(w, dict)]; an OrderedDict is a dict. *)
Definition is_dict (w : value) : bool :=
  match w with
  | VDict _ => true
  | _ => false
  end.

(** [w.items()]. *)
Definition py_items (w : value) : result (list (key * value)) :=
  match w with
  | VDict items => Ok items
  | VFrame _ => Outside
  | _ => Raise AttributeError
  end.

(** [w.keys()]. *)
Definition py_keys (w : value) : result (list key) :=
  items <- py_items w ;; Ok (map fst items).

(** [w.values()]. *)
Definition py_values (w : value) : result (list value) :=
  items <- py_items w ;; Ok (map snd items).

(** [w == None] used as a condition. *)
Definition py_eq_none (w : value) : result bool :=
  match w with
  | VNone => Ok true
  | VFrame _ => Outside
  | _ => Ok false
  end.

(** Truth value of [w], as in [if not w]. *)
Definition py_truth (w : value) : result bool :=
  match w with
  | VNone => Ok false
  | VInt z => Ok (negb (z =? 0)%Z)
  | VStr s => Ok (negb (String.eqb s EmptyString))
  | VList xs | VTuple xs => Ok (negb (Nat.eqb (List.length xs) 0))
  | VDict items => Ok (negb (Nat.eqb (List.length items) 0))
  | VFrame _ => Outside
  end.

(** Modelled from the spec: [Utils.ContainerTypes] is defined in
    SphinxReport/Utils.py; a composite key or cell is a tuple or a list.
    [type(w) in Utils.ContainerTypes] for a value; for a key the test is
    a match on [KTuple]. *)
Definition is_container_value (w : value) : bool :=
  match w with
  | VList _ | VTuple _ => true
  | _ => false
  end.

(** A key seen as a value (a key stored in a table cell). *)
Fixpoint value_of_key (k : key) : value :=
  match k with
  | KStr s => VStr s
  | KInt z => VInt z
  | KTuple parts => VTuple (map value_of_key parts)
  end.

(** [k == v] for a key and a value, as a condition. *)
Fixpoint key_eq_value (k : key) (v : value) : result bool :=
  match k, v with
  | KStr s, VStr t => Ok (String.eqb s t)
  | KInt x, VInt y => Ok (Z.eqb x y)
  | KTuple ks, VTuple vs =>
      (fix go (l : list key) (r : list value) : result bool :=
         match l, r with
         | [], [] => Ok true
         | x :: l', y :: r' =>
             b <- key_eq_value x y ;;
             if b then go l' r' else Ok false
         | _, _ => Ok false
         end) ks vs
  | _, VFrame _ => Outside
  | _, _ => Ok false
  end.

Fixpoint is_prefix_string (p s : string) : bool :=
  match p, s with
  | EmptyString, _ => true
  | String a p', String b s' => Ascii.eqb a b && is_prefix_string p' s'
  | String _ _, EmptyString => false
  end.

Fixpoint is_substring (p s : string) : bool :=
  is_prefix_string p s ||
  match s with
  | EmptyString => false
  | String _ s' => is_substring p s'
  end.

Fixpoint seq_contains (k : key) (xs : list value) : result bool :=
  match xs with
  | [] => Ok false
  | x :: rest =>
      b <- key_eq_value k x ;;
      if b then Ok true else seq_contains k rest
  end.

(** [k in w]. *)
Definition py_contains (k : key) (w : value) : result bool :=
  match w with
  | VDict items => Ok (dict_has items k)
  | VList xs | VTuple xs => seq_contains k xs
  | VStr s =>
      match k with
      | KStr t => Ok (is_substring t s)
      | _ => Raise TypeError
      end
  | VNone | VInt _ => Raise TypeError
  | VFrame _ => Outside
  end.

(** Decimal rendering, [%i] and [str] of an integer. *)
Definition string_of_Z (z : Z) : string := NilZero.string_of_int (Z.to_int z).
Definition string_of_nat (n : nat) : string := string_of_Z (Z.of_nat n).

(** [str(v)] for the values whose rendering does not go through [repr]. *)
Definition py_str (v : value) : result string :=
  match v with
  | VNone => Ok "None"%string
  | VInt z => Ok (string_of_Z z)
  | VStr s => Ok s
  | _ => Outside
  end.

(** ** Traversals *)

(** [unique]: first occurrences, in order. *)
Fixpoint unique_from (seen : list key) (l : list key) : list key :=
  match l with
  | [] => []
  | x :: rest =>
      if existsb (key_eqb x) seen then unique_from seen rest
      else x :: unique_from (x :: seen) rest
  end.

Definition unique (l : list key) : list key := unique_from [] l.

(** Nesting depth of dictionaries, the number of rounds a sweep can take. *)
Fixpoint height (v : value) : nat :=
  match v with
  | VDict items =>
      S ((fix go (l : list (key * value)) : nat :=
            match l with
            | [] => 0
            | (_, c) :: rest => Nat.max (height c) (go rest)
            end) items)
  | _ => 0
  end.

(** Number of (key, value) entries below [v]: the number of nodes a
    traversal of the dictionaries visits. *)
Fixpoint entries (v : value) : nat :=
  match v with
  | VDict items =>
      (fix go (l : list (key * value)) : nat :=
         match l with
         | [] => 0
         | (_, c) :: rest => S (entries c + go rest)
         end) items
  | _ => 0
  end.

(** One round of [getPaths]' inner [for] over the objects that have
    [keys]: keys and values are collected until a DataFrame or Series
    breaks the loop. *)
Fixpoint collect_level (xs : list value) : list key * list value :=
  match xs with
  | VDict items :: rest =>
      let (l, next_level) := collect_level rest in
      (map fst items ++ l, map snd items ++ next_level)
  | _ => ([], [])
  end.

Fixpoint getPaths_loop (fuel : nat) (this_level : list value) : list (list key) :=
  match fuel with
  | O => []
  | S fuel' =>
      let (l, next_level) := collect_level (filter has_keys this_level) in
      match l with
      | [] => []
      | _ :: _ => unique l :: getPaths_loop fuel' next_level
      end
  end.

(** [getPaths(work)]: the keys of each level. *)
Definition getPaths (work : value) : list (list key) :=
  getPaths_loop (S (height work)) [work].

(** The breadth-first loop of [getNodes]; a stack entry is
    [(p, l, (k, v))]. *)
Fixpoint getNodes_loop (fuel : nat) (level : Z)
  (stack : list (path * nat * (key * value))) : list (path * value) :=
  match fuel with
  | O => []
  | S fuel' =>
      match stack with
      | [] => []
      | (p, l, (k, v)) :: rest =>
          let n := p ++ [k] in
          let more :=
            match v with
            | VDict items => map (fun x => (n, S l, x)) items
            | _ => []
            end in
          let tail := getNodes_loop fuel' level (rest ++ more) in
          if (Z.of_nat l =? level)%Z then (n, v) :: tail else tail
      end
  end.

(** [list(getNodes(work, level))]. *)
Definition getNodes (work : value) (level : Z) : result (list (path * value)) :=
  items <- py_items work ;;
  Ok (getNodes_loop (S (entries work)) level (map (fun x => ([], O, x)) items)).

(** The loop of [getDepths]; the Python stack is kept top first. *)
Fixpoint getDepths_loop (fuel : nat) (stack : list (nat * value)) : list nat :=
  match fuel with
  | O => []
  | S fuel' =>
      match stack with
      | [] => []
      | (level, v) :: rest =>
          match v with
          | VDict items =>
              getDepths_loop fuel'
                (rev (map (fun x => (S level, snd x)) items) ++ rest)
          | _ => level :: getDepths_loop fuel' rest
          end
      end
  end.

(** [getDepths(work)]: the depth of every leaf. *)
Definition getDepths (work : value) : result (list nat) :=
  vs <- py_values work ;;
  Ok (getDepths_loop (S (entries work)) (rev (map (fun x => (O, x)) vs))).

(** ** Path access *)

(** Module-level [getLeaf(work, path)]. *)
Fixpoint getLeaf (work : value) (p : path) : result value :=
  match p with
  | [] => Ok work
  | x :: rest =>
      match py_getitem work x with
      | Ok w => getLeaf w rest
      | Raise KeyError => Ok VNone
      | Raise TypeError => Ok VNone
      | Raise e => Raise e
      | Outside => Outside
      end
  end.

(** The object [w] after its item [k], reached by [w[k]], has been
    mutated in place into [child]. *)
Definition store (w : value) (k : key) (child : value) : value :=
  match w with
  | VDict items => VDict (dict_set items k child)
  | VList xs =>
      match k with
      | KInt z => match seq_index (List.length xs) z with
                  | Some i => VList (list_update xs i child)
                  | None => w
                  end
      | _ => w
      end
  | VTuple xs =>
      match k with
      | KInt z => match seq_index (List.length xs) z with
                  | Some i => VTuple (list_update xs i child)
                  | None => w
                  end
      | _ => w
      end
  | _ => w
  end.

(** Module-level [setLeaf(work, path, data)]; returns [work] as mutated. *)
Fixpoint setLeaf (work : value) (p : path) (data : value) : result value :=
  match p with
  | [] => Raise IndexError
  | [x] => py_setitem work x data
  | x :: rest =>
      match py_getitem work x with
      | Ok child =>
          child' <- setLeaf child rest data ;;
          Ok (store work x child')
      | Raise KeyError =>
          work1 <- py_setitem work x (VDict []) ;;
          child' <- setLeaf (VDict []) rest data ;;
          Ok (store work1 x child')
      | Raise e => Raise e
      | Outside => Outside
      end
  end.

(** ** The DataTree class *)

Module DataTree.

(** An instance holds [_data]; the nested [DataTree] objects that
    [setLeaf] creates hand item access to their own ordered dictionary
    and are embedded as that dictionary. *)
Record t : Type := mk { _data : value }.

(** [DataTree()]. *)
Definition new : t := mk (VDict []).

(** [DataTree.getLeaf(self, path)]. *)
Fixpoint getLeaf_from (work : value) (p : path) : result value :=
  match p with
  | [] => Ok work
  | x :: rest =>
      match py_getitem work x with
      | Ok w => getLeaf_from w rest
      | Raise KeyError => Ok VNone
      | Raise e => Raise e
      | Outside => Outside
      end
  end.

Definition getLeaf (self : t) (p : path) : result value :=
  getLeaf_from (_data self) p.

(** [DataTree.setLeaf(self, path, data)]; returns [self] as mutated. *)
Fixpoint setLeaf_from (work : value) (p : path) (data : value) : result value :=
  match p with
  | [] => Raise IndexError
  | [x] => py_setitem work x data
  | x :: rest =>
      match py_getitem work x with
      | Ok child =>
          child' <- setLeaf_from child rest data ;;
          Ok (store work x child')
      | Raise KeyError =>
          work1 <- py_setitem work x (VDict []) ;;
          child' <- setLeaf_from (VDict []) rest data ;;
          Ok (store work1 x child')
      | Raise e => Raise e
      | Outside => Outside
      end
  end.

Definition setLeaf (self : t) (p : path) (data : value) : result t :=
  match p with
  | [] => Ok (mk data)
  | _ :: _ => d <- setLeaf_from (_data self) p data ;; Ok (mk d)
  end.

(** [DataTree.removeLeaf(self, path)] for a path that is not empty: the
    loop over the keys but the last, which gives up at the first missing
    key with None in hand, then the deletion; returns [_data] as
    mutated. *)
Fixpoint removeLeaf_from (work : value) (p : path) : result value :=
  match p with
  | [] => Raise IndexError
  | [x] => py_delitem work x
  | x :: rest =>
      match py_getitem work x with
      | Ok child =>
          child' <- removeLeaf_from child rest ;;
          Ok (store work x child')
      | Raise KeyError =>
          _ <- py_delitem VNone (last rest x) ;; Ok work
      | Raise e => Raise e
      | Outside => Outside
      end
  end.

(** [DataTree.removeLeaf(self, path)]; returns [self] as mutated.  With
    the empty path the attribute [_data] is bound to the class
    OrderedDict itself, not to a dictionary: the instance holds no tree
    any more, which is the outcome None. *)
Definition removeLeaf (self : t) (p : path) : result (option t) :=
  match p with
  | [] => Ok None
  | _ :: _ => d <- removeLeaf_from (_data self) p ;; Ok (Some (mk d))
  end.

(** One round of [DataTree.getPaths] over the objects that have [keys].
    The method has no guard for pandas objects and calls [values] on
    whatever it meets. *)
Fixpoint collect_all (xs : list value) : result (list key * list value) :=
  match xs with
  | [] => Ok ([], [])
  | VDict items :: rest =>
      ' (l, next_level) <- collect_all rest ;;
      Ok (map fst items ++ l, map snd items ++ next_level)
  | _ => Outside
  end.

Fixpoint getPaths_loop (fuel : nat) (this_level : list value)
  : result (list (list key)) :=
  match fuel with
  | O => Ok []
  | S fuel' =>
      ' (l, next_level) <- collect_all (filter has_keys this_level) ;;
      match l with
      | [] => Ok []
      | _ :: _ =>
          labels <- getPaths_loop fuel' next_level ;;
          Ok (unique l :: labels)
      end
  end.

(** [DataTree.getPaths(self)]. *)
Definition getPaths (self : t) : result (list (list key)) :=
  getPaths_loop (S (height (_data self))) [_data self].

(** [self[key]] and [self[key] = value], handed to [_data]. *)
Definition getitem (self : t) (k : key) : result value :=
  py_getitem (_data self) k.

Definition setitem (self : t) (k : key) (v : value) : result t :=
  d <- py_setitem (_data self) k v ;; Ok (mk d).

End DataTree.

(** ** Reshaping *)

(** [itertools.product] of the lists in [ls]. *)
Fixpoint product {A : Type} (ls : list (list A)) : list (list A) :=
  match ls with
  | [] => [[]]
  | l :: rest => flat_map (fun x => map (cons x) (product rest)) l
  end.

(** [getPrefixes(work, level)]. *)
Definition getPrefixes (work : value) (level : nat) : list path :=
  product (firstn level (getPaths work)).

(** The two halves of the final test of [removeEmptyLeaves]:
    [work is not None] and [work] differing from the empty string. *)
Definition is_not_none (work : value) : bool :=
  match work with
  | VNone => false
  | _ => true
  end.

Definition differs_from_empty_string (work : value) : bool :=
  match work with
  | VStr s => negb (String.eqb s EmptyString)
  | _ => true
  end.

(** [removeEmptyLeaves(work)]: the mutated [work] and the returned flag.
    A dictionary has [items]; a DataFrame or Series is judged by
    [len(work) > 0]; for everything else the final test decides. *)
Fixpoint removeEmptyLeaves (work : value) : value * bool :=
  match work with
  | VDict items =>
      let items' :=
        (fix go (l : list (key * value)) : list (key * value) :=
           match l with
           | [] => []
           | (label, w) :: rest =>
               let (w', keep) := removeEmptyLeaves w in
               if keep then (label, w') :: go rest else go rest
           end) items in
      (VDict items', negb (Nat.eqb (List.length items') 0))
  | VFrame f => (work, Nat.ltb 0 (frame_rows f))
  | _ => (work, is_not_none work || differs_from_empty_string work)
  end.

Fixpoint foldM {A S : Type} (f : S -> A -> result S) (l : list A) (s : S)
  : result S :=
  match l with
  | [] => Ok s
  | a :: rest => s' <- f s a ;; foldM f rest s'
  end.

(** The object [work] after the object reached along [p] has been
    mutated in place into [leaf]. *)
Fixpoint put_at (work : value) (p : path) (leaf : value) : value :=
  match p with
  | [] => leaf
  | x :: rest =>
      match py_getitem work x with
      | Ok child => store work x (put_at child rest leaf)
      | _ => work
      end
  end.

(** The inner loop of [removeLevel] over the keys of [leaf].  [leaf] is
    the object found at [p]; it stays part of [work] ([attached]) until
    [setLeaf] puts another object in its place. *)
Fixpoint removeLevel_keys (work : value) (p : path) (attached : bool)
  (leaf : value) (keys : list key) : result value :=
  match keys with
  | [] => Ok work
  | key :: rest =>
      d <- py_getitem leaf key ;;
      leaf1 <- py_delitem leaf key ;;
      let work1 := if attached then put_at work p leaf1 else work in
      match py_items d with
      | Ok its =>
          leaf2 <- foldM (fun l kv => py_setitem l (fst kv) (snd kv)) its leaf1 ;;
          let work2 := if attached then put_at work p leaf2 else work in
          removeLevel_keys work2 p attached leaf2 rest
      | Raise AttributeError =>
          work2 <- setLeaf work1 p d ;;
          removeLevel_keys work2 p false leaf1 rest
      | Raise e => Raise e
      | Outside => Outside
      end
  end.

Fixpoint removeLevel_prefixes (work : value) (prefixes : list path)
  : result value :=
  match prefixes with
  | [] => Ok work
  | p :: rest =>
      leaf <- getLeaf work p ;;
      skip <- py_eq_none leaf ;;
      if skip then removeLevel_prefixes work rest
      else
        keys <- py_keys leaf ;;
        work' <- removeLevel_keys work p true leaf keys ;;
        removeLevel_prefixes work' rest
  end.

(** [removeLevel(work, level)]; returns [work] as mutated. *)
Definition removeLevel (work : value) (level : nat) : result value :=
  removeLevel_prefixes work (getPrefixes work level).

(** [_f] of [swop]: a path without its None placeholders. *)
Definition _f (p : list (option key)) : path :=
  flat_map (fun x => match x with Some k => [k] | None => [] end) p.

(** The product of the levels, or the single placeholder [(None,)] when
    there is no level. *)
Definition product_or_none (levels : list (list key)) : list (list (option key)) :=
  match levels with
  | [] => [[None]]
  | _ :: _ => map (map Some) (product levels)
  end.

(** One suffix of the innermost loop of [swop]. *)
Definition swop_suffix (work : value) (old new : list (option key))
  (newtree : value) (suffix : list (option key)) : result value :=
  let oldpath := _f (old ++ suffix) in
  let newpath := _f (new ++ suffix) in
  data <- getLeaf work oldpath ;;
  skip <- py_eq_none data ;;
  if skip then Ok newtree else setLeaf newtree newpath data.

(** One (prefix, infix) pair for the labels [p1], [p2]. *)
Definition swop_branch (work : value) (p1 p2 : key) (newtree : value)
  (pi : list (option key) * list (option key)) : result value :=
  let (prefix, infix) := pi in
  let old := prefix ++ [Some p1] ++ infix ++ [Some p2] in
  let new := prefix ++ [Some p2] ++ infix ++ [Some p1] in
  w <- getLeaf work (_f old) ;;
  let subpaths := getPaths w in
  let suffixes :=
    match subpaths with
    | first :: _ => map (map Some) (product [first])
    | [] => [[None]]
    end in
  foldM (swop_suffix work old new) suffixes newtree.

(** Module-level [swop(work, level1, level2)]: the new tree, or None when
    the two levels are the same.  The suffixes computed before the loops
    are replaced inside them before any use and are left out. *)
Definition swop (work : value) (level1 level2 : nat) : result value :=
  let paths := getPaths work in
  let nlevels := List.length paths in
  if nlevels <=? level1 then Raise IndexError
  else if nlevels <=? level2 then Raise IndexError
  else if level1 =? level2 then Ok VNone
  else
    let (level1, level2) :=
      if level2 <? level1 then (level2, level1) else (level1, level2) in
    let prefixes := product_or_none (firstn level1 paths) in
    let infixes := product_or_none (firstn (level2 - (level1 + 1)) (skipn (level1 + 1) paths)) in
    foldM (fun newtree pp =>
             foldM (swop_branch work (fst pp) (snd pp)) (list_prod prefixes infixes) newtree)
          (list_prod (nth level1 paths []) (nth level2 paths []))
          (VDict []).

(** The test of [prune] over the prefixes of a level: does some branch
    ask for the level to be kept? *)
Fixpoint prune_keep (data : value) (label : key) (prefixes : list path)
  : result bool :=
  match prefixes with
  | [] => Ok false
  | prefix :: rest =>
      leaves <- getLeaf data prefix ;;
      match leaves with
      | VNone => prune_keep data label rest
      | _ =>
          n <- py_len leaves ;;
          if 1 <? n then Ok true
          else
            inside <- py_contains label leaves ;;
            if negb inside then Ok true else prune_keep data label rest
      end
  end.

(** The first loop of [prune]: the levels to prune, in ascending order. *)
Fixpoint prune_scan (data : value) (ignore : list key)
  (data_paths : list (list key)) (levels : list nat) : result (list (nat * key)) :=
  match levels with
  | [] => Ok []
  | level :: rest =>
      match nth level data_paths [] with
      | [label] =>
          if existsb (key_eqb label) ignore then prune_scan data ignore data_paths rest
          else
            keep <- prune_keep data label (getPrefixes data level) ;;
            more <- prune_scan data ignore data_paths rest ;;
            Ok (if keep then more else (level, label) :: more)
      | _ => prune_scan data ignore data_paths rest
      end
  end.

(** The second loop of [prune]: remove the levels, deepest first. *)
Fixpoint prune_apply (data : value) (nlevels : nat) (todo : list (nat * key))
  : result (value * list (nat * key)) :=
  match todo with
  | [] => Ok (data, [])
  | (level, label) :: rest =>
      if (level =? 0) && (nlevels =? 1) then prune_apply data nlevels rest
      else
        data' <- removeLevel data level ;;
        ' (data'', pruned) <- prune_apply data' (nlevels - 1) rest ;;
        Ok (data'', (level, label) :: pruned)
  end.

(** [prune(data, ignore)]: [data] as mutated and the returned list. *)
Definition prune (data : value) (ignore : list key)
  : result (value * list (nat * key)) :=
  let data := fst (removeEmptyLeaves data) in
  let data_paths := getPaths data in
  let nlevels := List.length data_paths in
  levels_to_prune <- prune_scan data ignore data_paths (seq 0 nlevels) ;;
  prune_apply data nlevels (rev levels_to_prune).

(** ** Tables *)

(** [count_levels(labels)]: the width of each level, judged by its first
    label. *)
Definition count_levels (labels : list (list key)) : result (list Z) :=
  foldM (fun counts x =>
           match x with
           | [] => Raise IndexError
           | KTuple parts :: _ => Ok (counts ++ [Z.of_nat (List.length parts)])
           | _ :: _ => Ok (counts ++ [1%Z])
           end) labels [].

(** [l[z] = a] on a list. *)
Definition list_assign {A : Type} (l : list A) (z : Z) (a : A) : result (list A) :=
  match seq_index (List.length l) z with
  | Some i => Ok (list_update l i a)
  | None => Raise IndexError
  end.

(** [for z, p in enumerate(parts): row_data[z] = p], counting from [z]. *)
Fixpoint assign_parts (row_data : list value) (z : nat) (parts : list key)
  : result (list value) :=
  match parts with
  | [] => Ok row_data
  | p :: rest =>
      row_data' <- list_assign row_data (Z.of_nat z) (value_of_key p) ;;
      assign_parts row_data' (S z) rest
  end.

(** Modelled from the spec: [Utils.quote_rst] is defined in
    SphinxReport/Utils.py; the table cells are the values as
    display-strings. *)
Definition quote_rst (v : value) : result string := py_str v.

Definition unequal_lengths (a b : nat) : string :=
  ("multi-level rows - unequal lengths: " ++ string_of_nat a ++ " != "
     ++ string_of_nat b)%string.

(** The scan of [tree2table] for multi-level rows: [is_container] and
    [max_rows] after the loop over the columns. *)
Fixpoint check_columns (work : value) (columns : list key) (max_rows : option nat)
  : result (bool * option nat) :=
  match columns with
  | [] => Ok (true, max_rows)
  | column :: rest =>
      inside <- py_contains column work ;;
      if negb inside then check_columns work rest max_rows
      else
        cell <- py_getitem work column ;;
        if negb (is_container_value cell) then Ok (false, max_rows)
        else
          n <- py_len cell ;;
          match max_rows with
          | None => check_columns work rest (Some n)
          | Some m =>
              if m =? n then check_columns work rest max_rows
              else Raise (ValueError (unequal_lengths m n))
          end
  end.

(** One pass over the columns filling [row_data] with the quoted cells;
    [pick] selects the cell inside [work[column]].  A KeyError skips the
    column. *)
Fixpoint fill_columns (work : value) (pick : value -> result value)
  (header_offset : Z) (y : nat) (columns : list key) (row_data : list value)
  : result (list value) :=
  match columns with
  | [] => Ok row_data
  | column :: rest =>
      match (cell <- py_getitem work column ;; v <- pick cell ;; quote_rst v) with
      | Ok text =>
          row_data' <- list_assign row_data (Z.of_nat y + header_offset) (VStr text) ;;
          fill_columns work pick header_offset (S y) rest row_data'
      | Raise KeyError => fill_columns work pick header_offset (S y) rest row_data
      | Raise e => Raise e
      | Outside => Outside
      end
  end.

Definition blank_row (ncols : nat) : list value := repeat (VStr EmptyString) ncols.

(** The sub-rows of a multi-level row: [for z in range(max_rows)]. *)
Fixpoint fill_subrows (work : value) (columns : list key) (header_offset : Z)
  (ncols max_rows : nat) (zs : list nat)
  (matrix : list (list value)) (row_headers : list value) (row_data : list value)
  : result (list (list value) * list value * list value) :=
  match zs with
  | [] => Ok (matrix, row_headers, row_data)
  | z :: rest =>
      row_data' <- fill_columns work (fun cell => py_getitem cell (KInt (Z.of_nat z)))
                     header_offset 0 columns row_data ;;
      if (Z.of_nat z <? Z.of_nat max_rows - 1)%Z then
        fill_subrows work columns header_offset ncols max_rows rest
          (matrix ++ [row_data']) (row_headers ++ [VStr EmptyString]) (blank_row ncols)
      else
        fill_subrows work columns header_offset ncols max_rows rest
          matrix row_headers row_data'
  end.

(** [if head and len(matrix) >= head]. *)
Definition head_reached (head : option Z) (matrix : list (list value)) : bool :=
  match head with
  | None => false
  | Some h => negb (h =? 0)%Z && (h <=? Z.of_nat (List.length matrix))%Z
  end.

(** The inner loop of [tree2table] over the sub-row paths of one main
    row. *)
Fixpoint table_subrows (data : value) (labels_last : list key)
  (header_offset : Z) (ncols : nat) (head : option Z) (row : key)
  (paths : list path) (first : bool)
  (matrix : list (list value)) (row_headers : list value)
  : result (list (list value) * list value) :=
  match paths with
  | [] => Ok (matrix, row_headers)
  | p :: rest =>
      work <- getLeaf data (row :: p) ;;
      skip <- match work with
              | VFrame f => Ok (Nat.eqb (frame_rows f) 0 || Nat.eqb (frame_cols f) 0)
              | _ => t <- py_truth work ;; Ok (negb t)
              end ;;
      if skip then
        table_subrows data labels_last header_offset ncols head row rest first
          matrix row_headers
      else
        let row_data := blank_row ncols in
        ' (row_headers, row_data) <-
            (if first then
               match row with
               | KTuple parts =>
                   h <- py_getitem (value_of_key row) (KInt 0) ;;
                   row_data' <- assign_parts row_data 0 (skipn 1 parts) ;;
                   Ok (row_headers ++ [h], row_data')
               | _ => Ok (row_headers ++ [value_of_key row], row_data)
               end
             else Ok (row_headers ++ [VStr EmptyString], row_data)) ;;
        row_data <- assign_parts row_data 0 p ;;
        ' (is_container, max_rows) <- check_columns work labels_last None ;;
        ' (matrix, row_headers, row_data) <-
            (if is_container : bool then
               match max_rows with
               | None => Raise TypeError
               | Some m =>
                   fill_subrows work labels_last header_offset ncols m (seq 0 m)
                     matrix row_headers row_data
               end
             else
               row_data' <- fill_columns work (fun cell => Ok cell) header_offset 0
                              labels_last row_data ;;
               Ok (matrix, row_headers, row_data')) ;;
        let matrix := matrix ++ [row_data] in
        if head_reached head matrix then Ok (matrix, row_headers)
        else
          table_subrows data labels_last header_offset ncols head row rest false
            matrix row_headers
  end.

(** The outer loop of [tree2table] over the main rows. *)
Fixpoint table_rows (data : value) (labels_last : list key)
  (header_offset : Z) (ncols : nat) (head : option Z) (paths : list path)
  (rows : list key) (matrix : list (list value)) (row_headers : list value)
  : result (list (list value) * list value) :=
  match rows with
  | [] => Ok (matrix, row_headers)
  | row :: rest =>
      ' (matrix, row_headers) <-
          table_subrows data labels_last header_offset ncols head row paths true
            matrix row_headers ;;
      table_rows data labels_last header_offset ncols head paths rest
        matrix row_headers
  end.

(** The columns of a matrix, cut at its shortest row; [n] bounds the
    number of columns. *)
Fixpoint zip_columns (n : nat) (matrix : list (list value)) : list (list value) :=
  match n with
  | O => []
  | S n' =>
      if forallb (fun r => negb (Nat.eqb (List.length r) 0)) matrix
      then map (hd VNone) matrix :: zip_columns n' (map (@tl value) matrix)
      else []
  end.

(** [zip] over the rows of the matrix, as a list: the rows of the
    transposed matrix. *)
Definition zip_rows (matrix : list (list value)) : list (list value) :=
  zip_columns (List.length (hd [] matrix)) matrix.

Fixpoint mapM {A B : Type} (f : A -> result B) (l : list A) : result (list B) :=
  match l with
  | [] => Ok []
  | a :: rest => b <- f a ;; bs <- mapM f rest ;; Ok (b :: bs)
  end.

Definition too_few_levels (n : nat) : string :=
  ("expected at least two levels for building table, got " ++ string_of_nat n)%string.

(** [tree2table(data, transpose, head)]: matrix, row headers and column
    headers.  The text of the ValueError for a tree of fewer than two
    levels ends with Python's rendering of the labels, which is left out
    of the message here. *)
Definition tree2table (data : value) (transpose : bool) (head : option Z)
  : result (list (list value) * list string * list string) :=
  let labels := getPaths data in
  if List.length labels <? 2 then Raise (ValueError (too_few_levels (List.length labels)))
  else
    effective_labels <- count_levels labels ;;
    let effective_cols :=
      (fold_right Z.add 0 (removelast effective_labels) - 1)%Z in
    let labels_last := last labels [] in
    let col_headers :=
      repeat (VStr EmptyString) (Z.to_nat effective_cols) ++ map value_of_key labels_last in
    let ncols := List.length col_headers in
    let paths := product (removelast (skipn 1 labels)) in
    let header_offset := effective_cols in
    ' (matrix, row_headers) <-
        table_rows data labels_last header_offset ncols head paths
          (nth 0 labels []) [] [] ;;
    let row_headers' := if transpose then col_headers else row_headers in
    let col_headers' := if transpose then row_headers else col_headers in
    let matrix' :=
      if transpose then zip_rows matrix else matrix in
    row_strings <- mapM py_str row_headers' ;;
    col_strings <- mapM py_str col_headers' ;;
    Ok (matrix', row_strings, col_strings).

(** ** From a tree to a data frame *)

(** Python 2 ordering of keys: numbers before strings before tuples. *)
Fixpoint key_compare (a b : key) : comparison :=
  match a, b with
  | KInt x, KInt y => Z.compare x y
  | KInt _, _ => Lt
  | KStr _, KInt _ => Gt
  | KStr s, KStr t => String.compare s t
  | KStr _, KTuple _ => Lt
  | KTuple xs, KTuple ys =>
      (fix go (l r : list key) : comparison :=
         match l, r with
         | [], [] => Eq
         | [], _ :: _ => Lt
         | _ :: _, [] => Gt
         | x :: l', y :: r' =>
             match key_compare x y with
             | Eq => go l' r'
             | c => c
             end
         end) xs ys
  | KTuple _, _ => Gt
  end.

Fixpoint insert_sorted (kv : key * value) (l : list (key * value))
  : list (key * value) :=
  match l with
  | [] => [kv]
  | kv' :: rest =>
      match key_compare (fst kv) (fst kv') with
      | Gt => kv' :: insert_sorted kv rest
      | _ => kv :: l
      end
  end.

(** [sorted(branch.items())]; the keys of a dictionary are distinct, so
    the values are never compared. *)
Definition sorted_items (items : list (key * value)) : list (key * value) :=
  fold_right insert_sorted [] items.

Definition MATRIX : list key := [KStr "rows"; KStr "columns"; KStr "matrix"].
Definition VENN2 : list key := [KStr "10"; KStr "01"; KStr "11"].
Definition VENN3 : list key := [KStr "010"; KStr "001"; KStr "011"].

(** [len(set(keys).intersection(names)) == len(names)]. *)
Definition has_all (keys names : list key) : bool :=
  List.length (filter (fun n => existsb (key_eqb n) keys) (unique names))
  =? List.length names.

Fixpoint list_min (l : list nat) : option nat :=
  match l with
  | [] => None
  | [x] => Some x
  | x :: rest => option_map (Nat.min x) (list_min rest)
  end.

Fixpoint list_max (l : list nat) : option nat :=
  match l with
  | [] => None
  | [x] => Some x
  | x :: rest => option_map (Nat.max x) (list_max rest)
  end.

Definition not_uniform (mi ma : nat) : string :=
  ("data tree not of uniform depth, min=" ++ string_of_nat mi ++ ", max="
     ++ string_of_nat ma)%string.

Definition empty_sequence (f : string) : string :=
  (f ++ "() arg is an empty sequence")%string.

Section Pandas.

(** What pandas does with the objects handed to it is not part of this
    module: the constructor calls and the merging second half of
    [asDataFrame] are parameters. *)

(** [pandas.DataFrame(matrix, columns = columns, index = rows)]. *)
Variable DataFrame_grid : value -> value -> value -> result frame.
(** [pandas.DataFrame(values, index = index)]. *)
Variable DataFrame_records : list value -> list key -> result frame.
(** The statements of [asDataFrame] after the special cases: they read
    [data] and build the frame to return. *)
Variable merge_leaves : value -> result frame.

(** One branch of the special-case loop: [data] as mutated, and whether
    the loop goes on. *)
Definition normalize_branch (data : value) (pb : path * value)
  : value * result unit :=
  let (p, branch) := pb in
  match py_keys branch with
  | Ok keys =>
      if has_all keys MATRIX then
        match (m <- py_getitem branch (KStr "matrix") ;;
               c <- py_getitem branch (KStr "columns") ;;
               r <- py_getitem branch (KStr "rows") ;;
               DataFrame_grid m c r) with
        | Ok df =>
            match setLeaf data p (VFrame df) with
            | Ok data' => (data', Ok tt)
            | Raise e => (data, Raise e)
            | Outside => (data, Outside)
            end
        | Raise e => (data, Raise e)
        | Outside => (data, Outside)
        end
      else if has_all keys VENN2 || has_all keys VENN3 then
        match (items <- py_items branch ;;
               let values := sorted_items items in
               DataFrame_records (map snd values) (map fst values)) with
        | Ok df =>
            match setLeaf data p (VFrame df) with
            | Ok data' => (data', Ok tt)
            | Raise e => (data, Raise e)
            | Outside => (data, Outside)
            end
        | Raise e => (data, Raise e)
        | Outside => (data, Outside)
        end
      else (data, Ok tt)
  | Raise e => (data, Raise e)
  | Outside => (data, Outside)
  end.

Fixpoint normalize_branches (data : value) (branches : list (path * value))
  : value * result unit :=
  match branches with
  | [] => (data, Ok tt)
  | pb :: rest =>
      match normalize_branch data pb with
      | (data', Ok _) => normalize_branches data' rest
      | (data', r) => (data', r)
      end
  end.

(** [asDataFrame(data)]: [data] as the call leaves it, and the outcome:
    the frame, or None for no data. *)
Definition asDataFrame (data : value) : value * result (option frame) :=
  match data with
  | VNone => (data, Ok None)
  | _ =>
      match py_len data with
      | Raise e => (data, Raise e)
      | Outside => (data, Outside)
      | Ok O => (data, Ok None)
      | Ok (S _) =>
          match getDepths data with
          | Raise e => (data, Raise e)
          | Outside => (data, Outside)
          | Ok levels =>
              match list_min levels, list_max levels with
              | Some mi, Some ma =>
                  if negb (mi =? ma) then
                    (data, Raise (NotImplementedError (not_uniform mi ma)))
                  else
                    let labels := getPaths data in
                    match getNodes data (Z.of_nat (List.length labels) - 2) with
                    | Raise e => (data, Raise e)
                    | Outside => (data, Outside)
                    | Ok branches =>
                        match normalize_branches data branches with
                        | (data', Ok _) =>
                            (data', df <- merge_leaves data' ;; Ok (Some df))
                        | (data', Raise e) => (data', Raise e)
                        | (data', Outside) => (data', Outside)
                        end
                    end
              | None, _ => (data, Raise (ValueError (empty_sequence "min")))
              | _, None => (data, Raise (ValueError (empty_sequence "max")))
              end
          end
      end
  end.

End Pandas.

(** ** Removing a path and flattening *)

(** [work.clear()]; a list has no such method in Python 2. *)
Definition py_clear (w : value) : result value :=
  match w with
  | VDict _ => Ok (VDict [])
  | VFrame _ => Outside
  | _ => Raise AttributeError
  end.

(** Module-level [removeLeaf] for a path that is not empty: [work] as
    mutated, and the object the name [work] is bound to when the
    function returns it, the container the last key was deleted from. *)
Fixpoint removeLeaf_from (work : value) (p : path) : result (value * value) :=
  match p with
  | [] => Raise IndexError
  | [x] => w' <- py_delitem work x ;; Ok (w', w')
  | x :: rest =>
      child <- py_getitem work x ;;
      ' (child', ret) <- removeLeaf_from child rest ;;
      Ok (store work x child', ret)
  end.

(** Module-level [removeLeaf(work, path)]: [work] as mutated and the
    object returned. *)
Definition removeLeaf (work : value) (p : path) : result (value * value) :=
  match p with
  | [] => w' <- py_clear work ;; Ok (w', w')
  | _ :: _ => removeLeaf_from work p
  end.

(** [l[n:n+1] = xs] on a list; with no [xs] this is [l.pop(n)]. *)
Definition splice (l : list value) (n : nat) (xs : list value) : list value :=
  firstn n l ++ xs ++ skipn (S n) l.

(** The inner [while] of [flatten] at index [i]: the list and [i] when
    the loop is left.  The fuel bounds the number of rounds; a run that
    uses it up is not a run of the code. *)
Fixpoint flatten_inner (fuel : nat) (l : list value) (i : Z)
  : result (list value * Z) :=
  match fuel with
  | O => Outside
  | S fuel' =>
      match seq_index (List.length l) i with
      | None => Raise IndexError
      | Some n =>
          match nth_error l n with
          | None => Raise IndexError
          | Some item =>
              match item with
              | VList xs | VTuple xs =>
                  match xs with
                  | [] => Ok (splice l n [], (i - 1)%Z)
                  | _ :: _ => flatten_inner fuel' (splice l n xs) i
                  end
              | _ => Ok (l, i)
              end
          end
      end
  end.

(** The outer [while] of [flatten]. *)
Fixpoint flatten_loop (fuel : nat) (l : list value) (i : Z) : result (list value) :=
  match fuel with
  | O => Outside
  | S fuel' =>
      if (i <? Z.of_nat (List.length l))%Z then
        ' (l', i') <- flatten_inner fuel' l i ;;
        flatten_loop fuel' l' (i' + 1)%Z
      else Ok l
  end.

(** Number of objects in a nesting of lists and tuples: each round of
    the loops of [flatten] disposes of one of them. *)
Fixpoint mass (v : value) : nat :=
  match v with
  | VList xs | VTuple xs =>
      S ((fix go (l : list value) : nat :=
            match l with
            | [] => 0
            | x :: rest => mass x + go rest
            end) xs)
  | _ => 1
  end.

Definition masses (l : list value) : nat :=
  fold_right (fun v acc => mass v + acc) 0 l.

(** [flatten(l)] with the default [ltypes], lists and tuples.  None and
    numbers cannot be listed; for a string, a dictionary or a pandas
    object the last statement builds the object back from a list, which
    is not modelled. *)
Definition flatten (l : value) : result value :=
  match l with
  | VList xs => l' <- flatten_loop (S (masses xs)) xs 0 ;; Ok (VList l')
  | VTuple xs => l' <- flatten_loop (S (masses xs)) xs 0 ;; Ok (VTuple l')
  | VNone | VInt _ => Raise TypeError
  | VStr _ | VDict _ | VFrame _ => Outside
  end.

(** ** The method DataTree.swop *)

(** One old path of the innermost loop of [DataTree.swop]. *)
Definition DataTree_swop_path (self : DataTree.t) (old new : list (option key))
  (newtree : DataTree.t) (suffix : list (option key)) : result DataTree.t :=
  let oldpath := _f (old ++ suffix) in
  let newpath := _f (new ++ suffix) in
  data <- DataTree.getLeaf self oldpath ;;
  skip <- py_eq_none data ;;
  if skip then Ok newtree else DataTree.setLeaf newtree newpath data.

(** [DataTree.swop(self, level1, level2)]; returns [self] as mutated.
    The method is defined here, after the products it iterates over. *)
Definition DataTree_swop (self : DataTree.t) (level1 level2 : nat)
  : result DataTree.t :=
  paths <- DataTree.getPaths self ;;
  let nlevels := List.length paths in
  if nlevels <=? level1 then Raise IndexError
  else if nlevels <=? level2 then Raise IndexError
  else if level1 =? level2 then Ok self
  else
    let (level1, level2) :=
      if level2 <? level1 then (level2, level1) else (level1, level2) in
    paths <- DataTree.getPaths self ;;
    let prefixes := product_or_none (firstn level1 paths) in
    let infixes :=
      product_or_none (firstn (level2 - (level1 + 1)) (skipn (level1 + 1) paths)) in
    let suffixes := product_or_none (skipn (level2 + 1) paths) in
    newtree <-
      foldM (fun newtree (pp : key * key) =>
               let (p1, p2) := pp in
               foldM (fun newtree
                          (pis : list (option key)
                                 * (list (option key) * list (option key))) =>
                        let '(prefix, (infix, suffix)) := pis in
                        DataTree_swop_path self
                          (prefix ++ [Some p1] ++ infix ++ [Some p2])
                          (prefix ++ [Some p2] ++ infix ++ [Some p1])
                          newtree suffix)
                     (list_prod prefixes (list_prod infixes suffixes)) newtree)
            (list_prod (nth level1 paths []) (nth level2 paths []))
            DataTree.new ;;
    Ok (DataTree.mk (DataTree._data newtree)).

(** ** From a cache to a tree *)

(** [x.split(sep)] for a separator of one character. *)
Fixpoint split_on (sep : ascii) (s : string) : list string :=
  match s with
  | EmptyString => [EmptyString]
  | String c rest =>
      if Ascii.eqb c sep then EmptyString :: split_on sep rest
      else match split_on sep rest with
           | [] => [String c EmptyString]
           | part :: parts => String c part :: parts
           end
  end.

(** [tokey] of [fromCache]: the two names joined by a slash. *)
Definition tokey (track slice : string) : string :=
  (track ++ "/" ++ slice)%string.

(** The keys of the cache, split at the slashes; a key that is not a
    string has no [split]. *)
Definition cache_keys (cache : value) : result (list (list string)) :=
  ks <- py_keys cache ;;
  mapM (fun k => match k with
                 | KStr s => Ok (split_on "/" s)
                 | _ => Raise AttributeError
                 end) ks.

(** The inner loop of [fromCache]: the group [data[outer]] receives the
    cached object of each name of [inner]; the cache is read first. *)
Definition fill_group (cache : value) (outer : string)
  (name : string -> string -> string) (inner : list string) (data : DataTree.t)
  : result DataTree.t :=
  foldM (fun data x =>
           v <- py_getitem cache (KStr (name outer x)) ;;
           group <- DataTree.getitem data (KStr outer) ;;
           group' <- py_setitem group (KStr x) v ;;
           Ok (DataTree.mk (store (DataTree._data data) (KStr outer) group')))
        inner data.

Section SetOrder.

(** The order in which Python goes through the set built from a list;
    the language does not fix it. *)
Variable set_order : list string -> list string.

(** [fromCache(cache, tracks, slices, groupby)]; [tracks] and [slices]
    are None or a string of names separated by commas. *)
Definition fromCache (cache : value) (tracks slices : option string)
  (groupby : string) : result DataTree.t :=
  let data := DataTree.new in
  keys <- cache_keys cache ;;
  let tracks :=
    match tracks with
    | None => set_order (map (hd EmptyString) keys)
    | Some t => split_on "," t
    end in
  let slices :=
    match slices with
    | None => set_order (flat_map (fun x => match x with
                                            | _ :: s :: _ => [s]
                                            | _ => []
                                            end) keys)
    | Some s => split_on "," s
    end in
  if Nat.eqb (List.length slices) 0 then
    foldM (fun data track =>
             v <- py_getitem cache (KStr track) ;;
             DataTree.setitem data (KStr track) v)
          tracks data
  else if String.eqb groupby "slice" || String.eqb groupby "all" then
    foldM (fun data slice =>
             data <- DataTree.setitem data (KStr slice) (VDict []) ;;
             fill_group cache slice (fun slice track => tokey track slice) tracks data)
          slices data
  else if String.eqb groupby "track" then
    foldM (fun data track =>
             data <- DataTree.setitem data (KStr track) (VDict []) ;;
             fill_group cache track (fun track slice => tokey track slice) slices data)
          tracks data
  else Ok data.

End SetOrder.

(** * Notions used in the statements *)

Local Open Scope string_scope.
Local Open Scope list_scope.
Local Open Scope nat_scope.

(** The tree with the branches a and b, each holding x and y. *)
Definition two_by_two : value :=
  VDict [(KStr "a", VDict [(KStr "x", VInt 1); (KStr "y", VInt 2)]);
         (KStr "b", VDict [(KStr "x", VInt 3); (KStr "y", VInt 4)])].

(** A path that [setLeaf] can follow through dictionaries only: every
    object it meets before the last key is a dictionary, and so is the
    object that receives the last key; keys on the way may be missing. *)
Fixpoint settable (work : value) (p : path) : bool :=
  match p with
  | [] => true
  | x :: rest =>
      match work with
      | VDict items =>
          match rest with
          | [] => true
          | _ :: _ =>
              match dict_get items x with
              | Some child => settable child rest
              | None => true
              end
          end
      | _ => false
      end
  end.

(** A tree of plain nested mappings: no pandas object, no empty
    dictionary, every leaf a payload that is not a mapping. *)
Fixpoint plain (v : value) : bool :=
  match v with
  | VDict items =>
      negb (Nat.eqb (List.length items) 0)
      && (fix go (l : list (key * value)) : bool :=
            match l with
            | [] => true
            | (_, c) :: rest => plain c && go rest
            end) items
  | VFrame _ => false
  | _ => true
  end.

(** The depths of the leaves below a stack entry [(level, v)] of
    [getDepths], in the order of the dictionary. *)
Fixpoint leaf_depths (level : nat) (v : value) : list nat :=
  match v with
  | VDict items =>
      (fix go (l : list (key * value)) : list nat :=
         match l with
         | [] => []
         | (_, c) :: rest => leaf_depths (S level) c ++ go rest
         end) items
  | _ => [level]
  end.

(** Loop iterations a stack of [getDepths] still asks for. *)
Definition stack_cost (stack : list (nat * value)) : nat :=
  fold_right (fun e acc => S (entries (snd e) + acc)) 0 stack.

Definition max_height (l : list value) : nat :=
  fold_right (fun v acc => Nat.max (height v) acc) 0 l.

(** Keys and children a dictionary contributes to a level. *)
Definition keys_of (v : value) : list key :=
  match v with
  | VDict items => map fst items
  | _ => []
  end.

Definition children_of (v : value) : list value :=
  match v with
  | VDict items => map snd items
  | _ => []
  end.

Definition is_frame (v : value) : bool :=
  match v with
  | VFrame _ => true
  | _ => false
  end.

(** The test [len(leaves) > 1 or label not in leaves] of [prune]. *)
Definition keep_test (label : key) (leaves : value) : result bool :=
  n <- py_len leaves ;;
  if 1 <? n then Ok true
  else inside <- py_contains label leaves ;; Ok (negb inside).

(** What [prune] checks before it removes a level with the single label
    [label]: every prefix leads to nothing, or to an object that holds
    [label] and no second key. *)
Definition collapse_safe (data : value) (level : nat) (label : key) : Prop :=
  forall prefix,
    In prefix (getPrefixes data level) ->
    exists leaves,
      getLeaf data prefix = Ok leaves
      /\ (leaves = VNone
          \/ ((exists n, py_len leaves = Ok n /\ n <= 1)
              /\ py_contains label leaves = Ok true)).

(** The condition in the words of the claim: at every prefix the
    sub-container holds more than one key or does not hold [label]. *)
Definition stated_collapse_condition (data : value) (level : nat) (label : key)
  : Prop :=
  forall prefix,
    In prefix (getPrefixes data level) ->
    exists leaves,
      getLeaf data prefix = Ok leaves
      /\ ((exists n, py_len leaves = Ok n /\ 1 < n)
          \/ py_contains label leaves = Ok false).

Definition below_top (e : nat * key) : bool := negb (fst e =? 0).

(** The object at the end of a path that runs through dictionaries. *)
Fixpoint find (work : value) (p : path) : option value :=
  match p with
  | [] => Some work
  | x :: rest =>
      match work with
      | VDict items =>
          match dict_get items x with
          | Some child => find child rest
          | None => None
          end
      | _ => None
      end
  end.

(** [work] with the object at the end of [p] replaced by [v], the
    dictionaries missing on the way being created. *)
Fixpoint insert (work : value) (p : path) (v : value) : value :=
  match p with
  | [] => v
  | x :: rest =>
      match work with
      | VDict items =>
          VDict (dict_set items x
                   (insert match dict_get items x with
                           | Some child => child
                           | None => VDict []
                           end rest v))
      | _ => work
      end
  end.

Fixpoint nodupb (l : list key) : bool :=
  match l with
  | [] => true
  | x :: rest => negb (existsb (key_eqb x) rest) && nodupb rest
  end.

(** The keys of every dictionary of the tree are distinct, as they are
    in any Python dictionary. *)
Fixpoint wfb (v : value) : bool :=
  match v with
  | VDict items =>
      nodupb (map fst items)
      && (fix go (l : list (key * value)) : bool :=
            match l with
            | [] => true
            | (_, c) :: rest => wfb c && go rest
            end) items
  | _ => true
  end.

(** [u] is reached from [v] by following the entries named by [r]. *)
Fixpoint walk (v : value) (r : path) (u : value) : Prop :=
  match r with
  | [] => u = v
  | k :: r' =>
      match v with
      | VDict items => exists c, In (k, c) items /\ walk c r' u
      | _ => False
      end
  end.

(** Loop iterations a stack of [getNodes] still asks for. *)
Definition nodes_cost (stack : list (path * nat * (key * value))) : nat :=
  fold_right (fun e acc => S (entries (snd (snd e)) + acc)) 0 stack.


(** [v'] is [v] but for the objects [n] levels down, which are related
    by [R]: above them the dictionaries hold the same keys in the same
    order, and whatever is not a dictionary is the same. *)
Fixpoint agree (n : nat) (R : value -> value -> Prop) (v v' : value) : Prop :=
  match n with
  | O => R v v'
  | S m =>
      match v, v' with
      | VDict items, VDict items' =>
          Forall2 (fun kv kv' => fst kv = fst kv' /\ agree m R (snd kv) (snd kv'))
            items items'
      | _, _ => v' = v
      end
  end.



(** The objects [d] levels below the objects of [l]. *)
Fixpoint descend (d : nat) (l : list value) : list value :=
  match d with
  | O => l
  | S d' => descend d' (flat_map children_of l)
  end.

(** Every object found down to level [l] is a dictionary: the leaves lie
    below level [l]. *)
Definition dicts_down_to (l : nat) (t : value) : Prop :=
  forall q u, find t q = Some u -> List.length q <= l -> is_dict u = true.

(** No object at the two depths right below level [l] is None or a
    pandas object. *)
Definition solid_below (l : nat) (t : value) : Prop :=
  forall p u,
    find t p = Some u ->
    List.length p = l + 1 \/ List.length p = l + 2 ->
    u <> VNone /\ is_frame u = false.

(** [o] and [n] are the same path down to level [l2] but for the keys
    of the levels [l1] and [l2], which are exchanged. *)
Definition swapped (l1 l2 : nat) (o n : path) : Prop :=
  exists pre a inf b,
    List.length pre = l1 /\ List.length inf = l2 - l1 - 1
    /\ o = pre ++ a :: inf ++ [b] /\ n = pre ++ b :: inf ++ [a].

(** What [work] holds at [o] and below has been moved to [n] in [nt]. *)
Definition moved (work nt : value) (o n : path) : Prop :=
  match find work o with
  | None => find nt n = None
  | Some w =>
      match w with
      | VDict (_ :: _) => exists items', find nt n = Some (VDict items')
      | _ => find nt n = Some w
      end
      /\ forall k rest, find nt (n ++ k :: rest) = find work (o ++ k :: rest)
  end.

(** The state of the new tree while [swop] fills it. *)
Definition swop_inv (work : value) (l1 l2 : nat) (nt : value) : Prop :=
  wfb nt = true
  /\ dicts_down_to l2 nt
  /\ forall o n, swapped l1 l2 o n -> find nt n = None \/ moved work nt o n.

(** The lookups below level [l2] that do not go through [n] are the
    same in both trees. *)
Definition same_outside (l2 : nat) (n : path) (nt nt' : value) : Prop :=
  forall q, l2 < List.length q -> firstn (S l2) q <> n -> find nt' q = find nt q.

(** The bindings of a tree: every payload that is not a dictionary, with
    its full path. *)
Fixpoint bindings (v : value) : list (path * value) :=
  match v with
  | VDict items =>
      (fix go (l : list (key * value)) : list (path * value) :=
         match l with
         | [] => []
         | (k, c) :: rest =>
             map (fun pv => (k :: fst pv, snd pv)) (bindings c) ++ go rest
         end) items
  | _ => [([], v)]
  end.

(** Every object down to level [l] is a dictionary (decided). *)
Fixpoint leaves_below (l : nat) (t : value) {struct t} : bool :=
  match t with
  | VDict items =>
      match l with
      | O => true
      | S l' =>
          (fix go (its : list (key * value)) : bool :=
             match its with
             | [] => true
             | (_, c) :: rest => leaves_below l' c && go rest
             end) items
      end
  | _ => false
  end.

(** No object at depth [d] is None or a pandas object (decided). *)
Fixpoint solid_at (d : nat) (t : value) {struct t} : bool :=
  match d with
  | O => is_not_none t && negb (is_frame t)
  | S d' =>
      match t with
      | VDict items =>
          (fix go (its : list (key * value)) : bool :=
             match its with
             | [] => true
             | (_, c) :: rest => solid_at d' c && go rest
             end) items
      | _ => true
      end
  end.

(** No pandas object is found by walking through the dictionaries. *)
Fixpoint frame_free (v : value) : bool :=
  match v with
  | VDict items =>
      (fix go (l : list (key * value)) : bool :=
         match l with
         | [] => true
         | (_, c) :: rest => frame_free c && go rest
         end) items
  | VFrame _ => false
  | _ => true
  end.

(** A binding that [removeEmptyLeaves] keeps: all but a pandas object
    without rows. *)
Definition kept_leaf (pv : path * value) : bool :=
  match snd pv with
  | VFrame f => 0 <? frame_rows f
  | _ => true
  end.

(** Neither an empty dictionary nor a pandas object without rows. *)
Definition filled (v : value) : bool :=
  match v with
  | VDict [] => false
  | VFrame f => 0 <? frame_rows f
  | _ => true
  end.

(** Everything stored in the dictionaries of the tree is [filled]. *)
Fixpoint tidy (v : value) : bool :=
  match v with
  | VDict items =>
      (fix go (l : list (key * value)) : bool :=
         match l with
         | [] => true
         | (_, c) :: rest => filled c && tidy c && go rest
         end) items
  | _ => true
  end.

(** The entries [removeEmptyLeaves] keeps in a dictionary. *)
Definition kept_items (items : list (key * value)) : list (key * value) :=
  flat_map (fun kv => if snd (removeEmptyLeaves (snd kv))
                      then [(fst kv, fst (removeEmptyLeaves (snd kv)))]
                      else []) items.

(** The state of the table while [tree2table] fills it: rows of [ncols]
    cells, and [extra] row headers ahead of the rows. *)
Definition table_ok (ncols : nat) (extra : nat)
  (matrix : list (list value)) (row_headers : list value) : Prop :=
  Forall (fun row => List.length row = ncols) matrix
  /\ List.length row_headers = List.length matrix + extra.

(** The objects of a nesting of lists and tuples that are neither, from
    left to right. *)
Fixpoint atoms_of (v : value) : list value :=
  match v with
  | VList xs | VTuple xs =>
      (fix go (l : list value) : list value :=
         match l with
         | [] => []
         | x :: rest => atoms_of x ++ go rest
         end) xs
  | _ => [v]
  end.

Definition atoms (l : list value) : list value := flat_map atoms_of l.

(** Down to level [l] the tree holds dictionaries only, and what it
    holds at level [l] is None or a dictionary with a single entry whose
    value is no pandas object (decided). *)
Fixpoint collapsible (l : nat) (t : value) {struct t} : bool :=
  match t with
  | VDict items =>
      match l with
      | O => match items with
             | [(_, d)] => negb (is_frame d)
             | _ => false
             end
      | S l' =>
          (fix go (its : list (key * value)) : bool :=
             match its with
             | [] => true
             | (_, c) :: rest => collapsible l' c && go rest
             end) items
      end
  | VNone => match l with O => true | S _ => false end
  | _ => false
  end.

(** What a lookup finds once a dictionary with a single entry has given
    way to the value of that entry. *)
Definition collapsed (o : option value) : option value :=
  match o with
  | Some (VDict [(_, d)]) => Some d
  | other => other
  end.

(** Every object found above level [level] is a dictionary. *)
Definition dicts_above (level : nat) (t : value) : Prop :=
  forall q u, find t q = Some u -> List.length q < level -> is_dict u = true.

(** A tree of [h] levels of dictionaries with all its payloads on the
    last one, none of them None or a pandas object (decided). *)
Fixpoint leaves_at (h : nat) (t : value) {struct t} : bool :=
  match t with
  | VDict items =>
      match h with
      | O => false
      | S h' =>
          (fix go (its : list (key * value)) : bool :=
             match its with
             | [] => true
             | (_, c) :: rest => leaves_at h' c && go rest
             end) items
      end
  | VNone | VFrame _ => false
  | _ => match h with O => true | S _ => false end
  end.

(** [o] and [x] are the same path but for the keys of the levels [l1]
    and [l2], which are exchanged. *)
Definition swapped_full (l1 l2 : nat) (o x : path) : Prop :=
  exists o' x' suf, swapped l1 l2 o' x' /\ o = o' ++ suf /\ x = x' ++ suf.

(** The state of the new tree while [DataTree.swop] fills it. *)
Definition DataTree_swop_inv (T : value) (l1 l2 n : nat) (nt : value) : Prop :=
  wfb nt = true
  /\ dicts_above n nt
  /\ forall o x, swapped_full l1 l2 o x -> List.length o = n ->
                 find nt x = None \/ find nt x = find T o.

(** What the new tree holds of the old one stays in it. *)
Definition DataTree_swop_kept (T : value) (l1 l2 n : nat) (s s' : DataTree.t) : Prop :=
  forall o x, swapped_full l1 l2 o x -> List.length o = n ->
              find (DataTree._data s) x = find T o ->
              find (DataTree._data s') x = find T o.

(** The lengths of a prefix, an infix and a suffix of the loops. *)
Definition DataTree_swop_shape (l1 l2 n : nat)
  (pis : list (option key) * (list (option key) * list (option key))) : Prop :=
  List.length (_f (fst pis)) = l1
  /\ List.length (_f (fst (snd pis))) = l2 - l1 - 1
  /\ List.length (_f (snd (snd pis))) = n - l2 - 1.

(** The old path named by the labels [a], [b] and [pis] has been dealt
    with. *)
Definition DataTree_swop_done (T : value) (l1 l2 n : nat) (a b : key)
  (pis : list (option key) * (list (option key) * list (option key)))
  (s : DataTree.t) : Prop :=
  DataTree_swop_shape l1 l2 n pis
  /\ find (DataTree._data s)
       ((_f (fst pis) ++ b :: _f (fst (snd pis)) ++ [a]) ++ _f (snd (snd pis)))
     = find T ((_f (fst pis) ++ a :: _f (fst (snd pis)) ++ [b]) ++ _f (snd (snd pis))).

(** What the cache holds for a track and a slice. *)
Definition cached (items : list (key * value)) (track slice : string) : option value :=
  dict_get items (KStr (tokey track slice)).

(** All keys of the cache are strings (decided). *)
Definition string_keys (items : list (key * value)) : bool :=
  forallb (fun kv => match fst kv with KStr _ => true | _ => false end) items.







(** Neither a dictionary nor a pandas object, nor a list or tuple that
    holds one. *)
Fixpoint dict_free (v : value) : bool :=
  match v with
  | VDict _ | VFrame _ => false
  | VList xs | VTuple xs =>
      (fix go (l : list value) : bool :=
         match l with
         | [] => true
         | x :: rest => dict_free x && go rest
         end) xs
  | _ => true
  end.

(** A tree whose payloads are [dict_free]: no pandas object is stored in
    it, and no list or tuple in it holds a dictionary. *)
Fixpoint plain_payloads (v : value) : bool :=
  match v with
  | VDict items =>
      (fix go (l : list (key * value)) : bool :=
         match l with
         | [] => true
         | (_, c) :: rest => plain_payloads c && go rest
         end) items
  | _ => dict_free v
  end.

(** [t] without its level [l]: every dictionary found [l] levels down
    that holds a single entry gives way to the value of that entry, and
    everything else stays as it is. *)
Fixpoint cut (l : nat) (t : value) : value :=
  match l with
  | O => match t with
         | VDict [(_, d)] => d
         | _ => t
         end
  | S l' =>
      match t with
      | VDict items => VDict (map (fun kv => (fst kv, cut l' (snd kv))) items)
      | _ => t
      end
  end.

(** The levels named in [levels] cut out of [t] one after the other, in
    the order of the list. *)
Definition cut_levels (levels : list (nat * key)) (t : value) : value :=
  fold_left (fun t e => cut (fst e) t) levels t.

(** A path without its key number [l], when it has one. *)
Fixpoint remove_at (l : nat) (p : path) : path :=
  match p with
  | [] => []
  | x :: rest =>
      match l with
      | O => rest
      | S l' => x :: remove_at l' rest
      end
  end.

(** A path without its keys at the levels named in [levels], taken out
    one after the other in the order of the list. *)
Definition drop_keys (levels : list (nat * key)) (p : path) : path :=
  fold_left (fun p e => remove_at (fst e) p) levels p.

(** Every dictionary found [l] levels down holds exactly one entry. *)
Definition single_at (l : nat) (t : value) : Prop :=
  forall p items,
    find t p = Some (VDict items) -> List.length p = l ->
    exists k d, items = [(k, d)].

(** An object left as it is, or a single-entry dictionary that has given
    way to the value of its entry. *)
Definition kept_or_cut (u u' : value) : Prop := u' = u \/ u' = cut 0 u.

(** Two branches, each with the single label k above the single label
    x. *)
Definition two_single_levels : value :=
  VDict [(KStr "a", VDict [(KStr "k", VDict [(KStr "x", VInt 1)])]);
         (KStr "b", VDict [(KStr "k", VDict [(KStr "x", VInt 2)])])].

(** * Properties *)

(** ** removeEmptyLeaves *)

(** The final test of [removeEmptyLeaves] holds for every object. *)
Lemma final_test_always_true (w : value) :
  is_not_none w || differs_from_empty_string w = true.
Proof. destruct w; reflexivity. Qed.

(** Whatever is neither a dictionary nor a pandas object is kept. *)
Lemma removeEmptyLeaves_plain_leaf (w : value) :
  is_dict w = false -> (forall f, w <> VFrame f) ->
  removeEmptyLeaves w = (w, true).
Proof.
  intros Hd Hf. destruct w; simpl in *; try reflexivity; try discriminate.
  exfalso. apply (Hf f). reflexivity.
Qed.

(** C3 (the code against the claim).  On the tree with an empty branch
    a/b next to c the empty branch goes together with its parent, and a
    pandas object is empty exactly when it has no rows; but a leaf that is
    None, the empty string or an empty list is reported as not empty and
    stays in the tree. *)
Theorem removeEmptyLeaves_keeps_none_and_empty :
  removeEmptyLeaves
    (VDict [(KStr "a", VDict [(KStr "b", VDict [])]); (KStr "c", VInt 1)])
  = (VDict [(KStr "c", VInt 1)], true)
  /\ (forall f, removeEmptyLeaves (VFrame f) = (VFrame f, Nat.ltb 0 (frame_rows f)))
  /\ removeEmptyLeaves
       (VDict [(KStr "a", VNone); (KStr "b", VStr ""); (KStr "c", VList [])])
     = (VDict [(KStr "a", VNone); (KStr "b", VStr ""); (KStr "c", VList [])], true)
  /\ snd (removeEmptyLeaves VNone) = true
  /\ snd (removeEmptyLeaves (VStr "")) = true
  /\ snd (removeEmptyLeaves (VList [])) = true.
Proof. repeat split. Qed.

(** ** Looking up a path *)

(** The module-level [getLeaf] turns KeyError and TypeError into None. *)
Lemma getLeaf_no_KeyError_TypeError (p : path) :
  forall work, getLeaf work p <> Raise KeyError /\ getLeaf work p <> Raise TypeError.
Proof.
  induction p as [|x rest IH]; intros work; simpl.
  - split; discriminate.
  - destruct (py_getitem work x) as [w|e|]; [apply IH| |split; discriminate].
    destruct e; split; discriminate.
Qed.

(** [DataTree.getLeaf] never lets a KeyError through. *)
Lemma DataTree_getLeaf_no_KeyError (p : path) :
  forall work, DataTree.getLeaf_from work p <> Raise KeyError.
Proof.
  induction p as [|x rest IH]; intros work; simpl.
  - discriminate.
  - destruct (py_getitem work x) as [w|e|]; [apply IH| |discriminate].
    destruct e; discriminate.
Qed.

(** C4 (the code against the claim).  On the tree holding 5 under a, the
    path a/x descends below a leaf: [DataTree.getLeaf] lets the TypeError
    through where the module-level [getLeaf] answers None; and the
    module-level [getLeaf] lets an IndexError through when the path
    indexes a list leaf out of range. *)
Theorem getLeaf_below_leaf_raises :
  DataTree.getLeaf (DataTree.mk (VDict [(KStr "a", VInt 5)])) [KStr "a"; KStr "x"]
  = Raise TypeError
  /\ getLeaf (VDict [(KStr "a", VInt 5)]) [KStr "a"; KStr "x"] = Ok VNone
  /\ DataTree.getLeaf (DataTree.mk (VDict [(KStr "a", VInt 5)])) [KStr "b"; KStr "x"]
     = Ok VNone
  /\ getLeaf (VDict [(KStr "a", VList [VInt 5])]) [KStr "a"; KInt 3]
     = Raise IndexError.
Proof. repeat split. Qed.

(** ** tree2table *)

(** C6.  [tree2table] on the two-by-two tree gives the rows a, b, the
    columns x, y and the cells as display-strings; transposed, it gives
    the rows x, y, the columns a, b and the transposed cells. *)
Theorem tree2table_two_by_two :
  tree2table two_by_two false None
  = Ok ([[VStr "1"; VStr "2"]; [VStr "3"; VStr "4"]], ["a"; "b"], ["x"; "y"])
  /\ tree2table two_by_two true None
     = Ok ([[VStr "1"; VStr "3"]; [VStr "2"; VStr "4"]], ["x"; "y"], ["a"; "b"]).
Proof. split; vm_compute; reflexivity. Qed.

(** C7 (the code against the claim).  With [head = 1] the break leaves
    only the loop over the sub-rows: each later main row still adds its
    first row, so the two-row tree gives two rows; and a multi-level row
    adds all its sub-rows before [head] is looked at. *)
Theorem tree2table_head_not_cut :
  tree2table
    (VDict [(KStr "a", VDict [(KStr "x", VInt 1)]);
            (KStr "b", VDict [(KStr "x", VInt 2)])]) false (Some 1%Z)
  = Ok ([[VStr "1"]; [VStr "2"]], ["a"; "b"], ["x"])
  /\ tree2table
       (VDict [(KStr "a", VDict [(KStr "x", VList [VInt 1; VInt 2; VInt 3])]);
               (KStr "b", VDict [(KStr "x", VList [VInt 4])])]) false (Some 1%Z)
     = Ok ([[VStr "1"]; [VStr "2"]; [VStr "3"]; [VStr "4"]],
           ["a"; ""; ""; "b"], ["x"]).
Proof. split; vm_compute; reflexivity. Qed.

(** ** asDataFrame: no data, and trees that are not of uniform depth *)

(** C8.  Whatever pandas does, [asDataFrame] returns None for None and
    for an input of length zero, leaving it as it is; and when the depths
    that [getDepths] reports have a minimum that differs from their
    maximum it raises NotImplementedError with a message that names both,
    before touching the tree. *)
Theorem asDataFrame_no_data_and_uniform_depth
  (DataFrame_grid : value -> value -> value -> result frame)
  (DataFrame_records : list value -> list key -> result frame)
  (merge_leaves : value -> result frame) :
  asDataFrame DataFrame_grid DataFrame_records merge_leaves VNone = (VNone, Ok None)
  /\ asDataFrame DataFrame_grid DataFrame_records merge_leaves (VDict [])
     = (VDict [], Ok None)
  /\ (forall data levels mi ma,
        getDepths data = Ok levels ->
        list_min levels = Some mi ->
        list_max levels = Some ma ->
        mi <> ma ->
        asDataFrame DataFrame_grid DataFrame_records merge_leaves data
        = (data,
           Raise (NotImplementedError
                    ("data tree not of uniform depth, min=" ++ string_of_nat mi
                       ++ ", max=" ++ string_of_nat ma)%string))).
Proof.
  split; [reflexivity|]. split; [reflexivity|].
  intros data levels mi ma Hd Hmin Hmax Hne.
  destruct data as [ | | | | | |items]; try discriminate Hd.
  destruct items as [|kv items].
  - cbn in Hd. injection Hd as <-. discriminate Hmin.
  - unfold asDataFrame.
    change (py_len (VDict (kv :: items))) with (@Ok nat (S (List.length items))).
    cbv iota beta. rewrite Hd, Hmin, Hmax.
    apply Nat.eqb_neq in Hne. rewrite Hne. reflexivity.
Qed.

(** A run of C8 on the tree holding a leaf under a and a branch under b. *)
Lemma asDataFrame_not_uniform_witness :
  asDataFrame (fun _ _ _ => Outside) (fun _ _ => Outside) (fun _ => Outside)
    (VDict [(KStr "a", VInt 1); (KStr "b", VDict [(KStr "c", VInt 2)])])
  = (VDict [(KStr "a", VInt 1); (KStr "b", VDict [(KStr "c", VInt 2)])],
     Raise (NotImplementedError "data tree not of uniform depth, min=0, max=1")).
Proof.
  apply (proj2 (proj2 (asDataFrame_no_data_and_uniform_depth
                         (fun _ _ _ => Outside) (fun _ _ => Outside)
                         (fun _ => Outside)))
           (VDict [(KStr "a", VInt 1); (KStr "b", VDict [(KStr "c", VInt 2)])])
           [1; 0] 0 1).
  - reflexivity.
  - reflexivity.
  - reflexivity.
  - discriminate.
Defined.

(** ** Keys and dictionaries *)

Lemma key_eqb_eq (a : key) : forall b, key_eqb a b = true <-> a = b.
Proof.
  induction a as [s|z|parts IH] using key_ind'; intros b; destruct b as [t|y|ps];
    simpl; try (split; [discriminate | intros H; discriminate H]).
  - rewrite String.eqb_eq. split; [intros ->; reflexivity | intros H; now injection H].
  - rewrite Z.eqb_eq. split; [intros ->; reflexivity | intros H; now injection H].
  - revert ps. induction IH as [|x l Hx Hl IHl]; intros ps; destruct ps as [|y r];
      try (split; [discriminate | intros H; discriminate H]).
    + split; reflexivity.
    + rewrite Bool.andb_true_iff, Hx, IHl.
      split.
      * intros [-> H]. injection H as ->. reflexivity.
      * intros H. injection H as -> ->. split; reflexivity.
Qed.

Lemma key_eqb_refl (a : key) : key_eqb a a = true.
Proof. apply key_eqb_eq. reflexivity. Qed.

Lemma key_eqb_neq (a b : key) : key_eqb a b = false <-> a <> b.
Proof.
  split.
  - intros H E. apply key_eqb_eq in E. congruence.
  - intros H. destruct (key_eqb a b) eqn:E; [|reflexivity].
    apply key_eqb_eq in E. contradiction.
Qed.

Lemma key_eq_dec (a b : key) : {a = b} + {a <> b}.
Proof.
  destruct (key_eqb a b) eqn:E.
  - left. now apply key_eqb_eq.
  - right. now apply key_eqb_neq.
Defined.

Lemma dict_get_set_same items k v : dict_get (dict_set items k v) k = Some v.
Proof.
  induction items as [|[k' v'] rest IH]; simpl.
  - now rewrite key_eqb_refl.
  - destruct (key_eqb k k') eqn:E; simpl; rewrite E; [reflexivity | exact IH].
Qed.

Lemma dict_get_set_other items k k' v :
  k <> k' -> dict_get (dict_set items k v) k' = dict_get items k'.
Proof.
  intros Hne. induction items as [|[k0 v0] rest IH]; simpl.
  - assert (key_eqb k' k = false) as -> by (apply key_eqb_neq; congruence).
    reflexivity.
  - destruct (key_eqb k k0) eqn:E; simpl.
    + apply key_eqb_eq in E. subst k0.
      assert (key_eqb k' k = false) as -> by (apply key_eqb_neq; congruence).
      reflexivity.
    + destruct (key_eqb k' k0); [reflexivity | exact IH].
Qed.

Lemma seq_index_lt n z i : seq_index n z = Some i -> i < n.
Proof.
  unfold seq_index. intros H.
  destruct (0 <=? z)%Z eqn:E0.
  - destruct (z <? Z.of_nat n)%Z eqn:E1; [|discriminate].
    injection H as <-. lia.
  - destruct (0 <=? Z.of_nat n + z)%Z eqn:E1; [|discriminate].
    injection H as <-. lia.
Qed.

Lemma list_update_length {A : Type} (l : list A) i a :
  List.length (list_update l i a) = List.length l.
Proof.
  revert i. induction l as [|x r IH]; intros [|i]; simpl; try reflexivity.
  now rewrite IH.
Qed.

Lemma nth_error_list_update {A : Type} (l : list A) i a :
  i < List.length l -> nth_error (list_update l i a) i = Some a.
Proof.
  revert i. induction l as [|x r IH]; intros [|i] H; simpl in *; try lia.
  - reflexivity.
  - apply IH. lia.
Qed.

(** ** Setting then getting a path in a DataTree *)

(** What [store] put under [x] is what [work[x]] finds afterwards; a
    string is left out, its characters are objects of their own. *)
Lemma getitem_store work x child child' :
  (forall s, work <> VStr s) ->
  py_getitem work x = Ok child -> py_getitem (store work x child') x = Ok child'.
Proof.
  intros Hs.
  destruct work as [ | |s|xs|xs|f|items]; simpl; try discriminate.
  - exfalso. apply (Hs s). reflexivity.
  - destruct x as [t|z|ps]; try discriminate.
    destruct (seq_index (List.length xs) z) as [i|] eqn:E; [|discriminate].
    intros _. simpl. rewrite list_update_length, E.
    rewrite nth_error_list_update; [reflexivity | eapply seq_index_lt; eauto].
  - destruct x as [t|z|ps]; try discriminate.
    destruct (seq_index (List.length xs) z) as [i|] eqn:E; [|discriminate].
    intros _. simpl. rewrite list_update_length, E.
    rewrite nth_error_list_update; [reflexivity | eapply seq_index_lt; eauto].
  - intros _. now rewrite dict_get_set_same.
Qed.

Lemma DataTree_setLeaf_from_step work x y rest data :
  DataTree.setLeaf_from work (x :: y :: rest) data =
  match py_getitem work x with
  | Ok child =>
      child' <- DataTree.setLeaf_from child (y :: rest) data ;;
      Ok (store work x child')
  | Raise KeyError =>
      work1 <- py_setitem work x (VDict []) ;;
      child' <- DataTree.setLeaf_from (VDict []) (y :: rest) data ;;
      Ok (store work1 x child')
  | Raise e => Raise e
  | Outside => Outside
  end.
Proof. reflexivity. Qed.

Lemma DataTree_getLeaf_from_step work x rest :
  DataTree.getLeaf_from work (x :: rest) =
  match py_getitem work x with
  | Ok w => DataTree.getLeaf_from w rest
  | Raise KeyError => Ok VNone
  | Raise e => Raise e
  | Outside => Outside
  end.
Proof. reflexivity. Qed.

Lemma setLeaf_from_string (p : path) :
  forall s v w', DataTree.setLeaf_from (VStr s) p v <> Ok w'.
Proof.
  induction p as [|x rest IH]; intros s v w'; [discriminate|].
  destruct rest as [|y rest]; [discriminate|].
  rewrite DataTree_setLeaf_from_step.
  destruct (py_getitem (VStr s) x) as [child|e|] eqn:E; [| |discriminate].
  - assert (exists c, child = VStr c) as [c ->].
    { simpl in E. destruct x as [t|z|ps]; try discriminate.
      destruct (seq_index (String.length s) z); [|discriminate].
      destruct (string_nth s n); [|discriminate].
      injection E as <-. eauto. }
    destruct (DataTree.setLeaf_from (VStr c) (y :: rest) v) eqn:E'; simpl;
      try discriminate.
    exfalso. eapply IH. exact E'.
  - destruct e; discriminate.
Qed.

Lemma setLeaf_from_then_getLeaf_from (p : path) :
  forall work v work',
    p <> [] ->
    DataTree.setLeaf_from work p v = Ok work' ->
    DataTree.getLeaf_from work' p = Ok v.
Proof.
  induction p as [|x rest IH]; intros work v work' Hp H; [contradiction|].
  destruct rest as [|y rest].
  - cbn [DataTree.setLeaf_from] in H. cbn [DataTree.getLeaf_from].
    destruct work as [ | |s|xs|xs|f|items]; simpl in H; try discriminate.
    + destruct x as [t|z|ps]; try discriminate.
      destruct (seq_index (List.length xs) z) as [i|] eqn:E; [|discriminate].
      injection H as <-. simpl. rewrite list_update_length, E.
      rewrite nth_error_list_update; [reflexivity | eapply seq_index_lt; eauto].
    + injection H as <-. simpl. now rewrite dict_get_set_same.
  - rewrite DataTree_setLeaf_from_step in H.
    destruct (py_getitem work x) as [child|e|] eqn:E; [| |discriminate].
    + destruct (DataTree.setLeaf_from child (y :: rest) v) as [child'| |] eqn:E';
        simpl in H; try discriminate.
      injection H as <-.
      rewrite DataTree_getLeaf_from_step.
      rewrite (getitem_store work x child child').
      * apply (IH child); [discriminate | exact E'].
      * intros s ->. simpl in E. destruct x as [t|z|ps]; try discriminate.
        destruct (seq_index (String.length s) z); [|discriminate].
        destruct (string_nth s n); [|discriminate].
        injection E as <-. eapply setLeaf_from_string. exact E'.
      * exact E.
    + destruct e; try discriminate.
      destruct work as [ | |s|xs|xs|f|items]; cbn [py_setitem bind] in H;
        try discriminate.
      * destruct x as [t|z|ps]; try discriminate.
        simpl in E. destruct (seq_index (List.length xs) z) as [i|]; [|discriminate].
        destruct (nth_error xs i); discriminate.
      * destruct (DataTree.setLeaf_from (VDict []) (y :: rest) v) as [child'| |] eqn:E';
          cbn [bind store] in H; try discriminate.
        injection H as <-.
        rewrite DataTree_getLeaf_from_step. simpl py_getitem.
        rewrite dict_get_set_same.
        apply (IH (VDict [])); [discriminate | exact E'].
Qed.





(** ** Depths and levels of a plain tree *)

Lemma entries_dict items :
  entries (VDict items)
  = fold_right (fun kv acc => S (entries (snd kv) + acc)) 0 items.
Proof.
  induction items as [|[k c] rest IH]; [reflexivity|].
  change (entries (VDict ((k, c) :: rest)))
    with (S (entries c + entries (VDict rest))).
  rewrite IH. reflexivity.
Qed.

Lemma height_dict items :
  height (VDict items) = S (max_height (map snd items)).
Proof.
  enough (forall l,
             (fix go (l : list (key * value)) : nat :=
                match l with
                | [] => 0
                | (_, c) :: rest => Nat.max (height c) (go rest)
                end) l = max_height (map snd l)) as H.
  { simpl. now rewrite H. }
  induction l as [|[k c] rest IH]; [reflexivity|]. simpl. now rewrite IH.
Qed.

Lemma leaf_depths_dict level items :
  leaf_depths level (VDict items)
  = flat_map (fun kv => leaf_depths (S level) (snd kv)) items.
Proof.
  induction items as [|[k c] rest IH]; [reflexivity|].
  change (leaf_depths level (VDict ((k, c) :: rest)))
    with (leaf_depths (S level) c ++ leaf_depths level (VDict rest)).
  rewrite IH. reflexivity.
Qed.

Lemma plain_dict items :
  plain (VDict items) = true <->
  items <> [] /\ Forall (fun kv => plain (snd kv) = true) items.
Proof.
  enough (forall l,
             (fix go (l : list (key * value)) : bool :=
                match l with
                | [] => true
                | (_, c) :: rest => plain c && go rest
                end) l = true <-> Forall (fun kv => plain (snd kv) = true) l) as H.
  { simpl. rewrite Bool.andb_true_iff, H, Bool.negb_true_iff, Nat.eqb_neq.
    destruct items; simpl; intuition (try discriminate; try congruence). }
  induction l as [|[k c] rest IH]; simpl.
  - split; [constructor | reflexivity].
  - rewrite Bool.andb_true_iff, IH. split.
    + intros [? ?]. constructor; assumption.
    + intros H. inversion H; subst. split; assumption.
Qed.

Lemma stack_cost_cons e s : stack_cost (e :: s) = S (entries (snd e) + stack_cost s).
Proof. reflexivity. Qed.

Lemma stack_cost_app s1 s2 : stack_cost (s1 ++ s2) = stack_cost s1 + stack_cost s2.
Proof.
  unfold stack_cost. induction s1 as [|e s1 IH]; simpl; [reflexivity|].
  rewrite IH. lia.
Qed.

Lemma stack_cost_rev s : stack_cost (rev s) = stack_cost s.
Proof.
  induction s as [|e s IH]; [reflexivity|].
  simpl rev. rewrite stack_cost_app, IH. unfold stack_cost. simpl. lia.
Qed.

Lemma stack_cost_children level items :
  stack_cost (map (fun x : key * value => (level, snd x)) items)
  = entries (VDict items).
Proof.
  rewrite entries_dict. unfold stack_cost.
  induction items as [|[k c] rest IH]; simpl; [reflexivity|]. now rewrite IH.
Qed.

Lemma Forall_rev_iff {A : Type} (P : A -> Prop) (l : list A) :
  Forall P (rev l) <-> Forall P l.
Proof.
  rewrite !Forall_forall. split; intros H x Hx; apply H.
  - now apply in_rev in Hx.
  - now apply in_rev.
Qed.

(** The depths [getDepths] collects are those of the leaves below its
    stack, whatever the order. *)
Lemma getDepths_loop_Forall (P : nat -> Prop) (fuel : nat) :
  forall stack,
    stack_cost stack < fuel ->
    (Forall P (getDepths_loop fuel stack) <->
     Forall (fun e => Forall P (leaf_depths (fst e) (snd e))) stack).
Proof.
  induction fuel as [|fuel IH]; intros stack Hc; [lia|].
  destruct stack as [|[level v] rest].
  - simpl. split; constructor.
  - assert (Hrest : stack_cost rest < fuel).
    { rewrite stack_cost_cons in Hc. lia. }
    assert (Hleaf : is_dict v = false ->
                    getDepths_loop (S fuel) ((level, v) :: rest)
                    = level :: getDepths_loop fuel rest).
    { destruct v; simpl; try reflexivity; discriminate. }
    destruct v as [ | | | | | |items];
      try (rewrite (Hleaf eq_refl); rewrite Forall_cons_iff, (IH rest Hrest);
           rewrite (Forall_cons_iff _ (level, _) rest); simpl;
           rewrite Forall_cons_iff; intuition constructor).
    change (getDepths_loop (S fuel) ((level, VDict items) :: rest))
      with (getDepths_loop fuel
              (rev (map (fun x : key * value => (S level, snd x)) items) ++ rest)).
    rewrite IH.
    + rewrite Forall_app.
      rewrite (Forall_cons_iff _ (level, VDict items) rest).
      cbn [fst snd].
      rewrite leaf_depths_dict, Forall_flat_map, Forall_rev_iff, Forall_map.
      cbn [fst snd]. reflexivity.
    + rewrite stack_cost_app, stack_cost_rev, stack_cost_children.
      rewrite stack_cost_cons in Hc. cbn [snd] in Hc. lia.
Qed.

Lemma plain_not_frame v : plain v = true -> is_frame v = false.
Proof. destruct v; simpl; congruence. Qed.

(** Without a pandas object in the way, a round of [getPaths] collects
    the keys and the children of all dictionaries of the level. *)
Lemma collect_level_no_frame (l : list value) :
  Forall (fun v => is_frame v = false) l ->
  collect_level (filter has_keys l)
  = (flat_map keys_of l, flat_map children_of l).
Proof.
  induction 1 as [|v l Hv Hl IH]; [reflexivity|].
  destruct v; simpl in *; try exact IH; try discriminate.
  rewrite IH. reflexivity.
Qed.

Lemma max_height_app l1 l2 :
  max_height (l1 ++ l2) = Nat.max (max_height l1) (max_height l2).
Proof.
  unfold max_height. induction l1 as [|v l1 IH]; simpl; [reflexivity|].
  rewrite IH. lia.
Qed.

Lemma keys_nil_children_nil (l : list value) :
  flat_map keys_of l = [] -> flat_map children_of l = [].
Proof.
  induction l as [|v l IH]; [reflexivity|]. simpl. intros H.
  apply app_eq_nil in H as [Hk Hl]. rewrite (IH Hl), app_nil_r.
  destruct v; simpl in *; try reflexivity.
  destruct items; [reflexivity | discriminate].
Qed.

Lemma max_height_plain (l : list value) :
  Forall (fun v => plain v = true) l ->
  max_height l =
  match flat_map keys_of l with
  | [] => 0
  | _ :: _ => S (max_height (flat_map children_of l))
  end.
Proof.
  induction 1 as [|v l Hv Hl IH]; [reflexivity|].
  change (max_height (v :: l)) with (Nat.max (height v) (max_height l)).
  destruct v as [ | | | | | |items]; try exact IH; try discriminate.
  apply plain_dict in Hv as [Hne _].
  rewrite height_dict, IH.
  cbn [flat_map keys_of children_of]. rewrite max_height_app.
  destruct items as [|kv items]; [contradiction|].
  cbn [map app].
  destruct (flat_map keys_of l) eqn:E.
  - rewrite (keys_nil_children_nil l E). cbn [max_height fold_right]. lia.
  - lia.
Qed.

Lemma plain_children (l : list value) :
  Forall (fun v => plain v = true) l ->
  Forall (fun v => plain v = true) (flat_map children_of l).
Proof.
  induction 1 as [|v l Hv Hl IH]; [constructor|].
  simpl. apply Forall_app. split; [|exact IH].
  destruct v; simpl; try constructor.
  apply plain_dict in Hv as [_ Hc]. rewrite Forall_map. exact Hc.
Qed.

(** On plain trees, [getPaths] finds as many levels as the dictionaries
    are deep. *)
Lemma getPaths_loop_length (fuel : nat) :
  forall this_level,
    Forall (fun v => plain v = true) this_level ->
    max_height this_level < fuel ->
    List.length (getPaths_loop fuel this_level) = max_height this_level.
Proof.
  induction fuel as [|fuel IH]; intros l Hp Hf; [lia|].
  cbn [getPaths_loop].
  rewrite collect_level_no_frame
    by (eapply Forall_impl; [|exact Hp]; intros; now apply plain_not_frame).
  rewrite (max_height_plain l Hp) in *.
  destruct (flat_map keys_of l); [reflexivity|].
  cbn [List.length]. f_equal.
  apply IH; [now apply plain_children | lia].
Qed.

Lemma height_of_uniform_leaves (v : value) :
  forall level d,
    plain v = true ->
    Forall (eq d) (leaf_depths level v) ->
    level + height v = d.
Proof.
  induction v as [ | | | | | |items IH] using value_ind'; intros level d Hp Hd;
    try (simpl in *; inversion Hd; subst; lia).
  apply plain_dict in Hp as [Hne Hp].
  rewrite leaf_depths_dict, Forall_flat_map in Hd.
  rewrite height_dict.
  assert (Hall : Forall (fun kv => S level + height (snd kv) = d) items).
  { rewrite Forall_forall in *. intros kv Hin.
    apply IH; [exact Hin | now apply Hp | now apply Hd]. }
  clear IH Hp Hd.
  destruct items as [|kv items]; [contradiction|]. clear Hne.
  inversion Hall as [|? ? Hkv Hrest]; subst.
  enough (max_height (map snd (kv :: items)) = height (snd kv)) as -> by lia.
  cbn [map]. change (max_height (snd kv :: map snd items))
    with (Nat.max (height (snd kv)) (max_height (map snd items))).
  enough (max_height (map snd items) <= height (snd kv)) by lia.
  clear Hall. induction Hrest as [|kv' items' H' _ IH']; [simpl; lia|].
  cbn [map]. change (max_height (snd kv' :: map snd items'))
    with (Nat.max (height (snd kv')) (max_height (map snd items'))).
  lia.
Qed.

Lemma max_height_uniform (d : nat) (l : list value) :
  l <> [] -> Forall (fun v => height v = d) l -> max_height l = d.
Proof.
  intros Hne H. induction H as [|v l Hv Hl IH]; [contradiction|].
  change (max_height (v :: l)) with (Nat.max (height v) (max_height l)).
  destruct l as [|v' l']; [simpl; lia|].
  rewrite IH by discriminate. lia.
Qed.

(** C10.  On a tree of plain nested mappings (no pandas object, no empty
    dictionary) whose leaves all sit at the depth [d] that [getDepths]
    reports, [getPaths] returns exactly [d + 1] levels. *)
Theorem getPaths_length_uniform_depth (data : value) (levels : list nat) (d : nat) :
  plain data = true ->
  getDepths data = Ok levels ->
  Forall (eq d) levels ->
  List.length (getPaths data) = d + 1.
Proof.
  intros Hp Hd Hall.
  destruct data as [ | | | | | |items]; try discriminate Hd.
  assert (Hl : levels = getDepths_loop (S (entries (VDict items)))
                         (rev (map (fun x => (0, x)) (map snd items)))).
  { unfold getDepths in Hd. cbn [py_values py_items bind] in Hd. congruence. }
  clear Hd. subst levels.
  rewrite getDepths_loop_Forall in Hall.
  2:{ rewrite stack_cost_rev, map_map.
      rewrite (stack_cost_children 0 items). lia. }
  rewrite Forall_rev_iff, map_map, Forall_map in Hall. cbn [fst snd] in Hall.
  pose proof Hp as Hp'. apply plain_dict in Hp' as [Hne Hc].
  unfold getPaths.
  rewrite getPaths_loop_length.
  - change (max_height [VDict items]) with (Nat.max (height (VDict items)) 0).
    rewrite height_dict.
    rewrite (max_height_uniform d); [lia | |].
    + destruct items; [contradiction | discriminate].
    + rewrite Forall_map. rewrite Forall_forall in *. intros kv Hin.
      apply (height_of_uniform_leaves (snd kv) 0 d); [now apply Hc | now apply Hall].
  - constructor; [exact Hp | constructor].
  - change (max_height [VDict items]) with (Nat.max (height (VDict items)) 0). lia.
Qed.

(** A run of C10 on the two-by-two tree. *)
Lemma getPaths_length_uniform_depth_witness :
  List.length (getPaths two_by_two) = 1 + 1.
Proof.
  apply (getPaths_length_uniform_depth two_by_two [1; 1; 1; 1] 1).
  - reflexivity.
  - reflexivity.
  - repeat constructor.
Defined.

(** ** prune: which levels are collapsed *)

Lemma prune_keep_step data label prefix rest :
  prune_keep data label (prefix :: rest) =
  (leaves <- getLeaf data prefix ;;
   if is_not_none leaves then
     keep <- keep_test label leaves ;;
     if keep then Ok true else prune_keep data label rest
   else prune_keep data label rest).
Proof.
  cbn [prune_keep]. destruct (getLeaf data prefix) as [leaves| |]; try reflexivity.
  unfold keep_test.
  destruct leaves; cbn [bind is_not_none]; try reflexivity;
    (destruct (py_len _) as [n| |]; cbn [bind]; try reflexivity;
     destruct (1 <? n); try reflexivity;
     destruct (py_contains _ _) as [[|]| |]; reflexivity).
Qed.

Lemma keep_test_false label leaves :
  keep_test label leaves = Ok false <->
  (exists n, py_len leaves = Ok n /\ n <= 1) /\ py_contains label leaves = Ok true.
Proof.
  unfold keep_test. destruct (py_len leaves) as [n| |]; cbn [bind].
  - destruct (1 <? n) eqn:E.
    + apply Nat.ltb_lt in E. split; [discriminate|].
      intros [[m [Hm Hle]] _]. injection Hm as ->. lia.
    + apply Nat.ltb_ge in E.
      destruct (py_contains label leaves) as [[|]| |]; cbn [bind negb].
      * split; [|reflexivity]. intros _. split; [eauto | reflexivity].
      * split; [discriminate|]. intros [_ H]. discriminate H.
      * split; [discriminate|]. intros [_ H]. discriminate H.
      * split; [discriminate|]. intros [_ H]. discriminate H.
  - split; [discriminate|]. intros [[m [Hm _]] _]. discriminate Hm.
  - split; [discriminate|]. intros [[m [Hm _]] _]. discriminate Hm.
Qed.

Lemma is_not_none_false leaves : is_not_none leaves = false <-> leaves = VNone.
Proof. destruct leaves; simpl; split; congruence. Qed.

(** The loop over the prefixes ends without asking to keep the level
    exactly when the level is safe to collapse. *)
Lemma prune_keep_false data label prefixes :
  prune_keep data label prefixes = Ok false <->
  (forall prefix,
     In prefix prefixes ->
     exists leaves,
       getLeaf data prefix = Ok leaves
       /\ (leaves = VNone
           \/ ((exists n, py_len leaves = Ok n /\ n <= 1)
               /\ py_contains label leaves = Ok true))).
Proof.
  induction prefixes as [|prefix rest IH].
  - simpl. split; [intros _ ? []|reflexivity].
  - rewrite prune_keep_step. split.
    + intros H p [<-|Hin].
      * destruct (getLeaf data prefix) as [leaves| |]; try discriminate H.
        exists leaves. split; [reflexivity|]. cbn [bind] in H.
        destruct (is_not_none leaves) eqn:E.
        -- right. apply keep_test_false.
           destruct (keep_test label leaves) as [[|]| |]; try discriminate H.
           reflexivity.
        -- left. now apply is_not_none_false.
      * apply IH; [|exact Hin].
        destruct (getLeaf data prefix) as [leaves| |]; try discriminate H.
        cbn [bind] in H. destruct (is_not_none leaves); [|exact H].
        destruct (keep_test label leaves) as [[|]| |]; try discriminate H.
        exact H.
    + intros H. destruct (H prefix (or_introl eq_refl)) as [leaves [-> Hl]].
      cbn [bind].
      assert (Hrest : prune_keep data label rest = Ok false).
      { apply IH. intros p Hp. apply H. now right. }
      destruct Hl as [->|Hl]; [exact Hrest|].
      apply keep_test_false in Hl. rewrite Hl. cbn [bind].
      destruct (is_not_none leaves); exact Hrest.
Qed.

(** The levels the first loop of [prune] selects. *)
Lemma prune_scan_In data ignore data_paths levels :
  forall cands level label,
    prune_scan data ignore data_paths levels = Ok cands ->
    (In (level, label) cands <->
     In level levels
     /\ nth level data_paths [] = [label]
     /\ existsb (key_eqb label) ignore = false
     /\ prune_keep data label (getPrefixes data level) = Ok false).
Proof.
  induction levels as [|level0 rest IH]; intros cands level label H.
  - simpl in H. injection H as <-. simpl. tauto.
  - cbn [prune_scan] in H.
    assert (Hskip : forall cands',
               prune_scan data ignore data_paths rest = Ok cands' ->
               cands' = cands ->
               (level0 = level ->
                nth level data_paths [] = [label] ->
                existsb (key_eqb label) ignore = false ->
                prune_keep data label (getPrefixes data level) = Ok false ->
                False) ->
               In (level, label) cands <->
               In level (level0 :: rest)
               /\ nth level data_paths [] = [label]
               /\ existsb (key_eqb label) ignore = false
               /\ prune_keep data label (getPrefixes data level) = Ok false).
    { intros cands' Hs <- Hno. rewrite (IH cands' level label Hs). simpl.
      intuition. }
    destruct (nth level0 data_paths []) as [|label0 [|? ?]] eqn:En.
    + apply (Hskip cands H eq_refl). intros <-. congruence.
    + destruct (existsb (key_eqb label0) ignore) eqn:Ei.
      * apply (Hskip cands H eq_refl). intros <-. congruence.
      * destruct (prune_keep data label0 (getPrefixes data level0)) as [keep| |] eqn:Ek;
          try discriminate H.
        cbn [bind] in H.
        destruct (prune_scan data ignore data_paths rest) as [more| |] eqn:Es;
          try discriminate H.
        cbn [bind] in H. injection H as <-.
        destruct keep.
        -- apply (Hskip more eq_refl eq_refl). intros <-. congruence.
        -- simpl. rewrite (IH more level label eq_refl). split.
           ++ intros [Heq|Hin].
              ** injection Heq as <- <-. auto.
              ** intuition.
           ++ intros [[<-|Hin] [Hn [Hi Hk]]].
              ** left. congruence.
              ** right. auto.
    + apply (Hskip cands H eq_refl). intros <-. congruence.
Qed.

(** The second loop of [prune] removes every selected level below the
    top without further test. *)
Lemma prune_apply_front front :
  forall data nlevels tail data' pruned,
    Forall (fun e => below_top e = true) front ->
    prune_apply data nlevels (front ++ tail) = Ok (data', pruned) ->
    exists data1 pruned_tail,
      prune_apply data1 (nlevels - List.length front) tail = Ok (data', pruned_tail)
      /\ pruned = front ++ pruned_tail.
Proof.
  induction front as [|[level label] front IH];
    intros data nlevels tail data' pruned Hf H.
  - exists data, pruned. rewrite Nat.sub_0_r. auto.
  - inversion Hf as [|? ? Hlevel Hfront]; subst.
    unfold below_top in Hlevel. cbn [fst] in Hlevel.
    cbn [app prune_apply] in H.
    destruct (level =? 0); [discriminate Hlevel|]. cbn [andb] in H.
    destruct (removeLevel data level) as [d1| |]; try discriminate H.
    cbn [bind] in H.
    destruct (prune_apply d1 (nlevels - 1) (front ++ tail)) as [[d2 pr]| |] eqn:E;
      try discriminate H.
    cbn [bind] in H. injection H as <- <-.
    destruct (IH d1 (nlevels - 1) tail d2 pr Hfront E) as [d3 [pt [Ht ->]]].
    exists d3, pt. split; [|reflexivity].
    replace (nlevels - List.length ((level, label) :: front))
      with (nlevels - 1 - List.length front) by (simpl; lia).
    exact Ht.
Qed.

Lemma prune_scan_cons data ignore data_paths level0 rest cands :
  prune_scan data ignore data_paths (level0 :: rest) = Ok cands ->
  exists c0 crest,
    prune_scan data ignore data_paths rest = Ok crest
    /\ cands = c0 ++ crest
    /\ (c0 = [] \/ exists label0, c0 = [(level0, label0)]).
Proof.
  cbn [prune_scan]. intros H.
  destruct (nth level0 data_paths []) as [|label0 [|? ?]];
    try solve [exists [], cands; auto].
  destruct (existsb (key_eqb label0) ignore); [exists [], cands; auto|].
  destruct (prune_keep data label0 (getPrefixes data level0)) as [keep| |];
    try discriminate H.
  cbn [bind] in H.
  destruct (prune_scan data ignore data_paths rest) as [more| |];
    try discriminate H.
  cbn [bind] in H. injection H as <-.
  destruct keep.
  - exists [], more. auto.
  - exists [(level0, label0)], more. eauto.
Qed.

Lemma filter_below_top_all l :
  Forall (fun e => below_top e = true) l -> filter below_top l = l.
Proof.
  induction 1 as [|e l He Hl IH]; [reflexivity|]. simpl. now rewrite He, IH.
Qed.

(** Which levels [prune] reports.  For a level whose only label is
    [label], not in the ignore list, a run of [prune] that returns
    reports the level exactly when every prefix of the level leads to
    nothing or to an object that holds [label] and no second key, and,
    for level 0, the removal of the deeper levels has not left it the
    only level. *)
Lemma prune_reports_level
  (data : value) (ignore : list key) (data' : value)
  (pruned : list (nat * key)) (level : nat) (label : key) :
  prune data ignore = Ok (data', pruned) ->
  nth level (getPaths (fst (removeEmptyLeaves data))) [] = [label] ->
  existsb (key_eqb label) ignore = false ->
  (In (level, label) pruned <->
   collapse_safe (fst (removeEmptyLeaves data)) level label
   /\ (level = 0 ->
       List.length (getPaths (fst (removeEmptyLeaves data)))
       - List.length (filter below_top pruned) <> 1)).
Proof.
  unfold prune. set (data1 := fst (removeEmptyLeaves data)).
  set (paths := getPaths data1). set (n := List.length paths).
  intros H Hnth Hign.
  assert (Hlt : level < n).
  { destruct (Nat.lt_ge_cases level n) as [Hl|Hl]; [exact Hl|].
    rewrite nth_overflow in Hnth by exact Hl. discriminate. }
  destruct (prune_scan data1 ignore paths (seq 0 n)) as [cands| |] eqn:Es;
    try discriminate H.
  cbn [bind] in H.
  pose proof (prune_scan_In data1 ignore paths (seq 0 n) cands level label Es) as Hin.
  rewrite in_seq in Hin.
  assert (Hcand : In (level, label) cands <-> collapse_safe data1 level label).
  { rewrite Hin. unfold collapse_safe. rewrite <- prune_keep_false.
    fold paths. intuition lia. }
  clear Hin.
  destruct n as [|n']; [lia|]. cbn [seq] in Es.
  destruct (prune_scan_cons _ _ _ _ _ _ Es) as [c0 [crest [Hrest [-> Hc0]]]].
  assert (Hcrest : Forall (fun e => below_top e = true) crest).
  { apply Forall_forall. intros [lv lb] He.
    apply (prune_scan_In data1 ignore paths (seq 1 n') crest lv lb Hrest) in He.
    destruct He as [He _]. apply in_seq in He. unfold below_top. cbn [fst].
    destruct lv; [lia | reflexivity]. }
  rewrite rev_app_distr in H.
  destruct (prune_apply_front (rev crest) data1 (S n') (rev c0) data' pruned)
    as [d1 [pruned_tail [Ht ->]]]; [now apply Forall_rev | exact H |].
  rewrite length_rev in Ht.
  rewrite filter_app, (filter_below_top_all (rev crest)) by now apply Forall_rev.
  assert (Hnotfront : level = 0 -> ~ In (level, label) crest).
  { intros -> Hi. rewrite Forall_forall in Hcrest.
    specialize (Hcrest _ Hi). discriminate Hcrest. }
  rewrite in_app_iff, <- in_rev. rewrite in_app_iff in Hcand.
  destruct Hc0 as [->|[label0 ->]].
  - (* level 0 was not selected *)
    cbn [rev prune_apply] in Ht. injection Ht as <- <-.
    cbn [filter]. rewrite app_nil_r, length_rev.
    simpl in Hcand. split.
    + intros [Hi|[]]. split; [tauto|]. intros ->. exfalso. now apply Hnotfront in Hi.
    + intros [Hs _]. left. tauto.
  - cbn [rev app] in Ht. cbn [prune_apply] in Ht.
    cbn [Nat.eqb andb] in Ht.
    destruct (S n' - List.length crest =? 1) eqn:Em.
    + (* level 0 is the only level left: it is skipped *)
      injection Ht as <- <-. cbn [filter]. rewrite app_nil_r, length_rev.
      apply Nat.eqb_eq in Em. split.
      * intros [Hi|[]]. split; [tauto|]. intros ->. exfalso. now apply Hnotfront in Hi.
      * intros [Hs Hz]. left.
        destruct (proj2 Hcand Hs) as [[Heq|[]]|Hi]; [|exact Hi].
        injection Heq as <- <-. exfalso. now apply Hz.
    + destruct (removeLevel d1 0) as [d2| |]; try discriminate Ht.
      cbn [bind prune_apply] in Ht. injection Ht as <- <-.
      cbn [filter below_top fst Nat.eqb negb]. rewrite app_nil_r, length_rev.
      apply Nat.eqb_neq in Em. split.
      * intros [Hi|[Heq|[]]].
        -- split; [tauto|]. intros ->. exfalso. now apply Hnotfront in Hi.
        -- injection Heq as <- <-. split; [|intros _; exact Em].
           apply Hcand. left. now left.
      * intros [Hs _]. destruct (proj2 Hcand Hs) as [[Heq|[]]|Hi].
        -- right. now left.
        -- now left.
Qed.

(** C1 as stated fails: in the tree whose only branch a holds x and y,
    level 0 has the single label a; the root holds one key and holds a,
    so the stated condition fails at the only prefix, and [prune] removes
    the level all the same. *)
Lemma prune_collapses_against_stated_condition :
  prune (VDict [(KStr "a", VDict [(KStr "x", VInt 1); (KStr "y", VInt 2)])]) []
  = Ok (VDict [(KStr "x", VInt 1); (KStr "y", VInt 2)], [(0, KStr "a")])
  /\ nth 0 (getPaths
              (fst (removeEmptyLeaves
                      (VDict [(KStr "a",
                               VDict [(KStr "x", VInt 1); (KStr "y", VInt 2)])]))))
       [] = [KStr "a"]
  /\ ~ stated_collapse_condition
         (fst (removeEmptyLeaves
                 (VDict [(KStr "a",
                          VDict [(KStr "x", VInt 1); (KStr "y", VInt 2)])])))
         0 (KStr "a").
Proof.
  split; [reflexivity|]. split; [reflexivity|].
  intros H. destruct (H [] (or_introl eq_refl)) as [leaves [Hl Hc]].
  injection Hl as <-. destruct Hc as [[n [Hn Hlt]]|Hc].
  - injection Hn as <-. simpl in Hlt. lia.
  - discriminate Hc.
Qed.

(** ** Paths through dictionaries *)

Lemma dict_get_In items k c : dict_get items k = Some c -> In (k, c) items.
Proof.
  induction items as [|[k' v'] rest IH]; simpl; [discriminate|].
  destruct (key_eqb k k') eqn:E.
  - apply key_eqb_eq in E. subst. intros H. injection H as ->. now left.
  - intros H. right. now apply IH.
Qed.

Lemma existsb_key_eqb_In k l : existsb (key_eqb k) l = true <-> In k l.
Proof.
  rewrite existsb_exists. split.
  - intros [x [Hx E]]. apply key_eqb_eq in E. now subst.
  - intros H. exists k. split; [exact H | apply key_eqb_refl].
Qed.

Lemma nodupb_NoDup l : nodupb l = true <-> NoDup l.
Proof.
  induction l as [|x rest IH]; simpl.
  - split; [constructor | reflexivity].
  - rewrite Bool.andb_true_iff, Bool.negb_true_iff, IH. split.
    + intros [Hn Hd]. constructor; [|exact Hd].
      intros Hin. apply existsb_key_eqb_In in Hin. congruence.
    + intros H. inversion H as [|? ? Hn Hd]; subst. split; [|exact Hd].
      destruct (existsb (key_eqb x) rest) eqn:E; [|reflexivity].
      apply existsb_key_eqb_In in E. contradiction.
Qed.

Lemma In_dict_get items k c :
  NoDup (map fst items) -> In (k, c) items -> dict_get items k = Some c.
Proof.
  induction items as [|[k' v'] rest IH]; simpl; [intros _ []|].
  intros Hnd [Heq|Hin].
  - injection Heq as -> ->. now rewrite key_eqb_refl.
  - inversion Hnd as [|? ? Hn Hd]; subst.
    destruct (key_eqb k k') eqn:E.
    + apply key_eqb_eq in E. subst. exfalso. apply Hn.
      apply in_map_iff. exists (k', c). auto.
    + now apply IH.
Qed.

Lemma wfb_dict items :
  wfb (VDict items) = true <->
  NoDup (map fst items) /\ Forall (fun kv => wfb (snd kv) = true) items.
Proof.
  enough (forall l,
             (fix go (l : list (key * value)) : bool :=
                match l with
                | [] => true
                | (_, c) :: rest => wfb c && go rest
                end) l = true <-> Forall (fun kv => wfb (snd kv) = true) l) as H.
  { simpl. now rewrite Bool.andb_true_iff, H, nodupb_NoDup. }
  induction l as [|[k c] rest IH]; simpl.
  - split; [constructor | reflexivity].
  - rewrite Bool.andb_true_iff, IH. split.
    + intros [? ?]. constructor; assumption.
    + intros H. inversion H; subst. split; assumption.
Qed.

Lemma find_walk (p : path) : forall v u, find v p = Some u -> walk v p u.
Proof.
  induction p as [|k r IH]; intros v u H; simpl in *.
  - congruence.
  - destruct v; try discriminate.
    destruct (dict_get items k) as [c|] eqn:E; [|discriminate].
    exists c. split; [now apply dict_get_In | now apply IH].
Qed.

Lemma walk_find (p : path) :
  forall v u, wfb v = true -> walk v p u -> find v p = Some u.
Proof.
  induction p as [|k r IH]; intros v u Hw H; simpl in *.
  - congruence.
  - destruct v; try contradiction.
    destruct H as [c [Hin Hc]]. apply wfb_dict in Hw as [Hnd Hall].
    rewrite (In_dict_get items k c Hnd Hin).
    apply IH; [|exact Hc]. rewrite Forall_forall in Hall. apply (Hall _ Hin).
Qed.

Lemma nodes_cost_cons e s :
  nodes_cost (e :: s) = S (entries (snd (snd e)) + nodes_cost s).
Proof. reflexivity. Qed.

Lemma nodes_cost_app s1 s2 : nodes_cost (s1 ++ s2) = nodes_cost s1 + nodes_cost s2.
Proof.
  induction s1 as [|e s1 IH]; [reflexivity|].
  cbn [app]. rewrite !nodes_cost_cons, IH. lia.
Qed.

Lemma nodes_cost_children (n : path) (l : nat) items :
  nodes_cost (map (fun x : key * value => (n, l, x)) items) = entries (VDict items).
Proof.
  rewrite entries_dict.
  induction items as [|[k c] rest IH]; [reflexivity|].
  cbn [map]. rewrite nodes_cost_cons, IH. reflexivity.
Qed.

(** What [getNodes] yields: the objects reached from an entry of its
    stack at the level asked for, each with its full path. *)
Lemma getNodes_loop_In (level : Z) (fuel : nat) :
  forall stack q u,
    nodes_cost stack < fuel ->
    (In (q, u) (getNodes_loop fuel level stack) <->
     exists p l k v r,
       In (p, l, (k, v)) stack
       /\ q = p ++ k :: r
       /\ walk v r u
       /\ Z.of_nat (l + List.length r) = level).
Proof.
  induction fuel as [|fuel IH]; intros stack q u Hc; [lia|].
  destruct stack as [|[[p l] [k v]] rest].
  - simpl. split; [intros [] | intros [? [? [? [? [? [[] _]]]]]]].
  - rewrite nodes_cost_cons in Hc. cbn [snd] in Hc.
    set (more := match v with
                 | VDict items => map (fun x => (p ++ [k], S l, x)) items
                 | _ => []
                 end).
    assert (Hmore : nodes_cost more = entries v).
    { subst more. destruct v; try reflexivity. apply nodes_cost_children. }
    assert (Htail : In (q, u) (getNodes_loop fuel level (rest ++ more)) <->
                    exists p' l' k' v' r,
                      In (p', l', (k', v')) (rest ++ more)
                      /\ q = p' ++ k' :: r
                      /\ walk v' r u
                      /\ Z.of_nat (l' + List.length r) = level).
    { apply IH. rewrite nodes_cost_app, Hmore. lia. }
    assert (Hstep : In (q, u) (getNodes_loop (S fuel) level ((p, l, (k, v)) :: rest)) <->
                    ((Z.of_nat l = level /\ q = p ++ [k] /\ u = v)
                     \/ In (q, u) (getNodes_loop fuel level (rest ++ more)))).
    { cbn [getNodes_loop]. fold more.
      destruct (Z.of_nat l =? level)%Z eqn:E.
      - apply Z.eqb_eq in E. simpl. split.
        + intros [Heq|Hin]; [left | now right].
          injection Heq as <- <-. auto.
        + intros [[_ [-> ->]]|Hin]; [now left | now right].
      - apply Z.eqb_neq in E. split; [now right|].
        intros [[Hl _]|Hin]; [contradiction | exact Hin]. }
    rewrite Hstep, Htail. clear Hstep Htail IH. split.
    + intros [[Hl [-> ->]]|[p' [l' [k' [v' [r [Hin [-> [Hw Hlen]]]]]]]]].
      * exists p, l, k, v, []. simpl. repeat split; [now left | lia].
      * apply in_app_iff in Hin as [Hin|Hin].
        -- exists p', l', k', v', r. repeat split; auto. now right.
        -- subst more. destruct v; try contradiction.
           apply in_map_iff in Hin as [[k0 c0] [Heq Hin]].
           injection Heq as <- <- <- <-.
           exists p, l, k, (VDict items), (k0 :: r).
           split; [now left|]. split; [now rewrite <- app_assoc|].
           split; [simpl; eauto|]. simpl. lia.
    + intros [p' [l' [k' [v' [r [[Heq|Hin] [-> [Hw Hlen]]]]]]]].
      * injection Heq as <- <- <- <-.
        destruct r as [|k0 r].
        -- left. simpl in *. subst. repeat split. lia.
        -- right. simpl in Hw. destruct v; try contradiction.
           destruct Hw as [c [Hin Hw]].
           exists (p ++ [k]), (S l), k0, c, r.
           split; [|split; [now rewrite <- app_assoc | split; [exact Hw|simpl in *; lia]]].
           apply in_app_iff. right. subst more.
           apply in_map_iff. exists (k0, c). auto.
      * right. exists p', l', k', v', r. repeat split; auto.
        apply in_app_iff. now left.
Qed.

Lemma setLeaf_step work x y rest data :
  setLeaf work (x :: y :: rest) data =
  match py_getitem work x with
  | Ok child =>
      child' <- setLeaf child (y :: rest) data ;;
      Ok (store work x child')
  | Raise KeyError =>
      work1 <- py_setitem work x (VDict []) ;;
      child' <- setLeaf (VDict []) (y :: rest) data ;;
      Ok (store work1 x child')
  | Raise e => Raise e
  | Outside => Outside
  end.
Proof. reflexivity. Qed.

Lemma getLeaf_step work x rest :
  getLeaf work (x :: rest) =
  match py_getitem work x with
  | Ok w => getLeaf w rest
  | Raise KeyError => Ok VNone
  | Raise TypeError => Ok VNone
  | Raise e => Raise e
  | Outside => Outside
  end.
Proof. reflexivity. Qed.

Lemma dict_set_set items x a b :
  dict_set (dict_set items x a) x b = dict_set items x b.
Proof.
  induction items as [|[k v] rest IH]; simpl.
  - now rewrite key_eqb_refl.
  - destruct (key_eqb x k) eqn:E; simpl; rewrite E; [reflexivity | now rewrite IH].
Qed.

Lemma settable_empty p : settable (VDict []) p = true.
Proof. destruct p as [|x [|y rest]]; reflexivity. Qed.

(** Along dictionaries, [setLeaf] is [insert]. *)
Lemma setLeaf_insert (p : path) :
  forall work v,
    p <> [] -> settable work p = true -> setLeaf work p v = Ok (insert work p v).
Proof.
  induction p as [|x rest IH]; intros work v Hp Hs; [contradiction|].
  destruct work as [ | | | | | |items]; try discriminate Hs.
  destruct rest as [|y rest]; [reflexivity|].
  rewrite setLeaf_step. cbn [settable] in Hs. cbn [py_getitem insert].
  destruct (dict_get items x) as [child|] eqn:E.
  - rewrite (IH child v) by (discriminate || exact Hs). reflexivity.
  - cbn [py_setitem bind].
    rewrite (IH (VDict []) v) by (discriminate || apply settable_empty).
    cbn [bind store]. now rewrite dict_set_set.
Qed.

Lemma find_settable (p : path) :
  forall work b, find work p = Some b -> settable work p = true.
Proof.
  induction p as [|x rest IH]; intros work b H; [reflexivity|].
  cbn [find] in H. destruct work; try discriminate H. cbn [settable].
  destruct rest as [|y rest]; [reflexivity|].
  destruct (dict_get items x) as [c|]; [|reflexivity].
  now apply (IH c b).
Qed.

Lemma find_insert_same (p : path) :
  forall work v, settable work p = true -> find (insert work p v) p = Some v.
Proof.
  induction p as [|x rest IH]; intros work v Hs; [reflexivity|].
  destruct work as [ | | | | | |items]; try discriminate Hs.
  cbn [insert find]. rewrite dict_get_set_same.
  apply IH. cbn [settable] in Hs.
  destruct rest as [|y rest]; [reflexivity|].
  destruct (dict_get items x); [exact Hs | apply settable_empty].
Qed.

Lemma find_insert_other (p : path) :
  forall q work v,
    List.length p = List.length q -> p <> q ->
    find (insert work p v) q = find work q.
Proof.
  induction p as [|x p' IH]; intros q work v Hlen Hne.
  - destruct q; [contradiction | discriminate].
  - destruct q as [|y q']; [discriminate|].
    destruct work as [ | | | | | |items]; try reflexivity.
    cbn [insert find].
    destruct (key_eq_dec x y) as [<-|Hxy].
    + rewrite dict_get_set_same.
      assert (Hne' : p' <> q') by congruence.
      rewrite IH by (simpl in Hlen; congruence).
      destruct (dict_get items x); [reflexivity|].
      destruct q'; [|reflexivity].
      destruct p'; [contradiction | discriminate].
    + now rewrite dict_get_set_other.
Qed.

(** ** Trees that agree down to a level *)

Lemma agree_refl n R : (forall v, R v v) -> forall v, agree n R v v.
Proof.
  intros HR. induction n as [|m IH]; intros v; [apply HR|].
  destruct v; try reflexivity. cbn [agree].
  induction items as [|kv rest IHl]; constructor; auto.
Qed.

Lemma agree_dict m R items v' :
  agree (S m) R (VDict items) v' ->
  exists items',
    v' = VDict items'
    /\ Forall2 (fun kv kv' => fst kv = fst kv' /\ agree m R (snd kv) (snd kv'))
         items items'.
Proof.
  cbn [agree]. destruct v'; try discriminate. eauto.
Qed.

Lemma Forall2_dict_get (Q : value -> value -> Prop) items items' x c :
  Forall2 (fun kv kv' => fst kv = fst kv' /\ Q (snd kv) (snd kv')) items items' ->
  dict_get items x = Some c ->
  exists c', dict_get items' x = Some c' /\ Q c c'.
Proof.
  induction 1 as [|[k a] [k' a'] l l' [Hk Ha] Hl IH]; simpl; [discriminate|].
  cbn [fst snd] in *. subst k'.
  destruct (key_eqb x k); [|exact IH].
  intros H. injection H as <-. eauto.
Qed.

Lemma Forall2_dict_set (Q : value -> value -> Prop) items items' x c c' :
  Forall2 (fun kv kv' => fst kv = fst kv' /\ Q (snd kv) (snd kv')) items items' ->
  dict_get items x = Some c ->
  Q c c' ->
  Forall2 (fun kv kv' => fst kv = fst kv' /\ Q (snd kv) (snd kv'))
    items (dict_set items' x c').
Proof.
  induction 1 as [|[k a] [k' a'] l l' [Hk Ha] Hl IH]; simpl; [discriminate|].
  cbn [fst snd] in *. subst k'.
  destruct (key_eqb x k).
  - intros H HQ. injection H as <-. constructor; auto.
  - intros H HQ. constructor; auto.
Qed.


Lemma agree_insert n R :
  forall v v' p b new,
    agree n R v v' -> List.length p = n -> find v p = Some b -> R b new ->
    agree n R v (insert v' p new).
Proof.
  induction n as [|m IH]; intros v v' p b new Ha Hl Hf HR.
  - destruct p; [|discriminate]. simpl in Hf. injection Hf as <-. exact HR.
  - destruct p as [|x rest]; [discriminate|].
    cbn [find] in Hf. destruct v as [ | | | | | |items]; try discriminate Hf.
    destruct (agree_dict _ _ _ _ Ha) as [items' [-> HF]].
    destruct (dict_get items x) as [c|] eqn:E; [|discriminate].
    destruct (Forall2_dict_get _ _ _ _ _ HF E) as [c' [E' Hc]].
    cbn [insert agree]. rewrite E'.
    apply (Forall2_dict_set (agree m R) items items' x c); auto.
    apply (IH c c' rest b new); auto.
Qed.

(** ** asDataFrame: what the special cases rewrite *)

Section Normalisation.

Variable DataFrame_grid : value -> value -> value -> result frame.
Variable DataFrame_records : list value -> list key -> result frame.
Variable merge_leaves : value -> result frame.








End Normalisation.




(** ** Lookups after an insertion *)

Lemma find_app (p : path) :
  forall work r,
    find work (p ++ r) = match find work p with
                         | Some w => find w r
                         | None => None
                         end.
Proof.
  induction p as [|x p IH]; intros work r; [reflexivity|].
  cbn [app find]. destruct work; try reflexivity.
  destruct (dict_get items x); [apply IH | reflexivity].
Qed.

(** Where every object above the end of the path is a dictionary,
    [getLeaf] finds what [find] finds, and None where it finds nothing. *)
Lemma getLeaf_find (p : path) :
  forall work,
    (forall q u, find work q = Some u -> List.length q < List.length p ->
                 is_dict u = true) ->
    getLeaf work p = Ok match find work p with
                        | Some v => v
                        | None => VNone
                        end.
Proof.
  induction p as [|x rest IH]; intros work Hd; [reflexivity|].
  pose proof (Hd [] work eq_refl ltac:(simpl; lia)) as Hroot.
  destruct work as [ | | | | | |items]; try discriminate Hroot.
  rewrite getLeaf_step. cbn [py_getitem find].
  destruct (dict_get items x) as [c|] eqn:E; [|reflexivity].
  apply IH. intros q u Hq Hlen. apply (Hd (x :: q)); [|simpl; lia].
  cbn [find]. now rewrite E.
Qed.

Lemma find_getLeaf (p : path) :
  forall work w r, find work p = Some w -> getLeaf work (p ++ r) = getLeaf w r.
Proof.
  induction p as [|x p IH]; intros work w r H.
  - simpl in H. injection H as <-. reflexivity.
  - cbn [find] in H. destruct work; try discriminate H.
    destruct (dict_get items x) as [c|] eqn:E; [|discriminate H].
    cbn [app]. rewrite getLeaf_step. cbn [py_getitem]. rewrite E.
    now apply IH.
Qed.

Lemma settable_child items x y rest :
  settable (VDict items) (x :: y :: rest) = true ->
  settable match dict_get items x with
           | Some child => child
           | None => VDict []
           end (y :: rest) = true.
Proof.
  change (settable (VDict items) (x :: y :: rest))
    with (match dict_get items x with
          | Some child => settable child (y :: rest)
          | None => true
          end).
  destruct (dict_get items x); [auto|].
  intros _. apply settable_empty.
Qed.

Lemma find_insert_prefix (p : path) :
  forall work v r,
    settable work p = true -> find (insert work p v) (p ++ r) = find v r.
Proof.
  induction p as [|x rest IH]; intros work v r Hs; [reflexivity|].
  destruct work as [ | | | | | |items]; try discriminate Hs.
  cbn [insert app find]. rewrite dict_get_set_same.
  destruct rest as [|y rest]; [reflexivity|].
  apply IH. now apply settable_child.
Qed.

Lemma find_insert_diverge (p : path) :
  forall q m work v,
    firstn m p <> firstn m q ->
    m <= List.length p -> m <= List.length q ->
    find (insert work p v) q = find work q.
Proof.
  induction p as [|x p' IH]; intros q m work v Hne Hp Hq.
  - simpl in Hp. assert (m = 0) as -> by lia. now contradiction Hne.
  - destruct m as [|m']; [now contradiction Hne|].
    destruct q as [|y q']; [simpl in Hq; lia|].
    destruct work as [ | | | | | |items]; try reflexivity.
    cbn [insert find].
    destruct (key_eq_dec x y) as [<-|Hxy].
    + rewrite dict_get_set_same.
      assert (Hne' : firstn m' p' <> firstn m' q').
      { intros E. apply Hne. cbn [firstn]. now rewrite E. }
      rewrite (IH q' m') by (simpl in *; auto; lia).
      destruct (dict_get items x); [reflexivity|].
      destruct q' as [|z q'']; [|reflexivity].
      destruct m'; [now contradiction Hne' | simpl in Hq; lia].
    + now rewrite dict_get_set_other.
Qed.

Lemma find_insert_proper_prefix (q : path) :
  forall work r v,
    r <> [] -> settable work (q ++ r) = true ->
    exists items, find (insert work (q ++ r) v) q = Some (VDict items).
Proof.
  induction q as [|y q IH]; intros work r v Hr Hs.
  - destruct r as [|x r]; [contradiction|].
    destruct work; try discriminate Hs. cbn [app insert find]. eauto.
  - destruct work as [ | | | | | |items]; try discriminate Hs.
    cbn [app insert find]. rewrite dict_get_set_same.
    apply IH; [exact Hr|].
    cbn [app] in Hs. destruct (q ++ r) as [|z t] eqn:E.
    + apply app_eq_nil in E as [_ ->]. contradiction.
    + now apply settable_child.
Qed.

Lemma dict_set_keys items x v :
  map fst (dict_set items x v)
  = if existsb (key_eqb x) (map fst items) then map fst items
    else map fst items ++ [x].
Proof.
  induction items as [|[k c] rest IH]; [reflexivity|].
  cbn [dict_set map fst existsb].
  destruct (key_eqb x k) eqn:E; [reflexivity|].
  cbn [map fst orb]. rewrite IH.
  destruct (existsb (key_eqb x) (map fst rest)); reflexivity.
Qed.

Lemma dict_set_Forall (P : key * value -> Prop) items x v :
  Forall P items -> (forall k, P (k, v)) -> Forall P (dict_set items x v).
Proof.
  intros H Hv. induction H as [|[k c] rest Hk Hrest IH]; simpl.
  - constructor; [apply Hv | constructor].
  - destruct (key_eqb x k); constructor; auto.
Qed.

Lemma wfb_dict_set items x v :
  wfb (VDict items) = true -> wfb v = true -> wfb (VDict (dict_set items x v)) = true.
Proof.
  rewrite !wfb_dict. intros [Hnd Hall] Hv. split.
  - rewrite dict_set_keys.
    destruct (existsb (key_eqb x) (map fst items)) eqn:E; [exact Hnd|].
    apply NoDup_app; [exact Hnd | repeat constructor; intros [] |].
    intros k Hin [<-|[]]. apply existsb_key_eqb_In in Hin. congruence.
  - apply dict_set_Forall; [exact Hall | intros k; exact Hv].
Qed.

Lemma wfb_find (p : path) :
  forall work u, wfb work = true -> find work p = Some u -> wfb u = true.
Proof.
  induction p as [|x p IH]; intros work u Hw H.
  - simpl in H. now injection H as <-.
  - cbn [find] in H. destruct work; try discriminate H.
    destruct (dict_get items x) as [c|] eqn:E; [|discriminate H].
    apply (IH c u); [|exact H].
    apply wfb_dict in Hw as [_ Hall]. rewrite Forall_forall in Hall.
    apply (Hall (x, c)). now apply dict_get_In.
Qed.

Lemma wfb_insert (p : path) :
  forall work v,
    wfb work = true -> wfb v = true -> wfb (insert work p v) = true.
Proof.
  induction p as [|x p IH]; intros work v Hw Hv; [exact Hv|].
  destruct work as [ | | | | | |items]; try exact Hw.
  cbn [insert]. apply wfb_dict_set; [exact Hw|].
  apply IH; [|exact Hv].
  destruct (dict_get items x) as [c|] eqn:E; [|reflexivity].
  apply (wfb_find [x] (VDict items)); [exact Hw|]. cbn [find]. now rewrite E.
Qed.

Lemma firstn_is_prefix {A : Type} (q p : list A) :
  List.length q <= List.length p -> firstn (List.length q) p = q ->
  exists r, p = q ++ r.
Proof.
  intros Hl H. exists (skipn (List.length q) p).
  rewrite <- H at 1. symmetry. apply firstn_skipn.
Qed.

(** An insertion below a level leaves dictionaries down to that level. *)
Lemma insert_keeps_dicts l (p : path) work v :
  (forall q u, find work q = Some u -> List.length q <= l -> is_dict u = true) ->
  l < List.length p ->
  settable work p = true ->
  forall q u,
    find (insert work p v) q = Some u -> List.length q <= l -> is_dict u = true.
Proof.
  intros Hd Hl Hs q u Hf Hq.
  destruct (list_eq_dec key_eq_dec (firstn (List.length q) p) q) as [E|E].
  - destruct (firstn_is_prefix q p ltac:(lia) E) as [r ->].
    destruct (find_insert_proper_prefix q work r v) as [items Hi]; auto.
    + intros ->. rewrite app_nil_r in Hl. lia.
    + rewrite Hi in Hf. injection Hf as <-. reflexivity.
  - rewrite (find_insert_diverge p q (List.length q)) in Hf; try lia.
    + now apply (Hd q).
    + rewrite firstn_all. exact E.
Qed.

(** ** The levels that getPaths reports *)

Lemma unique_from_In k l :
  forall seen, In k (unique_from seen l) <-> In k l /\ ~ In k seen.
Proof.
  induction l as [|x rest IH]; intros seen; simpl; [tauto|].
  destruct (existsb (key_eqb x) seen) eqn:E.
  - apply existsb_key_eqb_In in E. rewrite IH. split.
    + intros [H1 H2]. auto.
    + intros [[<-|H1] H2]; [contradiction | auto].
  - assert (Hx : ~ In x seen).
    { intros Hin. apply existsb_key_eqb_In in Hin. congruence. }
    simpl. rewrite IH. simpl. split.
    + intros [<-|[H1 H2]]; [auto|]. split; [auto|]. intros Hin. apply H2. auto.
    + intros [[<-|H1] H2]; [now left|].
      destruct (key_eq_dec x k) as [->|Hne]; [now left|].
      right. split; [exact H1|]. intros [Heq|Hin]; contradiction.
Qed.

Lemma unique_In k l : In k (unique l) <-> In k l.
Proof. unfold unique. rewrite unique_from_In. simpl. tauto. Qed.

Lemma unique_not_nil l : l <> [] -> unique l <> [].
Proof. destruct l; [contradiction|]. intros _. unfold unique. simpl. discriminate. Qed.

Lemma getPaths_loop_length_le fuel :
  forall l, List.length (getPaths_loop fuel l) <= fuel.
Proof.
  induction fuel as [|fuel IH]; intros l; [simpl; lia|].
  cbn [getPaths_loop]. destruct (collect_level (filter has_keys l)) as [ks next].
  destruct ks; simpl; [lia|]. specialize (IH next). lia.
Qed.

Lemma getPaths_loop_not_nil fuel :
  forall l, Forall (fun level => level <> []) (getPaths_loop fuel l).
Proof.
  induction fuel as [|fuel IH]; intros l; [constructor|].
  cbn [getPaths_loop]. destruct (collect_level (filter has_keys l)) as [ks next].
  destruct ks as [|k ks]; constructor; [|apply IH].
  apply unique_not_nil. discriminate.
Qed.

Lemma descend_nil d : descend d [] = [].
Proof. induction d; simpl; auto. Qed.

Lemma descend_In d :
  forall l u,
    In u (descend d l) <->
    exists v p, In v l /\ List.length p = d /\ walk v p u.
Proof.
  induction d as [|d IH]; intros l u.
  - simpl. split.
    + intros H. exists u, []. repeat split; auto.
    + intros [v [p [Hin [Hl Hw]]]]. destruct p; [|discriminate].
      simpl in Hw. now subst.
  - cbn [descend]. rewrite IH. split.
    + intros [c [p [Hin [Hl Hw]]]].
      apply in_flat_map in Hin as [v [Hv Hc]].
      destruct v; try contradiction. simpl in Hc.
      apply in_map_iff in Hc as [[k c'] [Heq Hin]]. simpl in Heq. subst c'.
      exists (VDict items), (k :: p). split; [exact Hv|].
      split; [simpl; lia|]. simpl. eauto.
    + intros [v [p [Hin [Hl Hw]]]]. destruct p as [|k p]; [discriminate|].
      simpl in Hw. destruct v; try contradiction.
      destruct Hw as [c [Hc Hw]].
      exists c, p. split; [|split; [simpl in Hl; lia | exact Hw]].
      apply in_flat_map. exists (VDict items). split; [exact Hin|].
      simpl. apply in_map_iff. exists (k, c). auto.
Qed.

(** Level [d] of [getPaths] holds the keys of the dictionaries [d]
    levels down, as long as no pandas object is met on the way. *)
Lemma getPaths_loop_nth d :
  forall fuel l k,
    d < fuel ->
    (forall d', d' <= d -> Forall (fun v => is_frame v = false) (descend d' l)) ->
    (In k (nth d (getPaths_loop fuel l) []) <->
     In k (flat_map keys_of (descend d l))).
Proof.
  induction d as [|d IH]; intros fuel l k Hf Hnf;
    (destruct fuel as [|fuel]; [lia|]); cbn [getPaths_loop];
    rewrite (collect_level_no_frame l (Hnf 0 ltac:(lia))).
  - cbn [descend]. destruct (flat_map keys_of l) as [|k0 ks] eqn:E.
    + simpl. tauto.
    + cbn [nth]. apply unique_In.
  - cbn [descend]. destruct (flat_map keys_of l) as [|k0 ks] eqn:E.
    + rewrite (keys_nil_children_nil l E), descend_nil. simpl. tauto.
    + cbn [nth]. apply IH; [lia|].
      intros d' Hd'. apply (Hnf (S d')). lia.
Qed.

Lemma height_le_max_height v l : In v l -> height v <= max_height l.
Proof.
  induction l as [|x l IH]; [intros []|].
  change (max_height (x :: l)) with (Nat.max (height x) (max_height l)).
  intros [->|Hin]; [lia|]. specialize (IH Hin). lia.
Qed.

Lemma max_height_le l m : (forall v, In v l -> height v <= m) -> max_height l <= m.
Proof.
  induction l as [|x l IH]; intros H; [simpl; lia|].
  change (max_height (x :: l)) with (Nat.max (height x) (max_height l)).
  pose proof (H x (or_introl eq_refl)).
  assert (max_height l <= m) by (apply IH; intros v Hv; apply H; now right).
  lia.
Qed.

Lemma max_height_children l :
  flat_map children_of l <> [] ->
  S (max_height (flat_map children_of l)) <= max_height l.
Proof.
  intros Hne.
  assert (Hall : forall c, In c (flat_map children_of l) -> S (height c) <= max_height l).
  { intros c Hc. apply in_flat_map in Hc as [v [Hv Hc]].
    destruct v; try contradiction.
    pose proof (height_le_max_height _ _ Hv) as Hle.
    rewrite height_dict in Hle. simpl in Hc.
    pose proof (height_le_max_height _ _ Hc). lia. }
  destruct (flat_map children_of l) as [|c cs] eqn:E; [contradiction|].
  assert (1 <= max_height l).
  { specialize (Hall c (or_introl eq_refl)). lia. }
  enough (max_height (c :: cs) <= max_height l - 1) by lia.
  apply max_height_le. intros v Hv. specialize (Hall v Hv). lia.
Qed.

Lemma keys_below_height d :
  forall l k, In k (flat_map keys_of (descend d l)) -> d < max_height l.
Proof.
  induction d as [|d IH]; intros l k Hk.
  - cbn [descend] in Hk. apply in_flat_map in Hk as [v [Hv Hk]].
    destruct v; try contradiction.
    pose proof (height_le_max_height _ _ Hv) as Hle.
    rewrite height_dict in Hle. lia.
  - cbn [descend] in Hk. pose proof (IH _ _ Hk) as Hlt.
    assert (Hne : flat_map children_of l <> []).
    { intros E. rewrite E, descend_nil in Hk. contradiction. }
    pose proof (max_height_children l Hne). lia.
Qed.

(** The keys of level [d] are those found at the end of the paths of
    length [d], where the tree holds dictionaries down to that level. *)
Lemma getPaths_level_In (work : value) (d : nat) (k : key) :
  wfb work = true ->
  (forall p u, find work p = Some u -> List.length p <= d -> is_dict u = true) ->
  (In k (nth d (getPaths work) []) <->
   exists p items c,
     List.length p = d /\ find work p = Some (VDict items)
     /\ dict_get items k = Some c).
Proof.
  intros Hw Hd.
  assert (Hkeys : In k (flat_map keys_of (descend d [work])) <->
                  exists p items c,
                    List.length p = d /\ find work p = Some (VDict items)
                    /\ dict_get items k = Some c).
  { rewrite in_flat_map. split.
    - intros [u [Hu Hk]]. apply descend_In in Hu as [v [p [[<-|[]] [Hl Hwalk]]]].
      destruct u; try contradiction. simpl in Hk.
      apply in_map_iff in Hk as [[k' c] [Heq Hin]]. simpl in Heq. subst k'.
      exists p, items, c. split; [exact Hl|].
      pose proof (walk_find p work _ Hw Hwalk) as Hf. split; [exact Hf|].
      apply In_dict_get; [|exact Hin].
      apply (wfb_find p work _ Hw) in Hf. now apply wfb_dict in Hf.
    - intros [p [items [c [Hl [Hf Hg]]]]].
      exists (VDict items). split.
      + apply descend_In. exists work, p. split; [now left|].
        split; [exact Hl | now apply find_walk].
      + simpl. apply in_map_iff. exists (k, c). split; [reflexivity|].
        now apply dict_get_In. }
  rewrite <- Hkeys. unfold getPaths.
  destruct (Nat.lt_ge_cases d (S (height work))) as [Hlt|Hge].
  - apply getPaths_loop_nth; [exact Hlt|].
    intros d' Hd'. apply Forall_forall. intros u Hu.
    apply descend_In in Hu as [v [p [[<-|[]] [Hl Hwalk]]]].
    apply (walk_find p work _ Hw) in Hwalk.
    specialize (Hd p u Hwalk ltac:(lia)). destruct u; try discriminate. reflexivity.
  - rewrite nth_overflow
      by (pose proof (getPaths_loop_length_le (S (height work)) [work]); lia).
    split; [intros []|]. intros Hk. apply keys_below_height in Hk.
    change (max_height [work]) with (Nat.max (height work) 0) in Hk. lia.
Qed.

Lemma getPaths_level_not_nil (work : value) (d : nat) :
  d < List.length (getPaths work) -> exists k, In k (nth d (getPaths work) []).
Proof.
  intros Hd. pose proof (getPaths_loop_not_nil (S (height work)) [work]) as Hall.
  fold (getPaths work) in Hall. rewrite Forall_forall in Hall.
  specialize (Hall (nth d (getPaths work) []) (nth_In _ _ Hd)).
  destruct (nth d (getPaths work) []) as [|k ks]; [contradiction|].
  exists k. now left.
Qed.

(** ** swop: moving one branch *)

Lemma settable_of_prefixes (p : path) :
  forall work,
    (forall q r u, p = q ++ r -> r <> [] -> find work q = Some u ->
                   is_dict u = true) ->
    settable work p = true.
Proof.
  induction p as [|x rest IH]; intros work Hd; [reflexivity|].
  pose proof (Hd [] (x :: rest) work eq_refl ltac:(discriminate) eq_refl) as Hroot.
  destruct work as [ | | | | | |items]; try discriminate Hroot.
  cbn [settable]. destruct rest as [|y rest]; [reflexivity|].
  destruct (dict_get items x) as [c|] eqn:E; [|reflexivity].
  apply IH. intros q r u Hq Hr Hf. apply (Hd (x :: q) r); [now rewrite Hq | exact Hr |].
  cbn [find]. now rewrite E.
Qed.

Lemma swapped_length l1 l2 o n :
  l1 < l2 -> swapped l1 l2 o n -> List.length o = S l2 /\ List.length n = S l2.
Proof.
  intros Hlt [pre [a [inf [b [Hp [Hi [-> ->]]]]]]].
  rewrite !length_app. cbn [List.length]. rewrite !length_app. simpl. lia.
Qed.

Lemma app_eq_length {A : Type} (a b c d : list A) :
  List.length a = List.length c -> a ++ b = c ++ d -> a = c /\ b = d.
Proof.
  revert c. induction a as [|x a IH]; intros [|y c] Hl H; try discriminate Hl.
  - auto.
  - simpl in H. injection H as -> H. destruct (IH c) as [-> ->]; auto.
Qed.

Lemma swapped_inj l1 l2 o n o' n' :
  swapped l1 l2 o n -> swapped l1 l2 o' n' -> (o = o' <-> n = n').
Proof.
  intros [pre [a [inf [b [Hp [Hi [-> ->]]]]]]]
         [pre' [a' [inf' [b' [Hp' [Hi' [-> ->]]]]]]].
  split; intros H.
  - apply app_eq_length in H as [-> H]; [|congruence].
    injection H as -> H. apply app_eq_length in H as [-> H]; [|congruence].
    now injection H as ->.
  - apply app_eq_length in H as [-> H]; [|congruence].
    injection H as -> H. apply app_eq_length in H as [-> H]; [|congruence].
    now injection H as ->.
Qed.

Lemma swapped_sym l1 l2 o n : swapped l1 l2 o n -> swapped l1 l2 n o.
Proof.
  intros [pre [a [inf [b [Hp [Hi [-> ->]]]]]]]. exists pre, b, inf, a. auto.
Qed.

Lemma swapped_exists l1 l2 (o : path) :
  l1 < l2 -> List.length o = S l2 -> exists n, swapped l1 l2 o n.
Proof.
  intros Hlt Hl.
  assert (Hpre : List.length (firstn l1 o) = l1) by (apply firstn_length_le; lia).
  assert (Hsk : List.length (skipn l1 o) = S l2 - l1) by (rewrite length_skipn; lia).
  destruct (skipn l1 o) as [|a t] eqn:Et; [cbn [List.length] in Hsk; lia|].
  destruct (exists_last (l := t)) as [inf [b Hb]];
    [intros ->; cbn [List.length] in Hsk; lia|].
  exists (firstn l1 o ++ b :: inf ++ [a]), (firstn l1 o), a, inf, b.
  split; [exact Hpre|].
  split; [subst t; cbn [List.length] in Hsk; rewrite length_app in Hsk;
          cbn [List.length] in Hsk; lia|].
  split; [|reflexivity].
  rewrite <- Hb, <- Et. symmetry. apply firstn_skipn.
Qed.

Lemma _f_app p q : _f (p ++ q) = _f p ++ _f q.
Proof. unfold _f. apply flat_map_app. Qed.

Lemma _f_map_Some (p : path) : _f (map Some p) = p.
Proof. induction p as [|x p IH]; [reflexivity|]. simpl. now rewrite IH. Qed.

Lemma getPaths_no_keys w :
  is_frame w = false -> keys_of w = [] -> getPaths w = [].
Proof.
  destruct w; try reflexivity; try discriminate.
  destruct items; [reflexivity | discriminate].
Qed.

Lemma getPaths_dict_first kv items :
  exists more, getPaths (VDict (kv :: items))
               = unique (map fst (kv :: items)) :: more.
Proof.
  unfold getPaths. cbn [getPaths_loop filter has_keys collect_level].
  rewrite !app_nil_r. cbn [map]. eauto.
Qed.

Lemma py_eq_none_solid u : u <> VNone -> is_frame u = false -> py_eq_none u = Ok false.
Proof. destruct u; simpl; try reflexivity; try discriminate. now intros []. Qed.

Lemma firstn_exact {A : Type} (a b : list A) m :
  List.length a = m -> firstn m (a ++ b) = a.
Proof.
  intros <-. rewrite firstn_app, firstn_all, Nat.sub_diag. simpl. apply app_nil_r.
Qed.

Lemma same_outside_insert l2 (n p : path) nt v :
  List.length n = S l2 -> firstn (S l2) p = n ->
  same_outside l2 n nt (insert nt p v).
Proof.
  intros Hn Hp q Hq Hne.
  apply (find_insert_diverge p q (S l2)); [congruence | | lia].
  rewrite <- Hn, <- Hp. rewrite length_firstn. lia.
Qed.

Lemma same_outside_trans l2 n a b c :
  same_outside l2 n a b -> same_outside l2 n b c -> same_outside l2 n a c.
Proof. intros H1 H2 q Hq Hne. rewrite H2, H1; auto. Qed.

Section SwopBranch.

Variable work : value.
Variables l1 l2 : nat.
Hypothesis Hlt : l1 < l2.
Hypothesis Hwf : wfb work = true.
Hypothesis Hdeep : dicts_down_to l2 work.
Hypothesis Hsolid : solid_below l2 work.

Lemma settable_below_level n suffix nt :
  List.length n = S l2 ->
  List.length suffix <= 1 ->
  dicts_down_to l2 nt ->
  (find nt n = None \/ exists items', find nt n = Some (VDict items')) ->
  settable nt (n ++ suffix) = true.
Proof.
  intros Hn Hs Hd Hnode. apply settable_of_prefixes. intros q r u Hq Hr Hf.
  destruct (Nat.le_gt_cases (List.length q) l2) as [Hle|Hgt];
    [now apply (Hd q)|].
  assert (Hlen : List.length (n ++ suffix) = List.length (q ++ r)) by now rewrite Hq.
  rewrite !length_app in Hlen.
  assert (Hrl : 0 < List.length r) by (destruct r; [contradiction | simpl; lia]).
  assert (Hql : List.length q = List.length n) by lia.
  symmetry in Hq. apply app_eq_length in Hq as [-> _]; [|exact Hql].
  destruct Hnode as [Hnone|[items' Hsome]]; [congruence|].
  rewrite Hsome in Hf. now injection Hf as <-.
Qed.

(** One key of the dictionary found at [o] is moved below [n]. *)
Lemma swop_suffix_key old new o n nt k items c :
  _f old = o -> _f new = n ->
  find work o = Some (VDict items) -> dict_get items k = Some c ->
  List.length o = S l2 -> List.length n = S l2 ->
  dicts_down_to l2 nt ->
  (find nt n = None \/ exists items', find nt n = Some (VDict items')) ->
  swop_suffix work old new nt [Some k] = Ok (insert nt (n ++ [k]) c)
  /\ settable nt (n ++ [k]) = true
  /\ find work (o ++ [k]) = Some c.
Proof.
  intros Ho Hn Hf Hg Hlo Hln Hd Hnode.
  assert (Hfc : find work (o ++ [k]) = Some c).
  { rewrite find_app, Hf. cbn [find]. now rewrite Hg. }
  assert (Hset : settable nt (n ++ [k]) = true).
  { apply settable_below_level; auto. }
  split; [|split; [exact Hset | exact Hfc]].
  unfold swop_suffix. rewrite !_f_app, Ho, Hn.
  change (_f [Some k]) with [k].
  rewrite (find_getLeaf o work (VDict items) [k] Hf).
  rewrite getLeaf_step. cbn [py_getitem]. rewrite Hg. cbn [getLeaf bind].
  destruct (Hsolid (o ++ [k]) c Hfc) as [Hnn Hnf].
  { right. rewrite length_app. simpl. lia. }
  rewrite (py_eq_none_solid c Hnn Hnf). cbn [bind].
  apply setLeaf_insert; [|exact Hset].
  destruct n; discriminate.
Qed.

(** All the keys of the dictionary found at [o] are moved below [n]. *)
Lemma swop_suffixes_keys old new o n items :
  _f old = o -> _f new = n ->
  find work o = Some (VDict items) ->
  List.length o = S l2 -> List.length n = S l2 ->
  forall ks nt,
    (forall k, In k ks -> exists c, dict_get items k = Some c) ->
    wfb nt = true -> dicts_down_to l2 nt ->
    (find nt n = None \/ exists items', find nt n = Some (VDict items')) ->
    exists nt',
      foldM (swop_suffix work old new) (map (fun k => [Some k]) ks) nt = Ok nt'
      /\ wfb nt' = true /\ dicts_down_to l2 nt'
      /\ same_outside l2 n nt nt'
      /\ (ks <> [] \/ (exists items', find nt n = Some (VDict items')) ->
          exists items', find nt' n = Some (VDict items'))
      /\ (ks = [] -> nt' = nt)
      /\ forall k rest,
           find nt' (n ++ k :: rest)
           = if existsb (key_eqb k) ks then find work (o ++ k :: rest)
             else find nt (n ++ k :: rest).
Proof.
  intros Ho Hn Hf Hlo Hln ks.
  induction ks as [|k ks IH]; intros nt Hks Hw Hd Hnode.
  - exists nt. cbn [map foldM].
    split; [reflexivity|]. split; [exact Hw|]. split; [exact Hd|].
    split; [intros q Hq Hne; reflexivity|].
    split; [intros [Hc|Hc]; [contradiction | exact Hc]|].
    split; [reflexivity|]. intros k rest. reflexivity.
  - destruct (Hks k (or_introl eq_refl)) as [c Hc].
    destruct (swop_suffix_key old new o n nt k items c Ho Hn Hf Hc Hlo Hln Hd Hnode)
      as [Hstep [Hset Hfc]].
    set (nt1 := insert nt (n ++ [k]) c) in *.
    assert (Hw1 : wfb nt1 = true).
    { apply wfb_insert; [exact Hw|]. now apply (wfb_find (o ++ [k]) work). }
    assert (Hd1 : dicts_down_to l2 nt1).
    { intros q u Hq Hl.
      apply (insert_keeps_dicts l2 (n ++ [k]) nt c Hd
               ltac:(rewrite length_app; simpl; lia) Hset q u Hq Hl). }
    assert (Hnode1 : exists items', find nt1 n = Some (VDict items')).
    { unfold nt1.
      apply (find_insert_proper_prefix n nt [k] c); [discriminate | exact Hset]. }
    destruct (IH nt1) as [nt' [Hfold [Hw' [Hd' [Hout [Hn' [_ Hfind]]]]]]]; auto.
    { intros k' Hk'. apply Hks. now right. }
    exists nt'. cbn [map foldM]. rewrite Hstep. cbn [bind].
    split; [exact Hfold|]. split; [exact Hw'|]. split; [exact Hd'|].
    split; [|split; [|split]].
    + apply (same_outside_trans l2 n nt nt1 nt'); [|exact Hout].
      apply same_outside_insert; [exact Hln|].
      now apply firstn_exact.
    + intros _. apply Hn'. now right.
    + discriminate.
    + intros k0 rest. rewrite Hfind. cbn [existsb].
      destruct (key_eqb k0 k) eqn:E.
      * apply key_eqb_eq in E. subst k0. cbn [orb].
        destruct (existsb (key_eqb k) ks); [reflexivity|].
        subst nt1.
        change (n ++ k :: rest) with (n ++ [k] ++ rest).
        rewrite app_assoc, find_insert_prefix by exact Hset.
        change (o ++ k :: rest) with (o ++ [k] ++ rest).
        now rewrite app_assoc, find_app, Hfc.
      * cbn [orb]. destruct (existsb (key_eqb k0) ks); [reflexivity|].
        subst nt1. apply (find_insert_diverge (n ++ [k]) _ (S (S l2))).
        -- change (n ++ k0 :: rest) with (n ++ [k0] ++ rest).
           rewrite app_assoc.
           assert (Hl1 : forall x, List.length (n ++ [x]) = S (S l2)).
           { intros x. rewrite length_app. simpl. lia. }
           rewrite (firstn_exact (n ++ [k0]) rest _ (Hl1 k0)).
           rewrite <- (app_nil_r (n ++ [k])).
           rewrite (firstn_exact (n ++ [k]) [] _ (Hl1 k)).
           intros Heq. apply app_inv_head in Heq.
           injection Heq as ->. rewrite key_eqb_refl in E. discriminate.
        -- rewrite length_app. simpl. lia.
        -- rewrite length_app. simpl. lia.
Qed.

Lemma moved_same nt nt' o n :
  find nt' n = find nt n ->
  (forall k rest, find nt' (n ++ k :: rest) = find nt (n ++ k :: rest)) ->
  moved work nt o n -> moved work nt' o n.
Proof.
  intros H0 H1. unfold moved. destruct (find work o) as [w|]; [|congruence].
  intros [Hn Hk]. split.
  - rewrite H0. exact Hn.
  - intros k rest. rewrite H1. apply Hk.
Qed.

(** One round of [swop] for the branch at [o]: it cannot fail, it moves
    what [work] holds at [o] to [n], and it touches nothing else below
    level [l2]. *)
Lemma swop_branch_moves prefix infix a b nt :
  List.length (_f prefix) = l1 ->
  List.length (_f infix) = l2 - l1 - 1 ->
  swop_inv work l1 l2 nt ->
  exists nt',
    swop_branch work a b nt (prefix, infix) = Ok nt'
    /\ wfb nt' = true
    /\ dicts_down_to l2 nt'
    /\ same_outside l2 (_f prefix ++ b :: _f infix ++ [a]) nt nt'
    /\ moved work nt' (_f prefix ++ a :: _f infix ++ [b])
         (_f prefix ++ b :: _f infix ++ [a]).
Proof.
  intros Hp Hi [Hw [Hd Hnodes]].
  set (o := _f prefix ++ a :: _f infix ++ [b]).
  set (n := _f prefix ++ b :: _f infix ++ [a]).
  assert (Hsw : swapped l1 l2 o n).
  { exists (_f prefix), a, (_f infix), b. auto. }
  destruct (swapped_length l1 l2 o n Hlt Hsw) as [Hlo Hln].
  assert (Hold : _f (prefix ++ [Some a] ++ infix ++ [Some b]) = o).
  { rewrite !_f_app. reflexivity. }
  assert (Hnew : _f (prefix ++ [Some b] ++ infix ++ [Some a]) = n).
  { rewrite !_f_app. reflexivity. }
  assert (Hget : getLeaf work o = Ok match find work o with
                                     | Some v => v
                                     | None => VNone
                                     end).
  { apply getLeaf_find. intros q u Hq Hl. apply (Hdeep q u Hq). lia. }
  assert (Hnode : find nt n = None
                  \/ (exists items', find nt n = Some (VDict items'))
                  \/ (forall w, find work o = Some w -> keys_of w = [])).
  { destruct (Hnodes o n Hsw) as [Hnone|Hm]; [now left|]. right.
    unfold moved in Hm. destruct (find work o) as [w|].
    - destruct w as [ | | | | | |[|kv items]];
        try (right; intros w' Hw'; injection Hw' as <-; reflexivity).
      left. exact (proj1 Hm).
    - right. intros w' Hw'. discriminate Hw'. }
  unfold swop_branch. rewrite Hold, Hget. cbn [bind].
  (* the object found at [o] has no keys: it is moved as a whole *)
  assert (Hwhole : forall w,
             find work o = Some w -> keys_of w = [] ->
             exists nt',
               foldM (swop_suffix work (prefix ++ [Some a] ++ infix ++ [Some b])
                        (prefix ++ [Some b] ++ infix ++ [Some a]))
                 match getPaths w with
                 | [] => [[None]]
                 | first :: _ => map (map Some) (product [first])
                 end nt = Ok nt'
               /\ wfb nt' = true /\ dicts_down_to l2 nt'
               /\ same_outside l2 n nt nt' /\ moved work nt' o n).
  { intros w Hf Hk.
    destruct (Hsolid o w Hf ltac:(left; lia)) as [Hnn Hnf].
    rewrite (getPaths_no_keys w Hnf Hk). cbn [foldM].
    unfold swop_suffix.
    rewrite (_f_app (prefix ++ [Some a] ++ infix ++ [Some b]) [None]).
    rewrite (_f_app (prefix ++ [Some b] ++ infix ++ [Some a]) [None]).
    rewrite Hold, Hnew.
    change (_f [None]) with (@nil key). rewrite !app_nil_r.
    rewrite Hget, Hf. cbn [bind]. rewrite (py_eq_none_solid w Hnn Hnf). cbn [bind].
    assert (Hset : settable nt n = true).
    { apply settable_of_prefixes. intros q r u Hq Hr Hfq. apply (Hd q u Hfq).
      assert (Hl : List.length n = List.length (q ++ r)) by now rewrite Hq.
      rewrite length_app in Hl.
      assert (0 < List.length r) by (destruct r; [contradiction | simpl; lia]).
      lia. }
    rewrite (setLeaf_insert n nt w) by (try exact Hset; destruct n; discriminate).
    exists (insert nt n w). split; [reflexivity|].
    split; [apply wfb_insert; [exact Hw | now apply (wfb_find o work)]|].
    split.
    { intros q u Hq Hl.
      apply (insert_keeps_dicts l2 n nt w Hd ltac:(lia) Hset q u Hq Hl). }
    split.
    { apply same_outside_insert; [exact Hln|]. rewrite <- Hln. apply firstn_all. }
    unfold moved. rewrite Hf.
    assert (Hat : find (insert nt n w) n = Some w).
    { rewrite <- (app_nil_r n) at 2. now rewrite find_insert_prefix. }
    assert (Hbelow : forall k rest, find w (k :: rest) = None).
    { intros k rest. destruct w; try reflexivity.
      destruct items; [reflexivity | discriminate Hk]. }
    split.
    - destruct w as [ | | | | | |[|kv items]]; try exact Hat. discriminate Hk.
    - intros k rest. rewrite find_insert_prefix by exact Hset.
      now rewrite find_app, Hf, Hbelow. }
  destruct (find work o) as [w|] eqn:Hf.
  - destruct (keys_of w) as [|k0 ks0] eqn:Hk.
    + apply (Hwhole w eq_refl Hk).
    + (* a dictionary with keys: each of them is moved *)
      destruct w as [ | | | | | |items]; try discriminate Hk.
      destruct items as [|kv items]; [discriminate Hk|].
      destruct (getPaths_dict_first kv items) as [more ->].
      replace (map (map Some) (product [unique (map fst (kv :: items))]))
        with (map (fun k => [Some k]) (unique (map fst (kv :: items)))).
      2:{ cbn [product]. generalize (unique (map fst (kv :: items))).
          intros l. induction l as [|x l IHl]; [reflexivity|].
          simpl. f_equal. exact IHl. }
      destruct (swop_suffixes_keys _ _ o n (kv :: items) Hold Hnew Hf Hlo Hln
                  (unique (map fst (kv :: items))) nt)
        as [nt' [Hfold [Hw' [Hd' [Hout [Hn' [_ Hfind]]]]]]]; auto.
      { intros k Hin. apply (proj1 (unique_In _ _)) in Hin.
        apply in_map_iff in Hin as [[k' c] [Heq Hin]]. simpl in Heq. subst k'.
        exists c. apply In_dict_get; [|exact Hin].
        apply (wfb_find o work _ Hwf) in Hf. now apply wfb_dict in Hf. }
      { destruct Hnode as [Hnone|[Hsome|Hno]]; [now left | now right |].
        specialize (Hno _ eq_refl). discriminate Hno. }
      exists nt'. split; [exact Hfold|]. split; [exact Hw'|].
      split; [exact Hd'|]. split; [exact Hout|].
      unfold moved. rewrite Hf. split.
      * apply Hn'. left. apply unique_not_nil. discriminate.
      * intros k rest. rewrite Hfind.
        destruct (existsb (key_eqb k) (unique (map fst (kv :: items)))) eqn:E;
          [reflexivity|].
        assert (Hnk : dict_get (kv :: items) k = None).
        { destruct (dict_get (kv :: items) k) as [c|] eqn:Eg; [|reflexivity].
          apply dict_get_In in Eg.
          assert (Hin : In k (unique (map fst (kv :: items)))).
          { apply unique_In. apply in_map_iff. exists (k, c). auto. }
          apply existsb_key_eqb_In in Hin. congruence. }
        assert (Hwk : find work (o ++ k :: rest) = None).
        { rewrite find_app, Hf. cbn [find]. now rewrite Hnk. }
        rewrite Hwk.
        destruct (Hnodes o n Hsw) as [Hnone|Hm].
        -- now rewrite find_app, Hnone.
        -- unfold moved in Hm. rewrite Hf in Hm. destruct Hm as [_ Hm].
           now rewrite Hm.
  - (* nothing at [o]: nothing to move *)
    change (getPaths VNone) with (@nil (list key)). cbn [foldM].
    unfold swop_suffix.
    rewrite (_f_app (prefix ++ [Some a] ++ infix ++ [Some b]) [None]).
    rewrite Hold.
    change (_f [None]) with (@nil key). rewrite !app_nil_r.
    rewrite Hget. cbn [bind py_eq_none].
    exists nt. split; [reflexivity|]. split; [exact Hw|]. split; [exact Hd|].
    split; [intros q Hq Hne; reflexivity|].
    unfold moved. rewrite Hf.
    destruct (Hnodes o n Hsw) as [Hnone|Hm]; [exact Hnone|].
    unfold moved in Hm. now rewrite Hf in Hm.
Qed.

End SwopBranch.

(** ** swop: all the branches *)

Lemma In_product {A : Type} (ls : list (list A)) :
  forall xs, In xs (product ls) <-> Forall2 (fun x l => In x l) xs ls.
Proof.
  induction ls as [|l ls IH]; intros xs.
  - simpl. split.
    + intros [<-|[]]. constructor.
    + intros H. inversion H. now left.
  - cbn [product]. rewrite in_flat_map. split.
    + intros [x [Hx Hin]]. apply in_map_iff in Hin as [ys [<- Hys]].
      constructor; [exact Hx | now apply IH].
    + intros H. inversion H as [|x ? ys ? Hx Hys]; subst.
      exists x. split; [exact Hx|]. apply in_map_iff. exists ys.
      split; [reflexivity | now apply IH].
Qed.

Lemma product_or_none_In (ls : list (list key)) pre :
  In pre (product_or_none ls) -> Forall2 (fun x l => In x l) (_f pre) ls.
Proof.
  destruct ls as [|l ls]; simpl.
  - intros [<-|[]]. constructor.
  - intros H. apply in_map_iff in H as [xs [<- Hxs]].
    rewrite _f_map_Some. now apply (In_product (l :: ls)).
Qed.

Lemma In_product_or_none (ls : list (list key)) xs :
  Forall2 (fun x l => In x l) xs ls ->
  exists pre, In pre (product_or_none ls) /\ _f pre = xs.
Proof.
  intros H. destruct ls as [|l ls].
  - inversion H; subst. exists [None]. split; [now left | reflexivity].
  - exists (map Some xs). split; [|apply _f_map_Some].
    cbn [product_or_none]. apply in_map. now apply (In_product (l :: ls)).
Qed.

Section SwopLoops.

Variable work : value.
Variables l1 l2 : nat.
Hypothesis Hlt : l1 < l2.
Hypothesis Hwf : wfb work = true.
Hypothesis Hdeep : dicts_down_to l2 work.
Hypothesis Hsolid : solid_below l2 work.

(** A round keeps the state of the new tree and what was moved before. *)
Lemma swop_branch_inv prefix infix a b nt :
  List.length (_f prefix) = l1 ->
  List.length (_f infix) = l2 - l1 - 1 ->
  swop_inv work l1 l2 nt ->
  exists nt',
    swop_branch work a b nt (prefix, infix) = Ok nt'
    /\ swop_inv work l1 l2 nt'
    /\ (forall o' n', swapped l1 l2 o' n' ->
                      moved work nt o' n' -> moved work nt' o' n')
    /\ moved work nt' (_f prefix ++ a :: _f infix ++ [b])
         (_f prefix ++ b :: _f infix ++ [a]).
Proof.
  intros Hp Hi Hinv.
  destruct (swop_branch_moves work l1 l2 Hlt Hwf Hdeep Hsolid prefix infix a b nt
              Hp Hi Hinv) as [nt' [Hrun [Hw' [Hd' [Hout Hmoved]]]]].
  set (o := _f prefix ++ a :: _f infix ++ [b]) in *.
  set (n := _f prefix ++ b :: _f infix ++ [a]) in *.
  assert (Hsw : swapped l1 l2 o n).
  { exists (_f prefix), a, (_f infix), b. auto. }
  assert (Hother : forall o' n', swapped l1 l2 o' n' -> n' <> n ->
             find nt' n' = find nt n'
             /\ forall k rest, find nt' (n' ++ k :: rest) = find nt (n' ++ k :: rest)).
  { intros o' n' Hsw' Hne.
    destruct (swapped_length l1 l2 o' n' Hlt Hsw') as [_ Hln'].
    split.
    - apply Hout; [lia|]. rewrite <- Hln'. now rewrite firstn_all.
    - intros k rest. apply Hout; [rewrite length_app; lia|].
      now rewrite (firstn_exact n' (k :: rest) (S l2) Hln'). }
  assert (Hkeep : forall o' n', swapped l1 l2 o' n' ->
             moved work nt o' n' -> moved work nt' o' n').
  { intros o' n' Hsw' Hm.
    destruct (list_eq_dec key_eq_dec n' n) as [->|Hne].
    - assert (o' = o) as -> by now apply (swapped_inj l1 l2 o' n o n Hsw' Hsw).
      exact Hmoved.
    - destruct (Hother o' n' Hsw' Hne) as [H0 H1].
      now apply (moved_same work nt nt' o' n'). }
  exists nt'. split; [exact Hrun|]. split; [|split; [exact Hkeep | exact Hmoved]].
  destruct Hinv as [_ [_ Hnodes]].
  split; [exact Hw'|]. split; [exact Hd'|].
  intros o' n' Hsw'.
  destruct (list_eq_dec key_eq_dec n' n) as [->|Hne].
  - right. assert (o' = o) as -> by now apply (swapped_inj l1 l2 o' n o n Hsw' Hsw).
    exact Hmoved.
  - destruct (Hnodes o' n' Hsw') as [Hnone|Hm].
    + left. now rewrite (proj1 (Hother o' n' Hsw' Hne)).
    + right. now apply Hkeep.
Qed.

Lemma swop_inner_loop a b pis :
  forall nt,
    (forall prefix infix, In (prefix, infix) pis ->
       List.length (_f prefix) = l1 /\ List.length (_f infix) = l2 - l1 - 1) ->
    swop_inv work l1 l2 nt ->
    exists nt',
      foldM (swop_branch work a b) pis nt = Ok nt'
      /\ swop_inv work l1 l2 nt'
      /\ (forall o' n', swapped l1 l2 o' n' ->
                        moved work nt o' n' -> moved work nt' o' n')
      /\ forall prefix infix, In (prefix, infix) pis ->
           moved work nt' (_f prefix ++ a :: _f infix ++ [b])
             (_f prefix ++ b :: _f infix ++ [a]).
Proof.
  induction pis as [|[prefix infix] pis IH]; intros nt Hshape Hinv.
  - exists nt. cbn [foldM]. repeat split; auto; try apply Hinv. intros ? ? [].
  - destruct (Hshape prefix infix (or_introl eq_refl)) as [Hp Hi].
    destruct (swop_branch_inv prefix infix a b nt Hp Hi Hinv)
      as [nt1 [Hrun [Hinv1 [Hkeep1 Hm1]]]].
    destruct (IH nt1) as [nt' [Hfold [Hinv' [Hkeep' Hm']]]]; auto.
    { intros p i Hin. apply Hshape. now right. }
    exists nt'. cbn [foldM]. rewrite Hrun. cbn [bind].
    split; [exact Hfold|]. split; [exact Hinv'|]. split.
    + intros o' n' Hsw Hm. apply Hkeep'; auto.
    + intros p i [Heq|Hin].
      * injection Heq as <- <-. apply Hkeep'; [|exact Hm1].
        exists (_f prefix), a, (_f infix), b. auto.
      * now apply Hm'.
Qed.

Lemma swop_outer_loop pis pps :
  forall nt,
    (forall prefix infix, In (prefix, infix) pis ->
       List.length (_f prefix) = l1 /\ List.length (_f infix) = l2 - l1 - 1) ->
    swop_inv work l1 l2 nt ->
    exists nt',
      foldM (fun newtree (pp : key * key) =>
               foldM (swop_branch work (fst pp) (snd pp)) pis newtree) pps nt
      = Ok nt'
      /\ swop_inv work l1 l2 nt'
      /\ (forall o' n', swapped l1 l2 o' n' ->
                        moved work nt o' n' -> moved work nt' o' n')
      /\ forall a b prefix infix,
           In (a, b) pps -> In (prefix, infix) pis ->
           moved work nt' (_f prefix ++ a :: _f infix ++ [b])
             (_f prefix ++ b :: _f infix ++ [a]).
Proof.
  induction pps as [|[a b] pps IH]; intros nt Hshape Hinv.
  - exists nt. cbn [foldM]. repeat split; auto; try apply Hinv. intros ? ? ? ? [].
  - destruct (swop_inner_loop a b pis nt Hshape Hinv)
      as [nt1 [Hrun [Hinv1 [Hkeep1 Hm1]]]].
    destruct (IH nt1 Hshape Hinv1) as [nt' [Hfold [Hinv' [Hkeep' Hm']]]].
    exists nt'. cbn [foldM fst snd]. rewrite Hrun. cbn [bind].
    split; [exact Hfold|]. split; [exact Hinv'|]. split.
    + intros o' n' Hsw Hm. apply Hkeep'; auto.
    + intros a' b' p i [Heq|Hin] Hpi.
      * injection Heq as <- <-. apply Hkeep'; [|now apply Hm1].
        destruct (Hshape p i Hpi) as [Hp Hi].
        exists (_f p), a, (_f i), b. auto.
      * now apply Hm'.
Qed.

End SwopLoops.

(** ** swop: every branch is found by the loops *)

Lemma key_in_level work l2 (p : path) i x u :
  wfb work = true -> dicts_down_to l2 work ->
  find work p = Some u -> nth_error p i = Some x -> i <= l2 ->
  In x (nth i (getPaths work) []).
Proof.
  intros Hw Hd Hf Hn Hi.
  destruct (nth_error_split p i Hn) as [q [r [-> Hq]]].
  rewrite find_app in Hf.
  destruct (find work q) as [w1|] eqn:Eq; [|discriminate Hf].
  cbn [find] in Hf. destruct w1 as [ | | | | | |items]; try discriminate Hf.
  destruct (dict_get items x) as [c|] eqn:Ec; [|discriminate Hf].
  apply getPaths_level_In; [exact Hw | |].
  - intros p' u' Hp' Hl. apply (Hd p' u' Hp'). lia.
  - exists q, items, c. auto.
Qed.

Lemma skipn_nth_cons {A : Type} (d : A) (l : list A) :
  forall off, off < List.length l -> skipn off l = nth off l d :: skipn (S off) l.
Proof.
  induction l as [|x l IH]; intros off H; [simpl in H; lia|].
  destruct off as [|off]; [reflexivity|].
  cbn [skipn nth]. apply IH. simpl in H. lia.
Qed.

Lemma Forall2_levels (paths : list (list key)) (xs : list key) :
  forall off,
    (forall i x, nth_error xs i = Some x -> In x (nth (off + i) paths [])) ->
    Forall2 (fun x l => In x l) xs (firstn (List.length xs) (skipn off paths)).
Proof.
  induction xs as [|x xs IH]; intros off H; [constructor|].
  pose proof (H 0 x eq_refl) as H0. rewrite Nat.add_0_r in H0.
  assert (Hoff : off < List.length paths).
  { destruct (Nat.lt_ge_cases off (List.length paths)) as [Hl|Hl]; [exact Hl|].
    rewrite nth_overflow in H0 by exact Hl. contradiction. }
  rewrite (skipn_nth_cons [] paths off Hoff). cbn [List.length firstn].
  constructor; [exact H0|].
  apply IH. intros i y Hy. replace (S off + i) with (off + S i) by lia.
  now apply H.
Qed.

Lemma nth_error_app_at {A : Type} (xs ys : list A) i :
  nth_error (xs ++ ys) (List.length xs + i) = nth_error ys i.
Proof.
  rewrite nth_error_app2 by lia. f_equal. lia.
Qed.

(** Under the conditions of the round trip the loops of [swop] end
    normally, in whichever order the two levels are given, and every
    branch of the tree has been moved to its new place. *)
Lemma swop_moves work l1 l2 :
  l1 < l2 -> l2 < List.length (getPaths work) ->
  wfb work = true -> dicts_down_to l2 work -> solid_below l2 work ->
  exists t1,
    swop work l1 l2 = Ok t1 /\ swop work l2 l1 = Ok t1
    /\ wfb t1 = true /\ dicts_down_to l2 t1
    /\ forall o n, swapped l1 l2 o n -> moved work t1 o n.
Proof.
  intros Hlt Hn Hw Hd Hs.
  set (paths := getPaths work) in *.
  set (prefixes := product_or_none (firstn l1 paths)).
  set (infixes := product_or_none (firstn (l2 - (l1 + 1)) (skipn (l1 + 1) paths))).
  assert (Hshape : forall prefix infix,
             In (prefix, infix) (list_prod prefixes infixes) ->
             List.length (_f prefix) = l1 /\ List.length (_f infix) = l2 - l1 - 1).
  { intros prefix infix Hin. apply in_prod_iff in Hin as [Hp Hi].
    apply product_or_none_In in Hp. apply product_or_none_In in Hi.
    apply Forall2_length in Hp. apply Forall2_length in Hi.
    rewrite Hp, Hi, !length_firstn, length_skipn. lia. }
  assert (Hinv0 : swop_inv work l1 l2 (VDict [])).
  { split; [reflexivity|]. split.
    - intros q u Hq _. destruct q; [|discriminate Hq].
      simpl in Hq. now injection Hq as <-.
    - intros o n Hsw. left.
      destruct (swapped_length l1 l2 o n Hlt Hsw) as [_ Hl].
      destruct n; [discriminate Hl | reflexivity]. }
  destruct (swop_outer_loop work l1 l2 Hlt Hw Hd Hs
              (list_prod prefixes infixes)
              (list_prod (nth l1 paths []) (nth l2 paths []))
              (VDict []) Hshape Hinv0)
    as [t1 [Hrun [[Hw1 [Hd1 Hnodes]] [_ Hm]]]].
  exists t1.
  assert (Hswop : swop work l1 l2 = Ok t1).
  { unfold swop. fold paths.
    destruct (Nat.leb_spec (List.length paths) l1); [lia|].
    destruct (Nat.leb_spec (List.length paths) l2); [lia|].
    destruct (Nat.eqb_spec l1 l2); [lia|].
    destruct (Nat.ltb_spec l2 l1); [lia|]. exact Hrun. }
  assert (Hswop' : swop work l2 l1 = Ok t1).
  { unfold swop. fold paths.
    destruct (Nat.leb_spec (List.length paths) l1); [lia|].
    destruct (Nat.leb_spec (List.length paths) l2); [lia|].
    destruct (Nat.eqb_spec l2 l1); [lia|].
    destruct (Nat.ltb_spec l1 l2); [|lia]. exact Hrun. }
  split; [exact Hswop|]. split; [exact Hswop'|].
  split; [exact Hw1|]. split; [exact Hd1|].
  intros o n Hsw.
  destruct (find work o) as [u|] eqn:Hf.
  2:{ destruct (Hnodes o n Hsw) as [Hnone|Hmv]; [|exact Hmv].
      unfold moved. now rewrite Hf. }
  destruct Hsw as [pre [a [inf [b [Hp [Hi [-> ->]]]]]]].
  assert (Hkey : forall i x, nth_error (pre ++ a :: inf ++ [b]) i = Some x ->
                             i <= l2 -> In x (nth i paths [])).
  { intros i x Hx Hi'. apply (key_in_level work l2 _ i x u Hw Hd Hf Hx Hi'). }
  assert (Hpre : Forall2 (fun x l => In x l) pre (firstn l1 paths)).
  { rewrite <- Hp. apply (Forall2_levels paths pre 0).
    intros i x Hx. change (0 + i) with i. apply Hkey.
    - rewrite nth_error_app1; [exact Hx|]. apply nth_error_Some. congruence.
    - assert (i < List.length pre) by (apply nth_error_Some; congruence). lia. }
  assert (Ha : In a (nth l1 paths [])).
  { apply Hkey; [|lia]. rewrite <- Hp, <- (Nat.add_0_r (List.length pre)).
    now rewrite nth_error_app_at. }
  assert (Hinf : Forall2 (fun x l => In x l) inf
                   (firstn (l2 - (l1 + 1)) (skipn (l1 + 1) paths))).
  { replace (l2 - (l1 + 1)) with (List.length inf) by lia.
    apply (Forall2_levels paths inf (l1 + 1)).
    intros i x Hx.
    assert (i < List.length inf) by (apply nth_error_Some; congruence).
    apply Hkey; [|lia].
    replace (l1 + 1 + i) with (List.length pre + S i) by lia.
    rewrite nth_error_app_at. cbn [nth_error].
    rewrite nth_error_app1 by lia. exact Hx. }
  assert (Hb : In b (nth l2 paths [])).
  { apply Hkey; [|lia].
    replace l2 with (List.length pre + S (List.length inf + 0)) at 1 by lia.
    rewrite nth_error_app_at. cbn [nth_error].
    now rewrite nth_error_app_at. }
  destruct (In_product_or_none _ _ Hpre) as [prefix [Hprefix <-]].
  destruct (In_product_or_none _ _ Hinf) as [infix [Hinfix <-]].
  apply Hm.
  - apply in_prod; assumption.
  - apply in_prod; assumption.
Qed.

(** ** The bindings of a tree *)

Lemma bindings_dict items :
  bindings (VDict items)
  = flat_map (fun kc => map (fun pv => (fst kc :: fst pv, snd pv))
                          (bindings (snd kc))) items.
Proof.
  induction items as [|[k c] rest IH]; [reflexivity|].
  change (bindings (VDict ((k, c) :: rest)))
    with (map (fun pv => (k :: fst pv, snd pv)) (bindings c)
            ++ bindings (VDict rest)).
  rewrite IH. reflexivity.
Qed.

Lemma bindings_In (t : value) :
  forall p v,
    wfb t = true ->
    (In (p, v) (bindings t) <-> find t p = Some v /\ is_dict v = false).
Proof.
  induction t as [ | | |xs IHxs|xs IHxs| |items IH] using value_ind'; intros p v Hw;
    try (simpl; split;
         [intros [Heq|[]]; injection Heq as <- <-; auto
         |intros [Heq Hd]; destruct p; [|discriminate Heq];
          injection Heq as <-; now left]).
  rewrite bindings_dict, in_flat_map.
  apply wfb_dict in Hw as [Hnd Hall].
  rewrite Forall_forall in IH, Hall. split.
  - intros [[k c] [Hin Hp]]. cbn [fst snd] in Hp.
    apply in_map_iff in Hp as [[p' v'] [Heq Hb]]. cbn [fst snd] in Heq.
    injection Heq as <- <-.
    apply (IH (k, c) Hin p' v' (Hall (k, c) Hin)) in Hb as [Hf Hd].
    split; [|exact Hd]. cbn [find]. now rewrite (In_dict_get items k c Hnd Hin).
  - intros [Hf Hd]. destruct p as [|k p'].
    + simpl in Hf. injection Hf as <-. discriminate Hd.
    + cbn [find] in Hf. destruct (dict_get items k) as [c|] eqn:E; [|discriminate Hf].
      apply dict_get_In in E. exists (k, c). split; [exact E|]. cbn [fst snd].
      apply in_map_iff. exists (p', v). split; [reflexivity|].
      apply (IH (k, c) E p' v (Hall (k, c) E)). auto.
Qed.

Lemma bindings_NoDup (t : value) : wfb t = true -> NoDup (bindings t).
Proof.
  induction t as [ | | |xs IHxs|xs IHxs| |items IH] using value_ind'; intros Hw;
    try (simpl; constructor; [intros [] | constructor]).
  rewrite bindings_dict.
  apply wfb_dict in Hw as [Hnd Hall].
  induction items as [|[k c] rest IHl]; [constructor|].
  cbn [flat_map fst snd].
  inversion IH as [|? ? Hc Hrest]; subst.
  inversion Hall as [|? ? Hwc Hwrest]; subst.
  inversion Hnd as [|? ? Hk Hndrest]; subst.
  apply NoDup_app.
  - apply Finite.Injective_map_NoDup; [|now apply Hc].
    intros [p1 v1] [p2 v2] Heq. cbn [fst snd] in Heq. now injection Heq as -> ->.
  - now apply IHl.
  - intros [p v] Hin1 Hin2.
    apply in_map_iff in Hin1 as [[p1 v1] [Heq1 _]]. cbn [fst snd] in Heq1.
    apply in_flat_map in Hin2 as [[k' c'] [Hin' Hin2]]. cbn [fst snd] in Hin2.
    apply in_map_iff in Hin2 as [[p2 v2] [Heq2 _]]. cbn [fst snd] in Heq2.
    rewrite <- Heq1 in Heq2. injection Heq2 as -> _ _.
    apply Hk. apply in_map_iff. exists (k, c'). auto.
Qed.

Lemma leaves_below_sound (t : value) :
  forall l, leaves_below l t = true -> dicts_down_to l t.
Proof.
  induction t as [ | | |xs IHxs|xs IHxs| |items IH] using value_ind'; intros l H;
    try discriminate H.
  intros q u Hq Hl. destruct q as [|x q'].
  - simpl in Hq. now injection Hq as <-.
  - destruct l as [|l']; [simpl in Hl; lia|].
    cbn [find] in Hq. destruct (dict_get items x) as [c|] eqn:E; [|discriminate Hq].
    apply dict_get_In in E.
    assert (Hc : leaves_below l' c = true).
    { clear - H E. cbn [leaves_below] in H.
      induction items as [|[k0 c0] rest IHl]; [contradiction|].
      apply Bool.andb_true_iff in H as [H0 Hr].
      destruct E as [Heq|Hin]; [now injection Heq as _ <- | now apply IHl]. }
    rewrite Forall_forall in IH.
    apply (IH (x, c) E l' Hc q' u Hq). simpl in Hl. lia.
Qed.

Lemma solid_at_sound (t : value) :
  forall d p u,
    solid_at d t = true -> find t p = Some u -> List.length p = d ->
    u <> VNone /\ is_frame u = false.
Proof.
  induction t as [ | | |xs IHxs|xs IHxs| |items IH] using value_ind';
    intros d p u H Hf Hl;
    try (destruct p; [|discriminate Hf]; simpl in Hf, Hl; subst d;
         injection Hf as <-; simpl in H;
         first [discriminate H | split; [discriminate | reflexivity]]).
  destruct p as [|x p'].
  - simpl in Hf. injection Hf as <-. split; [discriminate | reflexivity].
  - destruct d as [|d']; [discriminate Hl|].
    cbn [find] in Hf. destruct (dict_get items x) as [c|] eqn:E; [|discriminate Hf].
    apply dict_get_In in E.
    assert (Hc : solid_at d' c = true).
    { clear - H E. cbn [solid_at] in H.
      induction items as [|[k0 c0] rest IHl]; [contradiction|].
      apply Bool.andb_true_iff in H as [H0 Hr].
      destruct E as [Heq|Hin]; [now injection Heq as _ <- | now apply IHl]. }
    rewrite Forall_forall in IH.
    apply (IH (x, c) E d' p' u Hc Hf). simpl in Hl. lia.
Qed.

(** ** swop twice *)

Lemma moved_leaf work t1 o n suf v :
  moved work t1 o n -> is_dict v = false ->
  (find t1 (n ++ suf) = Some v <-> find work (o ++ suf) = Some v).
Proof.
  unfold moved. intros Hm Hv. rewrite (find_app o), (find_app n).
  destruct (find work o) as [w|] eqn:Hf.
  - destruct Hm as [Hn Hk]. destruct suf as [|k rest].
    + destruct w as [ | | | | | |[|kv items]]; try (rewrite Hn; tauto).
      destruct Hn as [items' ->]. cbn [find].
      split; intros H; injection H as <-; discriminate Hv.
    + specialize (Hk k rest). rewrite (find_app o), (find_app n), Hf in Hk.
      rewrite Hk. tauto.
  - rewrite Hm. tauto.
Qed.

Lemma moved_some work t1 o n u :
  moved work t1 o n -> find work o = Some u -> exists u', find t1 n = Some u'.
Proof.
  unfold moved. intros Hm Hf. rewrite Hf in Hm. destruct Hm as [Hn _].
  destruct u as [ | | | | | |[|kv items]]; eauto.
  destruct Hn as [items' Hn]. eauto.
Qed.

Lemma split_at_level l2 (p : path) :
  l2 < List.length p ->
  exists o suf, p = o ++ suf /\ List.length o = S l2.
Proof.
  intros H. exists (firstn (S l2) p), (skipn (S l2) p).
  split; [symmetry; apply firstn_skipn | apply firstn_length_le; lia].
Qed.

(** One [swop] under the conditions of the round trip: the payloads are
    the same, each at the path with the two keys exchanged, and the new
    tree meets the conditions again. *)
Lemma swop_once work l1 l2 :
  l1 < l2 -> l2 < List.length (getPaths work) ->
  wfb work = true -> dicts_down_to l2 work -> solid_below l2 work ->
  exists t1,
    swop work l1 l2 = Ok t1 /\ swop work l2 l1 = Ok t1
    /\ wfb t1 = true /\ dicts_down_to l2 t1 /\ solid_below l2 t1
    /\ l2 < List.length (getPaths t1)
    /\ forall o n suf v,
         swapped l1 l2 o n -> is_dict v = false ->
         (find t1 (n ++ suf) = Some v <-> find work (o ++ suf) = Some v).
Proof.
  intros Hlt Hn Hw Hd Hs.
  destruct (swop_moves work l1 l2 Hlt Hn Hw Hd Hs)
    as [t1 [H1 [H2 [Hw1 [Hd1 Hm]]]]].
  exists t1. split; [exact H1|]. split; [exact H2|].
  split; [exact Hw1|]. split; [exact Hd1|].
  assert (Hleaf : forall o n suf v,
             swapped l1 l2 o n -> is_dict v = false ->
             (find t1 (n ++ suf) = Some v <-> find work (o ++ suf) = Some v)).
  { intros o n suf v Hsw Hv. apply moved_leaf; [now apply Hm | exact Hv]. }
  split; [|split; [|exact Hleaf]].
  - (* nothing None or tabular right below the level *)
    intros p u Hf Hl.
    destruct (is_dict u) eqn:Hu.
    { destruct u; try discriminate Hu. split; [discriminate | reflexivity]. }
    destruct (split_at_level l2 p ltac:(lia)) as [n [suf [-> Hln]]].
    destruct (swapped_exists l1 l2 n Hlt Hln) as [o Hsw].
    apply swapped_sym in Hsw.
    apply (Hleaf o n suf u Hsw Hu) in Hf.
    apply (Hs _ _ Hf).
    destruct (swapped_length l1 l2 o n Hlt Hsw) as [Hlo _].
    rewrite length_app in *. lia.
  - (* the new tree reaches level [l2] *)
    destruct (getPaths_level_not_nil work l2 Hn) as [k Hk].
    apply getPaths_level_In in Hk; [|exact Hw|intros p u Hp Hl; now apply (Hd p)].
    destruct Hk as [p [items [c [Hlp [Hfp Hg]]]]].
    assert (Hfo : find work (p ++ [k]) = Some c).
    { rewrite find_app, Hfp. cbn [find]. now rewrite Hg. }
    destruct (swapped_exists l1 l2 (p ++ [k]) Hlt) as [n Hsw].
    { rewrite length_app. simpl. lia. }
    destruct (moved_some work t1 _ n c (Hm _ _ Hsw) Hfo) as [u' Hu'].
    destruct (swapped_length l1 l2 _ n Hlt Hsw) as [_ Hln].
    destruct (exists_last (l := n)) as [q [x ->]]; [intros ->; discriminate Hln|].
    rewrite find_app in Hu'.
    destruct (find t1 q) as [w'|] eqn:Hq; [|discriminate Hu'].
    cbn [find] in Hu'. destruct w' as [ | | | | | |its]; try discriminate Hu'.
    destruct (dict_get its x) as [c'|] eqn:Eg; [|discriminate Hu'].
    assert (Hin : In x (nth l2 (getPaths t1) [])).
    { apply getPaths_level_In; [exact Hw1 | |].
      - intros p' u0 Hp' Hl'. now apply (Hd1 p').
      - exists q, its, c'. split; [|auto].
        rewrite length_app in Hln. simpl in Hln. lia. }
    destruct (Nat.lt_ge_cases l2 (List.length (getPaths t1))) as [Hl|Hl]; [exact Hl|].
    rewrite nth_overflow in Hin by exact Hl. contradiction.
Qed.

(** Two [swop]s in a row, whichever order the levels are given in. *)
Lemma swop_twice_finds work l1 l2 :
  l1 < l2 -> l2 < List.length (getPaths work) ->
  wfb work = true -> dicts_down_to l2 work -> solid_below l2 work ->
  exists t1 t2,
    swop work l1 l2 = Ok t1 /\ swop work l2 l1 = Ok t1
    /\ swop t1 l1 l2 = Ok t2 /\ swop t1 l2 l1 = Ok t2
    /\ wfb t2 = true
    /\ forall p v, is_dict v = false ->
                   (find t2 p = Some v <-> find work p = Some v).
Proof.
  intros Hlt Hn Hw Hd Hs.
  destruct (swop_once work l1 l2 Hlt Hn Hw Hd Hs)
    as [t1 [H1 [H1' [Hw1 [Hd1 [Hs1 [Hn1 Hleaf1]]]]]]].
  destruct (swop_once t1 l1 l2 Hlt Hn1 Hw1 Hd1 Hs1)
    as [t2 [H2 [H2' [Hw2 [Hd2 [_ [_ Hleaf2]]]]]]].
  exists t1, t2. repeat (split; [assumption|]).
  intros p v Hv.
  destruct (Nat.lt_ge_cases l2 (List.length p)) as [Hl|Hl].
  - destruct (split_at_level l2 p Hl) as [o [suf [-> Hlo]]].
    destruct (swapped_exists l1 l2 o Hlt Hlo) as [n Hsw].
    rewrite (Hleaf2 n o suf v (swapped_sym _ _ _ _ Hsw) Hv).
    apply (Hleaf1 o n suf v Hsw Hv).
  - split; intros Hf.
    + apply (Hd2 p v) in Hf; [congruence | exact Hl].
    + apply (Hd p v) in Hf; [congruence | exact Hl].
Qed.

(** C2, as amended.  For a tree whose leaves all lie below the deeper of
    two distinct levels, and that holds neither None nor a pandas object
    at the two depths right below that level, swopping the two levels
    twice ends normally and gives a tree with the same bindings of full
    paths to payloads, up to their order; no condition on keys shared by
    the two levels is needed. *)
Theorem swop_twice_same_bindings (T : value) (i j : nat) :
  wfb T = true ->
  i <> j ->
  i < List.length (getPaths T) ->
  j < List.length (getPaths T) ->
  leaves_below (Nat.max i j) T = true ->
  solid_at (Nat.max i j + 1) T = true ->
  solid_at (Nat.max i j + 2) T = true ->
  exists T1 T2,
    swop T i j = Ok T1
    /\ swop T1 i j = Ok T2
    /\ Permutation (bindings T2) (bindings T).
Proof.
  intros Hw Hij Hi Hj Hdeep Hs1 Hs2.
  assert (Hd : dicts_down_to (Nat.max i j) T) by now apply leaves_below_sound.
  assert (Hs : solid_below (Nat.max i j) T).
  { intros p u Hf [Hl|Hl];
      [apply (solid_at_sound T _ p u Hs1 Hf Hl)
      |apply (solid_at_sound T _ p u Hs2 Hf Hl)]. }
  assert (Hperm : forall T2,
             wfb T2 = true ->
             (forall p v, is_dict v = false ->
                          (find T2 p = Some v <-> find T p = Some v)) ->
             Permutation (bindings T2) (bindings T)).
  { intros T2 Hw2 Hfind. apply NoDup_Permutation; try now apply bindings_NoDup.
    intros [p v]. rewrite !bindings_In by assumption.
    split; intros [Hf Hv]; (split; [now apply Hfind | exact Hv]). }
  destruct (Nat.lt_gt_cases i j) as [Hne _]. destruct (Hne Hij) as [Hlt|Hlt].
  - rewrite Nat.max_r in Hd, Hs by lia.
    destruct (swop_twice_finds T i j Hlt Hj Hw Hd Hs)
      as [t1 [t2 [H1 [_ [H2 [_ [Hw2 Hfind]]]]]]].
    exists t1, t2. auto.
  - rewrite Nat.max_l in Hd, Hs by lia.
    destruct (swop_twice_finds T j i Hlt Hi Hw Hd Hs)
      as [t1 [t2 [_ [H1 [_ [H2 [Hw2 Hfind]]]]]]].
    exists t1, t2. auto.
Qed.

(** A run of C2 as amended, on the two-by-two tree. *)
Lemma swop_twice_same_bindings_witness :
  exists T1 T2,
    swop two_by_two 0 1 = Ok T1
    /\ swop T1 0 1 = Ok T2
    /\ Permutation (bindings T2) (bindings two_by_two).
Proof.
  apply (swop_twice_same_bindings two_by_two 0 1).
  - reflexivity.
  - discriminate.
  - vm_compute. lia.
  - vm_compute. lia.
  - reflexivity.
  - reflexivity.
  - reflexivity.
Defined.

(** C2 as stated fails: in the tree that holds the branch a with x and,
    next to it, the leaf b, the levels 0 and 1 are valid, distinct and
    share no key; the first [swop] drops the leaf b, which does not reach
    level 1, and the second cannot bring it back. *)
Lemma swop_twice_loses_shallow_leaf :
  swop (VDict [(KStr "a", VDict [(KStr "x", VInt 1)]); (KStr "b", VInt 5)]) 0 1
  = Ok (VDict [(KStr "x", VDict [(KStr "a", VInt 1)])])
  /\ swop (VDict [(KStr "x", VDict [(KStr "a", VInt 1)])]) 0 1
     = Ok (VDict [(KStr "a", VDict [(KStr "x", VInt 1)])])
  /\ getPaths (VDict [(KStr "a", VDict [(KStr "x", VInt 1)]); (KStr "b", VInt 5)])
     = [[KStr "a"; KStr "b"]; [KStr "x"]]
  /\ ~ Permutation
         (bindings (VDict [(KStr "a", VDict [(KStr "x", VInt 1)])]))
         (bindings (VDict [(KStr "a", VDict [(KStr "x", VInt 1)]);
                           (KStr "b", VInt 5)])).
Proof.
  split; [reflexivity|]. split; [reflexivity|]. split; [reflexivity|].
  intros H. apply Permutation_length in H. discriminate H.
Qed.

(** * Further properties of the code *)

(** ** unique *)

Lemma unique_from_NoDup l : forall seen, NoDup (unique_from seen l).
Proof.
  induction l as [|x l IH]; intros seen; simpl.
  - constructor.
  - destruct (existsb (key_eqb x) seen) eqn:E; [apply IH|].
    constructor; [|apply IH].
    rewrite unique_from_In. simpl. tauto.
Qed.

Lemma unique_from_fixed l :
  forall seen, NoDup l -> (forall k, In k l -> ~ In k seen) -> unique_from seen l = l.
Proof.
  induction l as [|x l IH]; intros seen Hnd Hs; simpl; [reflexivity|].
  inversion Hnd as [|? ? Hx Hl]; subst.
  destruct (existsb (key_eqb x) seen) eqn:E.
  - apply existsb_key_eqb_In in E. exfalso. apply (Hs x); simpl; auto.
  - f_equal. apply IH; [assumption|].
    intros k Hk [<-|Hin]; [contradiction|]. apply (Hs k); simpl; auto.
Qed.

Lemma unique_from_seen l :
  forall seen seen',
    (forall k, In k seen <-> In k seen') ->
    unique_from seen l = unique_from seen' l.
Proof.
  induction l as [|x l IH]; intros seen seen' H; [reflexivity|].
  cbn [unique_from].
  assert (E : existsb (key_eqb x) seen = existsb (key_eqb x) seen').
  { destruct (existsb (key_eqb x) seen) eqn:E1, (existsb (key_eqb x) seen') eqn:E2;
      try reflexivity.
    - apply existsb_key_eqb_In in E1. apply H in E1.
      apply existsb_key_eqb_In in E1. congruence.
    - apply existsb_key_eqb_In in E2. apply H in E2.
      apply existsb_key_eqb_In in E2. congruence. }
  rewrite <- E. destruct (existsb (key_eqb x) seen).
  - now apply IH.
  - f_equal. apply IH. intros k. simpl. now rewrite H.
Qed.

Lemma unique_from_app l1 l2 :
  forall seen,
    unique_from seen (l1 ++ l2)
    = unique_from seen l1 ++ unique_from (l1 ++ seen) l2.
Proof.
  induction l1 as [|x l1 IH]; intros seen; [reflexivity|].
  cbn [app unique_from].
  destruct (existsb (key_eqb x) seen) eqn:E.
  - rewrite IH. f_equal. apply unique_from_seen.
    intros k. cbn [app In]. rewrite !in_app_iff. apply existsb_key_eqb_In in E.
    split; [tauto|]. intros [<-|[H|H]]; auto.
  - cbn [app]. rewrite IH. f_equal. f_equal. apply unique_from_seen.
    intros k. cbn [app In]. rewrite !in_app_iff. cbn [In]. tauto.
Qed.

(** X1.  [unique] keeps one copy of each key, the first, and keeps the
    order of the first occurrences: its result is free of duplicates and
    holds the keys of the input and no other; a key that occurs in the
    input before the first occurrence of another key comes before it in
    the result; the result is left alone by a second run and starts with
    the first key of the input. *)
Theorem unique_first_occurrences (l : list key) :
  NoDup (unique l)
  /\ (forall k, In k (unique l) <-> In k l)
  /\ (forall x y before after,
        l = before ++ y :: after -> In x before -> ~ In y before ->
        exists a b c, unique l = a ++ x :: b ++ y :: c)
  /\ unique (unique l) = unique l
  /\ (forall k rest, l = k :: rest -> exists more, unique l = k :: more).
Proof.
  split; [apply unique_from_NoDup|].
  split; [intros k; apply unique_In|].
  split; [|split].
  - intros x y before after -> Hx Hy. unfold unique.
    rewrite unique_from_app. cbn [unique_from].
    destruct (existsb (key_eqb y) (before ++ [])) eqn:E.
    + apply existsb_key_eqb_In in E. rewrite app_nil_r in E. contradiction.
    + apply (unique_In x before) in Hx. apply in_split in Hx as [a [b Hab]].
      unfold unique in Hab. rewrite Hab. rewrite <- app_assoc. cbn [app]. eauto.
  - unfold unique at 1. apply unique_from_fixed; [apply unique_from_NoDup|].
    intros k _ [].
  - intros k rest ->. unfold unique. simpl. eauto.
Qed.

(** A run of X1 on the keys a, b, c, b: the first b comes before c. *)
Lemma unique_first_occurrences_witness :
  exists a b c,
    unique [KStr "a"; KStr "b"; KStr "c"; KStr "b"]
    = a ++ KStr "b" :: b ++ KStr "c" :: c.
Proof.
  destruct (unique_first_occurrences [KStr "a"; KStr "b"; KStr "c"; KStr "b"])
    as [_ [_ [Horder _]]].
  apply (Horder (KStr "b") (KStr "c") [KStr "a"; KStr "b"] [KStr "b"]).
  - reflexivity.
  - right. now left.
  - intros [H|[H|[]]]; discriminate H.
Defined.

(** ** Module-level getLeaf and setLeaf *)

Lemma setLeaf_is_setLeaf_from : setLeaf = DataTree.setLeaf_from.
Proof. reflexivity. Qed.

Lemma getLeaf_from_Ok_getLeaf (p : path) :
  forall work v, DataTree.getLeaf_from work p = Ok v -> getLeaf work p = Ok v.
Proof.
  induction p as [|x rest IH]; intros work v H; [exact H|].
  rewrite DataTree_getLeaf_from_step in H. rewrite getLeaf_step.
  destruct (py_getitem work x) as [w|e|]; [now apply IH| |discriminate H].
  destruct e; try discriminate H; exact H.
Qed.

(** X2.  The module-level [getLeaf] never raises KeyError or TypeError;
    it returns the object a path through the dictionaries leads to, and
    None as soon as a key of the path is missing from the dictionary
    reached. *)
Theorem getLeaf_answers_None_off_the_tree (work : value) (p : path) :
  getLeaf work p <> Raise KeyError
  /\ getLeaf work p <> Raise TypeError
  /\ (forall v, find work p = Some v -> getLeaf work p = Ok v)
  /\ (forall q items k r,
        p = q ++ k :: r ->
        find work q = Some (VDict items) -> dict_get items k = None ->
        getLeaf work p = Ok VNone).
Proof.
  split; [apply getLeaf_no_KeyError_TypeError|].
  split; [apply getLeaf_no_KeyError_TypeError|].
  split.
  - intros v Hf. rewrite <- (app_nil_r p). now rewrite (find_getLeaf p work v []).
  - intros q items k r -> Hf Hk.
    rewrite (find_getLeaf q work _ (k :: r) Hf), getLeaf_step.
    simpl. now rewrite Hk.
Qed.

(** A run of X2. *)
Lemma getLeaf_answers_None_off_the_tree_witness :
  getLeaf two_by_two [KStr "a"; KStr "y"] = Ok (VInt 2)
  /\ getLeaf two_by_two [KStr "a"; KStr "z"; KStr "t"] = Ok VNone.
Proof.
  destruct (getLeaf_answers_None_off_the_tree two_by_two [KStr "a"; KStr "y"])
    as [_ [_ [H1 _]]].
  destruct (getLeaf_answers_None_off_the_tree two_by_two
              [KStr "a"; KStr "z"; KStr "t"]) as [_ [_ [_ H2]]].
  split.
  - apply H1. reflexivity.
  - apply (H2 [KStr "a"] [(KStr "x", VInt 1); (KStr "y", VInt 2)] (KStr "z")
              [KStr "t"]); reflexivity.
Defined.

(** X3.  Whenever the module-level [setLeaf] returns, [getLeaf] on the
    mutated object and the same path returns the data that was set. *)
Theorem setLeaf_then_getLeaf (work : value) (p : path) (data work' : value) :
  setLeaf work p data = Ok work' -> getLeaf work' p = Ok data.
Proof.
  intros H. apply getLeaf_from_Ok_getLeaf.
  apply (setLeaf_from_then_getLeaf_from p work data work').
  - intros ->. discriminate H.
  - rewrite <- setLeaf_is_setLeaf_from. exact H.
Qed.

(** A run of X3. *)
Lemma setLeaf_then_getLeaf_witness :
  getLeaf (VDict [(KStr "a", VDict [(KStr "b", VInt 5)])]) [KStr "a"; KStr "b"]
  = Ok (VInt 5).
Proof.
  apply (setLeaf_then_getLeaf (VDict []) [KStr "a"; KStr "b"] (VInt 5)).
  reflexivity.
Defined.

(** X4.  On a path that is not empty and meets dictionaries only,
    [setLeaf] returns, creating the dictionaries that are missing; the
    path then leads to the data, and the lookups along paths that
    neither start the path set nor extend it are unchanged. *)
Theorem setLeaf_creates_and_keeps_the_rest (work : value) (p : path) (data : value) :
  p <> [] -> settable work p = true ->
  exists work',
    setLeaf work p data = Ok work'
    /\ find work' p = Some data
    /\ (forall q, firstn (List.length q) p <> q -> firstn (List.length p) q <> p ->
                  find work' q = find work q).
Proof.
  intros Hp Hs. exists (insert work p data).
  split; [now apply setLeaf_insert|].
  split; [now apply find_insert_same|].
  intros q Hq1 Hq2.
    destruct (Nat.le_ge_cases (List.length q) (List.length p)) as [Hle|Hle].
    + apply (find_insert_diverge p q (List.length q)); [|exact Hle|lia].
      now rewrite firstn_all.
    + apply (find_insert_diverge p q (List.length p)); [|lia|exact Hle].
      rewrite firstn_all. congruence.
Qed.

(** A run of X4. *)
Lemma setLeaf_creates_and_keeps_the_rest_witness :
  exists work',
    setLeaf two_by_two [KStr "c"; KStr "x"] (VInt 9) = Ok work'
    /\ find work' [KStr "c"; KStr "x"] = Some (VInt 9)
    /\ (forall q, firstn (List.length q) [KStr "c"; KStr "x"] <> q ->
                  firstn 2 q <> [KStr "c"; KStr "x"] ->
                  find work' q = find two_by_two q).
Proof.
  apply (setLeaf_creates_and_keeps_the_rest two_by_two [KStr "c"; KStr "x"] (VInt 9)).
  - discriminate.
  - reflexivity.
Defined.

(** ** getPaths and getPrefixes *)

Lemma frame_free_dict items :
  frame_free (VDict items) = true <-> Forall (fun kv => frame_free (snd kv) = true) items.
Proof.
  cbn [frame_free]. induction items as [|[k c] items IH].
  - split; [constructor | reflexivity].
  - rewrite andb_true_iff, IH. split.
    + intros [H1 H2]. constructor; assumption.
    + intros H. inversion H; subst. auto.
Qed.

Lemma frame_free_walk (p : path) :
  forall v u, frame_free v = true -> walk v p u -> frame_free u = true.
Proof.
  induction p as [|k p IH]; intros v u Hv Hw.
  - simpl in Hw. now subst.
  - simpl in Hw. destruct v as [ | | | | | |items]; try contradiction.
    destruct Hw as [c [Hc Hw]]. apply (IH c); [|exact Hw].
    apply frame_free_dict in Hv. rewrite Forall_forall in Hv.
    apply (Hv (k, c) Hc).
Qed.

Lemma frame_free_not_frame v : frame_free v = true -> is_frame v = false.
Proof. destruct v; simpl; congruence. Qed.

Lemma frame_free_descend work d :
  frame_free work = true ->
  Forall (fun v => is_frame v = false) (descend d [work]).
Proof.
  intros Hff. apply Forall_forall. intros u Hu.
  apply descend_In in Hu as [v [p [[<-|[]] [_ Hw]]]].
  apply frame_free_not_frame. now apply (frame_free_walk p work).
Qed.

Lemma keys_at_depth work d k :
  wfb work = true ->
  (In k (flat_map keys_of (descend d [work])) <->
   exists p items c,
     List.length p = d /\ find work p = Some (VDict items)
     /\ dict_get items k = Some c).
Proof.
  intros Hw. rewrite in_flat_map. split.
  - intros [u [Hu Hk]]. apply descend_In in Hu as [v [p [[<-|[]] [Hl Hwalk]]]].
    destruct u; try contradiction. simpl in Hk.
    apply in_map_iff in Hk as [[k' c] [Heq Hin]]. simpl in Heq. subst k'.
    exists p, items, c. split; [exact Hl|].
    pose proof (walk_find p work _ Hw Hwalk) as Hf. split; [exact Hf|].
    apply In_dict_get; [|exact Hin].
    apply (wfb_find p work _ Hw) in Hf. now apply wfb_dict in Hf.
  - intros [p [items [c [Hl [Hf Hg]]]]].
    exists (VDict items). split.
    + apply descend_In. exists work, p. split; [now left|].
      split; [exact Hl | now apply find_walk].
    + simpl. apply in_map_iff. exists (k, c). split; [reflexivity|].
      now apply dict_get_In.
Qed.

Lemma getPaths_level_frame_free (work : value) (d : nat) (k : key) :
  wfb work = true -> frame_free work = true ->
  (In k (nth d (getPaths work) []) <->
   exists p items c,
     List.length p = d /\ find work p = Some (VDict items)
     /\ dict_get items k = Some c).
Proof.
  intros Hw Hff. rewrite <- (keys_at_depth work d k Hw). unfold getPaths.
  destruct (Nat.lt_ge_cases d (S (height work))) as [Hlt|Hge].
  - apply getPaths_loop_nth; [exact Hlt|].
    intros d' _. now apply frame_free_descend.
  - rewrite nth_overflow
      by (pose proof (getPaths_loop_length_le (S (height work)) [work]); lia).
    split; [intros []|]. intros Hk. apply keys_below_height in Hk.
    change (max_height [work]) with (Nat.max (height work) 0) in Hk. lia.
Qed.

(** X5.  In a tree without pandas objects, level [d] of [getPaths] holds
    exactly the keys of the dictionaries found at the end of the paths
    of length [d]. *)
Theorem getPaths_lists_the_keys_of_each_depth (work : value) (d : nat) (k : key) :
  wfb work = true -> frame_free work = true ->
  (In k (nth d (getPaths work) []) <->
   exists p items c,
     List.length p = d /\ find work p = Some (VDict items)
     /\ dict_get items k = Some c).
Proof. apply getPaths_level_frame_free. Qed.

(** A run of X5. *)
Lemma getPaths_lists_the_keys_of_each_depth_witness :
  In (KStr "y") (nth 1 (getPaths two_by_two) []) <->
  exists p items c,
    List.length p = 1 /\ find two_by_two p = Some (VDict items)
    /\ dict_get items (KStr "y") = Some c.
Proof.
  apply (getPaths_lists_the_keys_of_each_depth two_by_two 1 (KStr "y"));
    reflexivity.
Defined.

Lemma getPaths_loop_NoDup fuel :
  forall l, Forall (fun level => NoDup level) (getPaths_loop fuel l).
Proof.
  induction fuel as [|fuel IH]; intros l; [constructor|].
  cbn [getPaths_loop]. destruct (collect_level (filter has_keys l)) as [ks next].
  destruct ks as [|k ks]; constructor; [|apply IH].
  apply unique_from_NoDup.
Qed.

(** X6.  Every level of [getPaths] is non-empty and free of duplicates;
    an object that is not a dictionary has no level. *)
Theorem getPaths_levels_are_sets (work : value) :
  Forall (fun level => level <> [] /\ NoDup level) (getPaths work)
  /\ (is_dict work = false -> getPaths work = []).
Proof.
  split.
  - unfold getPaths. apply Forall_forall. intros level Hin. split.
    + pose proof (getPaths_loop_not_nil (S (height work)) [work]) as H.
      rewrite Forall_forall in H. now apply H.
    + pose proof (getPaths_loop_NoDup (S (height work)) [work]) as H.
      rewrite Forall_forall in H. now apply H.
  - destruct work; simpl; try discriminate; reflexivity.
Qed.

(** X7.  When the first value of a dictionary is a pandas object, the
    [break] of [getPaths] leaves the second round empty-handed: the keys
    below the other values are not listed. *)
Theorem getPaths_stops_at_leading_frame (k : key) (f : frame)
  (rest : list (key * value)) :
  getPaths (VDict ((k, VFrame f) :: rest)) = [unique (k :: map fst rest)].
Proof.
  unfold getPaths. rewrite height_dict.
  cbn [getPaths_loop filter has_keys collect_level map fst snd app].
  rewrite !app_nil_r. reflexivity.
Qed.

Lemma key_in_level_frame_free work (p : path) i x u :
  wfb work = true -> frame_free work = true ->
  find work p = Some u -> nth_error p i = Some x ->
  In x (nth i (getPaths work) []).
Proof.
  intros Hw Hff Hf Hn.
  destruct (nth_error_split p i Hn) as [q [r [-> Hq]]].
  rewrite find_app in Hf.
  destruct (find work q) as [w1|] eqn:Eq; [|discriminate Hf].
  cbn [find] in Hf. destruct w1 as [ | | | | | |items]; try discriminate Hf.
  destruct (dict_get items x) as [c|] eqn:Ec; [|discriminate Hf].
  apply getPaths_level_frame_free; [exact Hw | exact Hff |].
  exists q, items, c. auto.
Qed.

(** X8.  In a tree without pandas objects every path that leads
    somewhere is among the prefixes of its length; and the prefixes of a
    level have that many keys, or as many as there are levels. *)
Theorem getPrefixes_holds_every_path (work : value) (p : path) (u : value) :
  wfb work = true -> frame_free work = true ->
  find work p = Some u ->
  In p (getPrefixes work (List.length p))
  /\ (forall level q, In q (getPrefixes work level) ->
                      List.length q = Nat.min level (List.length (getPaths work))).
Proof.
  intros Hw Hff Hf. split.
  - unfold getPrefixes. apply In_product.
    apply (Forall2_levels (getPaths work) p 0).
    intros i x Hx. change (0 + i) with i.
    now apply (key_in_level_frame_free work p i x u).
  - intros level q Hq. unfold getPrefixes in Hq. apply In_product in Hq.
    apply Forall2_length in Hq. rewrite Hq. apply length_firstn.
Qed.

(** A run of X8. *)
Lemma getPrefixes_holds_every_path_witness :
  In [KStr "b"; KStr "x"] (getPrefixes two_by_two 2)
  /\ (forall level q, In q (getPrefixes two_by_two level) ->
                      List.length q = Nat.min level (List.length (getPaths two_by_two))).
Proof.
  apply (getPrefixes_holds_every_path two_by_two [KStr "b"; KStr "x"] (VInt 3));
    reflexivity.
Defined.

(** ** getNodes *)

(** X9.  [getNodes] yields the nodes of a level and no other: the pairs
    of a path of [level + 1] keys and the object it leads to. *)
Theorem getNodes_yields_the_nodes_of_a_level
  (data : value) (level : Z) (nodes : list (path * value)) :
  wfb data = true ->
  getNodes data level = Ok nodes ->
  forall p b,
    In (p, b) nodes <->
    p <> [] /\ (Z.of_nat (List.length p) = level + 1)%Z /\ find data p = Some b.
Proof.
  intros Hw Hg p b. unfold getNodes in Hg.
  destruct data as [ | | | | | |items]; try discriminate Hg.
  cbn [py_items bind] in Hg.
  assert (Hb : nodes
               = getNodes_loop (S (entries (VDict items))) level
                   (map (fun x => ([], 0, x)) items)) by congruence.
  clear Hg. subst nodes.
  rewrite getNodes_loop_In by (rewrite nodes_cost_children; lia).
  split.
  - intros [p0 [l [k [v [r [Hin [-> [Hwalk Hlen]]]]]]]].
    apply in_map_iff in Hin as [[k0 v0] [Heq Hin]].
    injection Heq as <- <- <- <-. cbn [app].
    split; [discriminate|]. split; [simpl List.length; lia|].
    apply walk_find; [exact Hw|]. simpl. eauto.
  - intros [Hp [Hlen Hf]]. destruct p as [|k r]; [contradiction|].
    apply find_walk in Hf. simpl in Hf. destruct Hf as [c [Hin Hwalk]].
    exists [], 0, k, c, r. split; [|split; [reflexivity | split; [exact Hwalk|]]].
    + apply in_map_iff. exists (k, c). auto.
    + simpl List.length in Hlen. lia.
Qed.

(** A run of X9. *)
Lemma getNodes_yields_the_nodes_of_a_level_witness :
  In ([KStr "b"; KStr "x"], VInt 3)
     [([KStr "a"; KStr "x"], VInt 1); ([KStr "a"; KStr "y"], VInt 2);
      ([KStr "b"; KStr "x"], VInt 3); ([KStr "b"; KStr "y"], VInt 4)] <->
  [KStr "b"; KStr "x"] <> []
  /\ (Z.of_nat (List.length [KStr "b"; KStr "x"]) = 1 + 1)%Z
  /\ find two_by_two [KStr "b"; KStr "x"] = Some (VInt 3).
Proof.
  apply (getNodes_yields_the_nodes_of_a_level two_by_two 1%Z); reflexivity.
Defined.

(** ** getDepths *)

Lemma flat_map_rev_rev {A B : Type} (g : A -> list B) (l : list A) :
  flat_map (fun e => rev (g e)) (rev l) = rev (flat_map g l).
Proof.
  induction l as [|x l IH]; [reflexivity|].
  simpl. rewrite flat_map_app, IH, rev_app_distr. simpl. now rewrite app_nil_r.
Qed.

Lemma getDepths_loop_exact (fuel : nat) :
  forall stack,
    stack_cost stack < fuel ->
    getDepths_loop fuel stack
    = flat_map (fun e => rev (leaf_depths (fst e) (snd e))) stack.
Proof.
  induction fuel as [|fuel IH]; intros stack Hc; [lia|].
  destruct stack as [|[level v] rest]; [reflexivity|].
  rewrite stack_cost_cons in Hc. cbn [fst snd] in Hc.
  cbn [getDepths_loop flat_map fst snd].
  destruct v as [ | | | | | |items];
    try (cbn [leaf_depths rev app]; f_equal; apply IH; lia).
  rewrite IH.
  - rewrite flat_map_app. f_equal.
    rewrite leaf_depths_dict.
    rewrite <- (flat_map_rev_rev (fun kv : key * value => leaf_depths (S level) (snd kv))).
    rewrite <- map_rev, flat_map_concat_map, map_map, <- flat_map_concat_map.
    reflexivity.
  - rewrite stack_cost_app, stack_cost_rev, stack_cost_children. lia.
Qed.

Lemma leaf_depths_bindings (v : value) :
  forall level,
    leaf_depths level v = map (fun pv => level + List.length (fst pv)) (bindings v).
Proof.
  induction v as [ | | |xs IHxs|xs IHxs| |items IH] using value_ind'; intros level;
    try (simpl; now rewrite Nat.add_0_r).
  rewrite leaf_depths_dict, bindings_dict.
  induction IH as [|[k c] items Hc _ IHitems]; [reflexivity|].
  cbn [flat_map fst snd]. rewrite map_app, IHitems. f_equal.
  cbn [snd] in Hc. rewrite Hc, map_map. apply map_ext.
  intros [p w]. simpl. lia.
Qed.

Lemma getDepths_leaf_depths (items : list (key * value)) :
  getDepths (VDict items)
  = Ok (rev (flat_map (fun kv => leaf_depths 0 (snd kv)) items)).
Proof.
  unfold getDepths. cbn [py_values py_items bind]. f_equal.
  rewrite getDepths_loop_exact
    by (rewrite stack_cost_rev, map_map, stack_cost_children; lia).
  rewrite map_map.
  rewrite <- map_rev.
  rewrite (flat_map_concat_map _ (map _ (rev items))), map_map,
    <- flat_map_concat_map.
  cbn [fst snd].
  apply (flat_map_rev_rev (fun kv : key * value => leaf_depths 0 (snd kv))).
Qed.

(** X10.  [getDepths] returns one entry for each binding of the tree,
    the length of its path less one, last binding first. *)
Theorem getDepths_gives_the_depth_of_every_leaf (items : list (key * value)) :
  getDepths (VDict items)
  = Ok (rev (map (fun pv => List.length (fst pv) - 1) (bindings (VDict items)))).
Proof.
  rewrite getDepths_leaf_depths. do 2 f_equal. rewrite bindings_dict.
  induction items as [|[k c] items IH]; [reflexivity|].
  cbn [flat_map fst snd]. rewrite map_app, IH. f_equal.
  rewrite leaf_depths_bindings, map_map. apply map_ext.
  intros [p w]. simpl. lia.
Qed.

Lemma list_max_cons x y l :
  list_max (x :: y :: l) = option_map (Nat.max x) (list_max (y :: l)).
Proof. reflexivity. Qed.

Lemma list_max_Some (l : list nat) :
  l <> [] ->
  exists m, list_max l = Some m /\ In m l /\ Forall (fun x => x <= m) l.
Proof.
  induction l as [|x l IH]; intros Hne; [contradiction|].
  destruct l as [|y l].
  - exists x. split; [reflexivity|]. split; [now left|]. constructor; [lia|constructor].
  - destruct IH as [m [Hm [Hin Hall]]]; [discriminate|].
    rewrite list_max_cons, Hm. exists (Nat.max x m). split; [reflexivity|].
    split.
    + destruct (Nat.max_spec x m) as [[_ ->]|[_ ->]]; [now right | now left].
    + constructor; [lia|]. eapply Forall_impl; [|exact Hall].
      intros a Ha. simpl in Ha. lia.
Qed.

Lemma list_max_spec (l : list nat) (m : nat) :
  In m l -> Forall (fun x => x <= m) l -> list_max l = Some m.
Proof.
  intros Hin Hall.
  destruct (list_max_Some l) as [m0 [Hm0 [Hin0 Hall0]]].
  { intros ->. contradiction. }
  rewrite Forall_forall in Hall, Hall0.
  pose proof (Hall m0 Hin0). pose proof (Hall0 m Hin).
  rewrite Hm0. f_equal. lia.
Qed.

Lemma leaf_depths_bound (v : value) :
  forall level, Forall (fun d => d <= level + height v) (leaf_depths level v).
Proof.
  induction v as [ | | |xs IHxs|xs IHxs| |items IH] using value_ind'; intros level;
    try (simpl; constructor; [lia|constructor]).
  rewrite leaf_depths_dict, height_dict.
  apply Forall_forall. intros d Hd. apply in_flat_map in Hd as [[k c] [Hin Hd]].
  rewrite Forall_forall in IH. specialize (IH (k, c) Hin (S level)).
  rewrite Forall_forall in IH. specialize (IH d Hd). cbn [snd] in IH.
  assert (height c <= max_height (map snd items)).
  { apply height_le_max_height. apply in_map_iff. exists (k, c). auto. }
  lia.
Qed.

Lemma max_height_attained (l : list value) :
  l <> [] -> exists v, In v l /\ height v = max_height l.
Proof.
  induction l as [|x l IH]; intros Hne; [contradiction|].
  change (max_height (x :: l)) with (Nat.max (height x) (max_height l)).
  destruct l as [|y l].
  - exists x. split; [now left|]. simpl. lia.
  - destruct IH as [v [Hin Hv]]; [discriminate|].
    destruct (Nat.max_spec (height x) (max_height (y :: l))) as [[_ ->]|[_ ->]].
    + exists v. split; [now right | exact Hv].
    + exists x. split; [now left | reflexivity].
Qed.

Lemma leaf_depths_deepest (v : value) :
  forall level, plain v = true -> In (level + height v) (leaf_depths level v).
Proof.
  induction v as [ | | |xs IHxs|xs IHxs| |items IH] using value_ind'; intros level Hp;
    try (simpl; left; lia).
  apply plain_dict in Hp as [Hne Hall].
  rewrite leaf_depths_dict, height_dict.
  destruct (max_height_attained (map snd items)) as [c [Hc Hh]].
  { destruct items; [contradiction | discriminate]. }
  apply in_map_iff in Hc as [[k c'] [Heq Hin]]. simpl in Heq. subst c'.
  apply in_flat_map. exists (k, c). split; [exact Hin|].
  rewrite Forall_forall in IH, Hall.
  specialize (IH (k, c) Hin (S level) (Hall (k, c) Hin)). cbn [snd] in *.
  rewrite <- Hh. replace (level + S (height c)) with (S level + height c) by lia.
  exact IH.
Qed.

(** X11.  In a tree of plain nested dictionaries the deepest leaf lies
    on the last level of [getPaths], and every depth of [getDepths]
    names a level. *)
Theorem deepest_leaf_sits_on_the_last_level (data : value) (levels : list nat) :
  plain data = true ->
  getDepths data = Ok levels ->
  list_max levels = Some (List.length (getPaths data) - 1)
  /\ Forall (fun d => d < List.length (getPaths data)) levels.
Proof.
  intros Hp Hg.
  destruct data as [ | | | | | |items]; try discriminate Hg.
  rewrite getDepths_leaf_depths in Hg. injection Hg as <-.
  assert (Hlen : List.length (getPaths (VDict items)) = height (VDict items)).
  { unfold getPaths. rewrite getPaths_loop_length.
    - simpl. lia.
    - constructor; [exact Hp | constructor].
    - simpl. lia. }
  rewrite Hlen, height_dict.
  replace (S (max_height (map snd items)) - 1) with (max_height (map snd items)) by lia.
  pose proof Hp as Hp'. apply plain_dict in Hp' as [Hne Hall].
  assert (Hbound : Forall (fun d => d <= max_height (map snd items))
                     (flat_map (fun kv : key * value => leaf_depths 0 (snd kv)) items)).
  { apply Forall_forall. intros d Hd. apply in_flat_map in Hd as [[k c] [Hin Hd]].
    pose proof (leaf_depths_bound c 0) as Hb. rewrite Forall_forall in Hb.
    specialize (Hb d Hd). cbn [snd] in *.
    assert (height c <= max_height (map snd items)).
    { apply height_le_max_height. apply in_map_iff. exists (k, c). auto. }
    lia. }
  split.
  - apply list_max_spec.
    + rewrite <- in_rev.
      destruct (max_height_attained (map snd items)) as [c [Hc Hh]].
      { destruct items; [contradiction | discriminate]. }
      apply in_map_iff in Hc as [[k c'] [Heq Hin]]. simpl in Heq. subst c'.
      apply in_flat_map. exists (k, c). split; [exact Hin|].
      rewrite Forall_forall in Hall. rewrite <- Hh.
      apply (leaf_depths_deepest c 0). apply (Hall (k, c) Hin).
    + apply Forall_rev. exact Hbound.
  - apply Forall_rev. eapply Forall_impl; [|exact Hbound].
    intros d Hd. simpl in Hd. lia.
Qed.

(** A run of X11. *)
Lemma deepest_leaf_sits_on_the_last_level_witness :
  list_max [1; 1; 0] = Some (List.length
     (getPaths (VDict [(KStr "a", VInt 1);
                       (KStr "b", VDict [(KStr "c", VInt 2); (KStr "d", VInt 3)])])) - 1)
  /\ Forall (fun d => d < List.length
     (getPaths (VDict [(KStr "a", VInt 1);
                       (KStr "b", VDict [(KStr "c", VInt 2); (KStr "d", VInt 3)])])))
       [1; 1; 0].
Proof.
  apply (deepest_leaf_sits_on_the_last_level
           (VDict [(KStr "a", VInt 1);
                   (KStr "b", VDict [(KStr "c", VInt 2); (KStr "d", VInt 3)])]));
    reflexivity.
Defined.

(** ** removeEmptyLeaves: what stays *)

Lemma flat_map_cons_eq {A B : Type} (f : A -> list B) x l :
  flat_map f (x :: l) = f x ++ flat_map f l.
Proof. reflexivity. Qed.

Lemma kept_items_cons k c items :
  kept_items ((k, c) :: items)
  = (if snd (removeEmptyLeaves c) then [(k, fst (removeEmptyLeaves c))] else [])
    ++ kept_items items.
Proof. reflexivity. Qed.

Lemma removeEmptyLeaves_dict items :
  removeEmptyLeaves (VDict items)
  = (VDict (kept_items items), negb (Nat.eqb (List.length (kept_items items)) 0)).
Proof.
  assert (H : forall l,
             (fix go (l : list (key * value)) : list (key * value) :=
                match l with
                | [] => []
                | (label, w) :: rest =>
                    let (w', keep) := removeEmptyLeaves w in
                    if keep then (label, w') :: go rest else go rest
                end) l = kept_items l).
  { induction l as [|[k w] l IH]; [reflexivity|].
    unfold kept_items. cbn [flat_map fst snd]. fold (kept_items l).
    rewrite IH. destruct (removeEmptyLeaves w) as [w' keep].
    destruct keep; reflexivity. }
  cbn [removeEmptyLeaves]. rewrite H. reflexivity.
Qed.

Lemma tidy_dict items :
  tidy (VDict items) = true <->
  Forall (fun kv => filled (snd kv) = true /\ tidy (snd kv) = true) items.
Proof.
  cbn [tidy]. induction items as [|[k c] items IH].
  - split; [constructor | reflexivity].
  - rewrite !andb_true_iff, IH. split.
    + intros [[H1 H2] H3]. constructor; auto.
    + intros H. inversion H as [|? ? [H1 H2] H3]; subst. auto.
Qed.

Lemma removeEmptyLeaves_facts (work : value) :
  tidy (fst (removeEmptyLeaves work)) = true
  /\ snd (removeEmptyLeaves work) = filled (fst (removeEmptyLeaves work))
  /\ removeEmptyLeaves (fst (removeEmptyLeaves work)) = removeEmptyLeaves work.
Proof.
  induction work as [ | | |xs IHxs|xs IHxs| |items IH] using value_ind';
    try (repeat split; reflexivity).
  rewrite removeEmptyLeaves_dict. cbn [fst snd].
  assert (Hall : Forall (fun kv => filled (snd kv) = true /\ tidy (snd kv) = true
                                   /\ removeEmptyLeaves (snd kv) = (snd kv, true))
                   (kept_items items)).
  { induction IH as [|[k c] items [Ht [Hf Hi]] _ IHitems]; [constructor|].
    rewrite kept_items_cons.
    apply Forall_app. split; [|exact IHitems].
    cbn [snd] in *. destruct (removeEmptyLeaves c) as [c' keep] eqn:E.
    cbn [fst snd] in *. destruct keep; constructor; [|constructor].
    cbn [snd]. split; [congruence|]. split; [exact Ht | exact Hi]. }
  split; [|split].
  - apply tidy_dict. eapply Forall_impl; [|exact Hall].
    intros kv [H1 [H2 _]]. split; assumption.
  - destruct (kept_items items); reflexivity.
  - rewrite removeEmptyLeaves_dict. 
    assert (Hk : kept_items (kept_items items) = kept_items items).
    { induction Hall as [|[k c] l [_ [_ Hi]] _ IHl]; [reflexivity|].
      rewrite kept_items_cons. cbn [snd] in Hi. rewrite Hi.
      cbn [fst snd app]. now rewrite IHl. }
    now rewrite Hk.
Qed.

Lemma filter_kept_leaf_map k (bs : list (path * value)) :
  filter kept_leaf (map (fun pv => (k :: fst pv, snd pv)) bs)
  = map (fun pv => (k :: fst pv, snd pv)) (filter kept_leaf bs).
Proof.
  induction bs as [|[p v] bs IH]; [reflexivity|].
  cbn [map]. cbn [filter].
  change (kept_leaf (k :: fst (p, v), snd (p, v))) with (kept_leaf (p, v)).
  destruct (kept_leaf (p, v)); cbn [map]; now rewrite IH.
Qed.

Lemma removeEmptyLeaves_bindings (work : value) :
  filter kept_leaf (bindings work)
  = if snd (removeEmptyLeaves work) then bindings (fst (removeEmptyLeaves work))
    else [].
Proof.
  induction work as [ | | |xs IHxs|xs IHxs|f|items IH] using value_ind';
    try reflexivity.
  rewrite removeEmptyLeaves_dict. cbn [fst snd].
  - assert (H : filter kept_leaf (bindings (VDict items))
                = bindings (VDict (kept_items items))).
    { rewrite !bindings_dict.
      induction IH as [|[k c] items Hc _ IHitems]; [reflexivity|].
      rewrite kept_items_cons, flat_map_app, flat_map_cons_eq, filter_app.
      f_equal; [|exact IHitems]. cbn [fst snd] in *.
      etransitivity; [apply filter_kept_leaf_map|].
      etransitivity; [apply f_equal; exact Hc|].
      destruct (snd (removeEmptyLeaves c)); [|reflexivity].
      rewrite flat_map_cons_eq. cbn [flat_map fst snd]. now rewrite app_nil_r. }
    rewrite H. destruct (kept_items items); reflexivity.
Qed.

(** X12.  [removeEmptyLeaves] leaves no empty dictionary and no pandas
    object without rows inside the tree, its flag says whether the
    object itself is one, and a second run finds nothing to do. *)
Theorem removeEmptyLeaves_leaves_nothing_empty (work : value) :
  tidy (fst (removeEmptyLeaves work)) = true
  /\ snd (removeEmptyLeaves work) = filled (fst (removeEmptyLeaves work))
  /\ removeEmptyLeaves (fst (removeEmptyLeaves work)) = removeEmptyLeaves work.
Proof. apply removeEmptyLeaves_facts. Qed.

(** X13.  The bindings of a dictionary after [removeEmptyLeaves] are its
    bindings before, in the same order, less the pandas objects without
    rows. *)
Theorem removeEmptyLeaves_keeps_the_leaves (items : list (key * value)) :
  bindings (fst (removeEmptyLeaves (VDict items)))
  = filter kept_leaf (bindings (VDict items)).
Proof.
  rewrite removeEmptyLeaves_bindings, removeEmptyLeaves_dict. cbn [fst snd].
  destruct (kept_items items); reflexivity.
Qed.

(** ** removeLeaf *)

Lemma removeLeaf_from_step work x y rest :
  removeLeaf_from work (x :: y :: rest) =
  (child <- py_getitem work x ;;
   ' (child', ret) <- removeLeaf_from child (y :: rest) ;;
   Ok (store work x child', ret)).
Proof. reflexivity. Qed.

Lemma dict_del_Some items k v :
  dict_get items k = Some v -> exists items', dict_del items k = Some items'.
Proof.
  induction items as [|[k' v'] items IH]; simpl; [discriminate|].
  destruct (key_eqb k k'); [eauto|].
  intros H. destruct (IH H) as [items' ->]. eauto.
Qed.

Lemma dict_del_None items k : dict_get items k = None -> dict_del items k = None.
Proof.
  induction items as [|[k' v'] items IH]; simpl; [reflexivity|].
  destruct (key_eqb k k'); [discriminate|].
  intros H. now rewrite (IH H).
Qed.

Lemma dict_get_not_In items k : ~ In k (map fst items) -> dict_get items k = None.
Proof.
  induction items as [|[k' v'] items IH]; simpl; [reflexivity|].
  intros H. destruct (key_eqb k k') eqn:E.
  - apply key_eqb_eq in E. subst. exfalso. apply H. now left.
  - apply IH. intros Hin. apply H. now right.
Qed.

Lemma dict_del_get_same items k items' :
  NoDup (map fst items) -> dict_del items k = Some items' -> dict_get items' k = None.
Proof.
  revert items'. induction items as [|[k' v'] items IH]; intros items' Hnd H;
    simpl in H; [discriminate|].
  simpl in Hnd. inversion Hnd as [|? ? Hk Hnd']; subst.
  destruct (key_eqb k k') eqn:E.
  - injection H as <-. apply key_eqb_eq in E. subst. now apply dict_get_not_In.
  - destruct (dict_del items k) as [r|] eqn:Ed; [|discriminate].
    injection H as <-. simpl. rewrite E. now apply IH.
Qed.

Lemma dict_del_get_other items k k' items' :
  k <> k' -> dict_del items k = Some items' -> dict_get items' k' = dict_get items k'.
Proof.
  intros Hne. revert items'.
  induction items as [|[k0 v0] items IH]; intros items' H; simpl in H; [discriminate|].
  destruct (key_eqb k k0) eqn:E.
  - injection H as <-. apply key_eqb_eq in E. subst k0. simpl.
    destruct (key_eqb k' k) eqn:E'; [|reflexivity].
    apply key_eqb_eq in E'. congruence.
  - destruct (dict_del items k) as [r|] eqn:Ed; [|discriminate].
    injection H as <-. simpl. destruct (key_eqb k' k0); [reflexivity|].
    now apply IH.
Qed.

Lemma removeLeaf_from_found (p : path) :
  forall work v,
    wfb work = true -> p <> [] -> find work p = Some v ->
    exists work' parent,
      removeLeaf_from work p = Ok (work', parent)
      /\ find work' p = None
      /\ find work' (removelast p) = Some parent
      /\ (forall q, firstn (List.length q) p <> q -> firstn (List.length p) q <> p ->
                    find work' q = find work q).
Proof.
  induction p as [|x rest IH]; intros work v Hw Hp Hf; [contradiction|].
  cbn [find] in Hf. destruct work as [ | | | | | |items]; try discriminate Hf.
  destruct (dict_get items x) as [child|] eqn:Ex; [|discriminate Hf].
  pose proof Hw as Hw'. apply wfb_dict in Hw' as [Hnd Hall].
  destruct rest as [|y rest].
  - destruct (dict_del_Some items x child Ex) as [items' Hd].
    exists (VDict items'), (VDict items').
    cbn [removeLeaf_from py_delitem bind]. rewrite Hd. cbn [bind].
    split; [reflexivity|]. split.
    { cbn [find]. now rewrite (dict_del_get_same items x items' Hnd Hd). }
    split; [reflexivity|].
    intros q Hq1 Hq2. destruct q as [|z q]; [exfalso; now apply Hq1|].
    cbn [find]. rewrite (dict_del_get_other items x z items'); [reflexivity| |exact Hd].
    intros ->. apply Hq2. reflexivity.
  - assert (Hwc : wfb child = true).
    { rewrite Forall_forall in Hall. apply (Hall (x, child)). now apply dict_get_In. }
    destruct (IH child v Hwc ltac:(discriminate) Hf)
      as [child' [parent [Hrun [Hnone [Hpar Hframe]]]]].
    exists (VDict (dict_set items x child')), parent.
    rewrite removeLeaf_from_step. cbn [py_getitem]. rewrite Ex. cbn [bind].
    rewrite Hrun. cbn [bind store].
    split; [reflexivity|]. split.
    { cbn [find]. rewrite dict_get_set_same. exact Hnone. }
    split.
    { change (removelast (x :: y :: rest)) with (x :: removelast (y :: rest)).
      cbn [find]. rewrite dict_get_set_same. exact Hpar. }
    intros q Hq1 Hq2. destruct q as [|z q]; [exfalso; now apply Hq1|].
    cbn [find]. destruct (key_eq_dec x z) as [<-|Hne].
    + rewrite dict_get_set_same, Ex. apply Hframe.
      * intros H. apply Hq1. simpl. simpl in H. now rewrite H.
      * intros H. apply Hq2. simpl. simpl in H. now rewrite H.
    + now rewrite dict_get_set_other.
Qed.

(** X14.  Module-level [removeLeaf] on a path that leads to an object
    deletes that entry and no other, and returns the dictionary it was
    deleted from. *)
Theorem removeLeaf_deletes_one_entry (work : value) (p : path) (v : value) :
  wfb work = true -> p <> [] -> find work p = Some v ->
  exists work' parent,
    removeLeaf work p = Ok (work', parent)
    /\ find work' p = None
    /\ find work' (removelast p) = Some parent
    /\ (forall q, firstn (List.length q) p <> q -> firstn (List.length p) q <> p ->
                  find work' q = find work q).
Proof.
  intros Hw Hp Hf.
  destruct (removeLeaf_from_found p work v Hw Hp Hf)
    as [work' [parent [Hrun H]]].
  exists work', parent. split; [|exact H].
  destruct p; [contradiction | exact Hrun].
Qed.

(** A run of X14. *)
Lemma removeLeaf_deletes_one_entry_witness :
  exists work' parent,
    removeLeaf two_by_two [KStr "a"; KStr "x"] = Ok (work', parent)
    /\ find work' [KStr "a"; KStr "x"] = None
    /\ find work' (removelast [KStr "a"; KStr "x"]) = Some parent
    /\ (forall q, firstn (List.length q) [KStr "a"; KStr "x"] <> q ->
                  firstn 2 q <> [KStr "a"; KStr "x"] ->
                  find work' q = find two_by_two q).
Proof.
  apply (removeLeaf_deletes_one_entry two_by_two [KStr "a"; KStr "x"] (VInt 1)).
  - reflexivity.
  - discriminate.
  - reflexivity.
Defined.

Lemma removeLeaf_from_missing (q : path) :
  forall work items k r,
    find work q = Some (VDict items) -> dict_get items k = None ->
    removeLeaf_from work (q ++ k :: r) = Raise KeyError.
Proof.
  induction q as [|x q IH]; intros work items k r Hf Hk.
  - cbn [find] in Hf. injection Hf as ->. cbn [app].
    destruct r as [|y r].
    + cbn [removeLeaf_from py_delitem]. now rewrite (dict_del_None items k Hk).
    + rewrite removeLeaf_from_step. cbn [py_getitem]. now rewrite Hk.
  - cbn [find] in Hf. destruct work as [ | | | | | |its]; try discriminate Hf.
    destruct (dict_get its x) as [child|] eqn:Ex; [|discriminate Hf].
    change ((x :: q) ++ k :: r) with (x :: (q ++ k :: r)).
    destruct (q ++ k :: r) as [|y t] eqn:E; [destruct q; discriminate E|].
    rewrite removeLeaf_from_step. cbn [py_getitem]. rewrite Ex. cbn [bind].
    rewrite <- E. now rewrite (IH child items k r Hf Hk).
Qed.

(** X15.  Module-level [removeLeaf] raises KeyError when a key of the
    path, the last or an earlier one, is missing from the dictionary
    reached. *)
Theorem removeLeaf_raises_KeyError_off_the_tree
  (work : value) (q : path) (items : list (key * value)) (k : key) (r : path) :
  find work q = Some (VDict items) -> dict_get items k = None ->
  removeLeaf work (q ++ k :: r) = Raise KeyError.
Proof.
  intros Hf Hk. rewrite <- (removeLeaf_from_missing q work items k r Hf Hk).
  destruct q; reflexivity.
Qed.

(** A run of X15. *)
Lemma removeLeaf_raises_KeyError_off_the_tree_witness :
  removeLeaf two_by_two ([KStr "a"] ++ KStr "z" :: [KStr "t"]) = Raise KeyError.
Proof.
  apply (removeLeaf_raises_KeyError_off_the_tree two_by_two [KStr "a"]
           [(KStr "x", VInt 1); (KStr "y", VInt 2)] (KStr "z") [KStr "t"]);
    reflexivity.
Defined.

Lemma DataTree_removeLeaf_from_step work x y rest :
  DataTree.removeLeaf_from work (x :: y :: rest) =
  match py_getitem work x with
  | Ok child =>
      child' <- DataTree.removeLeaf_from child (y :: rest) ;;
      Ok (store work x child')
  | Raise KeyError =>
      _ <- py_delitem VNone (last (y :: rest) x) ;; Ok work
  | Raise e => Raise e
  | Outside => Outside
  end.
Proof. reflexivity. Qed.

Lemma DataTree_removeLeaf_from_missing (q : path) :
  forall work items k r,
    find work q = Some (VDict items) -> dict_get items k = None ->
    DataTree.removeLeaf_from work (q ++ k :: r)
    = Raise match r with [] => KeyError | _ :: _ => TypeError end.
Proof.
  induction q as [|x q IH]; intros work items k r Hf Hk.
  - cbn [find] in Hf. injection Hf as ->. cbn [app].
    destruct r as [|y r].
    + cbn [DataTree.removeLeaf_from py_delitem].
      now rewrite (dict_del_None items k Hk).
    + rewrite DataTree_removeLeaf_from_step. cbn [py_getitem]. now rewrite Hk.
  - cbn [find] in Hf. destruct work as [ | | | | | |its]; try discriminate Hf.
    destruct (dict_get its x) as [child|] eqn:Ex; [|discriminate Hf].
    change ((x :: q) ++ k :: r) with (x :: (q ++ k :: r)).
    destruct (q ++ k :: r) as [|y t] eqn:E; [destruct q; discriminate E|].
    rewrite DataTree_removeLeaf_from_step. cbn [py_getitem]. rewrite Ex.
    rewrite <- E. now rewrite (IH child items k r Hf Hk).
Qed.

Lemma DataTree_removeLeaf_from_same (p : path) :
  forall work work' ret,
    removeLeaf_from work p = Ok (work', ret) ->
    DataTree.removeLeaf_from work p = Ok work'.
Proof.
  induction p as [|x rest IH]; intros work work' ret H; [discriminate H|].
  destruct rest as [|y rest].
  - cbn [removeLeaf_from] in H. cbn [DataTree.removeLeaf_from].
    destruct (py_delitem work x) as [w| |]; try discriminate H.
    cbn [bind] in H. congruence.
  - rewrite removeLeaf_from_step in H. rewrite DataTree_removeLeaf_from_step.
    destruct (py_getitem work x) as [child|e|]; try discriminate H.
    cbn [bind] in H.
    destruct (removeLeaf_from child (y :: rest)) as [[child' ret']| |] eqn:E;
      try discriminate H.
    cbn [bind] in H. rewrite (IH child child' ret' E). cbn [bind]. congruence.
Qed.

(** X16.  [DataTree.removeLeaf] raises KeyError when the last key is
    missing and TypeError when an earlier key is: the deletion is then
    tried on None. *)
Theorem DataTree_removeLeaf_errors
  (self : DataTree.t) (q : path) (items : list (key * value)) (k : key) (r : path) :
  find (DataTree._data self) q = Some (VDict items) -> dict_get items k = None ->
  DataTree.removeLeaf self (q ++ k :: r)
  = Raise match r with [] => KeyError | _ :: _ => TypeError end.
Proof.
  intros Hf Hk.
  assert (H : DataTree.removeLeaf self (q ++ k :: r)
              = (d <- DataTree.removeLeaf_from (DataTree._data self) (q ++ k :: r) ;;
                 Ok (Some (DataTree.mk d)))).
  { destruct q; reflexivity. }
  rewrite H, (DataTree_removeLeaf_from_missing q _ items k r Hf Hk). reflexivity.
Qed.

(** A run of X16. *)
Lemma DataTree_removeLeaf_errors_witness :
  DataTree.removeLeaf (DataTree.mk two_by_two) ([] ++ KStr "c" :: [KStr "x"])
  = Raise TypeError.
Proof.
  apply (DataTree_removeLeaf_errors (DataTree.mk two_by_two) []
           [(KStr "a", VDict [(KStr "x", VInt 1); (KStr "y", VInt 2)]);
            (KStr "b", VDict [(KStr "x", VInt 3); (KStr "y", VInt 4)])]
           (KStr "c") [KStr "x"]); reflexivity.
Defined.

(** X17.  On a path that is not empty, where the module-level
    [removeLeaf] returns, [DataTree.removeLeaf] leaves the same tree. *)
Theorem DataTree_removeLeaf_deletes_as_removeLeaf
  (self : DataTree.t) (p : path) (work' ret : value) :
  p <> [] ->
  removeLeaf (DataTree._data self) p = Ok (work', ret) ->
  DataTree.removeLeaf self p = Ok (Some (DataTree.mk work')).
Proof.
  intros Hp H. destruct p as [|x rest]; [contradiction|].
  cbn [removeLeaf] in H. cbn [DataTree.removeLeaf].
  now rewrite (DataTree_removeLeaf_from_same _ _ _ _ H).
Qed.

(** A run of X17. *)
Lemma DataTree_removeLeaf_deletes_as_removeLeaf_witness :
  DataTree.removeLeaf (DataTree.mk (VDict [(KStr "a", VInt 1); (KStr "b", VInt 2)]))
    [KStr "a"]
  = Ok (Some (DataTree.mk (VDict [(KStr "b", VInt 2)]))).
Proof.
  apply (DataTree_removeLeaf_deletes_as_removeLeaf
           (DataTree.mk (VDict [(KStr "a", VInt 1); (KStr "b", VInt 2)]))
           [KStr "a"] (VDict [(KStr "b", VInt 2)]) (VDict [(KStr "b", VInt 2)])).
  - discriminate.
  - reflexivity.
Defined.

(** ** swop: one exchange *)

(** X18.  [swop] raises IndexError for a level out of range, returns
    None for twice the same level, and does not depend on the order of
    two valid levels. *)
Theorem swop_checks_and_orders_its_levels (work : value) (i j : nat) :
  (List.length (getPaths work) <= i \/ List.length (getPaths work) <= j ->
   swop work i j = Raise IndexError)
  /\ (i < List.length (getPaths work) -> swop work i i = Ok VNone)
  /\ (i < List.length (getPaths work) -> j < List.length (getPaths work) ->
      swop work i j = swop work j i).
Proof.
  unfold swop. split; [|split].
  - intros [H|H].
    + destruct (Nat.leb_spec (List.length (getPaths work)) i); [reflexivity | lia].
    + destruct (Nat.leb_spec (List.length (getPaths work)) i); [reflexivity|].
      destruct (Nat.leb_spec (List.length (getPaths work)) j); [reflexivity | lia].
  - intros H.
    destruct (Nat.leb_spec (List.length (getPaths work)) i); [lia|].
    now rewrite Nat.eqb_refl.
  - intros Hi Hj.
    destruct (Nat.leb_spec (List.length (getPaths work)) i); [lia|].
    destruct (Nat.leb_spec (List.length (getPaths work)) j); [lia|].
    rewrite (Nat.eqb_sym j i).
    destruct (Nat.eqb_spec i j) as [->|Hne]; [reflexivity|].
    destruct (Nat.ltb_spec j i), (Nat.ltb_spec i j); try lia; reflexivity.
Qed.

(** A run of X18. *)
Lemma swop_checks_and_orders_its_levels_witness :
  swop two_by_two 0 2 = Raise IndexError
  /\ swop two_by_two 1 1 = Ok VNone
  /\ swop two_by_two 1 0 = swop two_by_two 0 1.
Proof.
  destruct (swop_checks_and_orders_its_levels two_by_two 0 2) as [H1 _].
  destruct (swop_checks_and_orders_its_levels two_by_two 1 1) as [_ [H2 _]].
  destruct (swop_checks_and_orders_its_levels two_by_two 1 0) as [_ [_ H3]].
  split; [apply H1; right; vm_compute; lia|].
  split; [apply H2; vm_compute; lia|].
  apply H3; vm_compute; lia.
Defined.

Lemma swop_bindings_exchanged (T : value) (i j : nat) :
  wfb T = true ->
  i < j ->
  j < List.length (getPaths T) ->
  dicts_down_to j T ->
  solid_below j T ->
  exists T1,
    swop T i j = Ok T1
    /\ wfb T1 = true
    /\ forall p v,
         In (p, v) (bindings T1) <->
         exists o n suf,
           swapped i j o n /\ p = n ++ suf /\ In (o ++ suf, v) (bindings T).
Proof.
  intros Hw Hij Hj Hd Hs.
  destruct (swop_once T i j Hij Hj Hw Hd Hs)
    as [T1 [Hrun [_ [Hw1 [Hd1 [_ [_ Hfind]]]]]]].
  exists T1. split; [exact Hrun|]. split; [exact Hw1|].
  intros p v. rewrite bindings_In by exact Hw1. split.
  - intros [Hf Hv].
    assert (Hlen : j < List.length p).
    { destruct (Nat.lt_ge_cases j (List.length p)) as [H|H]; [exact H|].
      apply (Hd1 p v) in Hf; [congruence | exact H]. }
    destruct (split_at_level j p Hlen) as [n [suf [-> Hn]]].
    destruct (swapped_exists i j n Hij Hn) as [o Hsw].
    apply swapped_sym in Hsw.
    exists o, n, suf. split; [exact Hsw|]. split; [reflexivity|].
    apply bindings_In; [exact Hw|]. split; [|exact Hv].
    now apply (Hfind o n suf v Hsw Hv).
  - intros [o [n [suf [Hsw [-> Hin]]]]].
    apply bindings_In in Hin as [Hf Hv]; [|exact Hw].
    split; [|exact Hv]. now apply (Hfind o n suf v Hsw Hv).
Qed.

(** X19.  Where the leaves lie below level [j] and the two depths below
    it hold neither None nor a pandas object, [swop] returns the tree
    whose bindings are those of the input with the keys of the levels
    [i] and [j] exchanged in every path. *)
Theorem swop_exchanges_the_keys_of_two_levels (T : value) (i j : nat) :
  wfb T = true ->
  i < j ->
  j < List.length (getPaths T) ->
  leaves_below j T = true ->
  solid_at (j + 1) T = true ->
  solid_at (j + 2) T = true ->
  exists T1,
    swop T i j = Ok T1
    /\ forall p v,
         In (p, v) (bindings T1) <->
         exists o n suf,
           swapped i j o n /\ p = n ++ suf /\ In (o ++ suf, v) (bindings T).
Proof.
  intros Hw Hij Hj Hdeep Hs1 Hs2.
  assert (Hd : dicts_down_to j T) by now apply leaves_below_sound.
  assert (Hs : solid_below j T).
  { intros p u Hf [Hl|Hl];
      [apply (solid_at_sound T _ p u Hs1 Hf Hl)
      |apply (solid_at_sound T _ p u Hs2 Hf Hl)]. }
  destruct (swop_bindings_exchanged T i j Hw Hij Hj Hd Hs) as [T1 [H1 [_ H2]]].
  exists T1. split; assumption.
Qed.

(** A run of X19. *)
Lemma swop_exchanges_the_keys_of_two_levels_witness :
  exists T1,
    swop two_by_two 0 1 = Ok T1
    /\ forall p v,
         In (p, v) (bindings T1) <->
         exists o n suf,
           swapped 0 1 o n /\ p = n ++ suf /\ In (o ++ suf, v) (bindings two_by_two).
Proof.
  apply (swop_exchanges_the_keys_of_two_levels two_by_two 0 1).
  - reflexivity.
  - lia.
  - vm_compute. lia.
  - reflexivity.
  - reflexivity.
  - reflexivity.
Defined.

(** ** prune: what is reported *)

Lemma prune_apply_sub (R : nat * key -> nat * key -> Prop) (todo : list (nat * key)) :
  forall data nlevels data' pruned,
    prune_apply data nlevels todo = Ok (data', pruned) ->
    (forall e, In e pruned -> In e todo)
    /\ (StronglySorted R todo -> StronglySorted R pruned).
Proof.
  induction todo as [|[level label] todo IH]; intros data nlevels data' pruned H.
  - simpl in H. injection H as <- <-. split; [tauto | auto].
  - cbn [prune_apply] in H.
    destruct ((level =? 0) && (nlevels =? 1)).
    + destruct (IH _ _ _ _ H) as [Hin Hs]. split.
      * intros e He. right. now apply Hin.
      * intros Hst. inversion Hst; subst. now apply Hs.
    + destruct (removeLevel data level) as [d1| |]; try discriminate H.
      cbn [bind] in H.
      destruct (prune_apply d1 (nlevels - 1) todo) as [[d2 pr]| |] eqn:E;
        try discriminate H.
      cbn [bind] in H. injection H as <- <-.
      destruct (IH _ _ _ _ E) as [Hin Hs]. split.
      * intros e [<-|He]; [now left | right; now apply Hin].
      * intros Hst. inversion Hst as [|? ? Hst' Hall]; subst.
        constructor; [now apply Hs|].
        rewrite Forall_forall in *. intros e He. apply Hall. now apply Hin.
Qed.

Lemma prune_scan_sorted data ignore data_paths (levels : list nat) :
  forall cands,
    StronglySorted lt levels ->
    prune_scan data ignore data_paths levels = Ok cands ->
    StronglySorted (fun a b : nat * key => fst a < fst b) cands.
Proof.
  induction levels as [|level0 rest IH]; intros cands Hs H.
  - simpl in H. injection H as <-. constructor.
  - pose proof H as H'.
    apply prune_scan_cons in H' as [c0 [crest [Hrest [-> Hc0]]]].
    inversion Hs as [|? ? Hs' Hall]; subst.
    specialize (IH crest Hs' Hrest).
    destruct Hc0 as [->|[label0 ->]]; [exact IH|].
    cbn [app]. constructor; [exact IH|].
    apply Forall_forall. intros [l lab] Hin. cbn [fst].
    apply (prune_scan_In data ignore data_paths rest crest l lab Hrest) in Hin
      as [Hin _].
    rewrite Forall_forall in Hall. now apply Hall.
Qed.

Lemma seq_sorted len : forall start, StronglySorted lt (seq start len).
Proof.
  induction len as [|len IH]; intros start; [constructor|].
  cbn [seq]. constructor; [apply IH|].
  apply Forall_forall. intros x Hx. apply in_seq in Hx. lia.
Qed.

Lemma StronglySorted_rev {A : Type} (R : A -> A -> Prop) (l : list A) :
  StronglySorted R l -> StronglySorted (fun a b => R b a) (rev l).
Proof.
  induction 1 as [|x l Hs IH Hall]; [constructor|].
  cbn [rev].
  assert (Happ : forall l1 l2,
             StronglySorted (fun a b => R b a) l1 ->
             StronglySorted (fun a b => R b a) l2 ->
             (forall a b, In a l1 -> In b l2 -> R b a) ->
             StronglySorted (fun a b => R b a) (l1 ++ l2)).
  { induction l1 as [|a l1 IH1]; intros l2 H1 H2 H12; [exact H2|].
    inversion H1 as [|? ? H1' Ha]; subst. cbn [app]. constructor.
    - apply IH1; auto. intros a' b Ha' Hb. apply H12; [now right | exact Hb].
    - apply Forall_app. split; [exact Ha|].
      apply Forall_forall. intros b Hb. apply H12; [now left | exact Hb]. }
  apply Happ; [exact IH | repeat constructor |].
  intros a b Ha [<-|[]]. rewrite Forall_forall in Hall. apply Hall.
  now apply in_rev.
Qed.

(** X20.  Every level [prune] reports held the single label reported,
    which is not among those to ignore; the levels are reported from the
    deepest up. *)
Theorem prune_respects_ignore_and_goes_deepest_first
  (data : value) (ignore : list key) (data' : value) (pruned : list (nat * key)) :
  prune data ignore = Ok (data', pruned) ->
  (forall level label,
     In (level, label) pruned ->
     nth level (getPaths (fst (removeEmptyLeaves data))) [] = [label]
     /\ existsb (key_eqb label) ignore = false)
  /\ StronglySorted (fun a b : nat * key => fst b < fst a) pruned.
Proof.
  unfold prune. intros H.
  set (d := fst (removeEmptyLeaves data)) in *.
  destruct (prune_scan d ignore (getPaths d) (seq 0 (List.length (getPaths d))))
    as [cands| |] eqn:Es; try discriminate H.
  cbn [bind] in H.
  destruct (prune_apply_sub (fun a b : nat * key => fst b < fst a) _ _ _ _ _ H)
    as [Hin Hsorted].
  split.
  - intros level label Hp. apply Hin in Hp. apply in_rev in Hp.
    apply (prune_scan_In d ignore (getPaths d)
             (seq 0 (List.length (getPaths d))) cands level label Es) in Hp
      as [_ [Hn [Hi _]]].
    auto.
  - apply Hsorted.
    apply (StronglySorted_rev (fun a b : nat * key => fst a < fst b)).
    apply (prune_scan_sorted d ignore (getPaths d)
             (seq 0 (List.length (getPaths d))) cands); [|exact Es].
    apply seq_sorted.
Qed.

(** A run of X20. *)
Lemma prune_respects_ignore_and_goes_deepest_first_witness :
  (forall level label,
     In (level, label) [(1, KStr "k")] ->
     nth level
       (getPaths (fst (removeEmptyLeaves
                         (VDict [(KStr "a", VDict [(KStr "k", VInt 1)]);
                                 (KStr "b", VDict [(KStr "k", VInt 2)])])))) []
     = [label]
     /\ existsb (key_eqb label) [] = false)
  /\ StronglySorted (fun a b : nat * key => fst b < fst a) [(1, KStr "k")].
Proof.
  apply (prune_respects_ignore_and_goes_deepest_first
           (VDict [(KStr "a", VDict [(KStr "k", VInt 1)]);
                   (KStr "b", VDict [(KStr "k", VInt 2)])]) []
           (VDict [(KStr "a", VInt 1); (KStr "b", VInt 2)])).
  reflexivity.
Defined.

(** X21.  A tree of one level is left to [prune] as [removeEmptyLeaves]
    leaves it, and no level is reported. *)
Theorem prune_keeps_the_only_level (data : value) (ignore : list key) :
  List.length (getPaths (fst (removeEmptyLeaves data))) = 1 ->
  prune data ignore = Ok (fst (removeEmptyLeaves data), []).
Proof.
  unfold prune. set (d := fst (removeEmptyLeaves data)). intros Hlen.
  rewrite Hlen. cbn [seq prune_scan].
  destruct d as [ | | | | | |items] eqn:Ed;
    try (exfalso; vm_compute in Hlen; discriminate Hlen).
  destruct (nth 0 (getPaths (VDict items)) []) as [|label [|l2 more]];
    try reflexivity.
  destruct (existsb (key_eqb label) ignore); [reflexivity|].
  unfold getPrefixes. cbn [firstn product]. rewrite prune_keep_step.
  cbn [getLeaf bind is_not_none]. unfold keep_test. cbn [py_len bind].
  destruct (1 <? List.length items); [reflexivity|].
  cbn [py_contains bind]. destruct (dict_has items label); reflexivity.
Qed.

(** A run of X21. *)
Lemma prune_keeps_the_only_level_witness :
  prune (VDict [(KStr "a", VInt 1); (KStr "e", VDict [])]) []
  = Ok (fst (removeEmptyLeaves (VDict [(KStr "a", VInt 1); (KStr "e", VDict [])])), []).
Proof.
  apply (prune_keeps_the_only_level (VDict [(KStr "a", VInt 1); (KStr "e", VDict [])]) []).
  reflexivity.
Defined.

(** ** tree2table: the shape of the table *)

Lemma list_assign_length {A : Type} (l : list A) z a l' :
  list_assign l z a = Ok l' -> List.length l' = List.length l.
Proof.
  unfold list_assign. destruct (seq_index (List.length l) z); [|discriminate].
  intros H. injection H as <-. apply list_update_length.
Qed.

Lemma assign_parts_length (parts : list key) :
  forall row_data z row_data',
    assign_parts row_data z parts = Ok row_data' ->
    List.length row_data' = List.length row_data.
Proof.
  induction parts as [|p parts IH]; intros row_data z row_data' H.
  - simpl in H. now injection H as <-.
  - cbn [assign_parts] in H.
    destruct (list_assign row_data (Z.of_nat z) (value_of_key p)) as [r1| |] eqn:E;
      try discriminate H.
    cbn [bind] in H. rewrite (IH _ _ _ H). now apply list_assign_length in E.
Qed.

Lemma fill_columns_length work pick header_offset (columns : list key) :
  forall y row_data row_data',
    fill_columns work pick header_offset y columns row_data = Ok row_data' ->
    List.length row_data' = List.length row_data.
Proof.
  induction columns as [|column columns IH]; intros y row_data row_data' H.
  - simpl in H. now injection H as <-.
  - cbn [fill_columns] in H.
    destruct (cell <- py_getitem work column ;; v <- pick cell ;; quote_rst v)
      as [text|e|]; try discriminate H.
    + destruct (list_assign row_data (Z.of_nat y + header_offset) (VStr text))
        as [r1| |] eqn:E; try discriminate H.
      cbn [bind] in H. rewrite (IH _ _ _ H). now apply list_assign_length in E.
    + destruct e; try discriminate H. now apply IH in H.
Qed.

Lemma blank_row_length ncols : List.length (blank_row ncols) = ncols.
Proof. apply repeat_length. Qed.

Lemma fill_subrows_ok work columns header_offset ncols max_rows (zs : list nat) :
  forall matrix row_headers row_data matrix' row_headers' row_data',
    table_ok ncols 1 matrix row_headers ->
    List.length row_data = ncols ->
    fill_subrows work columns header_offset ncols max_rows zs
      matrix row_headers row_data = Ok (matrix', row_headers', row_data') ->
    table_ok ncols 1 matrix' row_headers' /\ List.length row_data' = ncols.
Proof.
  induction zs as [|z zs IH];
    intros matrix row_headers row_data matrix' row_headers' row_data' [Hm Hh] Hr H.
  - simpl in H. injection H as <- <- <-. split; [split|]; assumption.
  - cbn [fill_subrows] in H.
    destruct (fill_columns work _ header_offset 0 columns row_data) as [r1| |] eqn:E;
      try discriminate H.
    cbn [bind] in H. apply fill_columns_length in E.
    destruct (Z.of_nat z <? Z.of_nat max_rows - 1)%Z.
    + apply IH in H; [exact H| |apply blank_row_length].
      split.
      * apply Forall_app. split; [exact Hm|]. constructor; [lia|constructor].
      * rewrite !length_app. simpl. lia.
    + apply IH in H; [exact H|split; assumption|lia].
Qed.

Lemma table_subrows_ok data labels_last header_offset ncols head row (paths : list path) :
  forall first matrix row_headers matrix' row_headers',
    table_ok ncols 0 matrix row_headers ->
    table_subrows data labels_last header_offset ncols head row paths first
      matrix row_headers = Ok (matrix', row_headers') ->
    table_ok ncols 0 matrix' row_headers'.
Proof.
  induction paths as [|p paths IH];
    intros first matrix row_headers matrix' row_headers' Hok H.
  - simpl in H. now injection H as <- <-.
  - cbn [table_subrows] in H.
    destruct (getLeaf data (row :: p)) as [work| |]; try discriminate H.
    cbn [bind] in H.
    destruct (match work with
              | VFrame f => Ok (Nat.eqb (frame_rows f) 0 || Nat.eqb (frame_cols f) 0)
              | _ => t <- py_truth work ;; Ok (negb t)
              end) as [skip| |]; try discriminate H.
    cbn [bind] in H. destruct skip; [now apply IH in H|].
    destruct (if first
              then match row with
                   | KTuple parts =>
                       h <- py_getitem (value_of_key row) (KInt 0) ;;
                       row_data' <- assign_parts (blank_row ncols) 0 (skipn 1 parts) ;;
                       Ok (row_headers ++ [h], row_data')
                   | _ => Ok (row_headers ++ [value_of_key row], blank_row ncols)
                   end
              else Ok (row_headers ++ [VStr EmptyString], blank_row ncols))
      as [[rh1 rd1]| |] eqn:E1; try discriminate H.
    cbn [bind] in H.
    assert (H1 : List.length rh1 = S (List.length row_headers)
                 /\ List.length rd1 = ncols).
    { destruct first.
      - destruct row as [s|z|parts].
        + injection E1 as <- <-. rewrite length_app, blank_row_length. simpl. lia.
        + injection E1 as <- <-. rewrite length_app, blank_row_length. simpl. lia.
        + destruct (py_getitem (value_of_key (KTuple parts)) (KInt 0)) as [h| |];
            try discriminate E1.
          cbn [bind] in E1.
          destruct (assign_parts (blank_row ncols) 0 (skipn 1 parts)) as [rd| |] eqn:Ea;
            try discriminate E1.
          cbn [bind] in E1. injection E1 as <- <-.
          apply assign_parts_length in Ea.
          rewrite length_app, Ea, blank_row_length. simpl. lia.
      - injection E1 as <- <-. rewrite length_app, blank_row_length. simpl. lia. }
    destruct H1 as [Hrh1 Hrd1].
    destruct (assign_parts rd1 0 p) as [rd2| |] eqn:E2; try discriminate H.
    cbn [bind] in H. apply assign_parts_length in E2.
    destruct (check_columns work labels_last None) as [[is_container max_rows]| |];
      try discriminate H.
    cbn [bind] in H.
    destruct (if is_container
              then match max_rows with
                   | None => Raise TypeError
                   | Some m =>
                       fill_subrows work labels_last header_offset ncols m (seq 0 m)
                         matrix rh1 rd2
                   end
              else
                row_data' <- fill_columns work (fun cell => Ok cell) header_offset 0
                               labels_last rd2 ;;
                Ok (matrix, rh1, row_data'))
      as [[[m3 rh3] rd3]| |] eqn:E3; try discriminate H.
    cbn [bind] in H.
    destruct Hok as [Hm Hh].
    assert (H3 : table_ok ncols 1 m3 rh3 /\ List.length rd3 = ncols).
    { destruct is_container.
      - destruct max_rows as [m|]; [|discriminate E3].
        apply (fill_subrows_ok _ _ _ _ _ _ _ _ _ _ _ _) in E3; [exact E3| |lia].
        split; [exact Hm | lia].
      - destruct (fill_columns work (fun cell => Ok cell) header_offset 0
                    labels_last rd2) as [rd| |] eqn:Ef; try discriminate E3.
        cbn [bind] in E3. injection E3 as <- <- <-.
        apply fill_columns_length in Ef.
        split; [split; [exact Hm | lia] | lia]. }
    destruct H3 as [[Hm3 Hh3] Hrd3].
    assert (Hok' : table_ok ncols 0 (m3 ++ [rd3]) rh3).
    { split.
      - apply Forall_app. split; [exact Hm3|]. constructor; [exact Hrd3|constructor].
      - rewrite length_app. simpl. lia. }
    destruct (head_reached head (m3 ++ [rd3])).
    + now injection H as <- <-.
    + now apply IH in H.
Qed.

Lemma table_rows_ok data labels_last header_offset ncols head paths (rows : list key) :
  forall matrix row_headers matrix' row_headers',
    table_ok ncols 0 matrix row_headers ->
    table_rows data labels_last header_offset ncols head paths rows
      matrix row_headers = Ok (matrix', row_headers') ->
    table_ok ncols 0 matrix' row_headers'.
Proof.
  induction rows as [|row rows IH]; intros matrix row_headers matrix' row_headers' Hok H.
  - simpl in H. now injection H as <- <-.
  - cbn [table_rows] in H.
    destruct (table_subrows data labels_last header_offset ncols head row paths true
                matrix row_headers) as [[m1 rh1]| |] eqn:E; try discriminate H.
    cbn [bind] in H. apply table_subrows_ok in E; [|exact Hok].
    now apply IH in H.
Qed.

Lemma mapM_length {A B : Type} (f : A -> result B) (l : list A) :
  forall l', mapM f l = Ok l' -> List.length l' = List.length l.
Proof.
  induction l as [|a l IH]; intros l' H.
  - simpl in H. now injection H as <-.
  - cbn [mapM] in H. destruct (f a) as [b| |]; try discriminate H.
    cbn [bind] in H. destruct (mapM f l) as [bs| |]; try discriminate H.
    cbn [bind] in H. injection H as <-. simpl. f_equal. now apply IH.
Qed.

Lemma zip_columns_shape (n : nat) :
  forall matrix,
    matrix <> [] ->
    Forall (fun row : list value => List.length row = n) matrix ->
    List.length (zip_columns n matrix) = n
    /\ Forall (fun col => List.length col = List.length matrix) (zip_columns n matrix).
Proof.
  induction n as [|n IH]; intros matrix Hne Hall; [split; [reflexivity|constructor]|].
  cbn [zip_columns].
  assert (Hnz : forallb (fun r : list value => negb (Nat.eqb (List.length r) 0)) matrix
                = true).
  { apply forallb_forall. intros r Hr. rewrite Forall_forall in Hall.
    rewrite (Hall r Hr). reflexivity. }
  rewrite Hnz.
  destruct (IH (map (@tl value) matrix)) as [Hl Hc].
  - destruct matrix; [contradiction | discriminate].
  - apply Forall_forall. intros r Hr. apply in_map_iff in Hr as [r0 [<- Hr0]].
    rewrite Forall_forall in Hall. specialize (Hall r0 Hr0).
    destruct r0; [discriminate Hall|]. simpl in *. lia.
  - split; [simpl; now rewrite Hl|].
    constructor; [apply length_map|].
    eapply Forall_impl; [|exact Hc]. intros col Hcol. simpl in Hcol.
    now rewrite length_map in Hcol.
Qed.

(** X22.  Whenever [tree2table] returns, each row has one cell for each
    column header, and there is one row header for each row unless a
    transposed table has no row. *)
Theorem tree2table_rows_fit_the_headers
  (data : value) (transpose : bool) (head : option Z)
  (matrix : list (list value)) (row_headers col_headers : list string) :
  tree2table data transpose head = Ok (matrix, row_headers, col_headers) ->
  Forall (fun row => List.length row = List.length col_headers) matrix
  /\ (transpose = false \/ matrix <> [] ->
      List.length row_headers = List.length matrix).
Proof.
  unfold tree2table. intros H.
  destruct (List.length (getPaths data) <? 2); [discriminate H|].
  destruct (count_levels (getPaths data)) as [effective_labels| |];
    try discriminate H.
  cbn [bind] in H.
  set (col := repeat (VStr EmptyString)
                (Z.to_nat (fold_right Z.add 0%Z (removelast effective_labels) - 1))
              ++ map value_of_key (last (getPaths data) [])) in *.
  destruct (table_rows data (last (getPaths data) []) _ (List.length col) head _ _ [] [])
    as [[m rh]| |] eqn:E; try discriminate H.
  cbn [bind] in H.
  apply table_rows_ok in E; [|split; [constructor | reflexivity]].
  destruct E as [Hm Hh].
  destruct transpose.
  - destruct (mapM py_str col) as [rs| |] eqn:Er; try discriminate H.
    cbn [bind] in H.
    destruct (mapM py_str rh) as [cs| |] eqn:Ec; try discriminate H.
    cbn [bind] in H. injection H as <- <- <-.
    apply mapM_length in Er. apply mapM_length in Ec.
    destruct m as [|row m]; [split; [constructor|]|].
    + intros [Hf|Hf]; [discriminate Hf | now contradiction Hf].
    + unfold zip_rows. cbn [hd].
      inversion Hm as [|? ? Hrow Hm']; subst.
      destruct (zip_columns_shape (List.length row) (row :: m)) as [Hl Hc];
        [discriminate | now rewrite Hrow |].
      split.
      * eapply Forall_impl; [|exact Hc]. intros c Hcl. simpl in Hcl.
        rewrite Hcl, Ec. simpl in Hh. simpl. lia.
      * intros _. rewrite Hl, Er. symmetry. exact Hrow.
  - destruct (mapM py_str rh) as [rs| |] eqn:Er; try discriminate H.
    cbn [bind] in H.
    destruct (mapM py_str col) as [cs| |] eqn:Ec; try discriminate H.
    cbn [bind] in H. injection H as <- <- <-.
    apply mapM_length in Er. apply mapM_length in Ec.
    split; [now rewrite Ec | intros _; lia].
Qed.

(** A run of X22. *)
Lemma tree2table_rows_fit_the_headers_witness :
  Forall (fun row => List.length row = List.length ["a"; "b"])
    [[VStr "1"; VStr "3"]; [VStr "2"; VStr "4"]]
  /\ (true = false \/ [[VStr "1"; VStr "3"]; [VStr "2"; VStr "4"]] <> [] ->
      List.length ["x"; "y"] = List.length [[VStr "1"; VStr "3"]; [VStr "2"; VStr "4"]]).
Proof.
  apply (tree2table_rows_fit_the_headers two_by_two true None).
  vm_compute. reflexivity.
Defined.

(** ** count_levels *)

Lemma count_levels_from (labels : list (list key)) :
  forall acc,
    Forall (fun level => level <> []) labels ->
    exists counts,
      foldM (fun counts x =>
               match x with
               | [] => Raise IndexError
               | KTuple parts :: _ => Ok (counts ++ [Z.of_nat (List.length parts)])
               | _ :: _ => Ok (counts ++ [1%Z])
               end) labels acc = Ok (acc ++ counts)
      /\ List.length counts = List.length labels
      /\ Forall (fun c => (0 <= c)%Z) counts.
Proof.
  induction labels as [|x labels IH]; intros acc Hall.
  - exists []. rewrite app_nil_r. repeat split. constructor.
  - inversion Hall as [|? ? Hx Hall']; subst.
    destruct x as [|k x]; [contradiction|].
    cbn [foldM].
    destruct k as [s|z|parts]; cbn [bind];
      [destruct (IH (acc ++ [1%Z]) Hall') as [counts [Hrun [Hlen Hpos]]];
       exists (1%Z :: counts)
      |destruct (IH (acc ++ [1%Z]) Hall') as [counts [Hrun [Hlen Hpos]]];
       exists (1%Z :: counts)
      |destruct (IH (acc ++ [Z.of_nat (List.length parts)]) Hall')
         as [counts [Hrun [Hlen Hpos]]];
       exists (Z.of_nat (List.length parts) :: counts)];
      (rewrite Hrun, <- app_assoc; split; [reflexivity|];
       split; [simpl; now rewrite Hlen | constructor; [lia | exact Hpos]]).
Qed.

Lemma count_levels_empty_level (labels : list (list key)) :
  forall acc,
    In [] labels ->
    foldM (fun counts x =>
             match x with
             | [] => Raise IndexError
             | KTuple parts :: _ => Ok (counts ++ [Z.of_nat (List.length parts)])
             | _ :: _ => Ok (counts ++ [1%Z])
             end) labels acc = Raise IndexError.
Proof.
  induction labels as [|x labels IH]; intros acc Hin; [contradiction|].
  cbn [foldM]. destruct x as [|k x]; [reflexivity|].
  destruct Hin as [Hin|Hin]; [discriminate Hin|].
  destruct k; cbn [bind]; now apply IH.
Qed.

(** X23.  [count_levels] returns one count for each level of [getPaths];
    it raises IndexError when handed an empty level, which [getPaths]
    never returns. *)
Theorem count_levels_counts_every_level_of_getPaths (work : value) :
  (exists counts,
     count_levels (getPaths work) = Ok counts
     /\ List.length counts = List.length (getPaths work)
     /\ Forall (fun c => (0 <= c)%Z) counts)
  /\ (forall labels, In [] labels -> count_levels labels = Raise IndexError).
Proof.
  split.
  - apply (count_levels_from (getPaths work) []).
    apply getPaths_loop_not_nil.
  - intros labels Hin. now apply count_levels_empty_level.
Qed.

(** A run of X23. *)
Lemma count_levels_counts_every_level_of_getPaths_witness :
  (exists counts,
     count_levels (getPaths two_by_two) = Ok counts
     /\ List.length counts = List.length (getPaths two_by_two)
     /\ Forall (fun c => (0 <= c)%Z) counts)
  /\ count_levels [[KStr "a"]; []] = Raise IndexError.
Proof.
  destruct (count_levels_counts_every_level_of_getPaths two_by_two) as [H1 H2].
  split; [exact H1|]. apply H2. right. now left.
Defined.

(** ** flatten *)

Lemma mass_container xs :
  mass (VList xs) = S (masses xs) /\ mass (VTuple xs) = S (masses xs).
Proof.
  assert (H : (fix go (l : list value) : nat :=
                 match l with
                 | [] => 0
                 | x :: rest => mass x + go rest
                 end) xs = masses xs).
  { induction xs as [|x xs IH]; [reflexivity|]. simpl. now rewrite IH. }
  split; cbn [mass]; now rewrite H.
Qed.

Lemma atoms_of_container xs :
  atoms_of (VList xs) = atoms xs /\ atoms_of (VTuple xs) = atoms xs.
Proof.
  assert (H : (fix go (l : list value) : list value :=
                 match l with
                 | [] => []
                 | x :: rest => atoms_of x ++ go rest
                 end) xs = atoms xs).
  { induction xs as [|x xs IH]; [reflexivity|]. unfold atoms. simpl.
    now rewrite IH. }
  split; cbn [atoms_of]; now rewrite H.
Qed.

Lemma masses_app l1 l2 : masses (l1 ++ l2) = masses l1 + masses l2.
Proof.
  induction l1 as [|x l1 IH]; [reflexivity|].
  unfold masses in *. simpl. rewrite IH. lia.
Qed.

Lemma masses_cons x l : masses (x :: l) = mass x + masses l.
Proof. reflexivity. Qed.

Lemma mass_pos v : 1 <= mass v.
Proof.
  destruct v; simpl; try lia.
Qed.

Lemma atoms_app l1 l2 : atoms (l1 ++ l2) = atoms l1 ++ atoms l2.
Proof. apply flat_map_app. Qed.

Lemma atoms_cons x l : atoms (x :: l) = atoms_of x ++ atoms l.
Proof. reflexivity. Qed.

Lemma atoms_of_atom v : is_container_value v = false -> atoms_of v = [v].
Proof. destruct v; simpl; try reflexivity; discriminate. Qed.

Lemma index_at_end (done rest : list value) c :
  seq_index (List.length (done ++ c :: rest)) (Z.of_nat (List.length done))
  = Some (List.length done).
Proof.
  unfold seq_index. rewrite length_app. simpl.
  destruct (Z.leb_spec 0 (Z.of_nat (List.length done))); [|lia].
  destruct (Z.ltb_spec (Z.of_nat (List.length done))
              (Z.of_nat (List.length done + S (List.length rest)))); [|lia].
  now rewrite Nat2Z.id.
Qed.

Lemma splice_at_end (done rest : list value) c xs :
  splice (done ++ c :: rest) (List.length done) xs = done ++ xs ++ rest.
Proof.
  unfold splice. rewrite firstn_app, firstn_all, Nat.sub_diag. simpl firstn.
  rewrite app_nil_r. f_equal. f_equal.
  rewrite skipn_app.
  replace (S (List.length done) - List.length done) with 1 by lia.
  rewrite skipn_all2 by lia. reflexivity.
Qed.

Lemma flatten_inner_spec (fuel : nat) :
  forall done rest,
    rest <> [] ->
    masses rest <= fuel ->
    exists rest',
      atoms rest' = atoms rest
      /\ masses rest' <= masses rest
      /\ ((exists a tail,
             rest' = a :: tail /\ is_container_value a = false
             /\ flatten_inner fuel (done ++ rest) (Z.of_nat (List.length done))
                = Ok (done ++ rest', Z.of_nat (List.length done)))
          \/ (masses rest' < masses rest
              /\ flatten_inner fuel (done ++ rest) (Z.of_nat (List.length done))
                 = Ok (done ++ rest', (Z.of_nat (List.length done) - 1)%Z))).
Proof.
  induction fuel as [|fuel IH]; intros done rest Hne Hm.
  - destruct rest as [|c rest]; [contradiction|].
    rewrite masses_cons in Hm. pose proof (mass_pos c). lia.
  - destruct rest as [|c rest]; [contradiction|].
    cbn [flatten_inner]. rewrite index_at_end.
    rewrite nth_error_app2 by lia. rewrite Nat.sub_diag. cbn [nth_error].
    rewrite masses_cons in Hm.
    assert (Hatom : is_container_value c = false ->
              exists rest',
                atoms rest' = atoms (c :: rest)
                /\ masses rest' <= masses (c :: rest)
                /\ ((exists a tail,
                       rest' = a :: tail /\ is_container_value a = false
                       /\ Ok (done ++ c :: rest, Z.of_nat (List.length done))
                          = Ok (done ++ rest', Z.of_nat (List.length done)))
                    \/ (masses rest' < masses (c :: rest)
                        /\ Ok (done ++ c :: rest, Z.of_nat (List.length done))
                           = Ok (done ++ rest', (Z.of_nat (List.length done) - 1)%Z)))).
    { intros Hc. exists (c :: rest). split; [reflexivity|]. split; [lia|].
      left. exists c, rest. auto. }
    assert (Hcont : forall xs,
              mass c = S (masses xs) -> atoms_of c = atoms xs ->
              exists rest',
                atoms rest' = atoms (c :: rest)
                /\ masses rest' <= masses (c :: rest)
                /\ ((exists a tail,
                       rest' = a :: tail /\ is_container_value a = false
                       /\ match xs with
                          | [] => Ok (splice (done ++ c :: rest) (List.length done) [],
                                      (Z.of_nat (List.length done) - 1)%Z)
                          | _ :: _ =>
                              flatten_inner fuel
                                (splice (done ++ c :: rest) (List.length done) xs)
                                (Z.of_nat (List.length done))
                          end
                          = Ok (done ++ rest', Z.of_nat (List.length done)))
                    \/ (masses rest' < masses (c :: rest)
                        /\ match xs with
                           | [] => Ok (splice (done ++ c :: rest) (List.length done) [],
                                       (Z.of_nat (List.length done) - 1)%Z)
                           | _ :: _ =>
                               flatten_inner fuel
                                 (splice (done ++ c :: rest) (List.length done) xs)
                                 (Z.of_nat (List.length done))
                           end
                           = Ok (done ++ rest', (Z.of_nat (List.length done) - 1)%Z)))).
    { intros xs Hmass Hat.
      destruct xs as [|x xs]; rewrite splice_at_end.
      - exists rest. rewrite atoms_cons, Hat, masses_cons. cbn [atoms flat_map app].
        split; [reflexivity|]. split; [lia|]. right. split; [lia|reflexivity].
      - destruct (IH done ((x :: xs) ++ rest)) as [rest' [Ha [Hle Hres]]].
        + discriminate.
        + rewrite masses_app. lia.
        + exists rest'. rewrite atoms_cons, Hat, masses_cons.
          rewrite atoms_app in Ha. rewrite masses_app in Hle.
          split; [exact Ha|]. split; [lia|].
          destruct Hres as [Hres|[Hlt Hres]]; [left; exact Hres|].
          right. split; [rewrite masses_app in Hlt; lia | exact Hres]. }
    destruct c as [ | |s|xs|xs|f|items];
      try (apply Hatom; reflexivity).
    + apply Hcont; [apply mass_container | apply atoms_of_container].
    + apply Hcont; [apply mass_container | apply atoms_of_container].
Qed.

Lemma flatten_loop_spec (fuel : nat) :
  forall done rest,
    masses rest < fuel ->
    flatten_loop fuel (done ++ rest) (Z.of_nat (List.length done))
    = Ok (done ++ atoms rest).
Proof.
  induction fuel as [|fuel IH]; intros done rest Hm; [lia|].
  cbn [flatten_loop]. destruct rest as [|c rest].
  - rewrite app_nil_r.
    destruct (Z.ltb_spec (Z.of_nat (List.length done)) (Z.of_nat (List.length done)));
      [lia|]. cbn [atoms flat_map]. now rewrite app_nil_r.
  - destruct (Z.ltb_spec (Z.of_nat (List.length done))
                (Z.of_nat (List.length (done ++ c :: rest)))) as [_|Hge].
    2:{ rewrite length_app in Hge. simpl in Hge. lia. }
    destruct (flatten_inner_spec fuel done (c :: rest)) as [rest' [Ha [Hle Hres]]];
      [discriminate | lia |].
    destruct Hres as [[a [tail [-> [Hatom Hrun]]]]|[Hlt Hrun]]; rewrite Hrun;
      cbn [bind].
    + replace (Z.of_nat (List.length done) + 1)%Z
        with (Z.of_nat (List.length (done ++ [a])))
        by (rewrite length_app; simpl; lia).
      replace (done ++ a :: tail) with ((done ++ [a]) ++ tail)
        by (now rewrite <- app_assoc).
      rewrite IH.
      * rewrite <- Ha, atoms_cons, (atoms_of_atom a Hatom), <- app_assoc.
        reflexivity.
      * rewrite masses_cons in Hle. pose proof (mass_pos a). lia.
    + replace (Z.of_nat (List.length done) - 1 + 1)%Z
        with (Z.of_nat (List.length done)) by lia.
      rewrite IH by lia. now rewrite Ha.
Qed.

Lemma atoms_are_atoms (v : value) :
  Forall (fun a => is_container_value a = false) (atoms_of v).
Proof.
  induction v as [ | | |xs IHxs|xs IHxs| |items IH] using value_ind';
    try (constructor; [reflexivity | constructor]).
  - rewrite (proj1 (atoms_of_container xs)). unfold atoms.
    induction IHxs as [|x xs Hx _ IH]; [constructor|].
    simpl. apply Forall_app. split; assumption.
  - rewrite (proj2 (atoms_of_container xs)). unfold atoms.
    induction IHxs as [|x xs Hx _ IH]; [constructor|].
    simpl. apply Forall_app. split; assumption.
Qed.

Lemma atoms_fixed (l : list value) :
  Forall (fun a => is_container_value a = false) l -> atoms l = l.
Proof.
  induction 1 as [|a l Ha _ IH]; [reflexivity|].
  rewrite atoms_cons, (atoms_of_atom a Ha), IH. reflexivity.
Qed.

(** X24.  [flatten] ends and returns, in a container of the type it was
    given, the objects of the nesting that are neither list nor tuple,
    from left to right; a flat list is returned as it is. *)
Theorem flatten_lists_the_atoms_in_order (xs : list value) :
  flatten (VList xs) = Ok (VList (atoms xs))
  /\ flatten (VTuple xs) = Ok (VTuple (atoms xs))
  /\ Forall (fun a => is_container_value a = false) (atoms xs)
  /\ flatten (VList (atoms xs)) = Ok (VList (atoms xs)).
Proof.
  assert (Hrun : forall l, flatten_loop (S (masses l)) l 0 = Ok (atoms l)).
  { intros l. apply (flatten_loop_spec (S (masses l)) [] l). lia. }
  assert (Hat : Forall (fun a => is_container_value a = false) (atoms xs)).
  { unfold atoms. induction xs as [|x xs IH]; [constructor|].
    simpl. apply Forall_app. split; [apply atoms_are_atoms | exact IH]. }
  split; [|split; [|split]].
  - cbn [flatten]. now rewrite Hrun.
  - cbn [flatten]. now rewrite Hrun.
  - exact Hat.
  - cbn [flatten]. rewrite Hrun. now rewrite (atoms_fixed _ Hat).
Qed.

(** ** removeLevel *)

Lemma put_at_insert (p : path) :
  forall work u leaf, find work p = Some u -> put_at work p leaf = insert work p leaf.
Proof.
  induction p as [|x p IH]; intros work u leaf Hf; [reflexivity|].
  cbn [find] in Hf. destruct work as [ | | | | | |items]; try discriminate Hf.
  destruct (dict_get items x) as [c|] eqn:E; [|discriminate Hf].
  cbn [put_at insert py_getitem]. rewrite E. cbn [store].
  now rewrite (IH c u leaf Hf).
Qed.

Lemma insert_insert (p : path) :
  forall work a b,
    settable work p = true -> insert (insert work p a) p b = insert work p b.
Proof.
  induction p as [|x p IH]; intros work a b Hs; [reflexivity|].
  destruct work as [ | | | | | |items]; try discriminate Hs.
  cbn [insert]. rewrite dict_get_set_same, dict_set_set. do 2 f_equal.
  destruct p as [|y p]; [reflexivity|].
  apply IH. now apply settable_child.
Qed.

Lemma dict_set_new items k v :
  ~ In k (map fst items) -> dict_set items k v = items ++ [(k, v)].
Proof.
  induction items as [|[k' v'] items IH]; intros Hn; [reflexivity|].
  simpl. destruct (key_eqb k k') eqn:E.
  - apply key_eqb_eq in E. subst. exfalso. apply Hn. now left.
  - f_equal. apply IH. intros H. apply Hn. now right.
Qed.

Lemma setitems_fresh (items : list (key * value)) :
  forall acc,
    NoDup (map fst (acc ++ items)) ->
    foldM (fun l (kv : key * value) => py_setitem l (fst kv) (snd kv)) items (VDict acc)
    = Ok (VDict (acc ++ items)).
Proof.
  induction items as [|[k v] items IH]; intros acc Hnd.
  - now rewrite app_nil_r.
  - cbn [foldM py_setitem bind fst snd].
    rewrite dict_set_new.
    + rewrite IH; rewrite <- app_assoc; [reflexivity | exact Hnd].
    + rewrite map_app in Hnd. simpl in Hnd.
      apply NoDup_remove_2 in Hnd. intros H. apply Hnd.
      apply in_or_app. now left.
Qed.

Lemma removeLevel_keys_single cur (p : path) k d :
  find cur p = Some (VDict [(k, d)]) ->
  is_frame d = false -> wfb d = true ->
  (p <> [] \/ is_dict d = true) ->
  removeLevel_keys cur p true (VDict [(k, d)]) [k] = Ok (insert cur p d).
Proof.
  intros Hf Hfr Hw Hp.
  cbn [removeLevel_keys py_getitem py_delitem dict_get dict_del].
  rewrite key_eqb_refl. cbn [bind].
  rewrite (put_at_insert p cur _ (VDict []) Hf).
  assert (Hleaf : is_dict d = false ->
            (work2 <- setLeaf (insert cur p (VDict [])) p d ;;
             removeLevel_keys work2 p false (VDict []) [])
            = Ok (insert cur p d)).
  { intros Hnd. destruct Hp as [Hp|Hp]; [|congruence].
    rewrite setLeaf_insert; [|exact Hp|].
    - cbn [bind removeLevel_keys]. rewrite insert_insert; [reflexivity|].
      eapply find_settable; eauto.
    - eapply find_settable. apply find_insert_same. eapply find_settable; eauto. }
  destruct d as [ | |s|xs|xs|f|items]; try discriminate Hfr;
    try (cbn [py_items]; apply Hleaf; reflexivity).
  cbn [py_items]. apply wfb_dict in Hw as [Hnd _].
  rewrite (setitems_fresh items []) by exact Hnd. cbn [bind app removeLevel_keys].
  now rewrite (put_at_insert p cur _ (VDict items) Hf).
Qed.

Lemma NoDup_product {A : Type} (ls : list (list A)) :
  Forall (fun l => NoDup l) ls -> NoDup (product ls).
Proof.
  induction 1 as [|l ls Hl _ IH]; [repeat constructor; intros []|].
  cbn [product].
  induction Hl as [|x l Hx Hl IHl]; [constructor|].
  cbn [flat_map]. apply NoDup_app.
  - apply Finite.Injective_map_NoDup; [|exact IH].
    intros a b H. congruence.
  - exact IHl.
  - intros xs H1 H2. apply in_map_iff in H1 as [t [<- _]].
    apply in_flat_map in H2 as [y [Hy H2]].
    apply in_map_iff in H2 as [t' [Heq _]].
    injection Heq as -> _. contradiction.
Qed.

Lemma prefix_complete (work : value) (p : path) (u : value) :
  wfb work = true -> dicts_above (List.length p) work ->
  find work p = Some u ->
  In p (getPrefixes work (List.length p)).
Proof.
  intros Hw Hd Hf. unfold getPrefixes. apply In_product.
  apply (Forall2_levels (getPaths work) p 0).
  intros i x Hx. change (0 + i) with i.
  assert (Hi : i < List.length p) by (apply nth_error_Some; congruence).
  destruct (List.length p) as [|l] eqn:El; [lia|].
  apply (key_in_level work l p i x u Hw); [|exact Hf|exact Hx|lia].
  intros q w Hq Hl. apply (Hd q w Hq). lia.
Qed.

Lemma dicts_above_insert level (p : path) work v :
  dicts_above level work -> List.length p = level -> settable work p = true ->
  dicts_above level (insert work p v).
Proof.
  intros Hd Hl Hs q u Hf Hq.
  destruct level as [|l]; [lia|].
  apply (insert_keeps_dicts l p work v) with (q := q); try assumption; try lia.
  intros q' u' Hq' Hl'. apply (Hd q' u' Hq'). lia.
Qed.

Lemma removeLevel_prefixes_collapse (data : value) (level : nat) :
  wfb data = true ->
  (forall p u, find data p = Some u -> List.length p = level ->
               u = VNone
               \/ exists k d, u = VDict [(k, d)] /\ is_frame d = false
                              /\ (level <> 0 \/ is_dict d = true)) ->
  forall prefixes done cur,
    NoDup prefixes ->
    (forall p, In p prefixes -> List.length p = level /\ ~ In p done) ->
    dicts_above level cur ->
    (forall p, List.length p = level ->
               (In p done -> find cur p = collapsed (find data p))
               /\ (~ In p done -> find cur p = find data p)) ->
    exists cur',
      removeLevel_prefixes cur prefixes = Ok cur'
      /\ dicts_above level cur'
      /\ forall p, List.length p = level ->
           (In p done \/ In p prefixes -> find cur' p = collapsed (find data p))
           /\ (~ (In p done \/ In p prefixes) -> find cur' p = find data p).
Proof.
  intros Hw Hat prefixes.
  induction prefixes as [|p prefixes IH]; intros done cur Hnd Hpre Hd Hinv.
  - exists cur. split; [reflexivity|]. split; [exact Hd|].
    intros p Hl. destruct (Hinv p Hl) as [H1 H2]. split.
    + intros [H|[]]. now apply H1.
    + intros H. apply H2. tauto.
  - inversion Hnd as [|? ? Hp Hnd']; subst.
    destruct (Hpre p (or_introl eq_refl)) as [Hlen Hnotdone].
    destruct (Hinv p Hlen) as [_ Hsame]. specialize (Hsame Hnotdone).
    assert (Hleaf : getLeaf cur p = Ok match find cur p with
                                       | Some v => v
                                       | None => VNone
                                       end).
    { apply getLeaf_find. intros q u Hq Hl. apply (Hd q u Hq). lia. }
    assert (Hstep : exists cur1,
               (forall k, removeLevel_prefixes cur (p :: k) = removeLevel_prefixes cur1 k)
               /\ dicts_above level cur1
               /\ find cur1 p = collapsed (find data p)
               /\ forall p', List.length p' = level -> p' <> p ->
                             find cur1 p' = find cur p').
    { destruct (find data p) as [u|] eqn:Eu.
      - destruct (Hat p u Eu Hlen) as [->|[k [d [-> [Hfr Htop]]]]].
        + exists cur. split; [|auto].
          intros k. cbn [removeLevel_prefixes]. rewrite Hleaf, Hsame. reflexivity.
        + exists (insert cur p d).
          assert (Hs : settable cur p = true) by (eapply find_settable; eauto).
          split; [|split; [|split]].
          * intros k0. cbn [removeLevel_prefixes]. rewrite Hleaf, Hsame.
            cbn [bind py_eq_none py_keys py_items map fst].
            rewrite removeLevel_keys_single; [reflexivity|exact Hsame|exact Hfr| |].
            -- pose proof (wfb_find p data _ Hw Eu) as Hwu.
               apply wfb_dict in Hwu as [_ Hall]. now inversion Hall.
            -- destruct Htop as [Htop|Htop]; [left|now right].
               intros ->. simpl in Hlen. congruence.
          * now apply dicts_above_insert.
          * simpl. now apply find_insert_same.
          * intros p' Hl' Hne. apply find_insert_other; congruence.
      - exists cur. split; [|auto].
        intros k. cbn [removeLevel_prefixes]. rewrite Hleaf, Hsame. reflexivity. }
    destruct Hstep as [cur1 [Hrun [Hd1 [Hp1 Hother]]]].
    destruct (IH (p :: done) cur1 Hnd') as [cur' [Hrun' [Hd' Hfinal]]].
    + intros p' Hin. destruct (Hpre p' (or_intror Hin)) as [Hl' Hn'].
      split; [exact Hl'|]. intros [<-|H]; [contradiction | contradiction].
    + exact Hd1.
    + intros p' Hl'. destruct (list_eq_dec key_eq_dec p' p) as [->|Hne].
      * split; [intros _; exact Hp1|]. intros H. exfalso. apply H. now left.
      * rewrite (Hother p' Hl' Hne). destruct (Hinv p' Hl') as [H1 H2]. split.
        -- intros [H|H]; [congruence | now apply H1].
        -- intros H. apply H2. intros Hin. apply H. now right.
    + exists cur'. split; [now rewrite Hrun|]. split; [exact Hd'|].
      intros p' Hl'. destruct (Hfinal p' Hl') as [H1 H2]. split.
      * intros [H|[H|H]]; apply H1; [left; now right | left; left; congruence | now right].
      * intros H. apply H2. intros [[H'|H']|H']; apply H;
          [right; left; congruence | now left | right; now right].
Qed.

Lemma collapsible_dict l items :
  collapsible (S l) (VDict items) = true <->
  Forall (fun kv => collapsible l (snd kv) = true) items.
Proof.
  cbn [collapsible]. induction items as [|[k c] items IH].
  - split; [constructor | reflexivity].
  - rewrite andb_true_iff, IH. split.
    + intros [H1 H2]. constructor; assumption.
    + intros H. inversion H; subst. auto.
Qed.

Lemma collapsible_sound (t : value) :
  forall level,
    collapsible level t = true ->
    dicts_above level t
    /\ (forall p u, find t p = Some u -> List.length p = level ->
                    u = VNone
                    \/ exists k d, u = VDict [(k, d)] /\ is_frame d = false).
Proof.
  induction t as [ | | |xs IHxs|xs IHxs| |items IH] using value_ind';
    intros level Hc; try discriminate Hc.
  - destruct level; [|discriminate Hc]. split.
    + intros q u _ Hq. lia.
    + intros p u Hf Hl. destruct p; [|discriminate Hl].
      simpl in Hf. injection Hf as <-. now left.
  - destruct level as [|l].
    + split; [intros q u _ Hq; lia|].
      intros p u Hf Hl. destruct p; [|discriminate Hl].
      simpl in Hf. injection Hf as <-. right.
      cbn [collapsible] in Hc.
      destruct items as [|[k d] [|kv2 more]]; try discriminate Hc.
      exists k, d. split; [reflexivity|].
      now destruct (is_frame d).
    + apply collapsible_dict in Hc.
      assert (Hchild : forall x c, dict_get items x = Some c ->
                dicts_above l c
                /\ (forall p u, find c p = Some u -> List.length p = l ->
                                u = VNone
                                \/ exists k d, u = VDict [(k, d)]
                                               /\ is_frame d = false)).
      { intros x c Hx. apply dict_get_In in Hx.
        rewrite Forall_forall in IH, Hc.
        apply (IH (x, c) Hx l). apply (Hc (x, c) Hx). }
      split.
      * intros q u Hf Hq. destruct q as [|x q].
        -- simpl in Hf. injection Hf as <-. reflexivity.
        -- cbn [find] in Hf. destruct (dict_get items x) as [c|] eqn:Ex;
             [|discriminate Hf].
           destruct (Hchild x c Ex) as [Hd _]. apply (Hd q u Hf).
           simpl in Hq. lia.
      * intros p u Hf Hl. destruct p as [|x p]; [discriminate Hl|].
        cbn [find] in Hf. destruct (dict_get items x) as [c|] eqn:Ex;
          [|discriminate Hf].
        destruct (Hchild x c Ex) as [_ Ha]. apply (Ha p u Hf).
        simpl in Hl. lia.
Qed.

Lemma getPrefixes_NoDup work level : NoDup (getPrefixes work level).
Proof.
  unfold getPrefixes. apply NoDup_product.
  apply Forall_forall. intros l Hl.
  pose proof (getPaths_loop_NoDup (S (height work)) [work]) as H.
  rewrite Forall_forall in H. apply H.
  fold (getPaths work). rewrite <- (firstn_skipn level (getPaths work)).
  apply in_or_app. now left.
Qed.

(** X25.  Where a level holds single-entry dictionaries only,
    [removeLevel] puts the value of each entry in the place of its
    dictionary. *)
Theorem removeLevel_collapses_single_entries (data : value) (level : nat) :
  wfb data = true ->
  level <= List.length (getPaths data) ->
  collapsible level data = true ->
  (level = 0 -> exists k items, data = VDict [(k, VDict items)]) ->
  exists data',
    removeLevel data level = Ok data'
    /\ forall p, List.length p = level -> find data' p = collapsed (find data p).
Proof.
  intros Hw Hlevel Hc Htop.
  destruct (collapsible_sound data level Hc) as [Hd Hat].
  assert (Hat' : forall p u, find data p = Some u -> List.length p = level ->
                   u = VNone
                   \/ exists k d, u = VDict [(k, d)] /\ is_frame d = false
                                  /\ (level <> 0 \/ is_dict d = true)).
  { intros p u Hf Hl. destruct (Hat p u Hf Hl) as [->|[k [d [-> Hfr]]]]; [now left|].
    right. exists k, d. split; [reflexivity|]. split; [exact Hfr|].
    destruct level as [|l]; [|left; discriminate].
    right. destruct (Htop eq_refl) as [k0 [items ->]].
    destruct p; [|discriminate Hl]. simpl in Hf. now injection Hf as _ <-. }
  destruct (removeLevel_prefixes_collapse data level Hw Hat'
              (getPrefixes data level) [] data) as [data' [Hrun [_ Hfinal]]].
  - apply getPrefixes_NoDup.
  - intros p Hin. split; [|intros []].
    unfold getPrefixes in Hin. apply In_product in Hin.
    apply Forall2_length in Hin. rewrite Hin, length_firstn. lia.
  - exact Hd.
  - intros p _. split; [intros []|reflexivity].
  - exists data'. split; [exact Hrun|].
    intros p Hl. destruct (Hfinal p Hl) as [H1 H2].
    destruct (find data p) as [u|] eqn:Eu.
    + apply H1. right. rewrite <- Hl. apply (prefix_complete data p u Hw); [|exact Eu].
      now rewrite Hl.
    + destruct (in_dec (list_eq_dec key_eq_dec) p (getPrefixes data level)) as [Hin|Hn].
      * apply H1. now right.
      * rewrite H2; [reflexivity|]. intros [[]|H]. contradiction.
Qed.

(** A run of X25. *)
Lemma removeLevel_collapses_single_entries_witness :
  exists data',
    removeLevel
      (VDict [(KStr "a", VDict [(KStr "k", VDict [(KStr "x", VInt 1)])]);
              (KStr "b", VDict [(KStr "k", VInt 2)])]) 1 = Ok data'
    /\ forall p, List.length p = 1 ->
         find data' p
         = collapsed
             (find (VDict [(KStr "a", VDict [(KStr "k", VDict [(KStr "x", VInt 1)])]);
                           (KStr "b", VDict [(KStr "k", VInt 2)])]) p).
Proof.
  apply (removeLevel_collapses_single_entries
           (VDict [(KStr "a", VDict [(KStr "k", VDict [(KStr "x", VInt 1)])]);
                   (KStr "b", VDict [(KStr "k", VInt 2)])]) 1).
  - reflexivity.
  - vm_compute. lia.
  - reflexivity.
  - discriminate.
Defined.

(** X26.  [removeLevel] at level 0 raises IndexError when the first
    value of the root is not a dictionary: [setLeaf] is called with the
    empty path. *)
Theorem removeLevel_top_needs_dictionaries
  (k : key) (d : value) (rest : list (key * value)) :
  is_dict d = false -> is_frame d = false ->
  removeLevel (VDict ((k, d) :: rest)) 0 = Raise IndexError.
Proof.
  intros Hd Hf. unfold removeLevel, getPrefixes.
  cbn [firstn product removeLevel_prefixes getLeaf bind py_eq_none py_keys py_items
       map fst removeLevel_keys py_getitem dict_get py_delitem dict_del].
  rewrite key_eqb_refl. cbn [bind put_at].
  destruct d; try discriminate Hd; try discriminate Hf; reflexivity.
Qed.

(** A run of X26. *)
Lemma removeLevel_top_needs_dictionaries_witness :
  removeLevel (VDict ((KStr "a", VInt 5) :: [(KStr "b", VDict [])])) 0
  = Raise IndexError.
Proof.
  apply (removeLevel_top_needs_dictionaries (KStr "a") (VInt 5)); reflexivity.
Defined.

(** ** The methods DataTree.getPaths and DataTree.swop *)

Lemma collect_all_no_frame (l : list value) :
  Forall (fun v => is_frame v = false) l ->
  DataTree.collect_all (filter has_keys l) = Ok (collect_level (filter has_keys l)).
Proof.
  induction 1 as [|v l Hv _ IH]; [reflexivity|].
  destruct v; try discriminate Hv; cbn [filter has_keys]; try exact IH.
  cbn [DataTree.collect_all collect_level]. rewrite IH. cbn [bind].
  now destruct (collect_level (filter has_keys l)).
Qed.

Lemma DataTree_getPaths_loop_same (fuel : nat) :
  forall l,
    (forall d, Forall (fun v => is_frame v = false) (descend d l)) ->
    DataTree.getPaths_loop fuel l = Ok (getPaths_loop fuel l).
Proof.
  induction fuel as [|fuel IH]; intros l Hnf; [reflexivity|].
  cbn [DataTree.getPaths_loop getPaths_loop].
  rewrite (collect_all_no_frame l (Hnf 0)). cbn [bind].
  rewrite (collect_level_no_frame l (Hnf 0)).
  destruct (flat_map keys_of l) as [|k ks]; [reflexivity|].
  rewrite IH; [reflexivity|].
  intros d. apply (Hnf (S d)).
Qed.

Lemma DataTree_getPaths_same (work : value) :
  frame_free work = true ->
  DataTree.getPaths (DataTree.mk work) = Ok (getPaths work).
Proof.
  intros Hff. unfold DataTree.getPaths, getPaths. cbn [DataTree._data].
  apply DataTree_getPaths_loop_same. intros d. now apply frame_free_descend.
Qed.

(** X27.  On a tree without pandas objects [DataTree.getPaths] returns
    the levels the module-level [getPaths] returns. *)
Theorem DataTree_getPaths_as_getPaths (work : value) :
  frame_free work = true ->
  DataTree.getPaths (DataTree.mk work) = Ok (getPaths work).
Proof. apply DataTree_getPaths_same. Qed.

(** A run of X27. *)
Lemma DataTree_getPaths_as_getPaths_witness :
  DataTree.getPaths (DataTree.mk two_by_two) = Ok (getPaths two_by_two).
Proof. apply (DataTree_getPaths_as_getPaths two_by_two). reflexivity. Defined.

Lemma leaves_at_dict h items :
  leaves_at (S h) (VDict items) = true <->
  Forall (fun kv => leaves_at h (snd kv) = true) items.
Proof.
  cbn [leaves_at]. induction items as [|[k c] items IH].
  - split; [constructor | reflexivity].
  - rewrite andb_true_iff, IH. split.
    + intros [H1 H2]. constructor; assumption.
    + intros H. inversion H; subst. auto.
Qed.

Lemma leaves_at_find (t : value) :
  forall h p u,
    leaves_at h t = true -> find t p = Some u ->
    List.length p <= h /\ leaves_at (h - List.length p) u = true.
Proof.
  induction t as [ | | |xs IHxs|xs IHxs| |items IH] using value_ind';
    intros h p u Hl Hf;
    try (destruct p; [|discriminate Hf]; simpl in Hf; injection Hf as <-;
         cbn [List.length]; rewrite Nat.sub_0_r; split; [lia | exact Hl]).
  destruct p as [|x p].
  - simpl in Hf. injection Hf as <-. cbn [List.length]. rewrite Nat.sub_0_r.
    split; [lia|exact Hl].
  - cbn [find] in Hf. destruct (dict_get items x) as [c|] eqn:Ex; [|discriminate Hf].
    destruct h as [|h]; [discriminate Hl|].
    apply leaves_at_dict in Hl. apply dict_get_In in Ex.
    rewrite Forall_forall in IH, Hl.
    destruct (IH (x, c) Ex h p u (Hl (x, c) Ex) Hf) as [Hlen Hu].
    simpl. split; [lia | exact Hu].
Qed.

Lemma leaves_at_payload u :
  leaves_at 0 u = true -> is_dict u = false /\ u <> VNone /\ is_frame u = false.
Proof. destruct u; simpl; try discriminate; repeat split; discriminate. Qed.

Lemma leaves_at_inner h u : leaves_at (S h) u = true -> is_dict u = true.
Proof. destruct u; simpl; try discriminate; reflexivity. Qed.

Lemma leaves_at_frame_free (t : value) :
  forall h, leaves_at h t = true -> frame_free t = true.
Proof.
  induction t as [ | | |xs IHxs|xs IHxs| |items IH] using value_ind';
    intros h Hl; try reflexivity; try discriminate Hl.
  destruct h as [|h]; [discriminate Hl|].
  apply leaves_at_dict in Hl. apply frame_free_dict.
  rewrite Forall_forall in *. intros kv Hin. apply (IH kv Hin h). now apply Hl.
Qed.

Lemma DataTree_getLeaf_from_find (p : path) :
  forall work,
    (forall q u, find work q = Some u -> List.length q < List.length p ->
                 is_dict u = true) ->
    DataTree.getLeaf_from work p = Ok match find work p with
                                      | Some v => v
                                      | None => VNone
                                      end.
Proof.
  induction p as [|x rest IH]; intros work Hd; [reflexivity|].
  pose proof (Hd [] work eq_refl ltac:(simpl; lia)) as Hroot.
  destruct work as [ | | | | | |items]; try discriminate Hroot.
  rewrite DataTree_getLeaf_from_step. cbn [py_getitem find].
  destruct (dict_get items x) as [c|] eqn:E; [|reflexivity].
  apply IH. intros q u Hq Hlen. apply (Hd (x :: q)); [|simpl; lia].
  cbn [find]. now rewrite E.
Qed.

Lemma foldM_inv {A S : Type} (f : S -> A -> result S)
  (I : S -> Prop) (P : A -> Prop) (Q : A -> S -> Prop) (K : S -> S -> Prop) :
  (forall s, K s s) ->
  (forall s1 s2 s3, K s1 s2 -> K s2 s3 -> K s1 s3) ->
  (forall a s s', Q a s -> K s s' -> Q a s') ->
  (forall s a, I s -> P a -> exists s', f s a = Ok s' /\ I s' /\ Q a s' /\ K s s') ->
  forall l s,
    (forall a, In a l -> P a) -> I s ->
    exists s',
      foldM f l s = Ok s' /\ I s' /\ (forall a, In a l -> Q a s') /\ K s s'.
Proof.
  intros Hrefl Htrans Hstable Hstep l.
  induction l as [|a l IH]; intros s HP HI.
  - exists s. split; [reflexivity|]. split; [exact HI|]. split; [intros a []|apply Hrefl].
  - destruct (Hstep s a HI (HP a (or_introl eq_refl))) as [s1 [Hrun [HI1 [HQ1 HK1]]]].
    destruct (IH s1 (fun b Hb => HP b (or_intror Hb)) HI1)
      as [s' [Hrun' [HI' [HQ' HK']]]].
    exists s'. cbn [foldM]. rewrite Hrun. cbn [bind].
    split; [exact Hrun'|]. split; [exact HI'|]. split.
    + intros b [<-|Hb]; [now apply (Hstable a s1 s') | now apply HQ'].
    + now apply (Htrans s s1 s').
Qed.

Lemma swapped_full_length l1 l2 o x :
  l1 < l2 -> swapped_full l1 l2 o x -> List.length x = List.length o.
Proof.
  intros Hlt [o' [x' [suf [Hs [-> ->]]]]].
  destruct (swapped_length l1 l2 o' x' Hlt Hs) as [H1 H2].
  rewrite !length_app. lia.
Qed.

Lemma swapped_full_inj l1 l2 o x o2 x2 :
  l1 < l2 -> swapped_full l1 l2 o x -> swapped_full l1 l2 o2 x2 -> x = x2 -> o = o2.
Proof.
  intros Hlt [o' [x' [suf [Hs [-> ->]]]]] [o2' [x2' [suf2 [Hs2 [-> ->]]]]] Heq.
  destruct (swapped_length l1 l2 o' x' Hlt Hs) as [_ H1].
  destruct (swapped_length l1 l2 o2' x2' Hlt Hs2) as [_ H2].
  apply app_eq_length in Heq as [Hx ->]; [|congruence].
  f_equal. now apply (swapped_inj l1 l2 o' x' o2' x2' Hs Hs2).
Qed.

Lemma swapped_full_exists l1 l2 (x : path) :
  l1 < l2 -> l2 < List.length x -> exists o, swapped_full l1 l2 o x.
Proof.
  intros Hlt Hl. destruct (split_at_level l2 x Hl) as [x' [suf [-> Hx']]].
  destruct (swapped_exists l1 l2 x' Hlt Hx') as [o' Hs].
  exists (o' ++ suf), o', x', suf. split; [now apply swapped_sym | auto].
Qed.

Lemma payload_wfb u : is_dict u = false -> wfb u = true.
Proof. destruct u; simpl; try reflexivity; discriminate. Qed.

Lemma DataTree_setLeaf_insert (s : DataTree.t) (p : path) (v : value) :
  p <> [] -> settable (DataTree._data s) p = true ->
  DataTree.setLeaf s p v = Ok (DataTree.mk (insert (DataTree._data s) p v)).
Proof.
  intros Hp Hs. destruct p as [|x rest]; [contradiction|].
  unfold DataTree.setLeaf. rewrite <- setLeaf_is_setLeaf_from.
  rewrite setLeaf_insert by assumption. reflexivity.
Qed.

Section DataTreeSwop.

Variable T : value.
Variables l1 l2 n : nat.
Hypothesis Hlt : l1 < l2.
Hypothesis Hn : l2 < n.
Hypothesis Huni : leaves_at n T = true.
Lemma DataTree_swop_source (o : path) :
  List.length o = n ->
  DataTree.getLeaf (DataTree.mk T) o
  = Ok match find T o with Some v => v | None => VNone end
  /\ (forall v, find T o = Some v ->
                is_dict v = false /\ v <> VNone /\ is_frame v = false).
Proof.
  intros Hl. split.
  - unfold DataTree.getLeaf. cbn [DataTree._data].
    apply DataTree_getLeaf_from_find. intros q u Hq Hql.
    destruct (leaves_at_find T n q u Huni Hq) as [_ Hu].
    apply (leaves_at_inner (n - List.length q - 1)).
    replace (S (n - List.length q - 1)) with (n - List.length q) by lia.
    exact Hu.
  - intros v Hf. destruct (leaves_at_find T n o v Huni Hf) as [_ Hv].
    rewrite Hl, Nat.sub_diag in Hv. now apply leaves_at_payload.
Qed.

Lemma DataTree_swop_step (s : DataTree.t) (a b : key)
  (pis : list (option key) * (list (option key) * list (option key))) :
  DataTree_swop_inv T l1 l2 n (DataTree._data s) ->
  DataTree_swop_shape l1 l2 n pis ->
  exists s',
    DataTree_swop_path (DataTree.mk T)
      (fst pis ++ [Some a] ++ fst (snd pis) ++ [Some b])
      (fst pis ++ [Some b] ++ fst (snd pis) ++ [Some a])
      s (snd (snd pis)) = Ok s'
    /\ DataTree_swop_inv T l1 l2 n (DataTree._data s')
    /\ DataTree_swop_done T l1 l2 n a b pis s'
    /\ DataTree_swop_kept T l1 l2 n s s'.
Proof.
  destruct s as [nt]. destruct pis as [prefix [infix suffix]].
  cbn [fst snd DataTree._data].
  intros [Hwnt [Hdnt Hcontent]] Hshape.
  pose proof Hshape as [Hp [Hi Hs]]. cbn [fst snd] in Hp, Hi, Hs.
  set (o' := _f prefix ++ a :: _f infix ++ [b]).
  set (x' := _f prefix ++ b :: _f infix ++ [a]).
  assert (Hsw : swapped l1 l2 o' x').
  { exists (_f prefix), a, (_f infix), b. auto. }
  assert (HSF : swapped_full l1 l2 (o' ++ _f suffix) (x' ++ _f suffix)).
  { exists o', x', (_f suffix). auto. }
  destruct (swapped_length l1 l2 o' x' Hlt Hsw) as [Hlo Hlx].
  assert (Hleno : List.length (o' ++ _f suffix) = n) by (rewrite length_app; lia).
  assert (Hlenx : List.length (x' ++ _f suffix) = n) by (rewrite length_app; lia).
  assert (Hold : _f ((prefix ++ [Some a] ++ infix ++ [Some b]) ++ suffix)
                 = o' ++ _f suffix).
  { rewrite !_f_app. unfold o'. cbn [_f flat_map app]. now rewrite <- !app_assoc. }
  assert (Hnew : _f ((prefix ++ [Some b] ++ infix ++ [Some a]) ++ suffix)
                 = x' ++ _f suffix).
  { rewrite !_f_app. unfold x'. cbn [_f flat_map app]. now rewrite <- !app_assoc. }
  unfold DataTree_swop_path. rewrite Hold, Hnew.
  destruct (DataTree_swop_source (o' ++ _f suffix) Hleno) as [Hget Hpay].
  rewrite Hget. cbn [bind].
  destruct (find T (o' ++ _f suffix)) as [v|] eqn:Ev.
  - destruct (Hpay v eq_refl) as [Hnd [Hnn Hnf]].
    rewrite (py_eq_none_solid v Hnn Hnf). cbn [bind].
    assert (Hset : settable nt (x' ++ _f suffix) = true).
    { apply settable_of_prefixes. intros q r u Hq Hr Hf.
      apply (Hdnt q u Hf).
      assert (List.length (q ++ r) = n) by (rewrite <- Hq; exact Hlenx).
      rewrite length_app in H. destruct r; [contradiction|]. simpl in H. lia. }
    assert (Hne : x' ++ _f suffix <> []).
    { intros E. rewrite E in Hlenx. simpl in Hlenx. lia. }
    exists (DataTree.mk (insert nt (x' ++ _f suffix) v)).
    split.
    { now apply DataTree_setLeaf_insert. }
    cbn [DataTree._data].
    assert (Hcase : forall o2 x2,
               swapped_full l1 l2 o2 x2 -> List.length o2 = n ->
               (x2 = x' ++ _f suffix /\ o2 = o' ++ _f suffix)
               \/ find (insert nt (x' ++ _f suffix) v) x2 = find nt x2).
    { intros o2 x2 HSF2 Hl2.
      destruct (list_eq_dec key_eq_dec x2 (x' ++ _f suffix)) as [E|E].
      - left. split; [exact E|].
        apply (swapped_full_inj l1 l2 o2 x2 (o' ++ _f suffix) (x' ++ _f suffix));
          assumption.
      - right. apply find_insert_other; [|congruence].
        rewrite Hlenx, (swapped_full_length l1 l2 o2 x2 Hlt HSF2). now symmetry. }
    split; [|split; [|]].
    + split; [apply wfb_insert; [exact Hwnt | now apply payload_wfb]|].
      split; [now apply dicts_above_insert|].
      intros o2 x2 HSF2 Hl2.
      destruct (Hcase o2 x2 HSF2 Hl2) as [[-> ->]|E].
      * right. rewrite Ev. now apply find_insert_same.
      * rewrite E. now apply Hcontent.
    + split; [exact Hshape|]. cbn [fst snd]. fold o' x'. rewrite Ev.
      now apply find_insert_same.
    + intros o2 x2 HSF2 Hl2 Hsame. cbn [DataTree._data] in *.
      destruct (Hcase o2 x2 HSF2 Hl2) as [[-> ->]|E].
      * rewrite Ev. now apply find_insert_same.
      * now rewrite E.
  - cbn [py_eq_none bind]. exists (DataTree.mk nt). split; [reflexivity|].
    cbn [DataTree._data].
    split; [split; [exact Hwnt | split; [exact Hdnt | exact Hcontent]]|].
    split.
    + split; [exact Hshape|]. cbn [fst snd DataTree._data]. fold o' x'. rewrite Ev.
      destruct (Hcontent _ _ HSF Hleno) as [H|H]; [exact H | now rewrite H, Ev].
    + intros o2 x2 _ _ H. exact H.
Qed.

Lemma DataTree_swop_kept_refl (s : DataTree.t) : DataTree_swop_kept T l1 l2 n s s.
Proof. intros o x _ _ H. exact H. Qed.

Lemma DataTree_swop_kept_trans (s1 s2 s3 : DataTree.t) :
  DataTree_swop_kept T l1 l2 n s1 s2 -> DataTree_swop_kept T l1 l2 n s2 s3 ->
  DataTree_swop_kept T l1 l2 n s1 s3.
Proof. intros H1 H2 o x Hs Hl H. apply (H2 o x Hs Hl). now apply (H1 o x Hs Hl). Qed.

Lemma DataTree_swop_done_kept a b pis (s s' : DataTree.t) :
  DataTree_swop_done T l1 l2 n a b pis s -> DataTree_swop_kept T l1 l2 n s s' ->
  DataTree_swop_done T l1 l2 n a b pis s'.
Proof.
  intros [Hshape Hf] HK. split; [exact Hshape|].
  destruct Hshape as [Hp [Hi Hs]].
  apply HK; [| |exact Hf].
  - exists (_f (fst pis) ++ a :: _f (fst (snd pis)) ++ [b]),
      (_f (fst pis) ++ b :: _f (fst (snd pis)) ++ [a]), (_f (snd (snd pis))).
    split; [|auto].
    exists (_f (fst pis)), a, (_f (fst (snd pis))), b. auto.
  - rewrite !length_app. simpl. rewrite length_app. simpl. lia.
Qed.

Lemma DataTree_swop_loops
  (pps : list (key * key))
  (piss : list (list (option key) * (list (option key) * list (option key)))) :
  (forall pis, In pis piss -> DataTree_swop_shape l1 l2 n pis) ->
  forall s,
    DataTree_swop_inv T l1 l2 n (DataTree._data s) ->
    exists s',
      foldM (fun newtree (pp : key * key) =>
               let (p1, p2) := pp in
               foldM (fun newtree
                          (pis : list (option key)
                                 * (list (option key) * list (option key))) =>
                        let '(prefix, (infix, suffix)) := pis in
                        DataTree_swop_path (DataTree.mk T)
                          (prefix ++ [Some p1] ++ infix ++ [Some p2])
                          (prefix ++ [Some p2] ++ infix ++ [Some p1])
                          newtree suffix)
                     piss newtree)
            pps s = Ok s'
      /\ DataTree_swop_inv T l1 l2 n (DataTree._data s')
      /\ (forall pp, In pp pps ->
            forall pis, In pis piss ->
              DataTree_swop_done T l1 l2 n (fst pp) (snd pp) pis s').
Proof.
  intros Hshapes s Hinv.
  destruct (foldM_inv
              (fun newtree (pp : key * key) =>
                 let (p1, p2) := pp in
                 foldM (fun newtree
                            (pis : list (option key)
                                   * (list (option key) * list (option key))) =>
                          let '(prefix, (infix, suffix)) := pis in
                          DataTree_swop_path (DataTree.mk T)
                            (prefix ++ [Some p1] ++ infix ++ [Some p2])
                            (prefix ++ [Some p2] ++ infix ++ [Some p1])
                            newtree suffix)
                       piss newtree)
              (fun s => DataTree_swop_inv T l1 l2 n (DataTree._data s))
              (fun _ => True)
              (fun pp s => forall pis, In pis piss ->
                             DataTree_swop_done T l1 l2 n (fst pp) (snd pp) pis s)
              (DataTree_swop_kept T l1 l2 n)
              DataTree_swop_kept_refl DataTree_swop_kept_trans)
    with (l := pps) (s := s) as [s' [Hrun [Hinv' [Hdone _]]]].
  - intros pp s1 s2 HQ HK pis Hin. apply (DataTree_swop_done_kept _ _ _ s1); auto.
  - intros s1 [a b] Hinv1 _. cbn [fst snd].
    destruct (foldM_inv
                (fun newtree
                     (pis : list (option key)
                            * (list (option key) * list (option key))) =>
                   let '(prefix, (infix, suffix)) := pis in
                   DataTree_swop_path (DataTree.mk T)
                     (prefix ++ [Some a] ++ infix ++ [Some b])
                     (prefix ++ [Some b] ++ infix ++ [Some a])
                     newtree suffix)
                (fun s => DataTree_swop_inv T l1 l2 n (DataTree._data s))
                (DataTree_swop_shape l1 l2 n)
                (DataTree_swop_done T l1 l2 n a b)
                (DataTree_swop_kept T l1 l2 n)
                DataTree_swop_kept_refl DataTree_swop_kept_trans)
      with (l := piss) (s := s1) as [s2 [Hrun2 [Hinv2 [Hdone2 HK2]]]].
    + intros pis s3 s4. apply DataTree_swop_done_kept.
    + intros s3 [prefix [infix suffix]] Hinv3 Hshape.
      apply (DataTree_swop_step s3 a b (prefix, (infix, suffix)) Hinv3 Hshape).
    + exact Hshapes.
    + exact Hinv1.
    + exists s2. auto.
  - auto.
  - exact Hinv.
  - exists s'. auto.
Qed.

End DataTreeSwop.
Lemma DataTree_swop_exchanged (T : value) (i j : nat) :
  wfb T = true ->
  i < j ->
  j < List.length (getPaths T) ->
  leaves_at (List.length (getPaths T)) T = true ->
  exists T1,
    DataTree_swop (DataTree.mk T) i j = Ok (DataTree.mk T1)
    /\ wfb T1 = true
    /\ forall p v,
         In (p, v) (bindings T1) <->
         exists o n suf,
           swapped i j o n /\ p = n ++ suf /\ In (o ++ suf, v) (bindings T).
Proof.
  intros Hw Hij Hj Huni.
  set (paths := getPaths T) in *. set (n := List.length paths) in *.
  assert (Hff : frame_free T = true) by (eapply leaves_at_frame_free; eauto).
  set (prefixes := product_or_none (firstn i paths)).
  set (infixes := product_or_none (firstn (j - (i + 1)) (skipn (i + 1) paths))).
  set (suffixes := product_or_none (skipn (j + 1) paths)).
  assert (Hshapes : forall pis,
             In pis (list_prod prefixes (list_prod infixes suffixes)) ->
             DataTree_swop_shape i j n pis).
  { intros [prefix [infix suffix]] Hin.
    apply in_prod_iff in Hin as [Hp Hin]. apply in_prod_iff in Hin as [Hi Hs].
    apply product_or_none_In in Hp. apply product_or_none_In in Hi.
    apply product_or_none_In in Hs.
    apply Forall2_length in Hp. apply Forall2_length in Hi. apply Forall2_length in Hs.
    unfold DataTree_swop_shape. cbn [fst snd].
    rewrite Hp, Hi, Hs, !length_firstn, !length_skipn. fold n. lia. }
  assert (Hinv0 : DataTree_swop_inv T i j n (DataTree._data DataTree.new)).
  { cbn [DataTree._data DataTree.new]. split; [reflexivity|]. split.
    - intros q u Hq _. destruct q; [|discriminate Hq].
      simpl in Hq. now injection Hq as <-.
    - intros o x HSF Hl. left.
      pose proof (swapped_full_length i j o x Hij HSF) as Hx.
      destruct x; [simpl in Hx; lia | reflexivity]. }
  destruct (DataTree_swop_loops T i j n Hij Hj Huni
              (list_prod (nth i paths []) (nth j paths []))
              (list_prod prefixes (list_prod infixes suffixes))
              Hshapes DataTree.new Hinv0)
    as [[nt] [Hrun [[Hwnt [Hdnt Hcontent]] Hdone]]].
  cbn [DataTree._data] in *.
  exists nt. split.
  { unfold DataTree_swop. rewrite (DataTree_getPaths_same T Hff). cbn [bind].
    fold paths. fold n.
    destruct (Nat.leb_spec n i); [lia|].
    destruct (Nat.leb_spec n j); [lia|].
    destruct (Nat.eqb_spec i j); [lia|].
    destruct (Nat.ltb_spec j i); [lia|].
    fold prefixes infixes suffixes. rewrite Hrun. reflexivity. }
  split; [exact Hwnt|].
  assert (Hdd : dicts_down_to (n - 1) T).
  { intros q u Hq Hl. destruct (leaves_at_find T n q u Huni Hq) as [_ Hu].
    apply (leaves_at_inner (n - List.length q - 1)).
    replace (S (n - List.length q - 1)) with (n - List.length q) by lia.
    exact Hu. }
  assert (Hall : forall o x, swapped_full i j o x -> List.length o = n ->
                             find nt x = find T o).
  { intros o x HSF Hl.
    destruct (find T o) as [v|] eqn:Ev.
    2:{ destruct (Hcontent o x HSF Hl) as [H|H]; [exact H | now rewrite H]. }
    destruct HSF as [o' [x' [suf [[pre [a [inf [b [Hp [Hi [-> ->]]]]]]] [-> ->]]]]].
    assert (Hkey : forall idx k,
               nth_error ((pre ++ a :: inf ++ [b]) ++ suf) idx = Some k ->
               In k (nth idx paths [])).
    { intros idx k Hk.
      apply (key_in_level T (n - 1) _ idx k v Hw Hdd Ev Hk).
      assert (idx < n) by (rewrite <- Hl; apply nth_error_Some; congruence). lia. }
    assert (Hlsuf : List.length suf = n - j - 1).
    { rewrite !length_app in Hl. simpl in Hl. rewrite length_app in Hl.
      simpl in Hl. lia. }
    assert (Hpre : Forall2 (fun k l => In k l) pre (firstn i paths)).
    { rewrite <- Hp. apply (Forall2_levels paths pre 0).
      intros idx k Hk. change (0 + idx) with idx. apply Hkey.
      assert (idx < List.length pre) by (apply nth_error_Some; congruence).
      rewrite <- app_assoc, nth_error_app1 by lia. exact Hk. }
    assert (Ha : In a (nth i paths [])).
    { apply Hkey. rewrite <- app_assoc, <- Hp, <- (Nat.add_0_r (List.length pre)).
      now rewrite nth_error_app_at. }
    assert (Hinf : Forall2 (fun k l => In k l) inf
                     (firstn (j - (i + 1)) (skipn (i + 1) paths))).
    { replace (j - (i + 1)) with (List.length inf) by lia.
      apply (Forall2_levels paths inf (i + 1)).
      intros idx k Hk.
      assert (idx < List.length inf) by (apply nth_error_Some; congruence).
      apply Hkey. rewrite <- app_assoc.
      replace (i + 1 + idx) with (List.length pre + S idx) by lia.
      rewrite nth_error_app_at. cbn [nth_error app].
      rewrite <- app_assoc, nth_error_app1 by lia. exact Hk. }
    assert (Hb : In b (nth j paths [])).
    { apply Hkey. rewrite <- app_assoc.
      replace j with (List.length pre + S (List.length inf + 0)) at 1 by lia.
      rewrite nth_error_app_at. cbn [nth_error app].
      rewrite <- app_assoc. now rewrite nth_error_app_at. }
    assert (Hsuf : Forall2 (fun k l => In k l) suf (skipn (j + 1) paths)).
    { rewrite <- (firstn_all (skipn (j + 1) paths)), length_skipn.
      fold n. replace (n - (j + 1)) with (List.length suf) by lia.
      apply (Forall2_levels paths suf (j + 1)).
      intros idx k Hk. apply Hkey.
      replace (j + 1 + idx) with (List.length (pre ++ a :: inf ++ [b]) + idx)
        by (rewrite length_app; simpl; rewrite length_app; simpl; lia).
      now rewrite nth_error_app_at. }
    destruct (In_product_or_none _ _ Hpre) as [prefix [Hprefix <-]].
    destruct (In_product_or_none _ _ Hinf) as [infix [Hinfix <-]].
    destruct (In_product_or_none _ _ Hsuf) as [suffix [Hsuffix <-]].
    destruct (Hdone (a, b) (in_prod _ _ a b Ha Hb) (prefix, (infix, suffix)))
      as [_ Hfound].
    { apply in_prod; [exact Hprefix|]. apply in_prod; assumption. }
    cbn [fst snd DataTree._data] in Hfound. rewrite Hfound. exact Ev. }
  intros p v. rewrite bindings_In by exact Hwnt. split.
  - intros [Hf Hv].
    assert (Hge : n <= List.length p).
    { destruct (Nat.lt_ge_cases (List.length p) n) as [H|H]; [|exact H].
      apply (Hdnt p v Hf) in H. congruence. }
    assert (Hsplit : exists x r, p = x ++ r /\ List.length x = n).
    { exists (firstn n p), (skipn n p). split; [now rewrite firstn_skipn|].
      rewrite length_firstn. lia. }
    destruct Hsplit as [x [r [-> Hx]]].
    destruct (swapped_full_exists i j x Hij ltac:(lia)) as [o HSF].
    pose proof (swapped_full_length i j o x Hij HSF) as Hlo.
    pose proof (Hall o x HSF ltac:(lia)) as Hox.
    rewrite find_app, Hox in Hf.
    destruct (find T o) as [w|] eqn:Ew; [|discriminate Hf].
    destruct (leaves_at_find T n o w Huni Ew) as [_ Hwl].
    replace (n - List.length o) with 0 in Hwl by lia.
    apply leaves_at_payload in Hwl as [Hwd _].
    destruct r as [|k r].
    + simpl in Hf. injection Hf as ->.
      destruct HSF as [o' [x' [suf [Hsw [-> ->]]]]].
      exists o', x', suf. split; [exact Hsw|]. split; [now rewrite app_nil_r|].
      apply bindings_In; [exact Hw|]. split; assumption.
    + destruct w; try discriminate Hf. discriminate Hwd.
  - intros [o' [x' [suf [Hsw [-> Hin]]]]].
    apply bindings_In in Hin as [Hf Hv]; [|exact Hw].
    split; [|exact Hv].
    destruct (leaves_at_find T n _ v Huni Hf) as [Hle Hvl].
    assert (Hl : List.length (o' ++ suf) = n).
    { destruct (n - List.length (o' ++ suf)) as [|m] eqn:E; [lia|].
      apply leaves_at_inner in Hvl. congruence. }
    rewrite <- Hf. apply Hall; [|exact Hl].
    exists o', x', suf. auto.
Qed.

(** X28.  On a tree with all its payloads on the last level,
    [DataTree.swop] leaves the tree whose bindings are those of the
    input with the keys of the two levels exchanged, the bindings the
    module-level [swop] gives. *)
Theorem DataTree_swop_exchanges_like_swop (T : value) (i j : nat) :
  wfb T = true ->
  i < j ->
  j < List.length (getPaths T) ->
  leaves_at (List.length (getPaths T)) T = true ->
  exists T1 T2,
    DataTree_swop (DataTree.mk T) i j = Ok (DataTree.mk T1)
    /\ swop T i j = Ok T2
    /\ (forall p v,
          In (p, v) (bindings T1) <->
          exists o n suf,
            swapped i j o n /\ p = n ++ suf /\ In (o ++ suf, v) (bindings T))
    /\ Permutation (bindings T1) (bindings T2).
Proof.
  intros Hw Hij Hj Huni.
  destruct (DataTree_swop_exchanged T i j Hw Hij Hj Huni) as [T1 [Hrun1 [Hw1 Hb1]]].
  assert (Hd : dicts_down_to j T).
  { intros q u Hq Hl. destruct (leaves_at_find T _ q u Huni Hq) as [_ Hu].
    apply (leaves_at_inner (List.length (getPaths T) - List.length q - 1)).
    replace (S (List.length (getPaths T) - List.length q - 1))
      with (List.length (getPaths T) - List.length q) by lia.
    exact Hu. }
  assert (Hs : solid_below j T).
  { intros p u Hf _. destruct (leaves_at_find T _ p u Huni Hf) as [_ Hu].
    destruct (List.length (getPaths T) - List.length p) as [|m].
    - apply leaves_at_payload in Hu. tauto.
    - apply leaves_at_inner in Hu. destruct u; try discriminate Hu.
      split; [discriminate | reflexivity]. }
  destruct (swop_bindings_exchanged T i j Hw Hij Hj Hd Hs) as [T2 [Hrun2 [Hw2 Hb2]]].
  exists T1, T2. split; [exact Hrun1|]. split; [exact Hrun2|]. split; [exact Hb1|].
  apply NoDup_Permutation; try (apply bindings_NoDup; assumption).
  intros [p v]. now rewrite Hb1, Hb2.
Qed.

(** A run of X28. *)
Lemma DataTree_swop_exchanges_like_swop_witness :
  exists T1 T2,
    DataTree_swop (DataTree.mk two_by_two) 0 1 = Ok (DataTree.mk T1)
    /\ swop two_by_two 0 1 = Ok T2
    /\ (forall p v,
          In (p, v) (bindings T1) <->
          exists o n suf,
            swapped 0 1 o n /\ p = n ++ suf /\ In (o ++ suf, v) (bindings two_by_two))
    /\ Permutation (bindings T1) (bindings T2).
Proof.
  apply (DataTree_swop_exchanges_like_swop two_by_two 0 1).
  - reflexivity.
  - lia.
  - vm_compute. lia.
  - reflexivity.
Defined.

(** Two runs of [DataTree.swop]: on the two-by-two tree, and on a tree
    with a leaf above the second level, where the lookup below the leaf
    raises TypeError. *)
Lemma DataTree_swop_runs :
  DataTree_swop (DataTree.mk two_by_two) 0 1
  = Ok (DataTree.mk (VDict [(KStr "x", VDict [(KStr "a", VInt 1); (KStr "b", VInt 3)]);
                            (KStr "y", VDict [(KStr "a", VInt 2); (KStr "b", VInt 4)])]))
  /\ DataTree_swop
       (DataTree.mk (VDict [(KStr "a", VDict [(KStr "x", VInt 1)]); (KStr "b", VInt 5)]))
       0 1 = Raise TypeError.
Proof. split; vm_compute; reflexivity. Qed.

(** Runs of [fromCache] and of [split_on], the sets being gone through
    in the order of the list. *)
Lemma fromCache_runs :
  fromCache (fun l => l)
    (VDict [(KStr "t1/s1", VInt 1); (KStr "t1/s2", VInt 2);
            (KStr "t2/s1", VInt 3); (KStr "t2/s2", VInt 4)])
    (Some "t1,t2") (Some "s1,s2") "slice"
  = Ok (DataTree.mk
          (VDict [(KStr "s1", VDict [(KStr "t1", VInt 1); (KStr "t2", VInt 3)]);
                  (KStr "s2", VDict [(KStr "t1", VInt 2); (KStr "t2", VInt 4)])]))
  /\ split_on "," "a,,b" = ["a"; ""; "b"]
  /\ split_on "/" "/a" = [""; "a"]
  /\ fromCache (fun l => l) (VDict [(KStr "t1", VInt 1); (KStr "t2", VInt 2)])
       None None "slice"
     = Ok (DataTree.mk (VDict [(KStr "t1", VInt 1); (KStr "t2", VInt 2)]))
  /\ fromCache (fun l => l) (VDict [(KInt 1, VInt 2)]) None None "slice"
     = Raise AttributeError
  /\ fromCache (fun l => l) (VDict [(KStr "t1", VInt 1)]) (Some "t1") (Some "") "track"
     = Raise KeyError.
Proof. repeat split; vm_compute; reflexivity. Qed.

(** ** fromCache *)

Lemma cache_keys_strings items :
  string_keys items = true -> exists keys, cache_keys (VDict items) = Ok keys.
Proof.
  unfold cache_keys. cbn [py_keys py_items bind].
  induction items as [|[k v] items IH]; intros H; [simpl; eauto|].
  cbn [string_keys forallb fst] in H. apply andb_true_iff in H as [Hk H].
  destruct (IH H) as [keys Hkeys]. destruct k; try discriminate Hk.
  cbn [map mapM fst bind]. rewrite Hkeys. cbn [bind]. eauto.
Qed.

Lemma split_on_not_nil sep s : split_on sep s <> [].
Proof.
  destruct s as [|c s]; [discriminate|]. simpl.
  destruct (Ascii.eqb c sep); [discriminate|].
  destruct (split_on sep s); discriminate.
Qed.

Lemma foldM_raises {A S : Type} (f : S -> A -> result S) (I : S -> Prop) (e : exn) :
  (forall s a, I s -> (exists s', f s a = Ok s' /\ I s') \/ f s a = Raise e) ->
  forall l s a0,
    I s -> In a0 l -> (forall s, I s -> f s a0 = Raise e) ->
    foldM f l s = Raise e.
Proof.
  intros Hstep l. induction l as [|a l IH]; intros s a0 HI Hin Hbad; [contradiction|].
  cbn [foldM]. destruct Hin as [->|Hin].
  - now rewrite (Hbad s HI).
  - destruct (Hstep s a HI) as [[s' [Hrun HI']]|Hrun]; rewrite Hrun; [|reflexivity].
    cbn [bind]. now apply (IH s' a0).
Qed.

Lemma dict_set_get_same d k v : dict_get d k = Some v -> dict_set d k v = d.
Proof.
  induction d as [|[k' v'] d IH]; [discriminate|].
  simpl. destruct (key_eqb k k') eqn:E.
  - intros H. congruence.
  - intros H. f_equal. now apply IH.
Qed.

Section FromCache.

Variable items : list (key * value).
Variable name : string -> string -> string.
Variable inner : list string.
Lemma fill_group_step (o x : string) (d g : list (key * value)) :
  dict_get d (KStr o) = Some (VDict g) ->
  (v <- py_getitem (VDict items) (KStr (name o x)) ;;
   group <- DataTree.getitem (DataTree.mk (VDict d)) (KStr o) ;;
   group' <- py_setitem group (KStr x) v ;;
   Ok (DataTree.mk (store (DataTree._data (DataTree.mk (VDict d))) (KStr o) group')))
  = match dict_get items (KStr (name o x)) with
    | Some v => Ok (DataTree.mk (VDict (dict_set d (KStr o)
                                          (VDict (dict_set g (KStr x) v)))))
    | None => Raise KeyError
    end.
Proof.
  intros Hg. cbn [py_getitem].
  destruct (dict_get items (KStr (name o x))) as [v|]; [|reflexivity].
  cbn [bind]. unfold DataTree.getitem. cbn [DataTree._data py_getitem].
  rewrite Hg. reflexivity.
Qed.

Lemma fill_group_ok (o : string) :
  forall (xs : list string) (d g : list (key * value)),
    dict_get d (KStr o) = Some (VDict g) ->
    (forall x, In x xs -> exists v, dict_get items (KStr (name o x)) = Some v) ->
    exists g',
      fill_group (VDict items) o name xs (DataTree.mk (VDict d))
      = Ok (DataTree.mk (VDict (dict_set d (KStr o) (VDict g'))))
      /\ (forall x, In x xs -> dict_get g' (KStr x) = dict_get items (KStr (name o x)))
      /\ (forall x, ~ In x xs -> dict_get g' (KStr x) = dict_get g (KStr x)).
Proof.
  unfold fill_group.
  induction xs as [|x xs IH]; intros d g Hg Hall.
  - exists g. cbn [foldM]. split; [|split; [intros x []|reflexivity]].
    now rewrite (dict_set_get_same d (KStr o) (VDict g) Hg).
  - cbn [foldM]. rewrite (fill_group_step o x d g Hg).
    destruct (Hall x (or_introl eq_refl)) as [v Hv]. rewrite Hv. cbn [bind].
    destruct (IH (dict_set d (KStr o) (VDict (dict_set g (KStr x) v)))
                (dict_set g (KStr x) v)) as [g' [Hrun [Hin Hout]]].
    + apply dict_get_set_same.
    + intros y Hy. apply Hall. now right.
    + exists g'. rewrite Hrun, dict_set_set. split; [reflexivity|]. split.
      * intros y [<-|Hy]; [|now apply Hin].
        destruct (in_dec string_dec x xs) as [Hx|Hx]; [now apply Hin|].
        rewrite (Hout x Hx), dict_get_set_same. now symmetry.
      * intros y Hy. rewrite Hout by (intros H; apply Hy; now right).
        apply dict_get_set_other. intros E. apply Hy. left. congruence.
Qed.

Lemma fill_group_outcome (o : string) :
  forall (xs : list string) (d g : list (key * value)),
    dict_get d (KStr o) = Some (VDict g) ->
    (exists d' g',
       fill_group (VDict items) o name xs (DataTree.mk (VDict d))
       = Ok (DataTree.mk (VDict d'))
       /\ dict_get d' (KStr o) = Some (VDict g'))
    \/ fill_group (VDict items) o name xs (DataTree.mk (VDict d)) = Raise KeyError.
Proof.
  unfold fill_group.
  induction xs as [|x xs IH]; intros d g Hg.
  - left. exists d, g. auto.
  - cbn [foldM]. rewrite (fill_group_step o x d g Hg).
    destruct (dict_get items (KStr (name o x))) as [v|]; [|now right].
    cbn [bind]. apply (IH _ (dict_set g (KStr x) v)). apply dict_get_set_same.
Qed.

Lemma fill_group_missing (o : string) :
  forall (xs : list string) (d g : list (key * value)) x0,
    dict_get d (KStr o) = Some (VDict g) ->
    In x0 xs -> dict_get items (KStr (name o x0)) = None ->
    fill_group (VDict items) o name xs (DataTree.mk (VDict d)) = Raise KeyError.
Proof.
  unfold fill_group.
  induction xs as [|x xs IH]; intros d g x0 Hg Hin Hmiss; [contradiction|].
  cbn [foldM]. rewrite (fill_group_step o x d g Hg).
  destruct (dict_get items (KStr (name o x))) as [v|] eqn:Ev; [|reflexivity].
  cbn [bind]. destruct Hin as [->|Hin]; [congruence|].
  apply (IH _ (dict_set g (KStr x) v) x0); [apply dict_get_set_same | exact Hin | exact Hmiss].
Qed.

Lemma group_loop_ok (outer : list string) :
  forall d,
    (forall o x, In o outer -> In x inner ->
                 exists v, dict_get items (KStr (name o x)) = Some v) ->
    exists d',
      foldM (fun data o =>
               data <- DataTree.setitem data (KStr o) (VDict []) ;;
               fill_group (VDict items) o name inner data)
            outer (DataTree.mk (VDict d))
      = Ok (DataTree.mk (VDict d'))
      /\ (forall o x, In o outer -> In x inner ->
                      find (VDict d') [KStr o; KStr x]
                      = dict_get items (KStr (name o x)))
      /\ (forall o, ~ In o outer -> dict_get d' (KStr o) = dict_get d (KStr o)).
Proof.
  induction outer as [|o outer IH]; intros d Hall.
  - exists d. split; [reflexivity|]. split; [intros o x []|reflexivity].
  - cbn [foldM]. unfold DataTree.setitem at 1.
    cbn [DataTree._data py_setitem bind].
    destruct (fill_group_ok o inner (dict_set d (KStr o) (VDict [])) [])
      as [g [Hrun [Hin _]]].
    + apply dict_get_set_same.
    + intros x Hx. apply Hall; [now left | exact Hx].
    + rewrite Hrun. cbn [bind]. rewrite dict_set_set.
      destruct (IH (dict_set d (KStr o) (VDict g))) as [d' [Hrun' [Hfound Hother]]].
      * intros o' x Ho' Hx. apply Hall; [now right | exact Hx].
      * exists d'. split; [exact Hrun'|]. split.
        -- intros o' x [<-|Ho'] Hx; [|now apply Hfound].
           destruct (in_dec string_dec o outer) as [Ho|Ho]; [now apply Hfound|].
           cbn [find]. rewrite (Hother o Ho), dict_get_set_same.
           rewrite (Hin x Hx). now destruct (dict_get items (KStr (name o x))).
        -- intros o' Ho'. rewrite Hother by (intros H; apply Ho'; now right).
           apply dict_get_set_other. intros E. apply Ho'. left. congruence.
Qed.

Lemma group_loop_missing (outer : list string) (o0 x0 : string) :
  In o0 outer -> In x0 inner -> dict_get items (KStr (name o0 x0)) = None ->
  forall d,
    foldM (fun data o =>
             data <- DataTree.setitem data (KStr o) (VDict []) ;;
             fill_group (VDict items) o name inner data)
          outer (DataTree.mk (VDict d))
    = Raise KeyError.
Proof.
  intros Ho Hx Hmiss d.
  apply (foldM_raises _ (fun s => exists d, s = DataTree.mk (VDict d)) KeyError)
    with (a0 := o0).
  - intros s o [d1 ->]. unfold DataTree.setitem.
    cbn [DataTree._data py_setitem bind].
    destruct (fill_group_outcome o inner (dict_set d1 (KStr o) (VDict [])) [])
      as [[d' [g' [Hrun _]]]|Hrun].
    + apply dict_get_set_same.
    + left. exists (DataTree.mk (VDict d')). split; [exact Hrun | eauto].
    + now right.
  - eauto.
  - exact Ho.
  - intros s [d1 ->]. unfold DataTree.setitem.
    cbn [DataTree._data py_setitem bind].
    apply (fill_group_missing o0 inner _ [] x0); [apply dict_get_set_same|exact Hx|exact Hmiss].
Qed.

End FromCache.
(** X29.  With the tracks and slices named, [fromCache] returns the tree
    that leads to the cached object of each track and slice, by track
    then slice or by slice then track as asked, when the cache holds
    them all; it raises KeyError when the cache lacks one. *)
Theorem fromCache_groups_the_cache
  (set_order : list string -> list string)
  (items : list (key * value)) (tracks slices : string) :
  string_keys items = true ->
  ((forall t s, In t (split_on "," tracks) -> In s (split_on "," slices) ->
                exists v, cached items t s = Some v) ->
   exists d1 d2,
     fromCache set_order (VDict items) (Some tracks) (Some slices) "track"
     = Ok (DataTree.mk d1)
     /\ fromCache set_order (VDict items) (Some tracks) (Some slices) "slice"
        = Ok (DataTree.mk d2)
     /\ forall t s, In t (split_on "," tracks) -> In s (split_on "," slices) ->
          find d1 [KStr t; KStr s] = cached items t s
          /\ find d2 [KStr s; KStr t] = cached items t s)
  /\ (forall t s, In t (split_on "," tracks) -> In s (split_on "," slices) ->
                  cached items t s = None ->
      fromCache set_order (VDict items) (Some tracks) (Some slices) "track"
      = Raise KeyError
      /\ fromCache set_order (VDict items) (Some tracks) (Some slices) "slice"
         = Raise KeyError).
Proof.
  intros Hkeys. destruct (cache_keys_strings items Hkeys) as [keys Hk].
  assert (Hlen : Nat.eqb (List.length (split_on "," slices)) 0 = false).
  { pose proof (split_on_not_nil "," slices). destruct (split_on "," slices);
      [contradiction | reflexivity]. }
  assert (Htrack : forall groupby,
             fromCache set_order (VDict items) (Some tracks) (Some slices) groupby
             = if String.eqb groupby "slice" || String.eqb groupby "all" then
                 foldM (fun data slice =>
                          data <- DataTree.setitem data (KStr slice) (VDict []) ;;
                          fill_group (VDict items) slice
                            (fun slice track => tokey track slice)
                            (split_on "," tracks) data)
                       (split_on "," slices) DataTree.new
               else if String.eqb groupby "track" then
                 foldM (fun data track =>
                          data <- DataTree.setitem data (KStr track) (VDict []) ;;
                          fill_group (VDict items) track
                            (fun track slice => tokey track slice)
                            (split_on "," slices) data)
                       (split_on "," tracks) DataTree.new
               else Ok DataTree.new).
  { intros groupby. unfold fromCache. rewrite Hk. cbn [bind]. now rewrite Hlen. }
  rewrite !Htrack. cbn [String.eqb Ascii.eqb Bool.eqb orb].
  change DataTree.new with (DataTree.mk (VDict [])).
  split.
  - intros Hall.
    destruct (group_loop_ok items (fun track slice => tokey track slice)
                (split_on "," slices) (split_on "," tracks) [])
      as [d1 [Hrun1 [Hf1 _]]].
    { intros o x Ho Hx. apply (Hall o x Ho Hx). }
    destruct (group_loop_ok items (fun slice track => tokey track slice)
                (split_on "," tracks) (split_on "," slices) [])
      as [d2 [Hrun2 [Hf2 _]]].
    { intros o x Ho Hx. apply (Hall x o Hx Ho). }
    exists (VDict d1), (VDict d2). split; [exact Hrun1|]. split; [exact Hrun2|].
    intros t s Ht Hs. split; [apply (Hf1 t s Ht Hs) | apply (Hf2 s t Hs Ht)].
  - intros t s Ht Hs Hmiss. split.
    + apply (group_loop_missing items (fun track slice => tokey track slice)
               (split_on "," slices) (split_on "," tracks) t s Ht Hs Hmiss).
    + apply (group_loop_missing items (fun slice track => tokey track slice)
               (split_on "," tracks) (split_on "," slices) s t Hs Ht Hmiss).
Qed.

(** A run of X29. *)
Lemma fromCache_groups_the_cache_witness :
  exists d1 d2,
    fromCache (fun l => l)
      (VDict [(KStr "t1/s1", VInt 1); (KStr "t1/s2", VInt 2);
              (KStr "t2/s1", VInt 3); (KStr "t2/s2", VInt 4)])
      (Some "t1,t2") (Some "s1,s2") "track" = Ok (DataTree.mk d1)
    /\ fromCache (fun l => l)
         (VDict [(KStr "t1/s1", VInt 1); (KStr "t1/s2", VInt 2);
                 (KStr "t2/s1", VInt 3); (KStr "t2/s2", VInt 4)])
         (Some "t1,t2") (Some "s1,s2") "slice" = Ok (DataTree.mk d2)
    /\ forall t s, In t (split_on "," "t1,t2") -> In s (split_on "," "s1,s2") ->
         find d1 [KStr t; KStr s]
         = cached [(KStr "t1/s1", VInt 1); (KStr "t1/s2", VInt 2);
                   (KStr "t2/s1", VInt 3); (KStr "t2/s2", VInt 4)] t s
         /\ find d2 [KStr s; KStr t]
            = cached [(KStr "t1/s1", VInt 1); (KStr "t1/s2", VInt 2);
                      (KStr "t2/s1", VInt 3); (KStr "t2/s2", VInt 4)] t s.
Proof.
  destruct (fromCache_groups_the_cache (fun l => l)
              [(KStr "t1/s1", VInt 1); (KStr "t1/s2", VInt 2);
               (KStr "t2/s1", VInt 3); (KStr "t2/s2", VInt 4)] "t1,t2" "s1,s2")
    as [H _]; [reflexivity|].
  apply H. intros t s Ht Hs. vm_compute in Ht, Hs.
  destruct Ht as [<-|[<-|[]]]; destruct Hs as [<-|[<-|[]]]; vm_compute; eauto.
Defined.

(** ** prune: the tree it leaves behind *)

(** *** Payloads that hide no dictionary *)

Lemma dict_free_seq xs :
  (fix go (l : list value) : bool :=
     match l with
     | [] => true
     | x :: rest => dict_free x && go rest
     end) xs = true <-> Forall (fun x => dict_free x = true) xs.
Proof.
  induction xs as [|x xs IH].
  - split; [constructor | reflexivity].
  - rewrite andb_true_iff, IH. split.
    + intros [H1 H2]. now constructor.
    + intros H. inversion H; subst. auto.
Qed.

Lemma plain_payloads_dict items :
  plain_payloads (VDict items) = true
  <-> Forall (fun kv => plain_payloads (snd kv) = true) items.
Proof.
  cbn [plain_payloads]. induction items as [|[k c] items IH].
  - split; [constructor | reflexivity].
  - rewrite andb_true_iff, IH. split.
    + intros [H1 H2]. now constructor.
    + intros H. inversion H; subst. auto.
Qed.

Lemma plain_payloads_find (p : path) :
  forall t u, plain_payloads t = true -> find t p = Some u -> plain_payloads u = true.
Proof.
  induction p as [|x p IH]; intros t u Ht Hf.
  - simpl in Hf. now injection Hf as <-.
  - cbn [find] in Hf. destruct t as [ | | | | | |items]; try discriminate Hf.
    destruct (dict_get items x) as [c|] eqn:E; [|discriminate Hf].
    apply (IH c u); [|exact Hf].
    apply plain_payloads_dict in Ht. rewrite Forall_forall in Ht.
    apply (Ht (x, c)). now apply dict_get_In.
Qed.

Lemma plain_payloads_not_frame v : plain_payloads v = true -> is_frame v = false.
Proof. destruct v; try reflexivity. discriminate. Qed.

Lemma plain_payloads_frame_free (t : value) :
  plain_payloads t = true -> frame_free t = true.
Proof.
  induction t as [ | | |xs IHxs|xs IHxs| |items IH] using value_ind';
    intros H; try reflexivity; try discriminate H.
  apply frame_free_dict. apply plain_payloads_dict in H.
  rewrite Forall_forall in *. intros kv Hin. apply (IH kv Hin). now apply H.
Qed.

(** What [getLeaf] reaches inside a payload is no dictionary. *)
Lemma dict_free_getLeaf (p : path) :
  forall w u, dict_free w = true -> getLeaf w p = Ok u -> is_dict u = false.
Proof.
  induction p as [|x p IH]; intros w u Hw Hg.
  - simpl in Hg. injection Hg as <-. destruct w; try reflexivity. discriminate Hw.
  - rewrite getLeaf_step in Hg.
    destruct w as [ |z|s|xs|xs|f|items]; try discriminate Hw.
    + cbn [py_getitem] in Hg. injection Hg as <-. reflexivity.
    + cbn [py_getitem] in Hg. injection Hg as <-. reflexivity.
    + cbn [py_getitem] in Hg. destruct x as [s0|z|parts];
        try (injection Hg as <-; reflexivity).
      destruct (seq_index (String.length s) z) as [i|]; [|discriminate Hg].
      destruct (string_nth s i) as [c|]; [|discriminate Hg].
      apply (IH (VStr (String c EmptyString)) u); [reflexivity | exact Hg].
    + cbn [py_getitem] in Hg. destruct x as [s0|z|parts];
        try (injection Hg as <-; reflexivity).
      destruct (seq_index (List.length xs) z) as [i|]; [|discriminate Hg].
      destruct (nth_error xs i) as [c|] eqn:Ec; [|discriminate Hg].
      apply (IH c u); [|exact Hg].
      cbn [dict_free] in Hw. apply dict_free_seq in Hw.
      rewrite Forall_forall in Hw. apply Hw. eapply nth_error_In; eauto.
    + cbn [py_getitem] in Hg. destruct x as [s0|z|parts];
        try (injection Hg as <-; reflexivity).
      destruct (seq_index (List.length xs) z) as [i|]; [|discriminate Hg].
      destruct (nth_error xs i) as [c|] eqn:Ec; [|discriminate Hg].
      apply (IH c u); [|exact Hg].
      cbn [dict_free] in Hw. apply dict_free_seq in Hw.
      rewrite Forall_forall in Hw. apply Hw. eapply nth_error_In; eauto.
Qed.

(** A dictionary that [getLeaf] reaches is found along dictionaries. *)
Lemma getLeaf_dict_find (p : path) :
  forall w items,
    plain_payloads w = true -> getLeaf w p = Ok (VDict items) ->
    find w p = Some (VDict items).
Proof.
  induction p as [|x p IH]; intros w items Hw Hg.
  - simpl in Hg. injection Hg as ->. reflexivity.
  - destruct w as [ |z|s|xs|xs|f|its].
    1-6: apply dict_free_getLeaf in Hg; [discriminate Hg | exact Hw].
    rewrite getLeaf_step in Hg. cbn [py_getitem find] in *.
    destruct (dict_get its x) as [c|] eqn:E; [|discriminate Hg].
    apply IH; [|exact Hg].
    apply (plain_payloads_find [x] (VDict its) c Hw). cbn [find]. now rewrite E.
Qed.

Lemma find_getLeaf_Ok (p : path) work u :
  find work p = Some u -> getLeaf work p = Ok u.
Proof.
  intros H. rewrite <- (app_nil_r p). now rewrite (find_getLeaf p work u [] H).
Qed.

Lemma plain_payloads_dict_set items x v :
  plain_payloads (VDict items) = true -> plain_payloads v = true ->
  plain_payloads (VDict (dict_set items x v)) = true.
Proof.
  rewrite !plain_payloads_dict. intros H Hv.
  induction items as [|[k c] items IH]; cbn [dict_set].
  - constructor; [exact Hv | constructor].
  - inversion H; subst. destruct (key_eqb x k); constructor; auto.
Qed.

Lemma plain_payloads_insert (p : path) :
  forall work v,
    plain_payloads work = true -> plain_payloads v = true ->
    plain_payloads (insert work p v) = true.
Proof.
  induction p as [|x p IH]; intros work v Hw Hv; [exact Hv|].
  destruct work as [ | | | | | |items]; try exact Hw.
  cbn [insert]. apply plain_payloads_dict_set; [exact Hw|].
  apply IH; [|exact Hv].
  destruct (dict_get items x) as [c|] eqn:E; [|reflexivity].
  apply (plain_payloads_find [x] (VDict items) c Hw). cbn [find]. now rewrite E.
Qed.

(** *** Cutting a level out of a tree *)

Lemma dict_get_map (f : value -> value) items x :
  dict_get (map (fun kv => (fst kv, f (snd kv))) items) x
  = option_map f (dict_get items x).
Proof.
  induction items as [|[k c] items IH]; [reflexivity|].
  cbn [map dict_get fst snd]. destruct (key_eqb x k); [reflexivity | exact IH].
Qed.

Lemma find_cut (p : path) :
  forall l t,
    List.length p < l ->
    find (cut l t) p = option_map (cut (l - List.length p)) (find t p).
Proof.
  induction p as [|x p IH]; intros l t Hl.
  - cbn [find List.length option_map]. now rewrite Nat.sub_0_r.
  - destruct l as [|m]; [simpl in Hl; lia|].
    cbn [List.length] in *. cbn [cut].
    destruct t as [ | | | | | |items]; try reflexivity.
    cbn [find]. rewrite dict_get_map.
    destruct (dict_get items x) as [c|]; [|reflexivity].
    cbn [option_map]. rewrite IH by lia. reflexivity.
Qed.

Lemma map_keys_cut (f : value -> value) (items : list (key * value)) :
  map fst (map (fun kv => (fst kv, f (snd kv))) items) = map fst items.
Proof. rewrite map_map. reflexivity. Qed.

Lemma wfb_cut (l : nat) : forall t, wfb t = true -> wfb (cut l t) = true.
Proof.
  induction l as [|m IH]; intros t Ht.
  - cbn [cut]. destruct t as [ | | | | | |items]; try exact Ht.
    destruct items as [|[k d] [|kv2 more]]; try exact Ht.
    apply wfb_dict in Ht as [_ Hall]. now inversion Hall.
  - cbn [cut]. destruct t as [ | | | | | |items]; try exact Ht.
    apply wfb_dict in Ht as [Hnd Hall]. apply wfb_dict.
    rewrite map_keys_cut. split; [exact Hnd|].
    rewrite Forall_map. eapply Forall_impl; [|exact Hall].
    intros kv H. cbn [snd]. now apply IH.
Qed.

Lemma plain_payloads_cut (l : nat) :
  forall t, plain_payloads t = true -> plain_payloads (cut l t) = true.
Proof.
  induction l as [|m IH]; intros t Ht.
  - cbn [cut]. destruct t as [ | | | | | |items]; try exact Ht.
    destruct items as [|[k d] [|kv2 more]]; try exact Ht.
    apply plain_payloads_dict in Ht. now inversion Ht.
  - cbn [cut]. destruct t as [ | | | | | |items]; try exact Ht.
    apply plain_payloads_dict in Ht. apply plain_payloads_dict.
    rewrite Forall_map. eapply Forall_impl; [|exact Ht].
    intros kv H. cbn [snd]. now apply IH.
Qed.

(** Agreement with the cut of every object [l] levels down is the cut
    of level [l]. *)
Lemma agree_cut (l : nat) :
  forall v v', agree l (fun u u' => u' = cut 0 u) v v' -> v' = cut l v.
Proof.
  induction l as [|m IH]; intros v v' Ha; [exact Ha|].
  destruct v as [ | | | | | |items]; try exact Ha.
  destruct (agree_dict _ _ _ _ Ha) as [items' [-> HF]].
  cbn [cut]. f_equal. clear Ha.
  induction HF as [|[k c] [k' c'] its its' [Hk Hc] _ IHF]; [reflexivity|].
  cbn [fst snd map] in *. subst k'. f_equal; [|exact IHF].
  f_equal. now apply IH.
Qed.

Lemma agree_all_cut (l : nat) :
  forall v v',
    wfb v = true ->
    agree l kept_or_cut v v' ->
    (forall p u, List.length p = l -> find v p = Some u ->
                 find v' p = Some (cut 0 u)) ->
    agree l (fun u u' => u' = cut 0 u) v v'.
Proof.
  induction l as [|m IH]; intros v v' Hw Ha Hall.
  - specialize (Hall [] v eq_refl eq_refl). simpl in Hall. now injection Hall.
  - destruct v as [ | | | | | |items]; try exact Ha.
    destruct (agree_dict _ _ _ _ Ha) as [items' [-> HF]].
    cbn [agree]. apply wfb_dict in Hw as [Hnd Hwall].
    assert (Hget : forall k c c',
               In ((k, c), (k, c')) (combine items items') ->
               dict_get items k = Some c /\ dict_get items' k = Some c').
    { assert (Hkeys : map fst items' = map fst items).
      { clear -HF. induction HF as [|a b l l' [Hk _] _ IHF]; [reflexivity|].
        simpl. now rewrite Hk, IHF. }
      intros k c c' Hin. split.
      - apply In_dict_get; [exact Hnd|]. now apply in_combine_l in Hin.
      - apply In_dict_get; [now rewrite Hkeys|]. now apply in_combine_r in Hin. }
    assert (Hgoal : forall a b, In (a, b) (combine items items') ->
                      fst a = fst b /\ agree m (fun u u' => u' = cut 0 u) (snd a) (snd b)).
    { intros [k c] [k' c'] Hin.
      assert (Hk : k = k' /\ agree m kept_or_cut c c').
      { clear -HF Hin. induction HF as [|a b l l' [Hk Hc] _ IHF]; [contradiction|].
        destruct Hin as [Heq|Hin]; [|now apply IHF].
        injection Heq as -> ->. auto. }
      destruct Hk as [<- Hc]. cbn [fst snd]. split; [reflexivity|].
      destruct (Hget k c c' Hin) as [Hg Hg'].
      apply IH.
      - rewrite Forall_forall in Hwall. apply (Hwall (k, c)).
        now apply in_combine_l in Hin.
      - exact Hc.
      - intros p u Hl Hf.
        specialize (Hall (k :: p) u). cbn [List.length find] in Hall.
        rewrite Hg, Hg' in Hall. apply Hall; [now rewrite Hl | exact Hf]. }
    clear -HF Hgoal.
    induction HF as [|a b l l' Hab _ IHF]; constructor.
    + apply Hgoal. now left.
    + apply IHF. intros a' b' Hin. apply Hgoal. now right.
Qed.

Lemma collapsed_cut o : collapsed o = option_map (cut 0) o.
Proof.
  destruct o as [u|]; [|reflexivity].
  destruct u as [ | | | | | |items]; try reflexivity.
  destruct items as [|[k d] [|kv2 more]]; reflexivity.
Qed.

(** A returning run of the loop of [removeLevel] over prefixes that lead
    to nothing or to single-entry dictionaries: each such dictionary has
    given way to the value of its entry. *)
Lemma removeLevel_prefixes_returns (data : value) (level : nat) :
  wfb data = true ->
  single_at level data ->
  forall prefixes done cur cur',
    (forall p, In p prefixes -> List.length p = level /\ ~ In p done) ->
    NoDup prefixes ->
    plain_payloads cur = true ->
    agree level kept_or_cut data cur ->
    (forall p, List.length p = level ->
               (In p done -> find cur p = collapsed (find data p))
               /\ (~ In p done -> find cur p = find data p)) ->
    removeLevel_prefixes cur prefixes = Ok cur' ->
    plain_payloads cur' = true
    /\ agree level kept_or_cut data cur'
    /\ forall p, List.length p = level ->
         (In p done \/ In p prefixes -> find cur' p = collapsed (find data p))
         /\ (~ (In p done \/ In p prefixes) -> find cur' p = find data p).
Proof.
  intros Hw Hsingle prefixes.
  induction prefixes as [|p prefixes IH]; intros done cur cur' Hpre Hnd Hpl Ha Hinv Hrun.
  - simpl in Hrun. injection Hrun as <-. split; [exact Hpl|]. split; [exact Ha|].
    intros p Hl. destruct (Hinv p Hl) as [H1 H2]. split.
    + intros [H|[]]. now apply H1.
    + intros H. apply H2. tauto.
  - inversion Hnd as [|? ? Hp Hnd']; subst.
    destruct (Hpre p (or_introl eq_refl)) as [Hlen Hnotdone].
    destruct (Hinv p Hlen) as [_ Hsame]. specialize (Hsame Hnotdone).
    assert (Hstep : exists cur1,
               removeLevel_prefixes cur1 prefixes = Ok cur'
               /\ plain_payloads cur1 = true
               /\ agree level kept_or_cut data cur1
               /\ find cur1 p = collapsed (find data p)
               /\ forall p', List.length p' = level -> p' <> p ->
                             find cur1 p' = find cur p').
    { cbn [removeLevel_prefixes] in Hrun.
      destruct (getLeaf cur p) as [leaf| |] eqn:El; try discriminate Hrun.
      cbn [bind] in Hrun.
      assert (Hskip : is_dict leaf = false ->
                removeLevel_prefixes cur prefixes = Ok cur' ->
                exists cur1,
                  removeLevel_prefixes cur1 prefixes = Ok cur'
                  /\ plain_payloads cur1 = true
                  /\ agree level kept_or_cut data cur1
                  /\ find cur1 p = collapsed (find data p)
                  /\ forall p', List.length p' = level -> p' <> p ->
                                find cur1 p' = find cur p').
      { intros Hnd0 Hr. exists cur. split; [exact Hr|]. split; [exact Hpl|].
        split; [exact Ha|]. split; [|auto].
        rewrite Hsame. destruct (find data p) as [u|] eqn:Eu; [|reflexivity].
        apply find_getLeaf_Ok in Hsame.
        rewrite El in Hsame. injection Hsame as <-.
        destruct leaf; try reflexivity. discriminate Hnd0. }
      destruct leaf as [ |z|s|xs|xs|f|its]; try discriminate Hrun.
      - apply Hskip; [reflexivity | exact Hrun].
      - pose proof (getLeaf_dict_find p cur its Hpl El) as Hf.
        assert (Hfd : find data p = Some (VDict its)) by congruence.
        destruct (Hsingle p its Hfd Hlen) as [k [d ->]].
        cbn [py_eq_none bind py_keys py_items map fst] in Hrun.
        destruct (removeLevel_keys cur p true (VDict [(k, d)]) [k]) as [cur1| |] eqn:Ek;
          try discriminate Hrun.
        cbn [bind] in Hrun.
        assert (Hd : plain_payloads d = true).
        { apply (plain_payloads_find (p ++ [k]) cur d Hpl).
          rewrite find_app, Hf. cbn [find dict_get]. now rewrite key_eqb_refl. }
        assert (Hwd : wfb d = true).
        { pose proof (wfb_find p data _ Hw Hfd) as Hwu.
          apply wfb_dict in Hwu as [_ Hall]. now inversion Hall. }
        assert (Htop : p <> [] \/ is_dict d = true).
        { destruct p as [|x p]; [|left; discriminate].
          right. destruct (is_dict d) eqn:Ed; [reflexivity|]. exfalso.
          cbn [removeLevel_keys py_getitem py_delitem dict_get dict_del] in Ek.
          rewrite key_eqb_refl in Ek. cbn [bind put_at] in Ek.
          apply plain_payloads_not_frame in Hd.
          destruct d; try discriminate Ed; try discriminate Hd; discriminate Ek. }
        rewrite (removeLevel_keys_single cur p k d Hf
                   (plain_payloads_not_frame d Hd) Hwd Htop) in Ek.
        injection Ek as <-.
        assert (Hs : settable cur p = true) by (eapply find_settable; eauto).
        exists (insert cur p d). split; [exact Hrun|].
        split; [now apply plain_payloads_insert|].
        split; [|split].
        + apply (agree_insert level kept_or_cut data cur p (VDict [(k, d)])); auto.
          right. reflexivity.
        + rewrite Hfd. simpl. now apply find_insert_same.
        + intros p' Hl' Hne. apply find_insert_other; congruence. }
    destruct Hstep as [cur1 [Hrun1 [Hpl1 [Ha1 [Hp1 Hother]]]]].
    destruct (IH (p :: done) cur1 cur') as [Hpl' [Ha' Hfinal]]; auto.
    + intros p' Hin. destruct (Hpre p' (or_intror Hin)) as [Hl' Hn'].
      split; [exact Hl'|]. intros [<-|H]; [contradiction | contradiction].
    + intros p' Hl'. destruct (list_eq_dec key_eq_dec p' p) as [->|Hne].
      * split; [intros _; exact Hp1|]. intros H. exfalso. apply H. now left.
      * rewrite (Hother p' Hl' Hne). destruct (Hinv p' Hl') as [H1 H2]. split.
        -- intros [H|H]; [congruence | now apply H1].
        -- intros H. apply H2. intros Hin. apply H. now right.
    + split; [exact Hpl'|]. split; [exact Ha'|].
      intros p' Hl'. destruct (Hfinal p' Hl') as [H1 H2]. split.
      * intros [H|[H|H]]; apply H1; [left; now right | left; left; congruence | now right].
      * intros H. apply H2. intros [[H'|H']|H']; apply H;
          [right; left; congruence | now left | right; now right].
Qed.

Lemma prefix_complete_frame_free (work : value) (p : path) (u : value) :
  wfb work = true -> frame_free work = true ->
  find work p = Some u ->
  In p (getPrefixes work (List.length p)).
Proof.
  intros Hw Hfr Hf. unfold getPrefixes. apply In_product.
  apply (Forall2_levels (getPaths work) p 0).
  intros i x Hx. change (0 + i) with i.
  now apply (key_in_level_frame_free work p i x u).
Qed.

(** A returning [removeLevel] on a level of single-entry dictionaries
    cuts the level out of the tree. *)
Lemma removeLevel_cut (cur : value) (l : nat) (cur' : value) :
  wfb cur = true -> plain_payloads cur = true -> single_at l cur ->
  l <= List.length (getPaths cur) ->
  removeLevel cur l = Ok cur' ->
  cur' = cut l cur.
Proof.
  intros Hw Hpl Hs Hl Hrun. unfold removeLevel in Hrun.
  destruct (removeLevel_prefixes_returns cur l Hw Hs (getPrefixes cur l) [] cur cur')
    as [_ [Ha Hfinal]]; auto.
  - intros p Hin. split; [|intros []].
    unfold getPrefixes in Hin. apply In_product in Hin.
    apply Forall2_length in Hin. rewrite Hin, length_firstn. lia.
  - apply getPrefixes_NoDup.
  - apply agree_refl. intros v. now left.
  - intros p _. split; [intros []|reflexivity].
  - apply agree_cut. apply agree_all_cut; [exact Hw | exact Ha|].
    intros p u Hlen Hf. destruct (Hfinal p Hlen) as [H1 _].
    rewrite H1, Hf, collapsed_cut; [reflexivity|].
    right. rewrite <- Hlen.
    apply (prefix_complete_frame_free cur p u Hw); [|exact Hf].
    now apply plain_payloads_frame_free.
Qed.

(** *** Levels that stay in place when a deeper one is cut *)

Lemma single_at_cut (l l' : nat) (t : value) :
  l' < l -> single_at l' t -> single_at l' (cut l t).
Proof.
  intros Hlt Hs p items Hf Hl.
  rewrite find_cut in Hf by lia.
  destruct (find t p) as [u|] eqn:Eu; [|discriminate Hf].
  cbn [option_map] in Hf. injection Hf as Hf.
  destruct (l - List.length p) as [|m] eqn:Em; [lia|].
  cbn [cut] in Hf. destruct u as [ | | | | | |its]; try discriminate Hf.
  injection Hf as <-.
  destruct (Hs p its Eu Hl) as [k [d ->]]. cbn [map fst snd]. eauto.
Qed.

Lemma level_stays_after_cut (l l' : nat) (t : value) :
  wfb t = true -> frame_free t = true -> frame_free (cut l t) = true ->
  l' < l -> l' < List.length (getPaths t) ->
  l' < List.length (getPaths (cut l t)).
Proof.
  intros Hw Hfr Hfr' Hlt Hlen.
  destruct (getPaths_level_not_nil t l' Hlen) as [k Hk].
  apply (getPaths_level_frame_free t l' k Hw Hfr) in Hk.
  destruct Hk as [p [items [c [Hp [Hf Hg]]]]].
  assert (Hin : In k (nth l' (getPaths (cut l t)) [])).
  { apply (getPaths_level_frame_free (cut l t) l' k (wfb_cut l t Hw) Hfr').
    exists p, (map (fun kv => (fst kv, cut (l - l' - 1) (snd kv))) items),
      (cut (l - l' - 1) c).
    split; [exact Hp|]. split.
    - rewrite find_cut by lia. rewrite Hf. cbn [option_map]. rewrite Hp.
      destruct (l - l') as [|m] eqn:Em; [lia|].
      cbn [cut]. now replace (S m - 1) with m by lia.
    - rewrite dict_get_map, Hg. reflexivity. }
  destruct (Nat.lt_ge_cases l' (List.length (getPaths (cut l t)))) as [H|H];
    [exact H|].
  rewrite nth_overflow in Hin by exact H. contradiction.
Qed.

(** The payloads of a tree cut at a level of single-entry dictionaries:
    each keeps its value, and its path loses the key of that level. *)
Lemma bindings_cut (l : nat) :
  forall t,
    wfb t = true -> single_at l t ->
    bindings (cut l t)
    = map (fun pv => (remove_at l (fst pv), snd pv)) (bindings t).
Proof.
  induction l as [|m IH]; intros t Hw Hs.
  - destruct t as [ | | | | | |items]; try reflexivity.
    destruct (Hs [] items eq_refl eq_refl) as [k [d ->]].
    cbn [cut]. rewrite bindings_dict. cbn [flat_map fst snd].
    rewrite app_nil_r, map_map. cbn [fst snd remove_at].
    rewrite <- (map_id (bindings d)) at 1. apply map_ext. now intros [p v].
  - destruct t as [ | | | | | |items]; try reflexivity.
    cbn [cut]. rewrite !bindings_dict.
    apply wfb_dict in Hw as [Hnd Hall].
    assert (Hchild : forall k c, In (k, c) items ->
              bindings (cut m c)
              = map (fun pv => (remove_at m (fst pv), snd pv)) (bindings c)).
    { intros k c Hin. apply IH.
      - rewrite Forall_forall in Hall. apply (Hall (k, c) Hin).
      - intros p its Hf Hp. apply (Hs (k :: p) its); [|simpl; lia].
        cbn [find]. now rewrite (In_dict_get items k c Hnd Hin). }
    clear Hs Hnd Hall IH.
    induction items as [|[k c] items IHi]; [reflexivity|].
    cbn [map flat_map fst snd]. rewrite map_app. f_equal.
    + rewrite (Hchild k c (or_introl eq_refl)), !map_map. reflexivity.
    + apply IHi. intros k' c' Hin. apply (Hchild k' c'). now right.
Qed.

(** *** The second loop of prune *)

Lemma prune_apply_cut (todo : list (nat * key)) :
  forall cur nlevels data' pruned,
    wfb cur = true -> plain_payloads cur = true ->
    StronglySorted (fun a b : nat * key => fst b < fst a) todo ->
    (forall e, In e todo ->
               single_at (fst e) cur /\ fst e < List.length (getPaths cur)) ->
    prune_apply cur nlevels todo = Ok (data', pruned) ->
    data' = cut_levels pruned cur
    /\ bindings data'
       = map (fun pv => (drop_keys pruned (fst pv), snd pv)) (bindings cur).
Proof.
  induction todo as [|[l label] todo IH];
    intros cur nlevels data' pruned Hw Hpl Hsorted Hall Hrun.
  - simpl in Hrun. injection Hrun as <- <-. split; [reflexivity|].
    rewrite <- (map_id (bindings cur)) at 1. apply map_ext. now intros [p v].
  - cbn [prune_apply] in Hrun.
    apply StronglySorted_inv in Hsorted as [Hsorted Hhead].
    destruct ((l =? 0) && (nlevels =? 1)).
    + apply (IH cur nlevels data' pruned); auto.
      intros e He. apply Hall. now right.
    + destruct (removeLevel cur l) as [d1| |] eqn:Er; try discriminate Hrun.
      cbn [bind] in Hrun.
      destruct (prune_apply d1 (nlevels - 1) todo) as [[d2 pr]| |] eqn:Ea;
        try discriminate Hrun.
      cbn [bind] in Hrun. injection Hrun as <- <-.
      destruct (Hall (l, label) (or_introl eq_refl)) as [Hs Hlen]. cbn [fst] in *.
      assert (Hd1 : d1 = cut l cur).
      { apply removeLevel_cut; auto. lia. }
      subst d1.
      destruct (IH (cut l cur) (nlevels - 1) d2 pr) as [Hc Hb]; auto.
      * now apply wfb_cut.
      * now apply plain_payloads_cut.
      * intros e He. rewrite Forall_forall in Hhead.
        specialize (Hhead e He). cbn [fst] in Hhead.
        destruct (Hall e (or_intror He)) as [Hse Hle]. split.
        -- now apply single_at_cut.
        -- apply level_stays_after_cut; auto.
           ++ now apply plain_payloads_frame_free.
           ++ apply plain_payloads_frame_free. now apply plain_payloads_cut.
      * split; [exact Hc|].
        rewrite Hb, (bindings_cut l cur Hw Hs), map_map.
        apply map_ext. now intros [p v].
Qed.

(** *** The tree after removeEmptyLeaves *)

Lemma kept_items_In k c items :
  In (k, c) (kept_items items) ->
  exists c0, In (k, c0) items /\ c = fst (removeEmptyLeaves c0).
Proof.
  unfold kept_items. rewrite in_flat_map. intros [[k0 c0] [Hin H]].
  cbn [fst snd] in H. destruct (snd (removeEmptyLeaves c0)); [|contradiction].
  destruct H as [H|[]]. injection H as <- <-. eauto.
Qed.

Lemma kept_items_keys items :
  NoDup (map fst items) -> NoDup (map fst (kept_items items)).
Proof.
  induction items as [|[k c] items IH]; intros Hnd; [constructor|].
  rewrite kept_items_cons. inversion Hnd as [|? ? Hk Hnd']; subst.
  destruct (snd (removeEmptyLeaves c)); [|now apply IH].
  cbn [app map fst]. constructor; [|now apply IH].
  intros Hin. apply Hk. apply in_map_iff in Hin as [[k' c'] [Heq Hin]].
  cbn [fst] in Heq. subst k'. apply kept_items_In in Hin as [c0 [Hin _]].
  apply in_map_iff. exists (k, c0). auto.
Qed.

Lemma removeEmptyLeaves_wfb (work : value) :
  wfb work = true -> wfb (fst (removeEmptyLeaves work)) = true.
Proof.
  induction work as [ | | |xs IHxs|xs IHxs| |items IH] using value_ind';
    intros Hw; try exact Hw.
  rewrite removeEmptyLeaves_dict. cbn [fst].
  apply wfb_dict in Hw as [Hnd Hall]. apply wfb_dict.
  split; [now apply kept_items_keys|].
  apply Forall_forall. intros [k c] Hin. cbn [snd].
  apply kept_items_In in Hin as [c0 [Hin ->]].
  rewrite Forall_forall in IH, Hall.
  apply (IH (k, c0) Hin). apply (Hall (k, c0) Hin).
Qed.

Lemma removeEmptyLeaves_plain_payloads (work : value) :
  plain_payloads work = true ->
  plain_payloads (fst (removeEmptyLeaves work)) = true.
Proof.
  induction work as [ | | |xs IHxs|xs IHxs| |items IH] using value_ind';
    intros Hw; try exact Hw.
  rewrite removeEmptyLeaves_dict. cbn [fst].
  apply plain_payloads_dict in Hw. apply plain_payloads_dict.
  apply Forall_forall. intros [k c] Hin. cbn [snd].
  apply kept_items_In in Hin as [c0 [Hin ->]].
  rewrite Forall_forall in IH, Hw.
  apply (IH (k, c0) Hin). apply (Hw (k, c0) Hin).
Qed.

Lemma tidy_find (p : path) :
  forall t x u, tidy t = true -> find t (x :: p) = Some u -> filled u = true.
Proof.
  induction p as [|y p IH]; intros t x u Ht Hf.
  - cbn [find] in Hf. destruct t as [ | | | | | |items]; try discriminate Hf.
    destruct (dict_get items x) as [c|] eqn:E; [|discriminate Hf].
    injection Hf as <-. apply tidy_dict in Ht. rewrite Forall_forall in Ht.
    apply (Ht (x, c)). now apply dict_get_In.
  - change (find t (x :: y :: p)) with
      (match t with
       | VDict items => match dict_get items x with
                        | Some child => find child (y :: p)
                        | None => None
                        end
       | _ => None
       end) in Hf.
    destruct t as [ | | | | | |items]; try discriminate Hf.
    destruct (dict_get items x) as [c|] eqn:E; [|discriminate Hf].
    apply (IH c y u); [|exact Hf].
    apply tidy_dict in Ht. rewrite Forall_forall in Ht.
    apply (Ht (x, c)). now apply dict_get_In.
Qed.

(** A level with a single label holds single-entry dictionaries only. *)
Lemma single_label_single_at (t : value) (l : nat) (label : key) :
  wfb t = true -> frame_free t = true -> tidy t = true ->
  nth l (getPaths t) [] = [label] ->
  single_at l t.
Proof.
  intros Hw Hfr Ht Hnth p items Hf Hl.
  assert (Hkeys : forall k c, In (k, c) items -> k = label).
  { intros k c Hin.
    assert (Hk : In k (nth l (getPaths t) [])).
    { apply (getPaths_level_frame_free t l k Hw Hfr).
      exists p, items, c. split; [exact Hl|]. split; [exact Hf|].
      apply In_dict_get; [|exact Hin].
      pose proof (wfb_find p t _ Hw Hf) as Hwu. now apply wfb_dict in Hwu. }
    rewrite Hnth in Hk. destruct Hk as [<-|[]]. reflexivity. }
  pose proof (wfb_find p t _ Hw Hf) as Hwu. apply wfb_dict in Hwu as [Hnd _].
  destruct items as [|[k d] [|[k2 d2] more]].
  - exfalso. destruct p as [|x p].
    + simpl in Hf. injection Hf as ->. subst l. discriminate Hnth.
    + apply (tidy_find p t x _ Ht) in Hf. discriminate Hf.
  - eauto.
  - exfalso. rewrite (Hkeys k d), (Hkeys k2 d2) in Hnd; simpl; auto.
    inversion Hnd as [|? ? Hn _]. apply Hn. now left.
Qed.

(** What a returning [prune] leaves of the tree: the tree without its
    empty leaves, cut at the levels it reports, deepest first. *)
Lemma prune_cuts_what_it_reports (data : value) (ignore : list key)
  (data' : value) (pruned : list (nat * key)) :
  wfb data = true -> plain_payloads data = true ->
  prune data ignore = Ok (data', pruned) ->
  data' = cut_levels pruned (fst (removeEmptyLeaves data))
  /\ bindings data'
     = map (fun pv => (drop_keys pruned (fst pv), snd pv))
         (bindings (fst (removeEmptyLeaves data))).
Proof.
  intros Hw Hpl. unfold prune.
  set (data1 := fst (removeEmptyLeaves data)).
  assert (Hw1 : wfb data1 = true) by now apply removeEmptyLeaves_wfb.
  assert (Hpl1 : plain_payloads data1 = true)
    by now apply removeEmptyLeaves_plain_payloads.
  assert (Ht1 : tidy data1 = true) by apply removeEmptyLeaves_facts.
  destruct (prune_scan data1 ignore (getPaths data1)
              (seq 0 (List.length (getPaths data1)))) as [cands| |] eqn:Es;
    try discriminate.
  cbn [bind]. intros Hrun.
  apply (prune_apply_cut (rev cands) data1 (List.length (getPaths data1))
           data' pruned Hw1 Hpl1); [| |exact Hrun].
  - apply (StronglySorted_rev (fun a b : nat * key => fst a < fst b)).
    apply (prune_scan_sorted data1 ignore (getPaths data1)
             (seq 0 (List.length (getPaths data1)))); [apply seq_sorted | exact Es].
  - intros [l label] Hin. apply in_rev in Hin.
    apply (prune_scan_In data1 ignore (getPaths data1)
             (seq 0 (List.length (getPaths data1))) cands l label Es) in Hin.
    destruct Hin as [Hseq [Hnth _]]. apply in_seq in Hseq. cbn [fst]. split; [|lia].
    apply (single_label_single_at data1 l label); auto.
    now apply plain_payloads_frame_free.
Qed.

(** *** Trees with all their payloads on the last level *)

Lemma leaves_at_dicts_above (h l : nat) (t : value) :
  leaves_at h t = true -> l <= h -> dicts_above l t.
Proof.
  intros Ht Hl q u Hf Hq.
  destruct (leaves_at_find t h q u Ht Hf) as [_ Hu].
  destruct (h - List.length q) as [|m] eqn:Em; [lia|].
  now apply leaves_at_inner in Hu.
Qed.

Lemma leaves_at_cut (l : nat) :
  forall h t,
    wfb t = true -> leaves_at h t = true -> single_at l t -> l < h ->
    leaves_at (h - 1) (cut l t) = true.
Proof.
  induction l as [|m IH]; intros h t Hw Ht Hs Hl.
  - destruct h as [|h]; [lia|].
    pose proof (leaves_at_inner h t Ht) as Hd.
    destruct t as [ | | | | | |items]; try discriminate Hd.
    destruct (Hs [] items eq_refl eq_refl) as [k [d ->]].
    cbn [cut]. apply leaves_at_dict in Ht. inversion Ht as [|? ? H1 _]; subst.
    cbn [snd] in H1. replace (S h - 1) with h by lia. exact H1.
  - destruct h as [|[|h]]; try lia.
    pose proof (leaves_at_inner (S h) t Ht) as Hd.
    destruct t as [ | | | | | |items]; try discriminate Hd.
    cbn [cut]. replace (S (S h) - 1) with (S h) by lia.
    apply leaves_at_dict in Ht. apply leaves_at_dict.
    apply wfb_dict in Hw as [Hnd Hall].
    rewrite Forall_map. apply Forall_forall. intros [k c] Hin. cbn [snd].
    rewrite Forall_forall in Ht, Hall.
    replace h with (S h - 1) by lia.
    apply IH; [apply (Hall (k, c) Hin) | apply (Ht (k, c) Hin) | | lia].
    intros p items' Hf Hp. apply (Hs (k :: p) items'); [|simpl; lia].
    cbn [find]. now rewrite (In_dict_get items k c Hnd Hin).
Qed.

Lemma keep_test_dict label items : exists b, keep_test label (VDict items) = Ok b.
Proof.
  unfold keep_test. cbn [py_len bind py_contains].
  destruct (1 <? List.length items); eauto.
Qed.

Lemma prune_keep_returns (data : value) (label : key) (prefixes : list path) :
  (forall p, In p prefixes ->
             getLeaf data p = Ok VNone \/ exists items, getLeaf data p = Ok (VDict items)) ->
  exists keep, prune_keep data label prefixes = Ok keep.
Proof.
  induction prefixes as [|p prefixes IH]; intros H; [simpl; eauto|].
  rewrite prune_keep_step.
  destruct IH as [keep Hkeep]; [intros q Hq; apply H; now right|].
  destruct (H p (or_introl eq_refl)) as [->|[items ->]]; cbn [bind is_not_none].
  - eauto.
  - destruct (keep_test_dict label items) as [[|] ->]; cbn [bind]; eauto.
Qed.

Lemma prune_scan_returns (data : value) (ignore : list key)
  (data_paths : list (list key)) (levels : list nat) :
  (forall level label, In level levels ->
     exists keep, prune_keep data label (getPrefixes data level) = Ok keep) ->
  exists cands, prune_scan data ignore data_paths levels = Ok cands.
Proof.
  induction levels as [|level levels IH]; intros H; [simpl; eauto|].
  destruct IH as [more Hmore]; [intros l lb Hl; apply H; now right|].
  cbn [prune_scan].
  destruct (nth level data_paths []) as [|label [|? ?]]; eauto.
  destruct (existsb (key_eqb label) ignore); eauto.
  destruct (H level label (or_introl eq_refl)) as [keep ->].
  rewrite Hmore. cbn [bind]. eauto.
Qed.

Lemma getPrefixes_length (work : value) (level : nat) (p : path) :
  level <= List.length (getPaths work) ->
  In p (getPrefixes work level) -> List.length p = level.
Proof.
  intros Hl Hin. unfold getPrefixes in Hin. apply In_product in Hin.
  apply Forall2_length in Hin. rewrite Hin, length_firstn. lia.
Qed.

Lemma prune_apply_returns (todo : list (nat * key)) :
  forall cur nlevels,
    wfb cur = true -> plain_payloads cur = true ->
    leaves_at nlevels cur = true ->
    StronglySorted (fun a b : nat * key => fst b < fst a) todo ->
    (forall e, In e todo ->
               single_at (fst e) cur /\ fst e < List.length (getPaths cur)
               /\ fst e < nlevels) ->
    exists data' pruned, prune_apply cur nlevels todo = Ok (data', pruned).
Proof.
  induction todo as [|[l label] todo IH];
    intros cur nlevels Hw Hpl Hu Hsorted Hall; [simpl; eauto|].
  cbn [prune_apply].
  apply StronglySorted_inv in Hsorted as [Hsorted Hhead].
  destruct ((l =? 0) && (nlevels =? 1)) eqn:Eskip.
  - apply IH; auto. intros e He. apply Hall. now right.
  - destruct (Hall (l, label) (or_introl eq_refl)) as [Hs [Hlen Hlt]].
    cbn [fst] in *.
    assert (Hrun : exists d1, removeLevel cur l = Ok d1).
    { destruct (removeLevel_prefixes_collapse cur l Hw) with
        (prefixes := getPrefixes cur l) (done := @nil path) (cur := cur)
        as [d1 [Hd1 _]].
      - intros p u Hf Hp. right.
        destruct (leaves_at_find cur nlevels p u Hu Hf) as [_ Hlu].
        destruct (nlevels - List.length p) as [|m] eqn:Em; [lia|].
        pose proof (leaves_at_inner m u Hlu) as Hd.
        destruct u as [ | | | | | |items]; try discriminate Hd.
        destruct (Hs p items Hf Hp) as [k [d ->]].
        exists k, d. split; [reflexivity|].
        apply leaves_at_dict in Hlu. inversion Hlu as [|? ? Hld _]; subst.
        cbn [snd] in Hld. split.
        + apply (leaves_at_frame_free d m) in Hld.
          now apply frame_free_not_frame.
        + destruct (List.length p) as [|l'] eqn:El; [|left; discriminate].
          right. destruct m as [|m'].
          * exfalso. assert (nlevels = 1) by lia. subst nlevels.
            discriminate Eskip.
          * now apply leaves_at_inner in Hld.
      - apply getPrefixes_NoDup.
      - intros p Hin. split; [|intros []].
        apply (getPrefixes_length cur l p); [lia | exact Hin].
      - apply (leaves_at_dicts_above nlevels); [exact Hu | lia].
      - intros p _. split; [intros []|reflexivity].
      - exists d1. exact Hd1. }
    destruct Hrun as [d1 Hd1]. rewrite Hd1. cbn [bind].
    assert (Hcut : d1 = cut l cur) by (apply removeLevel_cut; auto; lia).
    subst d1.
    destruct (IH (cut l cur) (nlevels - 1)) as [d2 [pr Hrest]]; auto.
    + now apply wfb_cut.
    + now apply plain_payloads_cut.
    + now apply leaves_at_cut.
    + intros e He. rewrite Forall_forall in Hhead.
      specialize (Hhead e He). cbn [fst] in Hhead.
      destruct (Hall e (or_intror He)) as [Hse [Hle _]]. split; [|split].
      * now apply single_at_cut.
      * apply level_stays_after_cut; auto.
        -- now apply plain_payloads_frame_free.
        -- apply plain_payloads_frame_free. now apply plain_payloads_cut.
      * lia.
    + rewrite Hrest. cbn [bind]. eauto.
Qed.

(** On a tree with all its payloads on the last level, [prune] returns. *)
Lemma prune_returns_on_uniform_depth (data : value) (ignore : list key) :
  wfb data = true -> plain_payloads data = true ->
  leaves_at (List.length (getPaths (fst (removeEmptyLeaves data))))
    (fst (removeEmptyLeaves data)) = true ->
  exists data' pruned, prune data ignore = Ok (data', pruned).
Proof.
  intros Hw Hpl. unfold prune.
  set (data1 := fst (removeEmptyLeaves data)).
  assert (Hw1 : wfb data1 = true) by now apply removeEmptyLeaves_wfb.
  assert (Hpl1 : plain_payloads data1 = true)
    by now apply removeEmptyLeaves_plain_payloads.
  assert (Ht1 : tidy data1 = true) by apply removeEmptyLeaves_facts.
  set (n := List.length (getPaths data1)). intros Hu.
  destruct (prune_scan_returns data1 ignore (getPaths data1) (seq 0 n))
    as [cands Hc].
  { intros level label Hin. apply in_seq in Hin.
    apply prune_keep_returns. intros p Hp.
    assert (Hlen : List.length p = level)
      by (apply (getPrefixes_length data1 level p); [fold n; lia | exact Hp]).
    rewrite (getLeaf_find p data1).
    - destruct (find data1 p) as [u|] eqn:Eu; [|now left].
      right. destruct (leaves_at_find data1 n p u Hu Eu) as [_ Hlu].
      destruct (n - List.length p) as [|m] eqn:Em; [lia|].
      pose proof (leaves_at_inner m u Hlu) as Hd.
      destruct u as [ | | | | | |items]; try discriminate Hd. eauto.
    - apply (leaves_at_dicts_above n); [exact Hu | lia]. }
  rewrite Hc. cbn [bind].
  apply prune_apply_returns; auto.
  - apply (StronglySorted_rev (fun a b : nat * key => fst a < fst b)).
    apply (prune_scan_sorted data1 ignore (getPaths data1) (seq 0 n));
      [apply seq_sorted | exact Hc].
  - intros [l label] Hin. apply in_rev in Hin.
    apply (prune_scan_In data1 ignore (getPaths data1) (seq 0 n) cands l label Hc)
      in Hin.
    destruct Hin as [Hseq [Hnth _]]. apply in_seq in Hseq. cbn [fst].
    split; [|fold n; lia].
    apply (single_label_single_at data1 l label); auto.
    now apply plain_payloads_frame_free.
Qed.

(** C1, as amended.  For a level whose only label is [label], not in the
    ignore list: a run of [prune] that returns reports the level as
    pruned exactly when every prefix of the level leads to nothing or to
    an object that holds [label] and no second key, and, for level 0, the
    removal of the deeper levels has not left it the only level; and,
    for a tree with distinct keys whose payloads hide no dictionary, the
    tree it leaves behind is the input without its empty leaves, cut at
    the reported levels and nowhere else, deepest level first: every
    payload keeps its value, and its path loses the keys of the reported
    levels.  When moreover all the payloads lie on the last level,
    [prune] does return. *)
Theorem prune_collapses_level
  (data : value) (ignore : list key) (level : nat) (label : key) :
  nth level (getPaths (fst (removeEmptyLeaves data))) [] = [label] ->
  existsb (key_eqb label) ignore = false ->
  (forall data' pruned,
     prune data ignore = Ok (data', pruned) ->
     (In (level, label) pruned <->
      collapse_safe (fst (removeEmptyLeaves data)) level label
      /\ (level = 0 ->
          List.length (getPaths (fst (removeEmptyLeaves data)))
          - List.length (filter below_top pruned) <> 1))
     /\ (wfb data = true -> plain_payloads data = true ->
         data' = cut_levels pruned (fst (removeEmptyLeaves data))
         /\ bindings data'
            = map (fun pv => (drop_keys pruned (fst pv), snd pv))
                (bindings (fst (removeEmptyLeaves data)))))
  /\ (wfb data = true -> plain_payloads data = true ->
      leaves_at (List.length (getPaths (fst (removeEmptyLeaves data))))
        (fst (removeEmptyLeaves data)) = true ->
      exists data' pruned, prune data ignore = Ok (data', pruned)).
Proof.
  intros Hnth Hign. split.
  - intros data' pruned Hrun. split.
    + now apply (prune_reports_level data ignore data' pruned level label).
    + intros Hw Hpl. now apply (prune_cuts_what_it_reports data ignore).
  - intros Hw Hpl Hu. now apply prune_returns_on_uniform_depth.
Qed.

(** A run of C1 as amended: both the level of k and the level of x are
    removed, and the payloads end up right below a and b. *)
Lemma prune_collapses_level_witness :
  (In (1, KStr "k") [(2, KStr "x"); (1, KStr "k")] <->
   collapse_safe (fst (removeEmptyLeaves two_single_levels)) 1 (KStr "k")
   /\ (1 = 0 ->
       List.length (getPaths (fst (removeEmptyLeaves two_single_levels)))
       - List.length (filter below_top [(2, KStr "x"); (1, KStr "k")]) <> 1))
  /\ (VDict [(KStr "a", VInt 1); (KStr "b", VInt 2)]
      = cut_levels [(2, KStr "x"); (1, KStr "k")]
          (fst (removeEmptyLeaves two_single_levels))
      /\ bindings (VDict [(KStr "a", VInt 1); (KStr "b", VInt 2)])
         = map (fun pv => (drop_keys [(2, KStr "x"); (1, KStr "k")] (fst pv), snd pv))
             (bindings (fst (removeEmptyLeaves two_single_levels))))
  /\ exists data' pruned, prune two_single_levels [] = Ok (data', pruned).
Proof.
  destruct (prune_collapses_level two_single_levels [] 1 (KStr "k")
              eq_refl eq_refl) as [Hrun Hreturns].
  destruct (Hrun (VDict [(KStr "a", VInt 1); (KStr "b", VInt 2)])
              [(2, KStr "x"); (1, KStr "k")] eq_refl) as [Hiff Hcut].
  split; [exact Hiff|]. split.
  - apply Hcut; reflexivity.
  - apply Hreturns; reflexivity.
Defined.
